(** * Rigging tools: a shallow embedding of the tool scripts and their properties

    The repository is a set of independent scripts that drive a host
    animation package through its command module [cmds].  Each script is
    embedded as a Rocq module: its globals and instance fields, together with
    the slice of the host scene and of the user interface that the script
    reads or writes, form a state record, and every function of the script is
    a computation in a state-and-exception monad over that record.

    The host commands themselves are external.  Each module states, next to
    its definition of a command, the behaviour of the host that it assumes. *)

From stdpp Require Import base list strings pretty gmap.
From Stdlib Require Import Ascii ZArith QArith Lia.

Close Scope Q_scope.

(** ** Python run-time conventions shared by all scripts *)

Module Py.

(** The exceptions that the scripts raise or that host commands raise. *)
Inductive exn : Type :=
| RuntimeError (msg : string)
| ValueError (msg : string)
| IndexError (msg : string)
| UnboundLocalError (var : string).

Inductive result (A : Type) : Type :=
| Ok (a : A)
| Raise (e : exn).
Arguments Ok {A} a.
Arguments Raise {A} e.

(** A computation reads and writes a state [S]; the state written before an
    exception is kept, as the scene keeps what a script did before failing. *)
Definition M (S A : Type) : Type := S -> result A * S.

Definition ret {S A} (a : A) : M S A := fun s => (Ok a, s).

Definition bind {S A B} (m : M S A) (k : A -> M S B) : M S B :=
  fun s => match m s with
           | (Ok a, s') => k a s'
           | (Raise e, s') => (Raise e, s')
           end.

Definition raise {S A} (e : exn) : M S A := fun s => (Raise e, s).

Definition gets {S A} (f : S -> A) : M S A := fun s => (Ok (f s), s).

Definition modify {S} (f : S -> S) : M S unit := fun s => (Ok tt, f s).

Definition lift {S A} (r : result A) : M S A := fun s => (r, s).

(** [try: ... except RuntimeError as exc: ...]; other exceptions pass. *)
Definition try_runtime {S A} (m : M S A) (handler : string -> M S A) : M S A :=
  fun s => match m s with
           | (Raise (RuntimeError msg), s') => handler msg s'
           | r => r
           end.

Declare Scope py_scope.
Delimit Scope py_scope with py.
Notation "x <- m ;; k" := (bind m (fun x => k))
  (at level 20, m at level 99, k at level 200, only parsing) : py_scope.
Notation "m ;;; k" := (bind m (fun _ => k))
  (at level 99, k at level 200, right associativity, only parsing) : py_scope.

(** [for x in l: body x] *)
Fixpoint for_each {S A} (l : list A) (body : A -> M S unit) : M S unit :=
  match l with
  | [] => ret tt
  | x :: l' => bind (body x) (fun _ => for_each l' body)
  end.

Definition when {S} (b : bool) (m : M S unit) : M S unit :=
  if b then m else ret tt.

(** [len(l)] as a Python integer. *)
Definition len {A} (l : list A) : Z := Z.of_nat (length l).

(** The position a Python subscript [l[i]] addresses: negative subscripts
    count from the end, anything outside [-len, len) is an [IndexError]. *)
Definition subscript {A} (l : list A) (i : Z) : option nat :=
  if ((0 <=? i) && (i <? len l))%Z then Some (Z.to_nat i)
  else if ((- len l <=? i) && (i <? 0))%Z then Some (Z.to_nat (len l + i))
  else None.

Definition getitem {A} (l : list A) (i : Z) : result A :=
  match subscript l i with
  | Some n => match l !! n with
              | Some x => Ok x
              | None => Raise (IndexError "list index out of range")
              end
  | None => Raise (IndexError "list index out of range")
  end.

Definition setitem {A} (l : list A) (i : Z) (x : A) : result (list A) :=
  match subscript l i with
  | Some n => Ok (<[n := x]> l)
  | None => Raise (IndexError "list assignment index out of range")
  end.

(** Truth value of a string: empty strings are false. *)
Definition truthy (s : string) : bool := negb (String.eqb s "").

(** [x in l] on a list of strings. *)
Definition contains (l : list string) (x : string) : bool :=
  bool_decide (x ∈ l).

(** A property of the state that a computation keeps, whether it returns or
    raises. *)
Definition preserves {S A} (P : S -> Prop) (m : M S A) : Prop :=
  forall s, P s -> P (snd (m s)).

End Py.

(** ** Python string methods used by the scripts *)

Module Str.

(** [s.startswith(p)] *)
Fixpoint startswith (p s : string) : bool :=
  match p, s with
  | EmptyString, _ => true
  | String a p', String b s' => if Ascii.eqb a b then startswith p' s' else false
  | String _ _, EmptyString => false
  end.

(** [s[n:]] for [n >= 0] *)
Fixpoint drop (n : nat) (s : string) : string :=
  match n, s with
  | O, _ => s
  | S n', String _ s' => drop n' s'
  | S _, EmptyString => EmptyString
  end.

(** [s[:-1]] *)
Fixpoint drop_last (s : string) : string :=
  match s with
  | EmptyString => EmptyString
  | String a EmptyString => EmptyString
  | String a s' => String a (drop_last s')
  end.

(** [s.split(c)] for a one-character separator: never empty. *)
Fixpoint split (c : ascii) (s : string) : list string :=
  match s with
  | EmptyString => [EmptyString]
  | String a s' =>
      if Ascii.eqb a c then EmptyString :: split c s'
      else match split c s' with
           | [] => [String a EmptyString]
           | w :: ws => String a w :: ws
           end
  end.

(** [sep.join(l)] *)
Fixpoint join (sep : string) (l : list string) : string :=
  match l with
  | [] => EmptyString
  | [w] => w
  | w :: ws => w +:+ sep +:+ join sep ws
  end.

(** [l[-1]] on the answer of [split], which has a last element. *)
Definition last_piece (l : list string) : string := List.last l EmptyString.

(** [sub in s] *)
Fixpoint contains (sub s : string) : bool :=
  startswith sub s ||
  match s with
  | EmptyString => false
  | String _ s' => contains sub s'
  end.

(** [s.replace(old, new)]: the occurrences of [old] are replaced from left to
    right without overlap; [skip] counts the characters of a matched
    occurrence that are still to be passed over. *)
Fixpoint replace_from (old new s : string) (skip : nat) : string :=
  match s with
  | EmptyString => EmptyString
  | String a s' =>
      match skip with
      | S k => replace_from old new s' k
      | O => if startswith old s
             then new +:+ replace_from old new s' (String.length old - 1)
             else String a (replace_from old new s' 0)
      end
  end.

Fixpoint intersperse_all (new s : string) : string :=
  match s with
  | EmptyString => EmptyString
  | String a s' => String a (new +:+ intersperse_all new s')
  end.

Definition replace (old new s : string) : string :=
  match old with
  | EmptyString => new +:+ intersperse_all new s
  | _ => replace_from old new s 0
  end.

(** The texts are held as UTF-8.  [str.strip()] removes from both ends the
    characters for which [str.isspace()] holds: U+0009 to U+000D, U+001C to
    U+0020, U+0085, U+00A0, U+1680, U+2000 to U+200A, U+2028, U+2029, U+202F,
    U+205F and U+3000.  The first group is of one byte, U+0085 and U+00A0 are
    of two and the others of three. *)
Definition is_space (a : ascii) : bool :=
  let n := Ascii.nat_of_ascii a in
  (n =? 32)%nat || ((9 <=? n)%nat && (n <=? 13)%nat) ||
  ((28 <=? n)%nat && (n <=? 31)%nat).

Definition is_space2 (a b : ascii) : bool :=
  let m := Ascii.nat_of_ascii a in
  let n := Ascii.nat_of_ascii b in
  (m =? 194)%nat && ((n =? 133)%nat || (n =? 160)%nat).

Definition is_space3 (a b c : ascii) : bool :=
  let l := Ascii.nat_of_ascii a in
  let m := Ascii.nat_of_ascii b in
  let n := Ascii.nat_of_ascii c in
  ((l =? 225)%nat && (m =? 154)%nat && (n =? 128)%nat) ||
  ((l =? 226)%nat && (m =? 128)%nat &&
   (((128 <=? n)%nat && (n <=? 138)%nat) || (n =? 168)%nat || (n =? 169)%nat
    || (n =? 175)%nat)) ||
  ((l =? 226)%nat && (m =? 129)%nat && (n =? 159)%nat) ||
  ((l =? 227)%nat && (m =? 128)%nat && (n =? 128)%nat).

(** The white space is taken off the front of [s]; with [backwards] the
    bytes of [s] are in reverse order, and so are those of each character. *)
Fixpoint strip_front (backwards : bool) (s : string) : string :=
  match s with
  | EmptyString => EmptyString
  | String a s1 =>
      if is_space a then strip_front backwards s1
      else
        match s1 with
        | EmptyString => s
        | String b s2 =>
            if (if backwards then is_space2 b a else is_space2 a b)
            then strip_front backwards s2
            else
              match s2 with
              | EmptyString => s
              | String c s3 =>
                  if (if backwards then is_space3 c b a else is_space3 a b c)
                  then strip_front backwards s3
                  else s
              end
        end
  end.

Definition lstrip (s : string) : string := strip_front false s.

Definition rstrip (s : string) : string :=
  String.rev (strip_front true (String.rev s)).

(** [s.strip()] *)
Definition strip (s : string) : string := rstrip (lstrip s).

(** [str(n)] for an integer. *)
Definition of_int (n : Z) : string := pretty n.

Fixpoint zeros (n : nat) : string :=
  match n with
  | O => EmptyString
  | S n' => String "0"%char (zeros n')
  end.

(** [s.zfill(width)]: zeros go after a leading sign. *)
Definition zfill (width : Z) (s : string) : string :=
  let missing := Z.to_nat (width - Z.of_nat (String.length s)) in
  match s with
  | String a s' =>
      if Ascii.eqb a "-"%char || Ascii.eqb a "+"%char
      then String a (zeros missing +:+ s')
      else zeros missing +:+ s
  | EmptyString => zeros missing
  end.

(** Truth value of a string. *)
Definition nonempty (s : string) : bool :=
  match s with
  | EmptyString => false
  | _ => true
  end.

End Str.

(** A plug names an attribute of a node; it stands for the text
    [f"{node}.{attr}"] that the scripts hand to the host. *)
Record plug : Type := Plug { plug_node : string; plug_attr : string }.

Global Instance plug_eq_dec : EqDecision plug.
Proof. solve_decision. Defined.

Global Instance plug_countable : Countable plug :=
  inj_countable' (fun p => (plug_node p, plug_attr p))
                 (fun na => Plug (fst na) (snd na))
                 (fun p => match p with Plug _ _ => eq_refl end).

(** Attribute values are carried around by the scripts and never computed on. *)
Inductive value : Type :=
| VNum (q : Q)
| VBool (b : bool)
| VStr (s : string).

(** ** CD_attrorder_tool.py: reordering the custom attributes of a controller *)

Module AttrOrder.
Import Py.
Local Open Scope py_scope.

(** What the host stores for a user-defined attribute.  [a_proxy] is set for
    an attribute that owns no storage and mirrors the plug it names. *)
Record attr_info : Type := {
  a_type : string;
  a_min : option value;
  a_max : option value;
  a_enum : option string;
  a_keyable : bool;
  a_lock : bool;
  a_value : value;
  a_proxy : option plug }.

Record state : Type := {
  controller : option string;          (* self.controller *)
  custom_attrs : list string;          (* self.custom_attrs *)
  list_items : list string;            (* rows of the textScrollList *)
  list_selected : list Z;              (* its selected rows, counted from 1 *)
  selection : list string;             (* the scene selection *)
  scene_attrs : list (plug * attr_info);   (* user attributes, display order *)
  scene_conns : list (plug * plug);    (* connections, source to destination *)
  warnings : list string }.

Definition set_custom_attrs (l : list string) (s : state) : state :=
  {| controller := controller s; custom_attrs := l;
     list_items := list_items s; list_selected := list_selected s;
     selection := selection s;
     scene_attrs := scene_attrs s; scene_conns := scene_conns s;
     warnings := warnings s |}.

Definition set_list (items : list string) (sel : list Z) (s : state) : state :=
  {| controller := controller s; custom_attrs := custom_attrs s;
     list_items := items; list_selected := sel;
     selection := selection s;
     scene_attrs := scene_attrs s; scene_conns := scene_conns s;
     warnings := warnings s |}.

Definition set_controller (c : option string) (s : state) : state :=
  {| controller := c; custom_attrs := custom_attrs s;
     list_items := list_items s; list_selected := list_selected s;
     selection := selection s;
     scene_attrs := scene_attrs s; scene_conns := scene_conns s;
     warnings := warnings s |}.

Definition set_scene (a : list (plug * attr_info)) (c : list (plug * plug))
    (s : state) : state :=
  {| controller := controller s; custom_attrs := custom_attrs s;
     list_items := list_items s; list_selected := list_selected s;
     selection := selection s;
     scene_attrs := a; scene_conns := c;
     warnings := warnings s |}.

(** [cmds.warning(msg)] *)
Definition warning (msg : string) : M state unit :=
  modify (fun s =>
    {| controller := controller s; custom_attrs := custom_attrs s;
       list_items := list_items s; list_selected := list_selected s;
       selection := selection s;
       scene_attrs := scene_attrs s; scene_conns := scene_conns s;
       warnings := warnings s ++ [msg] |}).

(** [cmds.textScrollList(ui, edit=True, removeAll=True)]: the rows go, and
    with them the selected rows. *)
Definition list_remove_all : M state unit := modify (set_list [] []).

(** [cmds.textScrollList(ui, edit=True, append=item)] *)
Definition list_append (item : string) : M state unit :=
  modify (fun s => set_list (list_items s ++ [item]) (list_selected s) s).

(** [cmds.textScrollList(ui, query=True, selectIndexedItem=True)]; the host
    answers [None] when no row is selected, modelled by the empty list. *)
Definition list_query_selected : M state (list Z) := gets list_selected.

(** [refresh_attributes_ui] *)
Definition refresh_attributes_ui : M state unit :=
  list_remove_all ;;;
  attrs <- gets custom_attrs ;;
  for_each attrs list_append.

(** [a[i], a[j] = a[j], a[i]] on [self.custom_attrs]: the right-hand side
    is read first, then the targets are assigned from left to right. *)
Definition swap_custom_attrs (i j : Z) : M state unit :=
  l <- gets custom_attrs ;;
  x <- lift (getitem l j) ;;
  y <- lift (getitem l i) ;;
  l1 <- lift (setitem l i x) ;;
  modify (set_custom_attrs l1) ;;;
  l2 <- lift (setitem l1 j y) ;;
  modify (set_custom_attrs l2).

(** [move_up] *)
Definition move_up : M state unit :=
  selected_attr <- list_query_selected ;;
  match selected_attr with
  | [] => ret tt
  | p :: _ =>
      let index := (p - 1)%Z in
      if (index >? 0)%Z then
        swap_custom_attrs (index - 1) index ;;;
        refresh_attributes_ui
      else ret tt
  end.

(** [move_down] *)
Definition move_down : M state unit :=
  selected_attr <- list_query_selected ;;
  match selected_attr with
  | [] => ret tt
  | p :: _ =>
      let index := (p - 1)%Z in
      l <- gets custom_attrs ;;
      if (index <? len l - 1)%Z then
        swap_custom_attrs (index + 1) index ;;;
        refresh_attributes_ui
      else ret tt
  end.

(** The user clicks row [p] of the list. *)
Definition click_row (p : Z) (s : state) : state :=
  set_list (list_items s) [p] s.

(** *** Host commands on attributes and connections

    The host is taken to behave as follows.  A query on a plug that does not
    exist raises [ValueError]; an edit on such a plug raises [RuntimeError].
    [setAttr] of a value is refused on a locked or driven attribute.
    [connectAttr] is refused when the destination already has a driver.
    [deleteAttr] removes the attribute together with its connections; it is
    refused on a locked attribute.
    [addAttr] appends the new attribute after the existing ones, unlocked,
    not keyable, without limits; with [proxy=src] the new attribute owns no
    storage and is driven by [src]. *)

Fixpoint find_attr (p : plug) (l : list (plug * attr_info)) : option attr_info :=
  match l with
  | [] => None
  | e :: l' => if decide (fst e = p) then Some (snd e) else find_attr p l'
  end.

Definition lookup_attr (p : plug) (s : state) : option attr_info :=
  find_attr p (scene_attrs s).

Definition no_object {A} (p : plug) : M state A :=
  raise (ValueError ("No object matches name: " +:+ plug_node p +:+ "." +:+ plug_attr p)).

Definition no_object_edit {A} (p : plug) : M state A :=
  raise (RuntimeError ("No object matches name: " +:+ plug_node p +:+ "." +:+ plug_attr p)).

Definition query_attr (p : plug) : M state attr_info :=
  s <- gets id ;;
  match lookup_attr p s with
  | Some i => ret i
  | None => no_object p
  end.

(** [cmds.ls(sl=True)] *)
Definition ls_selection : M state (list string) := gets selection.

(** [cmds.listAttr(node, userDefined=True) or []] *)
Definition listAttr_userDefined (node : string) : M state (list string) :=
  gets (fun s => plug_attr <$> filter (fun p => plug_node p = node) (fst <$> scene_attrs s)).

Definition sources_of (p : plug) (conns : list (plug * plug)) : list plug :=
  fst <$> filter (fun c => snd c = p) conns.

Definition destinations_of (p : plug) (conns : list (plug * plug)) : list plug :=
  snd <$> filter (fun c => fst c = p) conns.

(** [cmds.listConnections(p, plugs=True, source=True, destination=False) or []] *)
Definition listConnections_source (p : plug) : M state (list plug) :=
  _ <- query_attr p ;;
  gets (fun s => sources_of p (scene_conns s)).

(** [cmds.listConnections(p, plugs=True, source=False, destination=True) or []] *)
Definition listConnections_destination (p : plug) : M state (list plug) :=
  _ <- query_attr p ;;
  gets (fun s => destinations_of p (scene_conns s)).

(** [cmds.getAttr(p)], [cmds.getAttr(p, keyable=True)], [cmds.getAttr(p, lock=True)] *)
Definition getAttr (p : plug) : M state value := i <- query_attr p ;; ret (a_value i).
Definition getAttr_keyable (p : plug) : M state bool := i <- query_attr p ;; ret (a_keyable i).
Definition getAttr_lock (p : plug) : M state bool := i <- query_attr p ;; ret (a_lock i).

(** [cmds.attributeQuery(attr, node=node, ...)] *)
Definition attributeQuery_attributeType (attr node : string) : M state string :=
  i <- query_attr (Plug node attr) ;; ret (a_type i).
Definition attributeQuery_minExists (attr node : string) : M state bool :=
  i <- query_attr (Plug node attr) ;; ret (bool_decide (is_Some (a_min i))).
Definition attributeQuery_maxExists (attr node : string) : M state bool :=
  i <- query_attr (Plug node attr) ;; ret (bool_decide (is_Some (a_max i))).
(** The host answers a one-element list; [None] here is the empty answer. *)
Definition attributeQuery_minimum (attr node : string) : M state (list value) :=
  i <- query_attr (Plug node attr) ;; ret (option_list (a_min i)).
Definition attributeQuery_maximum (attr node : string) : M state (list value) :=
  i <- query_attr (Plug node attr) ;; ret (option_list (a_max i)).
Definition attributeQuery_listEnum (attr node : string) : M state (list string) :=
  i <- query_attr (Plug node attr) ;; ret (option_list (a_enum i)).

Definition update_attr (p : plug) (f : attr_info -> attr_info)
    (attrs : list (plug * attr_info)) : list (plug * attr_info) :=
  (fun e => if decide (fst e = p) then (fst e, f (snd e)) else e) <$> attrs.

Definition edit_attr (p : plug) (f : attr_info -> attr_info) : M state unit :=
  s <- gets id ;;
  match lookup_attr p s with
  | Some _ => modify (fun s => set_scene (update_attr p f (scene_attrs s)) (scene_conns s) s)
  | None => no_object_edit p
  end.

(** [cmds.deleteAttr(p)] *)
Definition deleteAttr (p : plug) : M state unit :=
  s <- gets id ;;
  match lookup_attr p s with
  | Some i =>
      if a_lock i then
        raise (RuntimeError "The attribute is locked and cannot be deleted")
      else
        modify (fun s =>
          set_scene (filter (fun e => fst e ≠ p) (scene_attrs s))
                    (filter (fun c => fst c ≠ p ∧ snd c ≠ p) (scene_conns s)) s)
  | None => no_object_edit p
  end.

Definition new_attr (ty : string) (enum : option string) (proxy : option plug) : attr_info :=
  {| a_type := ty; a_min := None; a_max := None; a_enum := enum;
     a_keyable := false; a_lock := false; a_value := VNum 0%Q; a_proxy := proxy |}.

Definition add_new_attr (p : plug) (i : attr_info) (driver : option plug) : M state unit :=
  s <- gets id ;;
  match lookup_attr p s with
  | Some _ => raise (RuntimeError "Found an attribute of the same name")
  | None =>
      modify (fun s =>
        set_scene (scene_attrs s ++ [(p, i)])
                  (scene_conns s ++ ((fun src => (src, p)) <$> option_list driver)) s)
  end.

(** [cmds.addAttr(node, longName=attr, attributeType=ty)] *)
Definition addAttr (node attr ty : string) : M state unit :=
  add_new_attr (Plug node attr) (new_attr ty None None) None.

(** [cmds.addAttr(node, longName=attr, attributeType='enum', enumName=names)] *)
Definition addAttr_enum (node attr : string) (names : string) : M state unit :=
  add_new_attr (Plug node attr) (new_attr "enum" (Some names) None) None.

(** [cmds.addAttr(node, longName=attr, attributeType=ty, proxy=src)] *)
Definition addAttr_proxy (node attr ty : string) (src : plug) : M state unit :=
  add_new_attr (Plug node attr) (new_attr ty None (Some src)) (Some src).

Definition with_min (v : value) (i : attr_info) : attr_info :=
  {| a_type := a_type i; a_min := Some v; a_max := a_max i; a_enum := a_enum i;
     a_keyable := a_keyable i; a_lock := a_lock i; a_value := a_value i;
     a_proxy := a_proxy i |}.
Definition with_max (v : value) (i : attr_info) : attr_info :=
  {| a_type := a_type i; a_min := a_min i; a_max := Some v; a_enum := a_enum i;
     a_keyable := a_keyable i; a_lock := a_lock i; a_value := a_value i;
     a_proxy := a_proxy i |}.
Definition with_value (v : value) (i : attr_info) : attr_info :=
  {| a_type := a_type i; a_min := a_min i; a_max := a_max i; a_enum := a_enum i;
     a_keyable := a_keyable i; a_lock := a_lock i; a_value := v;
     a_proxy := a_proxy i |}.
Definition with_lock (b : bool) (i : attr_info) : attr_info :=
  {| a_type := a_type i; a_min := a_min i; a_max := a_max i; a_enum := a_enum i;
     a_keyable := a_keyable i; a_lock := b; a_value := a_value i;
     a_proxy := a_proxy i |}.
Definition with_keyable (b : bool) (i : attr_info) : attr_info :=
  {| a_type := a_type i; a_min := a_min i; a_max := a_max i; a_enum := a_enum i;
     a_keyable := b; a_lock := a_lock i; a_value := a_value i;
     a_proxy := a_proxy i |}.

(** [cmds.addAttr(p, edit=True, minValue=v)], [cmds.addAttr(p, edit=True, maxValue=v)] *)
Definition addAttr_edit_minValue (p : plug) (v : value) : M state unit := edit_attr p (with_min v).
Definition addAttr_edit_maxValue (p : plug) (v : value) : M state unit := edit_attr p (with_max v).

(** [cmds.setAttr(p, v)] *)
Definition setAttr (p : plug) (v : value) : M state unit :=
  s <- gets id ;;
  match lookup_attr p s with
  | Some i =>
      if a_lock i || negb (bool_decide (sources_of p (scene_conns s) = [])) then
        raise (RuntimeError "The attribute is locked or connected and cannot be modified")
      else edit_attr p (with_value v)
  | None => no_object_edit p
  end.

(** [cmds.setAttr(p, lock=b)], [cmds.setAttr(p, keyable=b)] *)
Definition setAttr_lock (p : plug) (b : bool) : M state unit := edit_attr p (with_lock b).
Definition setAttr_keyable (p : plug) (b : bool) : M state unit := edit_attr p (with_keyable b).

(** [cmds.connectAttr(src, dst)] *)
Definition connectAttr (src dst : plug) : M state unit :=
  s <- gets id ;;
  if bool_decide (sources_of dst (scene_conns s) = []) then
    modify (fun s => set_scene (scene_attrs s) (scene_conns s ++ [(src, dst)]) s)
  else raise (RuntimeError "The destination attribute already has an incoming connection").

(** *** The remaining methods of [AttributeReorderTool] *)

(** [if self.controller:]: [None] and the empty name count as no controller. *)
Definition chosen_controller (c : option string) : option string :=
  match c with
  | Some ctrl => if Str.nonempty ctrl then Some ctrl else None
  | None => None
  end.

(** [refresh_attributes] *)
Definition refresh_attributes : M state unit :=
  list_remove_all ;;;
  c <- gets controller ;;
  match chosen_controller c with
  | Some ctrl =>
      all_attrs <- listAttr_userDefined ctrl ;;
      modify (set_custom_attrs all_attrs) ;;;
      match all_attrs with
      | [] => warning ("No custom attributes found on " +:+ ctrl +:+ ".")
      | _ => for_each all_attrs list_append
      end
  | None => warning "No controller selected."
  end.

(** [select_controller] *)
Definition select_controller : M state unit :=
  sel <- ls_selection ;;
  match sel with
  | first :: _ =>
      modify (set_controller (Some first)) ;;;
      refresh_attributes
  | [] => warning "No controller selected."
  end.

(** The body of the loop of [apply_reorder], for one attribute name.  A plug
    text is never empty, so [if proxy_source:] tests that [inputs] has a
    first element. *)
Definition reorder_attribute (ctrl attr : string) : M state unit :=
  let attr_long_name := Plug ctrl attr in
  inputs <- listConnections_source attr_long_name ;;
  let proxy_source := head inputs in
  attr_value <- getAttr attr_long_name ;;
  attr_type <- attributeQuery_attributeType attr ctrl ;;
  min_exists <- attributeQuery_minExists attr ctrl ;;
  min_value <- (if min_exists then m <- attributeQuery_minimum attr ctrl ;; ret (Some m)
                else ret None) ;;
  max_exists <- attributeQuery_maxExists attr ctrl ;;
  max_value <- (if max_exists then m <- attributeQuery_maximum attr ctrl ;; ret (Some m)
                else ret None) ;;
  enum_options <- (if String.eqb attr_type "enum"
                   then l <- attributeQuery_listEnum attr ctrl ;;
                        e <- lift (getitem l 0) ;; ret (Some e)
                   else ret None) ;;
  is_keyable <- getAttr_keyable attr_long_name ;;
  is_locked <- getAttr_lock attr_long_name ;;
  outputs <- listConnections_destination attr_long_name ;;
  deleteAttr attr_long_name ;;;
  match proxy_source with
  | Some src =>
      addAttr_proxy ctrl attr "proxy" src ;;;
      warning ("Recreated proxy attribute " +:+ attr +:+ " with connection to "
               +:+ plug_node src +:+ "." +:+ plug_attr src)
  | None =>
      (if String.eqb attr_type "double" then
         addAttr ctrl attr "double" ;;;
         match min_value with
         | Some m => v <- lift (getitem m 0) ;; addAttr_edit_minValue (Plug ctrl attr) v
         | None => ret tt
         end ;;;
         match max_value with
         | Some m => v <- lift (getitem m 0) ;; addAttr_edit_maxValue (Plug ctrl attr) v
         | None => ret tt
         end
       else if String.eqb attr_type "enum" then
         match enum_options with
         | Some e => addAttr_enum ctrl attr e
         | None => addAttr ctrl attr "enum"
         end
       else ret tt) ;;;
      setAttr (Plug ctrl attr) attr_value ;;;
      setAttr_lock (Plug ctrl attr) is_locked ;;;
      setAttr_keyable (Plug ctrl attr) is_keyable
  end ;;;
  for_each outputs (fun output_conn => connectAttr (Plug ctrl attr) output_conn).

(** [apply_reorder] *)
Definition apply_reorder : M state unit :=
  c <- gets controller ;;
  match chosen_controller c with
  | Some ctrl =>
      attrs <- gets custom_attrs ;;
      for_each attrs (reorder_attribute ctrl) ;;;
      warning "Attributes reordered successfully."
  | None => warning "No controller selected."
  end.



(** *** The two phases of the loop body

    What [reorder_attribute] does once the attribute has been read: the
    deletion, the recreation from the values read, then the restoring of the
    outgoing connections.  [reorder_attribute] is shown below to run this
    computation on the values it reads. *)
Definition recreate (ctrl attr : string) (i : attr_info) (inputs outputs : list plug)
    (enum_options : option string) : M state unit :=
  bind (deleteAttr (Plug ctrl attr)) (fun _ =>
  bind
    match head inputs with
    | Some src =>
        bind (addAttr_proxy ctrl attr "proxy" src) (fun _ =>
        warning ("Recreated proxy attribute " +:+ attr +:+ " with connection to "
                 +:+ plug_node src +:+ "." +:+ plug_attr src))
    | None =>
        bind
          (if String.eqb (a_type i) "double" then
             bind (addAttr ctrl attr "double") (fun _ =>
             bind
               match a_min i with
               | Some m => addAttr_edit_minValue (Plug ctrl attr) m
               | None => ret tt
               end (fun _ =>
               match a_max i with
               | Some m => addAttr_edit_maxValue (Plug ctrl attr) m
               | None => ret tt
               end))
           else if String.eqb (a_type i) "enum" then
             match enum_options with
             | Some e => addAttr_enum ctrl attr e
             | None => addAttr ctrl attr "enum"
             end
           else ret tt) (fun _ =>
        bind (setAttr (Plug ctrl attr) (a_value i)) (fun _ =>
        bind (setAttr_lock (Plug ctrl attr) (a_lock i)) (fun _ =>
        setAttr_keyable (Plug ctrl attr) (a_keyable i))))
    end (fun _ =>
  for_each outputs (fun output_conn => connectAttr (Plug ctrl attr) output_conn))).

(** *** The attributes that [apply_reorder] has a branch for *)

(** An attribute that owns its storage, is not locked and is of one of the
    two types the recreation handles: a ['double'], or an ['enum'] with its
    names and without limits. *)
Definition restorable (i : attr_info) : Prop :=
  a_proxy i = None /\ a_lock i = false /\
  ((a_type i = "double" /\ a_enum i = None) \/
   (a_type i = "enum" /\ is_Some (a_enum i) /\ a_min i = None /\ a_max i = None)).

(** A controller with three plain attributes, listed in a new order. *)
Definition reordered_scene : state :=
  {| controller := Some "ctrl"; custom_attrs := ["twist"; "roll"; "bend"];
     list_items := ["twist"; "roll"; "bend"]; list_selected := [];
     selection := ["ctrl"];
     scene_attrs :=
       [(Plug "ctrl" "roll",
         {| a_type := "double"; a_min := Some (VNum 0%Q); a_max := Some (VNum 10%Q);
            a_enum := None; a_keyable := true; a_lock := false; a_value := VNum 2%Q;
            a_proxy := None |});
        (Plug "ctrl" "bend",
         {| a_type := "enum"; a_min := None; a_max := None; a_enum := Some "off:on";
            a_keyable := true; a_lock := false; a_value := VNum 1%Q;
            a_proxy := None |});
        (Plug "other" "gain",
         {| a_type := "long"; a_min := None; a_max := None; a_enum := None;
            a_keyable := false; a_lock := false; a_value := VNum 5%Q;
            a_proxy := None |});
        (Plug "ctrl" "twist",
         {| a_type := "double"; a_min := None; a_max := None; a_enum := None;
            a_keyable := false; a_lock := false; a_value := VNum 0%Q;
            a_proxy := None |})];
     scene_conns := [];
     warnings := [] |}.

(** *** The glossary's notion of a proxy *)

(** The attribute at [p] exists, owns no storage and mirrors another plug. *)
Definition is_proxy (p : plug) (s : state) : bool :=
  match lookup_attr p s with
  | Some i => bool_decide (is_Some (a_proxy i))
  | None => false
  end.

(** The attribute at [p] exists and mirrors [o], or owns its storage when
    [o] is [None]. *)
Definition mirrors (p : plug) (o : option plug) (s : state) : Prop :=
  exists i, lookup_attr p s = Some i /\ a_proxy i = o.

(** *** Example scenes *)

(** A controller with three custom attributes and nothing else. *)
Definition three_rows : state :=
  {| controller := Some "ctrl"; custom_attrs := ["roll"; "bend"; "twist"];
     list_items := ["roll"; "bend"; "twist"]; list_selected := [];
     selection := ["ctrl"]; scene_attrs := []; scene_conns := [];
     warnings := [] |}.

(** A controller whose only custom attribute is an integer counter. *)
Definition counter_scene : state :=
  {| controller := Some "ctrl"; custom_attrs := ["count"];
     list_items := ["count"]; list_selected := [];
     selection := ["ctrl"];
     scene_attrs :=
       [(Plug "ctrl" "count",
         {| a_type := "long"; a_min := None; a_max := None; a_enum := None;
            a_keyable := true; a_lock := false; a_value := VNum 3%Q;
            a_proxy := None |})];
     scene_conns := [];
     warnings := [] |}.

(** A controller whose custom attribute [roll] owns its storage and is
    animated: an animation curve drives it, and it drives a joint. *)
Definition keyed_scene : state :=
  {| controller := Some "ctrl"; custom_attrs := ["roll"];
     list_items := ["roll"]; list_selected := [];
     selection := ["ctrl"];
     scene_attrs :=
       [(Plug "ctrl" "roll",
         {| a_type := "double"; a_min := None; a_max := None; a_enum := None;
            a_keyable := true; a_lock := false; a_value := VNum 0%Q;
            a_proxy := None |})];
     scene_conns := [(Plug "ctrl_roll_curve" "output", Plug "ctrl" "roll");
                     (Plug "ctrl" "roll", Plug "joint1" "rotateX")];
     warnings := [] |}.

End AttrOrder.

(** ** CD_attrmanip_tool.py: a list of attributes and a list of target controllers *)

Module AttrManip.
Import Py.
Local Open Scope py_scope.

Record state : Type := {
  selection_list : list string;          (* global selection_list *)
  target_controller_list : list string;  (* global target_controller_list *)
  sel_long : list string;        (* cmds.ls(selection=True, long=True) *)
  sel_short : list string;       (* cmds.ls(selection=True) *)
  channel_box : list string;     (* attributes selected in mainChannelBox *)
  ui_selection : option (list string);   (* rows of "selectionList", if it exists *)
  ui_selection_picked : list string;     (* its selected rows *)
  ui_target : option (list string);      (* rows of "targetList", if it exists *)
  ui_target_picked : list string;        (* its selected rows *)
  warnings : list string }.

Definition set_selection_list (l : list string) (s : state) : state :=
  {| selection_list := l; target_controller_list := target_controller_list s;
     sel_long := sel_long s; sel_short := sel_short s; channel_box := channel_box s;
     ui_selection := ui_selection s; ui_selection_picked := ui_selection_picked s;
     ui_target := ui_target s; ui_target_picked := ui_target_picked s;
     warnings := warnings s |}.

Definition set_target_controller_list (l : list string) (s : state) : state :=
  {| selection_list := selection_list s; target_controller_list := l;
     sel_long := sel_long s; sel_short := sel_short s; channel_box := channel_box s;
     ui_selection := ui_selection s; ui_selection_picked := ui_selection_picked s;
     ui_target := ui_target s; ui_target_picked := ui_target_picked s;
     warnings := warnings s |}.

Definition set_ui_selection (rows : option (list string)) (picked : list string)
    (s : state) : state :=
  {| selection_list := selection_list s;
     target_controller_list := target_controller_list s;
     sel_long := sel_long s; sel_short := sel_short s; channel_box := channel_box s;
     ui_selection := rows; ui_selection_picked := picked;
     ui_target := ui_target s; ui_target_picked := ui_target_picked s;
     warnings := warnings s |}.

Definition set_ui_target (rows : option (list string)) (picked : list string)
    (s : state) : state :=
  {| selection_list := selection_list s;
     target_controller_list := target_controller_list s;
     sel_long := sel_long s; sel_short := sel_short s; channel_box := channel_box s;
     ui_selection := ui_selection s; ui_selection_picked := ui_selection_picked s;
     ui_target := rows; ui_target_picked := picked;
     warnings := warnings s |}.

(** [cmds.warning(msg)] *)
Definition warning (msg : string) : M state unit :=
  modify (fun s =>
    {| selection_list := selection_list s;
       target_controller_list := target_controller_list s;
       sel_long := sel_long s; sel_short := sel_short s; channel_box := channel_box s;
       ui_selection := ui_selection s; ui_selection_picked := ui_selection_picked s;
       ui_target := ui_target s; ui_target_picked := ui_target_picked s;
       warnings := warnings s ++ [msg] |}).

(** [update_selection_list_ui]: when the list widget exists its rows are
    replaced by the global list; no row stays selected. *)
Definition update_selection_list_ui : M state unit :=
  rows <- gets ui_selection ;;
  match rows with
  | Some _ => modify (fun s => set_ui_selection (Some (selection_list s)) [] s)
  | None => ret tt
  end.

(** [update_target_list_ui] *)
Definition update_target_list_ui : M state unit :=
  rows <- gets ui_target ;;
  match rows with
  | Some _ => modify (fun s => set_ui_target (Some (target_controller_list s)) [] s)
  | None => ret tt
  end.

(** [for attr in attrs: selected_attributes.append(f"{obj}.{attr}")] for
    every selected object; the channel box answers the same for each. *)
Definition selected_attribute_names (objs attrs : list string) : list string :=
  obj ← objs; (fun attr => obj +:+ "." +:+ attr) <$> attrs.

(** [add_to_selection_list] *)
Definition add_to_selection_list : M state unit :=
  selected_objects <- gets sel_long ;;
  attrs <- gets channel_box ;;
  let selected_attributes := selected_attribute_names selected_objects attrs in
  match selected_attributes with
  | [] => warning "No attributes selected to add to the list."
  | _ =>
      for_each selected_attributes (fun item =>
        l <- gets selection_list ;;
        if contains l item then ret tt
        else modify (set_selection_list (l ++ [item]))) ;;;
      update_selection_list_ui
  end.

(** [list.remove(x)] where [x] is known to occur: the first occurrence goes. *)
Fixpoint remove_first (x : string) (l : list string) : list string :=
  match l with
  | [] => []
  | y :: l' => if decide (y = x) then l' else y :: remove_first x l'
  end.

(** The argument of the two [remove_from_*] functions: a row text, or what a
    [selectItem] query answers, a list of row texts or [None]. *)
Inductive item : Type :=
| Row (text : string)
| Rows (texts : list string)
| NoRows.

(** [item_to_remove in l] on a list of strings: only a string can be equal to
    an element. *)
Definition item_in (it : item) (l : list string) : bool :=
  match it with
  | Row text => contains l text
  | _ => false
  end.

Definition remove_item (it : item) (l : list string) : list string :=
  match it with
  | Row text => remove_first text l
  | _ => l
  end.

(** [remove_from_selection_list] *)
Definition remove_from_selection_list (item_to_remove : item) : M state unit :=
  l <- gets selection_list ;;
  (if item_in item_to_remove l
   then modify (set_selection_list (remove_item item_to_remove l))
   else ret tt) ;;;
  update_selection_list_ui.

(** [clear_selection_list] *)
Definition clear_selection_list : M state unit :=
  modify (set_selection_list []) ;;;
  update_selection_list_ui.

(** [load_target_controllers] *)
Definition load_target_controllers : M state unit :=
  selected_objects <- gets sel_short ;;
  match selected_objects with
  | [] => warning "No objects selected to load as target controllers."
  | _ =>
      for_each selected_objects (fun obj =>
        l <- gets target_controller_list ;;
        if contains l obj then ret tt
        else modify (set_target_controller_list (l ++ [obj]))) ;;;
      update_target_list_ui
  end.

(** [remove_from_target_list] *)
Definition remove_from_target_list (item_to_remove : item) : M state unit :=
  l <- gets target_controller_list ;;
  (if item_in item_to_remove l
   then modify (set_target_controller_list (remove_item item_to_remove l))
   else ret tt) ;;;
  update_target_list_ui.

(** [clear_target_list] *)
Definition clear_target_list : M state unit :=
  modify (set_target_controller_list []) ;;;
  update_target_list_ui.

(** [cmds.textScrollList("selectionList", query=True, selectItem=True)] and
    the same for ["targetList"]: the host raises on a widget that does not
    exist; it answers [None], here the empty list, when no row is selected. *)
Definition selectionList_selectItem : M state (list string) :=
  s <- gets id ;;
  match ui_selection s with
  | Some _ => ret (ui_selection_picked s)
  | None => raise (RuntimeError "Object 'selectionList' not found.")
  end.

Definition targetList_selectItem : M state (list string) :=
  s <- gets id ;;
  match ui_target s with
  | Some _ => ret (ui_target_picked s)
  | None => raise (RuntimeError "Object 'targetList' not found.")
  end.

(** [remove_selected_from_list] *)
Definition remove_selected_from_list : M state unit :=
  selected_items <- selectionList_selectItem ;;
  for_each selected_items (fun it => remove_from_selection_list (Row it)).

(** The button "Remove Selected from Target List" hands the answer of the
    [selectItem] query to [remove_from_target_list]. *)
Definition remove_selected_from_target_list : M state unit :=
  picked <- targetList_selectItem ;;
  remove_from_target_list (match picked with [] => NoRows | _ => Rows picked end).

(** The operations on the two lists that the window offers. *)
Inductive operation : Type :=
| AddToSelectionList
| RemoveFromSelectionList (it : item)
| RemoveSelectedFromList
| ClearSelectionList
| LoadTargetControllers
| RemoveFromTargetList (it : item)
| RemoveSelectedFromTargetList
| ClearTargetList.

Definition run (o : operation) : M state unit :=
  match o with
  | AddToSelectionList => add_to_selection_list
  | RemoveFromSelectionList it => remove_from_selection_list it
  | RemoveSelectedFromList => remove_selected_from_list
  | ClearSelectionList => clear_selection_list
  | LoadTargetControllers => load_target_controllers
  | RemoveFromTargetList it => remove_from_target_list it
  | RemoveSelectedFromTargetList => remove_selected_from_target_list
  | ClearTargetList => clear_target_list
  end.

(** Between two operations the user may change the scene selection, the
    channel box and the selected rows; the two global lists are the script's. *)
Definition same_lists (s s' : state) : Prop :=
  selection_list s' = selection_list s /\
  target_controller_list s' = target_controller_list s.

(** The states the tool can be in: both lists start empty. *)
Inductive reachable : state -> Prop :=
| reachable_start s :
    selection_list s = [] -> target_controller_list s = [] -> reachable s
| reachable_user s s' :
    reachable s -> same_lists s s' -> reachable s'
| reachable_run s o :
    reachable s -> reachable (snd (run o s)).

(** The invariant of the two lists. *)
Definition no_duplicates (s : state) : Prop :=
  NoDup (selection_list s) /\ NoDup (target_controller_list s).

(** The list widgets, where they exist, show the two global lists. *)
Definition synced (s : state) : Prop :=
  (forall rows, ui_selection s = Some rows -> rows = selection_list s) /\
  (forall rows, ui_target s = Some rows -> rows = target_controller_list s).

(** Appending the items that are not yet present, one after the other. *)
Definition append_new (l items : list string) : list string :=
  foldl (fun acc x => if contains acc x then acc else acc ++ [x]) l items.

(** A scene with two selected controllers and two channel-box attributes. *)
Definition two_controllers : state :=
  {| selection_list := ["|ctrl_a.ikfk"]; target_controller_list := ["ctrl_b"];
     sel_long := ["|ctrl_a"; "|ctrl_b"]; sel_short := ["ctrl_a"; "ctrl_b"];
     channel_box := ["ikfk"; "stretch"];
     ui_selection := Some ["|ctrl_a.ikfk"]; ui_selection_picked := [];
     ui_target := Some ["ctrl_b"]; ui_target_picked := ["ctrl_b"];
     warnings := [] |}.

(** Three attributes in the list, the second one selected in the widget. *)
Definition picked_row : state :=
  {| selection_list := ["|ctrl_a.ikfk"; "|ctrl_a.stretch"; "|ctrl_b.ikfk"];
     target_controller_list := ["ctrl_b"];
     sel_long := []; sel_short := []; channel_box := [];
     ui_selection := Some ["|ctrl_a.ikfk"; "|ctrl_a.stretch"; "|ctrl_b.ikfk"];
     ui_selection_picked := ["|ctrl_a.stretch"];
     ui_target := Some ["ctrl_b"]; ui_target_picked := ["ctrl_b"];
     warnings := [] |}.

End AttrManip.

(** ** CD_attrlock_tool.py: locking and hiding the native transform attributes *)

Module AttrLock.
Import Py.
Local Open Scope py_scope.

(** The display flags the host keeps for an attribute. *)
Record flags : Type := {
  f_lock : bool;
  f_keyable : bool;
  f_channel_box : bool }.

Record state : Type := {
  scene : gmap plug flags;              (* the attributes that exist *)
  selection : list string;              (* cmds.ls(selection=True) *)
  checkboxes : gmap string bool;        (* the check boxes of the window *)
  warnings : list string }.

Definition set_scene (m : gmap plug flags) (s : state) : state :=
  {| scene := m; selection := selection s; checkboxes := checkboxes s;
     warnings := warnings s |}.

(** [cmds.warning(msg)] *)
Definition warning (msg : string) : M state unit :=
  modify (fun s =>
    {| scene := scene s; selection := selection s; checkboxes := checkboxes s;
       warnings := warnings s ++ [msg] |}).

(** [cmds.checkBox(cb, query=True, value=True)]; the host raises on a widget
    that does not exist. *)
Definition checkBox_query (cb : string) : M state bool :=
  s <- gets id ;;
  match checkboxes s !! cb with
  | Some b => ret b
  | None => raise (RuntimeError ("Object '" +:+ cb +:+ "' not found."))
  end.

(** [cmds.objExists(f"{obj}.{attr}")] *)
Definition objExists (p : plug) : M state bool :=
  gets (fun s => bool_decide (is_Some (scene s !! p))).

Definition with_lock_keyable (lock keyable : bool) (f : flags) : flags :=
  {| f_lock := lock; f_keyable := keyable; f_channel_box := f_channel_box f |}.

Definition with_keyable (keyable : bool) (f : flags) : flags :=
  {| f_lock := f_lock f; f_keyable := keyable; f_channel_box := f_channel_box f |}.

Definition with_channel_box (cb : bool) (f : flags) : flags :=
  {| f_lock := f_lock f; f_keyable := f_keyable f; f_channel_box := cb |}.

(** An edit of the flags of [p]; the host raises when [p] does not exist and
    touches no other attribute. *)
Definition edit_flags (p : plug) (f : flags -> flags) : M state unit :=
  s <- gets id ;;
  match scene s !! p with
  | Some _ => modify (fun s => set_scene (alter f p (scene s)) s)
  | None => raise (RuntimeError ("No object matches name: " +:+ plug_node p +:+ "."
                                 +:+ plug_attr p))
  end.

(** [cmds.setAttr(p, lock=lock, keyable=keyable)] *)
Definition setAttr_lock_keyable (p : plug) (lock keyable : bool) : M state unit :=
  edit_flags p (with_lock_keyable lock keyable).

(** [cmds.setAttr(p, keyable=keyable)], [cmds.setAttr(p, channelBox=True)] *)
Definition setAttr_keyable (p : plug) (keyable : bool) : M state unit :=
  edit_flags p (with_keyable keyable).
Definition setAttr_channelBox (p : plug) (cb : bool) : M state unit :=
  edit_flags p (with_channel_box cb).

(** The list [attributes] that both functions build from the check boxes. *)
Definition checked_attributes (tx_cb rx_cb sx_cb vis_cb all_cb : string)
    : M state (list string) :=
  all <- checkBox_query all_cb ;;
  if all then ret ["tx"; "ty"; "tz"; "rx"; "ry"; "rz"; "sx"; "sy"; "sz"; "v"]
  else
    tx <- checkBox_query tx_cb ;;
    let attributes1 := if tx then ["tx"; "ty"; "tz"] else [] in
    rx <- checkBox_query rx_cb ;;
    let attributes2 := if rx then attributes1 ++ ["rx"; "ry"; "rz"] else attributes1 in
    sx <- checkBox_query sx_cb ;;
    let attributes3 := if sx then attributes2 ++ ["sx"; "sy"; "sz"] else attributes2 in
    vis <- checkBox_query vis_cb ;;
    ret (if vis then attributes3 ++ ["v"] else attributes3).

(** [set_native_attributes] *)
Definition set_native_attributes (lock_state : Z) (tx_cb rx_cb sx_cb vis_cb all_cb : string)
    : M state unit :=
  selected_objects <- gets selection ;;
  match selected_objects with
  | [] => warning "No objects selected!"
  | _ =>
      let lock := if (lock_state =? 0)%Z then true else false in
      let keyable := if (lock_state =? 0)%Z then false else true in
      attributes <- checked_attributes tx_cb rx_cb sx_cb vis_cb all_cb ;;
      for_each selected_objects (fun obj =>
        for_each attributes (fun attr =>
          ex <- objExists (Plug obj attr) ;;
          if ex then setAttr_lock_keyable (Plug obj attr) lock keyable else ret tt))
  end.

(** [set_native_keyable] *)
Definition set_native_keyable (is_keyable : bool) (tx_cb rx_cb sx_cb vis_cb all_cb : string)
    : M state unit :=
  selected_objects <- gets selection ;;
  match selected_objects with
  | [] => warning "No objects selected!"
  | _ =>
      let keyable := is_keyable in
      attributes <- checked_attributes tx_cb rx_cb sx_cb vis_cb all_cb ;;
      for_each selected_objects (fun obj =>
        for_each attributes (fun attr =>
          ex <- objExists (Plug obj attr) ;;
          if ex then
            setAttr_keyable (Plug obj attr) keyable ;;;
            if negb keyable then setAttr_channelBox (Plug obj attr) true else ret tt
          else ret tt))
  end.

(** The flags after a run of edits on a list of plugs. *)
Definition touch (f : flags -> flags) (plugs : list plug) (m : gmap plug flags)
    : gmap plug flags :=
  foldl (fun m p => alter f p m) m plugs.

(** What [set_native_keyable] does to the flags of one attribute: the keyable
    flag is set, and an attribute made unkeyable is kept in the channel box. *)
Definition keyable_flags (keyable : bool) (f : flags) : flags :=
  if keyable then with_keyable true f
  else with_channel_box true (with_keyable false f).

(** *** The attribute set of the claim *)

(** The native transform attributes that the check boxes select: all ten of
    them when "All" is on, otherwise the groups whose box is on. *)
Definition selected_by_checkboxes (all tx rx sx vis : bool) (attr : string) : Prop :=
  if all then attr ∈ ["tx"; "ty"; "tz"; "rx"; "ry"; "rz"; "sx"; "sy"; "sz"; "v"]
  else (tx = true /\ attr ∈ ["tx"; "ty"; "tz"]) \/
       (rx = true /\ attr ∈ ["rx"; "ry"; "rz"]) \/
       (sx = true /\ attr ∈ ["sx"; "sy"; "sz"]) \/
       (vis = true /\ attr = "v").

(** *** Example scene *)

Definition unlocked : flags := {| f_lock := false; f_keyable := true; f_channel_box := false |}.

(** A selected cube and an unselected sphere; "Translate" and "Visibility"
    are ticked. *)
Definition cube_and_sphere : state :=
  {| scene := list_to_map
       [(Plug "cube" "tx", unlocked); (Plug "cube" "ty", unlocked);
        (Plug "cube" "tz", unlocked); (Plug "cube" "rx", unlocked);
        (Plug "cube" "v", unlocked); (Plug "sphere" "tx", unlocked)];
     selection := ["cube"];
     checkboxes := list_to_map
       [("translate", true); ("rotate", false); ("scale", false);
        ("visibility", true); ("all", false)];
     warnings := [] |}.

End AttrLock.

(** ** The host's objects and [cmds.rename]

    The two renaming tools see the scene as the list of the long paths of its
    DAG objects, such as [|group1|pSphere1].  An object keeps its position in
    the list for as long as it lives, so a position identifies an object while
    names change.

    The host is taken to behave as follows on [cmds.rename(obj, new_name)].
    It raises [RuntimeError] when [obj] names no object, or more than one.
    It may adjust the requested name or reject it ([naming], the host's
    policy, decides); the name it answers is the new leaf name.  The long path
    of the renamed object becomes the long path of its parent, a pipe, and the
    new leaf name; the long paths of its descendants follow.  The scripts do
    not pass [ignoreShape], so the host also renames shape nodes below a
    renamed transform: which ones, and to what, is again the policy's.  No
    two objects ever share a long path: a rename that would lead there is
    rejected. *)

Module Dag.

Definition pipe : ascii := "|"%char.

(** [full_path.split("|")[-1]] *)
Definition short_name (full_path : string) : string :=
  Str.last_piece (Str.split pipe full_path).

(** ["|".join(obj.split("|")[:-1])] *)
Definition parent_path (obj : string) : string :=
  Str.join "|" (removelast (Str.split pipe obj)).

(** [f"{parent_path}|{result}" if parent_path else f"|{result}"] *)
Definition child_path (parent leaf : string) : string :=
  if Str.nonempty parent then parent +:+ "|" +:+ leaf else "|" +:+ leaf.

(** The long path [q] after the object at [old] has moved to [new]. *)
Definition move_path (old new q : string) : string :=
  if String.eqb q old then new
  else if Str.startswith (old +:+ "|") q
       then new +:+ Str.drop (String.length old) q
       else q.

Fixpoint index_of (x : string) (l : list string) : option nat :=
  match l with
  | [] => None
  | y :: l' => if String.eqb y x then Some 0%nat else S <$> index_of x l'
  end.

(** [s.endswith(suffix)] *)
Definition endswith (suffix s : string) : bool :=
  (String.length suffix <=? String.length s)%nat &&
  String.eqb (Str.drop (String.length s - String.length suffix) s) suffix.

(** The positions of the objects that a short or partial name may mean. *)
Definition candidates (name : string) (dag : list string) : list nat :=
  fst <$> filter (fun e => endswith ("|" +:+ name) (snd e) = true)
                 (imap (fun i p => (i, p)) dag).

(** The object that [obj] names: a long path names the object that has it, a
    short or partial name the only object whose long path ends with it. *)
Definition resolve (dag : list string) (obj : string) : option nat :=
  match index_of obj dag with
  | Some k => Some k
  | None => match candidates obj dag with
            | [k] => Some k
            | _ => None
            end
  end.

(** The name under which [cmds.ls] lists an object when long names are not
    asked for: the leaf name when no other object has it; otherwise the host
    gives a unique partial path, for which the long path stands here. *)
Definition display_name (dag : list string) (p : string) : string :=
  match filter (fun q => short_name q = short_name p) dag with
  | [_] => short_name p
  | _ => p
  end.

(** The host's policy, given the scene, the position of the object and the
    name asked for: [leaf_name] is the leaf name the object gets, if any;
    [renamed_along], given the leaf name, lists the shape nodes that are
    renamed with the object, by position, each with its new leaf name. *)
Record naming_policy : Type := {
  leaf_name : list string -> nat -> string -> option string;
  renamed_along : list string -> nat -> string -> list (nat * string) }.

(** The leaf name of the object at position [j] becomes [leaf]. *)
Definition rename_leaf (j : nat) (leaf : string) (d : list string) : list string :=
  match d !! j with
  | Some q => <[j := child_path (parent_path q) leaf]> d
  | None => d
  end.

(** [cmds.rename(obj, new_name)]: the answer and the new scene, or the
    message of the [RuntimeError]. *)
Definition rename (naming : naming_policy) (dag : list string) (obj new_name : string)
    : string * list string + string :=
  match resolve dag obj with
  | None => inr ("No object matches name: " +:+ obj)
  | Some k =>
      match dag !! k, leaf_name naming dag k new_name with
      | Some old, Some leaf =>
          let moved := move_path old (child_path (parent_path old) leaf) <$> dag in
          let dag' := foldl (fun d e => rename_leaf (fst e) (snd e) d) moved
                        (renamed_along naming dag k leaf) in
          if bool_decide (NoDup dag') then inl (leaf, dag')
          else inr ("Cannot rename " +:+ obj)
      | _, _ => inr ("New name has no legal characters.")
      end
  end.

(** A host that renames no shape along: the objects are joints, groups and
    the like, or shapes themselves. *)
Definition renames_alone (naming : naming_policy) : Prop :=
  forall dag k leaf, renamed_along naming dag k leaf = [].

(** The long paths of the object at [p] and of everything below it. *)
Definition with_descendants (dag : list string) (p : string) : list string :=
  p :: filter (fun q => Str.startswith (p +:+ "|") q = true) dag.

(** A policy that accepts any non-empty name as it is, in a scene without
    shapes. *)
Definition accept_nonempty : naming_policy :=
  {| leaf_name := fun _ _ name => if Str.nonempty name then Some name else None;
     renamed_along := fun _ _ _ => [] |}.

(** The same on names, in a scene of geometry made with the host's default
    names: the shape of a transform [t] is its child [tShape], and it
    follows the transform's name. *)
Definition shapes_follow : naming_policy :=
  {| leaf_name := fun _ _ name => if Str.nonempty name then Some name else None;
     renamed_along := fun dag k leaf =>
       match dag !! k with
       | Some old =>
           omap (fun e => if String.eqb (snd e) (old +:+ "|" +:+ short_name old +:+ "Shape")
                          then Some (fst e, leaf +:+ "Shape") else None)
                (imap (fun j q => (j, q)) dag)
       | None => []
       end |}.

End Dag.

(** ** rename_tool/CD_rename.py: batch renaming with a history *)

Module Rename.
Import Py.
Local Open Scope py_scope.

Record state : Type := {
  dag : list string;                       (* long paths of the scene's objects *)
  naming : Dag.naming_policy;              (* the host's naming policy *)
  selected : list nat;                     (* the selected objects *)
  text_fields : gmap string string;        (* textFieldGrp widgets *)
  int_fields : gmap string Z;              (* intFieldGrp widgets *)
  radio_buttons : gmap string Z;           (* radioButtonGrp widgets *)
  option_menus : gmap string string;       (* optionMenuGrp widgets *)
  history_rows : option (list string);     (* "historyTextScroll", if it exists *)
  renaming_history : list (string * string);   (* _renaming_history *)
  open_chunks : list string;               (* undo chunks that are open *)
  warnings : list string }.

Definition set_dag (d : list string) (s : state) : state :=
  {| dag := d; naming := naming s; selected := selected s;
     text_fields := text_fields s; int_fields := int_fields s;
     radio_buttons := radio_buttons s; option_menus := option_menus s;
     history_rows := history_rows s; renaming_history := renaming_history s;
     open_chunks := open_chunks s; warnings := warnings s |}.

Definition set_renaming_history (h : list (string * string)) (s : state) : state :=
  {| dag := dag s; naming := naming s; selected := selected s;
     text_fields := text_fields s; int_fields := int_fields s;
     radio_buttons := radio_buttons s; option_menus := option_menus s;
     history_rows := history_rows s; renaming_history := h;
     open_chunks := open_chunks s; warnings := warnings s |}.

Definition set_history_rows (r : option (list string)) (s : state) : state :=
  {| dag := dag s; naming := naming s; selected := selected s;
     text_fields := text_fields s; int_fields := int_fields s;
     radio_buttons := radio_buttons s; option_menus := option_menus s;
     history_rows := r; renaming_history := renaming_history s;
     open_chunks := open_chunks s; warnings := warnings s |}.

Definition set_open_chunks (c : list string) (s : state) : state :=
  {| dag := dag s; naming := naming s; selected := selected s;
     text_fields := text_fields s; int_fields := int_fields s;
     radio_buttons := radio_buttons s; option_menus := option_menus s;
     history_rows := history_rows s; renaming_history := renaming_history s;
     open_chunks := c; warnings := warnings s |}.

Definition set_warnings (w : list string) (s : state) : state :=
  {| dag := dag s; naming := naming s; selected := selected s;
     text_fields := text_fields s; int_fields := int_fields s;
     radio_buttons := radio_buttons s; option_menus := option_menus s;
     history_rows := history_rows s; renaming_history := renaming_history s;
     open_chunks := open_chunks s; warnings := w |}.

(** *** Host commands *)

(** [cmds.warning(msg)] *)
Definition warning (msg : string) : M state unit :=
  modify (fun s => set_warnings (warnings s ++ [msg]) s).

Definition widget_missing {A} (name : string) : M state A :=
  raise (RuntimeError ("Object '" +:+ name +:+ "' not found.")).

(** [cmds.textFieldGrp(name, query=True, text=True)] *)
Definition textFieldGrp_query (name : string) : M state string :=
  s <- gets id ;;
  match text_fields s !! name with
  | Some t => ret t
  | None => widget_missing name
  end.

(** [cmds.intFieldGrp(name, query=True, value1=True)] *)
Definition intFieldGrp_query (name : string) : M state Z :=
  s <- gets id ;;
  match int_fields s !! name with
  | Some n => ret n
  | None => widget_missing name
  end.

(** [cmds.radioButtonGrp(name, query=True, select=True)] *)
Definition radioButtonGrp_query (name : string) : M state Z :=
  s <- gets id ;;
  match radio_buttons s !! name with
  | Some n => ret n
  | None => widget_missing name
  end.

(** [cmds.optionMenuGrp(name, query=True, value=True)] *)
Definition optionMenuGrp_query (name : string) : M state string :=
  s <- gets id ;;
  match option_menus s !! name with
  | Some v => ret v
  | None => widget_missing name
  end.

Definition paths_of (d : list string) (ids : list nat) : list string :=
  omap (fun k => d !! k) ids.

(** [cmds.ls(selection=True, long=True)] *)
Definition ls_selection_long : M state (list string) :=
  gets (fun s => paths_of (dag s) (selected s)).

(** [cmds.ls(selection=True, dag=True, long=True)]: the selected objects and
    what is below them, each object once. *)
Definition ls_selection_dag_long : M state (list string) :=
  gets (fun s =>
    remove_dups (p ← paths_of (dag s) (selected s); Dag.with_descendants (dag s) p)).

(** [cmds.ls(long=True)] *)
Definition ls_long : M state (list string) := gets dag.

(** [cmds.rename(obj, new_name)] *)
Definition rename (obj new_name : string) : M state string :=
  s <- gets id ;;
  match Dag.rename (naming s) (dag s) obj new_name with
  | inl (result, d) => modify (set_dag d) ;;; ret result
  | inr msg => raise (RuntimeError msg)
  end.

(** [cmds.undoInfo(openChunk=True, chunkName=name)], [cmds.undoInfo(closeChunk=True)] *)
Definition undoInfo_openChunk (name : string) : M state unit :=
  modify (fun s => set_open_chunks (name :: open_chunks s) s).
Definition undoInfo_closeChunk : M state unit :=
  modify (fun s => set_open_chunks (tail (open_chunks s)) s).

(** *** Helpers *)

(** [with _undo_chunk(name): body]: the chunk is closed in a [finally]. *)
Definition _undo_chunk (name : string) (body : M state unit) : M state unit :=
  fun s =>
    match bind (undoInfo_openChunk name) (fun _ => body) s with
    | (r, s') => (r, snd (undoInfo_closeChunk s'))
    end.

(** [_get_short_name] *)
Definition _get_short_name (full_path : string) : string := Dag.short_name full_path.

(** [_record] *)
Definition _record (original renamed : string) : M state unit :=
  modify (fun s => set_renaming_history (renaming_history s ++ [(original, renamed)]) s).

(** [_require_selection] *)
Definition _require_selection : M state (option (list string)) :=
  selection <- ls_selection_long ;;
  match selection with
  | [] => warning "No objects selected." ;;; ret None
  | _ => ret (Some selection)
  end.

(** [_safe_rename] *)
Definition _safe_rename (obj new_name : string) : M state (option string) :=
  try_runtime
    (result <- rename obj new_name ;;
     _record obj result ;;;
     ret (Some result))
    (fun exc =>
       warning ("Could not rename '" +:+ obj +:+ "' to '" +:+ new_name +:+ "': " +:+ exc) ;;;
       ret None).

(** *** Core renaming operations *)

(** [rename_and_number_objects] *)
Definition rename_and_number_objects : M state unit :=
  selection <- _require_selection ;;
  match selection with
  | None => ret tt
  | Some selection =>
      t <- textFieldGrp_query "renameTextField" ;;
      let base_name := Str.strip t in
      if negb (Str.nonempty base_name) then warning "Please enter a base name."
      else
        start <- intFieldGrp_query "startNumberField" ;;
        padding <- intFieldGrp_query "paddingField" ;;
        _undo_chunk "Rename and Number"
          (for_each (imap (fun offset obj => (Z.of_nat offset, obj)) selection)
             (fun e =>
                let number_str := Str.zfill padding (Str.of_int (start + fst e)) in
                _ <- _safe_rename (snd e) (base_name +:+ number_str) ;; ret tt))
  end.

(** [add_prefix_to_selection] *)
Definition add_prefix_to_selection : M state unit :=
  selection <- _require_selection ;;
  match selection with
  | None => ret tt
  | Some selection =>
      t <- textFieldGrp_query "prefixTextField" ;;
      let prefix := Str.strip t in
      if negb (Str.nonempty prefix) then warning "Please enter a prefix."
      else
        _undo_chunk "Add Prefix"
          (for_each selection (fun obj =>
             _ <- _safe_rename obj (prefix +:+ _get_short_name obj) ;; ret tt))
  end.

(** [add_suffix_to_selection] *)
Definition add_suffix_to_selection : M state unit :=
  selection <- _require_selection ;;
  match selection with
  | None => ret tt
  | Some selection =>
      t <- textFieldGrp_query "suffixTextField" ;;
      let suffix := Str.strip t in
      if negb (Str.nonempty suffix) then warning "Please enter a suffix."
      else
        _undo_chunk "Add Suffix"
          (for_each selection (fun obj =>
             _ <- _safe_rename obj (_get_short_name obj +:+ suffix) ;; ret tt))
  end.

(** [_remove_character] *)
Definition _remove_character (position : string) : M state unit :=
  if negb (String.eqb position "first" || String.eqb position "last") then
    raise (ValueError ("position must be 'first' or 'last', got '" +:+ position +:+ "'."))
  else
    selection <- _require_selection ;;
    match selection with
    | None => ret tt
    | Some selection =>
        _undo_chunk "Remove Character"
          (for_each selection (fun obj =>
             let short := _get_short_name obj in
             if (String.length short <=? 1)%nat then
               warning ("Skipping '" +:+ short
                        +:+ "': name too short to remove a character.")
             else
               let new_name := if String.eqb position "first"
                               then Str.drop 1 short else Str.drop_last short in
               _ <- _safe_rename obj new_name ;; ret tt))
    end.

(** [remove_first_character], [remove_last_character] *)
Definition remove_first_character : M state unit := _remove_character "first".
Definition remove_last_character : M state unit := _remove_character "last".

(** [add_quick_prefix] *)
Definition add_quick_prefix (prefix : string) : M state unit :=
  selection <- _require_selection ;;
  match selection with
  | None => ret tt
  | Some selection =>
      _undo_chunk ("Quick Prefix: " +:+ prefix)
        (for_each selection (fun obj =>
           _ <- _safe_rename obj (prefix +:+ "_" +:+ _get_short_name obj) ;; ret tt))
  end.

(** [add_quick_suffix] *)
Definition add_quick_suffix (suffix : string) : M state unit :=
  selection <- _require_selection ;;
  match selection with
  | None => ret tt
  | Some selection =>
      _undo_chunk ("Quick Suffix: " +:+ suffix)
        (for_each selection (fun obj =>
           _ <- _safe_rename obj (_get_short_name obj +:+ "_" +:+ suffix) ;; ret tt))
  end.

(** The inner loop of [search_and_replace]:
    [for j in range(i + 1, len(pending)): if pending[j].startswith(old_path + "|"): ...] *)
Definition rewrite_pending (i : nat) (old_path new_path : string)
    (pending : list string) : list string :=
  imap (fun j q =>
          if (i <? j)%nat && Str.startswith (old_path +:+ "|") q
          then new_path +:+ Str.drop (String.length old_path) q
          else q) pending.

(** The outer loop of [search_and_replace], [for i, obj in enumerate(pending)],
    from index [i] on with [todo] entries to go; [pending] is the list as the
    earlier iterations left it. *)
Fixpoint search_loop (todo i : nat) (search_term replace_term : string)
    (pending : list string) : M state unit :=
  match todo with
  | O => ret tt
  | S todo' =>
      match pending !! i with
      | None => ret tt
      | Some obj =>
          let short := _get_short_name obj in
          if negb (Str.contains search_term short) then
            search_loop todo' (S i) search_term replace_term pending
          else
            let new_short := Str.replace search_term replace_term short in
            result <- _safe_rename obj new_short ;;
            match result with
            | None => search_loop todo' (S i) search_term replace_term pending
            | Some result =>
                let old_path := obj in
                let parent_path := Dag.parent_path obj in
                let new_path := Dag.child_path parent_path result in
                search_loop todo' (S i) search_term replace_term
                  (rewrite_pending i old_path new_path pending)
            end
      end
  end.

(** [search_and_replace] *)
Definition search_and_replace : M state unit :=
  search_term <- textFieldGrp_query "searchTextField" ;;
  replace_term <- textFieldGrp_query "replaceTextField" ;;
  option <- radioButtonGrp_query "searchReplaceOption" ;;
  if negb (Str.nonempty search_term) then warning "Please enter a search term."
  else
    objects <- (if (option =? 1)%Z then ls_selection_dag_long
                else if (option =? 2)%Z then ls_selection_long
                else ls_long) ;;
    match objects with
    | [] => warning "No objects found for the selected scope."
    | _ =>
        let pending := objects in
        _undo_chunk "Search and Replace"
          (search_loop (length pending) 0 search_term replace_term pending)
    end.

(** *** Advanced features *)

(** [cmds.textScrollList("historyTextScroll", edit=True, ...)] *)
Definition history_list_edit (f : list string -> list string) : M state unit :=
  s <- gets id ;;
  match history_rows s with
  | Some rows => modify (set_history_rows (Some (f rows)))
  | None => widget_missing "historyTextScroll"
  end.

(** The row of an entry: [f"{old_name}  ...  {new_name}"], with the separator
    as the source file has it. *)
Definition history_row (e : string * string) : string :=
  fst e +:+ "  â†’  " +:+ snd e.

(** [refresh_history_list] *)
Definition refresh_history_list : M state unit :=
  history_list_edit (fun _ => []) ;;;
  h <- gets renaming_history ;;
  for_each h (fun e => history_list_edit (fun rows => rows ++ [history_row e])).

(** [clear_history] *)
Definition clear_history : M state unit :=
  modify (set_renaming_history []) ;;;
  refresh_history_list.

(** [NAMING_CONVENTIONS.get(convention)] *)
Definition NAMING_CONVENTIONS (convention : string) : option string :=
  if String.eqb convention "Rig" then Some "RIG"
  else if String.eqb convention "Animation" then Some "ANIM"
  else if String.eqb convention "Geometry" then Some "GEO"
  else if String.eqb convention "Controller" then Some "CTRL"
  else None.

(** [apply_naming_convention] *)
Definition apply_naming_convention : M state unit :=
  selection <- _require_selection ;;
  match selection with
  | None => ret tt
  | Some selection =>
      convention <- optionMenuGrp_query "namingConventionMenu" ;;
      match NAMING_CONVENTIONS convention with
      | None => warning ("Unknown naming convention: '" +:+ convention +:+ "'.")
      | Some token =>
          _undo_chunk ("Naming Convention: " +:+ convention)
            (for_each selection (fun obj =>
               _ <- _safe_rename obj (token +:+ "_" +:+ _get_short_name obj) ;; ret tt))
      end
  end.

(** *** The batch of [search_and_replace], object by object

    What the claim describes: every object of the scope, in order, is renamed
    when its short name contains the search term, to that short name with
    the term replaced.  Objects are addressed by position, that is by
    identity, and not by a path kept from before the batch. *)

Definition rename_object (search_term replace_term : string) (k : nat) : M state unit :=
  s <- gets id ;;
  match dag s !! k with
  | None => ret tt
  | Some path =>
      let short := Dag.short_name path in
      if Str.contains search_term short
      then _ <- _safe_rename path (Str.replace search_term replace_term short) ;; ret tt
      else ret tt
  end.

Definition rename_objects (search_term replace_term : string) (ids : list nat)
    : M state unit :=
  for_each ids (rename_object search_term replace_term).

(** The objects that a list of long paths names. *)
Definition ids_of (d : list string) (paths : list string) : list nat :=
  omap (fun p => Dag.index_of p d) paths.

(** The long paths in the scope that the radio button selects. *)
Definition scope (option : Z) (s : state) : list string :=
  if (option =? 1)%Z then
    remove_dups (p ← paths_of (dag s) (selected s); Dag.with_descendants (dag s) p)
  else if (option =? 2)%Z then paths_of (dag s) (selected s)
  else dag s.

(** The entries of [pending] from [i] on are the current long paths of the
    objects [ids]. *)
Definition tracks (ids : list nat) (i : nat) (pending : list string) (s : state) : Prop :=
  forall j k, ids !! j = Some k ->
    exists p, dag s !! k = Some p /\ pending !! (i + j) = Some p.

(** *** The operations of the main window and of the advanced window *)

Inductive operation : Type :=
| RenameAndNumber
| AddPrefix
| AddSuffix
| RemoveFirstCharacter
| RemoveLastCharacter
| QuickPrefix (prefix : string)
| QuickSuffix (suffix : string)
| SearchAndReplace
| ApplyNamingConvention.

Definition run (o : operation) : M state unit :=
  match o with
  | RenameAndNumber => rename_and_number_objects
  | AddPrefix => add_prefix_to_selection
  | AddSuffix => add_suffix_to_selection
  | RemoveFirstCharacter => remove_first_character
  | RemoveLastCharacter => remove_last_character
  | QuickPrefix prefix => add_quick_prefix prefix
  | QuickSuffix suffix => add_quick_suffix suffix
  | SearchAndReplace => search_and_replace
  | ApplyNamingConvention => apply_naming_convention
  end.

(** The widgets of the two windows exist. *)
Definition windows_open (s : state) : Prop :=
  is_Some (text_fields s !! "renameTextField") /\
  is_Some (text_fields s !! "prefixTextField") /\
  is_Some (text_fields s !! "suffixTextField") /\
  is_Some (text_fields s !! "searchTextField") /\
  is_Some (text_fields s !! "replaceTextField") /\
  is_Some (int_fields s !! "startNumberField") /\
  is_Some (int_fields s !! "paddingField") /\
  is_Some (radio_buttons s !! "searchReplaceOption") /\
  is_Some (option_menus s !! "namingConventionMenu") /\
  is_Some (history_rows s).

(** *** Example scenes *)

(** An arm of three nested objects and a separate hand; the arm is selected. *)
Definition arm_scene : state :=
  {| dag := ["|arm_grp"; "|arm_grp|arm_jnt"; "|arm_grp|arm_jnt|arm_end"; "|hand"];
     naming := Dag.accept_nonempty;
     selected := [0%nat];
     text_fields := list_to_map
       [("renameTextField", "limb"); ("prefixTextField", "L_");
        ("suffixTextField", "_geo"); ("searchTextField", "arm");
        ("replaceTextField", "leg")];
     int_fields := list_to_map [("startNumberField", 1%Z); ("paddingField", 2%Z)];
     radio_buttons := list_to_map [("searchReplaceOption", 1%Z)];
     option_menus := list_to_map [("namingConventionMenu", "Rig")];
     history_rows := Some [];
     renaming_history := [];
     open_chunks := [];
     warnings := [] |}.

(** A cube as the host makes it: the transform [armCube] with its shape
    [armCubeShape]; the transform is selected, and "arm" is to become "leg"
    in the hierarchy. *)
Definition cube_scene : state :=
  {| dag := ["|armCube"; "|armCube|armCubeShape"];
     naming := Dag.shapes_follow;
     selected := [0%nat];
     text_fields := list_to_map
       [("renameTextField", "limb"); ("prefixTextField", "L_");
        ("suffixTextField", "_geo"); ("searchTextField", "arm");
        ("replaceTextField", "leg")];
     int_fields := list_to_map [("startNumberField", 1%Z); ("paddingField", 2%Z)];
     radio_buttons := list_to_map [("searchReplaceOption", 1%Z)];
     option_menus := list_to_map [("namingConventionMenu", "Rig")];
     history_rows := Some [];
     renaming_history := [];
     open_chunks := [];
     warnings := [] |}.

(** The scene of [arm_scene] with nothing selected. *)
Definition idle_scene : state :=
  {| dag := dag arm_scene; naming := naming arm_scene; selected := [];
     text_fields := text_fields arm_scene; int_fields := int_fields arm_scene;
     radio_buttons := radio_buttons arm_scene; option_menus := option_menus arm_scene;
     history_rows := history_rows arm_scene;
     renaming_history := [("|hand", "palm")];
     open_chunks := []; warnings := [] |}.

End Rename.

(** ** CD_rename_tool/CD_rename_tool.py: the earlier rename tool

    The earlier tool has the same window and the same global history; its
    functions list the selection by short name, call [cmds.rename] without a
    [try], and keep the host's answer in a local variable [renamed_object]. *)

Module RenameTool.
Import Py Rename.
Local Open Scope py_scope.

(** [cmds.ls(selection=True)] *)
Definition ls_selection : M state (list string) :=
  gets (fun s => Dag.display_name (dag s) <$> paths_of (dag s) (selected s)).

(** [renaming_history.append((obj, renamed_object))]; reading a local
    variable that no assignment has reached raises [UnboundLocalError]. *)
Definition record (obj : string) (renamed_object : option string) : M state unit :=
  match renamed_object with
  | Some renamed =>
      modify (fun s => set_renaming_history (renaming_history s ++ [(obj, renamed)]) s)
  | None => raise (UnboundLocalError "renamed_object")
  end.

(** The loop that five functions share:
    [for obj in objs: renamed_object = cmds.rename(obj, new_name(obj));
     renaming_history.append((obj, renamed_object))] *)
Definition rename_each (objs : list string) (new_name : string -> string) : M state unit :=
  for_each objs (fun obj =>
    renamed_object <- rename obj (new_name obj) ;;
    record obj (Some renamed_object)).

(** [rename_and_number_objects] *)
Definition rename_and_number_objects : M state unit :=
  selected_objects <- ls_selection ;;
  new_name <- textFieldGrp_query "renameTextField" ;;
  start_number <- intFieldGrp_query "startNumberField" ;;
  padding <- intFieldGrp_query "paddingField" ;;
  if negb (Str.nonempty new_name) then warning "Please enter a new name."
  else
    for_each (imap (fun i obj => (Z.of_nat i, obj)) selected_objects) (fun e =>
      let numbered_name := new_name +:+ Str.zfill padding (Str.of_int (start_number + fst e)) in
      renamed_object <- rename (snd e) numbered_name ;;
      record (snd e) (Some renamed_object)).

(** [rename_with_prefix_suffix] *)
Definition rename_with_prefix_suffix (mode : Z) : M state unit :=
  selected_objects <- ls_selection ;;
  if (mode =? 1)%Z then
    prefix <- textFieldGrp_query "prefixTextField" ;;
    if negb (Str.nonempty prefix) then warning "Please enter a prefix."
    else rename_each selected_objects (fun obj => prefix +:+ Dag.short_name obj)
  else if (mode =? 2)%Z then
    suffix <- textFieldGrp_query "suffixTextField" ;;
    if negb (Str.nonempty suffix) then warning "Please enter a suffix."
    else rename_each selected_objects (fun obj => Dag.short_name obj +:+ suffix)
  else ret tt.

(** The loop of [remove_character]; [renamed_object] is the local variable
    as the earlier iterations left it. *)
Fixpoint remove_character_loop (position : Z) (objs : list string)
    (renamed_object : option string) : M state unit :=
  match objs with
  | [] => ret tt
  | obj :: objs' =>
      let short_name := Dag.short_name obj in
      renamed_object <-
        (if (position =? 1)%Z && (1 <? String.length short_name)%nat then
           r <- rename obj (Str.drop 1 short_name) ;; ret (Some r)
         else if (position =? 2)%Z && (1 <? String.length short_name)%nat then
           r <- rename obj (Str.drop_last short_name) ;; ret (Some r)
         else ret renamed_object) ;;
      record obj renamed_object ;;;
      remove_character_loop position objs' renamed_object
  end.

(** [remove_character] *)
Definition remove_character (position : Z) : M state unit :=
  selected_objects <- ls_selection ;;
  remove_character_loop position selected_objects None.

(** [add_quick_prefix], [add_quick_suffix] *)
Definition add_quick_prefix (prefix : string) : M state unit :=
  selected_objects <- ls_selection ;;
  rename_each selected_objects (fun obj => prefix +:+ "_" +:+ Dag.short_name obj).

Definition add_quick_suffix (suffix : string) : M state unit :=
  selected_objects <- ls_selection ;;
  rename_each selected_objects (fun obj => Dag.short_name obj +:+ "_" +:+ suffix).

(** [search_and_replace]; with an [option] other than 1, 2 and 3 the
    variable [objs] is never assigned. *)
Definition search_and_replace : M state unit :=
  search_term <- textFieldGrp_query "searchTextField" ;;
  replace_term <- textFieldGrp_query "replaceTextField" ;;
  option <- radioButtonGrp_query "searchReplaceOption" ;;
  if negb (Str.nonempty search_term) then warning "Please enter a search term."
  else
    objs <- (if (option =? 1)%Z then ls_selection_dag_long
             else if (option =? 2)%Z then ls_selection_long
             else if (option =? 3)%Z then ls_long
             else raise (UnboundLocalError "objs")) ;;
    rename_each objs (fun obj =>
      Str.replace search_term replace_term (Dag.short_name obj)).

(** [refresh_history_list] *)
Definition refresh_history_list : M state unit :=
  history_list_edit (fun _ => []) ;;;
  h <- gets renaming_history ;;
  for_each h (fun e =>
    history_list_edit (fun rows => rows ++ [fst e +:+ " --> " +:+ snd e])).

(** [clear_history] *)
Definition clear_history : M state unit :=
  modify (set_renaming_history []) ;;;
  refresh_history_list.

(** The loop of [apply_naming_convention]. *)
Fixpoint apply_naming_convention_loop (convention : string) (objs : list string)
    (renamed_object : option string) : M state unit :=
  match objs with
  | [] => ret tt
  | obj :: objs' =>
      renamed_object <-
        (if String.eqb convention "Rig" then
           r <- rename obj ("RIG_" +:+ obj) ;; ret (Some r)
         else if String.eqb convention "Animation" then
           r <- rename obj ("ANIM_" +:+ obj) ;; ret (Some r)
         else if String.eqb convention "Geometry" then
           r <- rename obj ("GEO_" +:+ obj) ;; ret (Some r)
         else if String.eqb convention "Controller" then
           r <- rename obj ("CTRL_" +:+ obj) ;; ret (Some r)
         else ret renamed_object) ;;
      record obj renamed_object ;;;
      apply_naming_convention_loop convention objs' renamed_object
  end.

(** [apply_naming_convention] *)
Definition apply_naming_convention : M state unit :=
  convention <- optionMenuGrp_query "namingConventionMenu" ;;
  selected_objects <- ls_selection ;;
  apply_naming_convention_loop convention selected_objects None.

(** What an operation has appended to the history. *)
Definition appended (s s' : state) : list (string * string) :=
  drop (length (renaming_history s)) (renaming_history s').

(** The host's renames of [objs] to their new names, one after the other up
    to the first that it refuses: the pairs of a name and the host's answer,
    the scene they leave, and the message of the refusal if there is one. *)
Fixpoint rename_batch (naming : Dag.naming_policy) (new_name : string -> string)
    (objs : list string) (d : list string)
    : list (string * string) * list string * option string :=
  match objs with
  | [] => ([], d, None)
  | obj :: objs' =>
      match Dag.rename naming d obj (new_name obj) with
      | inl (result, d') =>
          let '(added, d'', refusal) := rename_batch naming new_name objs' d' in
          ((obj, result) :: added, d'', refusal)
      | inr msg => ([], d, Some msg)
      end
  end.

(** Two groups [a] and [b], each with a child [x]; [a] and its child are
    selected.  The host lists the child by its path, since [x] alone would
    name two objects. *)
Definition nested_scene : state :=
  {| dag := ["|a"; "|a|x"; "|b"; "|b|x"];
     naming := Dag.accept_nonempty;
     selected := [0%nat; 1%nat];
     text_fields := text_fields arm_scene; int_fields := int_fields arm_scene;
     radio_buttons := radio_buttons arm_scene; option_menus := option_menus arm_scene;
     history_rows := Some []; renaming_history := []; open_chunks := []; warnings := [] |}.

(** Two objects at the top of the scene, [arm] and [b], both selected. *)
Definition short_names_scene : state :=
  {| dag := ["|arm"; "|b"];
     naming := Dag.accept_nonempty;
     selected := [0%nat; 1%nat];
     text_fields := text_fields arm_scene; int_fields := int_fields arm_scene;
     radio_buttons := radio_buttons arm_scene; option_menus := option_menus arm_scene;
     history_rows := Some []; renaming_history := []; open_chunks := []; warnings := [] |}.

End RenameTool.

(** ** clementdaures_uvsliding_tool.py: driving UV pin coordinates *)

Module UVSliding.
Import Py.
Local Open Scope py_scope.

Record state : Type := {
  nodes : list (string * string);          (* the nodes of the scene: name and type *)
  attrs : gmap plug value;                 (* the attributes that exist, with their values *)
  conns : list (plug * plug);              (* connections, source to destination *)
  selection : list string;                 (* cmds.ls(selection=True) *)
  text_fields : gmap string string;        (* textField widgets *)
  check_boxes : gmap string (bool * bool); (* checkBoxGrp widgets: value1, value2 *)
  selected_controller : string;            (* the global *)
  warnings : list string;
  dialogs : list string }.

Definition set_scene (n : list (string * string)) (a : gmap plug value)
    (c : list (plug * plug)) (s : state) : state :=
  {| nodes := n; attrs := a; conns := c; selection := selection s;
     text_fields := text_fields s; check_boxes := check_boxes s;
     selected_controller := selected_controller s;
     warnings := warnings s; dialogs := dialogs s |}.

Definition set_text_fields (t : gmap string string) (s : state) : state :=
  {| nodes := nodes s; attrs := attrs s; conns := conns s; selection := selection s;
     text_fields := t; check_boxes := check_boxes s;
     selected_controller := selected_controller s;
     warnings := warnings s; dialogs := dialogs s |}.

Definition set_selected_controller (c : string) (s : state) : state :=
  {| nodes := nodes s; attrs := attrs s; conns := conns s; selection := selection s;
     text_fields := text_fields s; check_boxes := check_boxes s;
     selected_controller := c;
     warnings := warnings s; dialogs := dialogs s |}.

Definition names (s : state) : list string := fst <$> nodes s.

(** [cmds.warning(msg)] *)
Definition warning (msg : string) : M state unit :=
  modify (fun s =>
    {| nodes := nodes s; attrs := attrs s; conns := conns s; selection := selection s;
       text_fields := text_fields s; check_boxes := check_boxes s;
       selected_controller := selected_controller s;
       warnings := warnings s ++ [msg]; dialogs := dialogs s |}).

(** [cmds.confirmDialog(title=..., message=msg)] *)
Definition confirmDialog (msg : string) : M state unit :=
  modify (fun s =>
    {| nodes := nodes s; attrs := attrs s; conns := conns s; selection := selection s;
       text_fields := text_fields s; check_boxes := check_boxes s;
       selected_controller := selected_controller s;
       warnings := warnings s; dialogs := dialogs s ++ [msg] |}).

(** *** Host commands

    The host is taken to behave as follows.  A widget query or edit raises
    [RuntimeError] when the widget does not exist.  [createNode] makes a node
    of the given type with the attributes of that type and answers its name,
    which is the name asked for when that is free and a numbered variant
    otherwise.  [getAttr] raises [ValueError] on a plug that does not exist;
    [setAttr], [addAttr] and [connectAttr] raise [RuntimeError] when they
    cannot be carried out: a plug that does not exist, a destination that is
    already driven, an attribute that is already there. *)

Definition widget_missing {A} (name : string) : M state A :=
  raise (RuntimeError ("Object '" +:+ name +:+ "' not found.")).

(** [cmds.textField(name, query=True, text=True)] *)
Definition textField_query (name : string) : M state string :=
  s <- gets id ;;
  match text_fields s !! name with
  | Some t => ret t
  | None => widget_missing name
  end.

(** [cmds.textField(name, edit=True, text=t)] *)
Definition textField_edit (name t : string) : M state unit :=
  s <- gets id ;;
  match text_fields s !! name with
  | Some _ => modify (set_text_fields (<[name := t]> (text_fields s)))
  | None => widget_missing name
  end.

(** [cmds.checkBoxGrp(name, query=True, value1=True)], [... value2=True] *)
Definition checkBoxGrp_query1 (name : string) : M state bool :=
  s <- gets id ;;
  match check_boxes s !! name with
  | Some v => ret (fst v)
  | None => widget_missing name
  end.
Definition checkBoxGrp_query2 (name : string) : M state bool :=
  s <- gets id ;;
  match check_boxes s !! name with
  | Some v => ret (snd v)
  | None => widget_missing name
  end.

(** [cmds.ls(selection=True)] *)
Definition ls_selection : M state (list string) := gets selection.

(** [cmds.objExists(name)] *)
Definition objExists (name : string) : M state bool :=
  gets (fun s => bool_decide (name ∈ names s)).

(** [cmds.attributeQuery(attr, node=node, exists=True)] *)
Definition attributeQuery_exists (attr node : string) : M state bool :=
  s <- gets id ;;
  if bool_decide (node ∈ names s)
  then ret (bool_decide (is_Some (attrs s !! Plug node attr)))
  else raise (RuntimeError ("No object matches name: " +:+ node)).

(** [cmds.addAttr(node, longName=attr, attributeType='double', keyable=True)] *)
Definition addAttr (node attr : string) : M state unit :=
  s <- gets id ;;
  if negb (bool_decide (node ∈ names s))
  then raise (RuntimeError ("No object matches name: " +:+ node))
  else
    match attrs s !! Plug node attr with
    | Some _ => raise (RuntimeError "Found an attribute of the same name")
    | None =>
        modify (fun s => set_scene (nodes s) (<[Plug node attr := VNum 0%Q]> (attrs s))
                                   (conns s) s)
    end.

Definition sources_of (p : plug) (c : list (plug * plug)) : list plug :=
  fst <$> filter (fun e => snd e = p) c.

(** [cmds.getAttr(p)] *)
Definition getAttr (p : plug) : M state value :=
  s <- gets id ;;
  match attrs s !! p with
  | Some v => ret v
  | None => raise (ValueError ("No object matches name: " +:+ plug_node p +:+ "."
                               +:+ plug_attr p))
  end.

(** [cmds.setAttr(p, v)] *)
Definition setAttr (p : plug) (v : value) : M state unit :=
  s <- gets id ;;
  match attrs s !! p with
  | Some _ =>
      if bool_decide (sources_of p (conns s) = [])
      then modify (fun s => set_scene (nodes s) (<[p := v]> (attrs s)) (conns s) s)
      else raise (RuntimeError "The attribute is locked or connected and cannot be modified")
  | None => raise (RuntimeError ("No object matches name: " +:+ plug_node p +:+ "."
                                 +:+ plug_attr p))
  end.

(** [cmds.connectAttr(src, dst)] *)
Definition connectAttr (src dst : plug) : M state unit :=
  s <- gets id ;;
  if negb (bool_decide (is_Some (attrs s !! src)) && bool_decide (is_Some (attrs s !! dst)))
  then raise (RuntimeError "The source or the destination attribute was not found")
  else if bool_decide (sources_of dst (conns s) = [])
  then modify (fun s => set_scene (nodes s) (attrs s) (conns s ++ [(src, dst)]) s)
  else raise (RuntimeError "The destination attribute already has an incoming connection").

(** The attributes of the two node types the script creates; their initial
    values are the host's. *)
Definition type_attrs (ty : string) : list string :=
  if String.eqb ty "addDoubleLinear" then ["input1"; "input2"; "output"]
  else if String.eqb ty "modulo" then ["input"; "modulus"; "output"]
  else [].

(** The name the host gives a new node. *)
Definition unique_name (taken : list string) (name : string) : string :=
  if bool_decide (name ∈ taken) then
    default name
      (head (filter (fun c => c ∉ taken)
               ((fun k : nat => name +:+ pretty k) <$> seq 1 (S (length taken)))))
  else name.

(** The attributes of a new node [n] of type [ty], added to those that exist. *)
Definition with_node_attrs (n : string) (l : list string) (m : gmap plug value)
    : gmap plug value :=
  foldr (fun a m => <[Plug n a := VNum 0%Q]> m) m l.

(** [cmds.createNode(ty, n=name)] *)
Definition createNode (ty name : string) : M state string :=
  s <- gets id ;;
  let n := unique_name (names s) name in
  modify (fun s =>
    set_scene (nodes s ++ [(n, ty)])
              (with_node_attrs n (type_attrs ty) (attrs s))
              (conns s) s) ;;;
  ret n.

(** *** The script *)

(** [select_controller] *)
Definition select_controller (controller_field : string) : M state unit :=
  sel <- ls_selection ;;
  match sel with
  | [] => warning "No controller selected. Please select a controller and try again."
  | first :: _ =>
      modify (set_selected_controller first) ;;;
      textField_edit controller_field first ;;;
      confirmDialog ("Controller '" +:+ first +:+ "' selected.")
  end.

(** [enumerate(l)], counting from [i]. *)
Fixpoint enumerate_from (i : nat) (l : list string) : list (nat * string) :=
  match l with
  | [] => []
  | x :: l' => (i, x) :: enumerate_from (S i) l'
  end.

(** [f'{uv_pin}.coordinate[{i}].{coordinate}'] *)
Definition coordinate_plug (uv_pin : string) (i : nat) (coordinate : string) : plug :=
  Plug uv_pin ("coordinate[" +:+ Str.of_int (Z.of_nat i) +:+ "]." +:+ coordinate).

(** The body of the loop of [run_script_on_joints]. *)
Definition drive_joint (controller attr_name uv_pin coordinate : string)
    (e : nat * string) : M state unit :=
  let i := fst e in
  let joint := snd e in
  uv_value <- getAttr (coordinate_plug uv_pin i coordinate) ;;
  let add_name := joint +:+ "_Add" in
  let modulo_name := joint +:+ "_Modulo" in
  add_node <- createNode "addDoubleLinear" add_name ;;
  modulo_node <- createNode "modulo" modulo_name ;;
  setAttr (Plug add_node "input1") uv_value ;;;
  setAttr (Plug modulo_node "modulus") (VNum 1%Q) ;;;
  connectAttr (Plug controller attr_name) (Plug add_node "input2") ;;;
  connectAttr (Plug add_node "output") (Plug modulo_node "input") ;;;
  connectAttr (Plug modulo_node "output") (coordinate_plug uv_pin i coordinate).

(** [run_script_on_joints] *)
Definition run_script_on_joints (controller_field attr_name_field uvpin_field u_or_v : string)
    : M state unit :=
  t <- textField_query controller_field ;;
  let controller_name := Str.strip t in
  (if Str.nonempty controller_name
   then modify (set_selected_controller controller_name) else ret tt) ;;;
  controller <- gets selected_controller ;;
  ex <- objExists controller ;;
  if negb ex then
    warning "Invalid controller specified. Please select or enter a valid controller."
  else
    t <- textField_query attr_name_field ;;
    let attr_name := Str.strip t in
    if negb (Str.nonempty attr_name) then
      warning "Please specify an attribute name to drive the UV pin."
    else
      has <- attributeQuery_exists attr_name controller ;;
      (if negb has then
         addAttr controller attr_name ;;;
         setAttr (Plug controller attr_name) (VNum 0%Q)
       else ret tt) ;;;
      t <- textField_query uvpin_field ;;
      let uv_pin := Str.strip t in
      ex <- (if negb (Str.nonempty uv_pin) then ret false else objExists uv_pin) ;;
      if negb ex then
        warning "Invalid UV pin specified. Please enter a valid UV pin name."
      else
        use_u <- checkBoxGrp_query1 u_or_v ;;
        use_v <- checkBoxGrp_query2 u_or_v ;;
        if Bool.eqb use_u use_v then
          warning "Please select either U or V coordinate, but not both."
        else
          let coordinate := if use_u then "coordinateU" else "coordinateV" in
          jnt_selection <- ls_selection ;;
          match jnt_selection with
          | [] => warning "No joints selected. Please select joints and try again."
          | _ =>
              for_each (enumerate_from 0 jnt_selection)
                (drive_joint controller attr_name uv_pin coordinate) ;;;
              confirmDialog "Script executed successfully on selected joints."
          end.

(** *** Scenes *)

(** Every attribute belongs to a node, and every connection joins two
    attributes. *)
Definition well_formed (s : state) : Prop :=
  (forall p, is_Some (attrs s !! p) -> plug_node p ∈ names s) /\
  (forall e, e ∈ conns s -> is_Some (attrs s !! fst e) /\ is_Some (attrs s !! snd e)).

(** The nodes the script makes for a list of joints, and the connections it
    makes for them, the first joint having index [i]. *)
Definition utility_nodes (joints : list string) : list (string * string) :=
  j ← joints; [(j +:+ "_Add", "addDoubleLinear"); (j +:+ "_Modulo", "modulo")].

Fixpoint utility_conns (driver : plug) (uv_pin coordinate : string) (i : nat)
    (joints : list string) : list (plug * plug) :=
  match joints with
  | [] => []
  | j :: joints' =>
      [(driver, Plug (j +:+ "_Add") "input2");
       (Plug (j +:+ "_Add") "output", Plug (j +:+ "_Modulo") "input");
       (Plug (j +:+ "_Modulo") "output", coordinate_plug uv_pin i coordinate)]
      ++ utility_conns driver uv_pin coordinate (S i) joints'
  end.

(** The attributes after the script has handled joint [j], whose coordinate
    had the value [uv]. *)
Definition joint_attrs (j : string) (uv : value) (m : gmap plug value)
    : gmap plug value :=
  <[Plug (j +:+ "_Modulo") "modulus" := VNum 1%Q]>
    (<[Plug (j +:+ "_Add") "input1" := uv]>
       (with_node_attrs (j +:+ "_Modulo") (type_attrs "modulo")
          (with_node_attrs (j +:+ "_Add") (type_attrs "addDoubleLinear") m))).

(** A ribbon with a UV pin of two coordinates and two selected joints. *)
Definition ribbon_scene : state :=
  {| nodes := [("ctrl", "transform"); ("uvPin1", "uvPin");
               ("jnt_a", "joint"); ("jnt_b", "joint")];
     attrs := list_to_map
       [(Plug "uvPin1" "coordinate[0].coordinateU", VNum 0.25%Q);
        (Plug "uvPin1" "coordinate[0].coordinateV", VNum 0.5%Q);
        (Plug "uvPin1" "coordinate[1].coordinateU", VNum 0.75%Q);
        (Plug "uvPin1" "coordinate[1].coordinateV", VNum 0.5%Q)];
     conns := [];
     selection := ["jnt_a"; "jnt_b"];
     text_fields := list_to_map
       [("controller_field", " ctrl "); ("attr_name_field", "offset");
        ("uvpin_field", "uvPin1")];
     check_boxes := list_to_map [("coordinate_selection", (true, false))];
     selected_controller := "";
     warnings := []; dialogs := [] |}.

(** The ribbon again, with the first coordinate already driven by the
    controller. *)
Definition driven_scene : state :=
  {| nodes := nodes ribbon_scene;
     attrs := <[Plug "ctrl" "offset" := VNum 0%Q]> (attrs ribbon_scene);
     conns := [(Plug "ctrl" "offset", Plug "uvPin1" "coordinate[0].coordinateU")];
     selection := selection ribbon_scene;
     text_fields := text_fields ribbon_scene;
     check_boxes := check_boxes ribbon_scene;
     selected_controller := "ctrl";
     warnings := []; dialogs := [] |}.

End UVSliding.

(** ** CD_matrix_parent_con.py: parent constraints out of matrix nodes *)

Module MatrixCon.
Import Py.
Local Open Scope py_scope.

(** *** The scene, the window and the instance *)

Record scene : Type := {
  nodes : list (string * string);     (* the nodes: name and type *)
  parent_of : gmap string string;     (* the parent of a DAG object, if it has one *)
  conns : list (plug * plug);         (* connections, source to destination *)
  vals : gmap plug value }.           (* the values given by setAttr *)

(** The fields of a [MatrixConstraint]. *)
Record instance : Type := {
  blend_matrix_node : option string;
  pick_rotate : bool;                 (* self.pick_matrix_options['rotate'] *)
  pick_scale : bool;
  pick_translate : bool;
  weight_translate : Q;
  weight_rotate : Q;
  weight_scale : Q }.

(** What the script prints, by content. *)
Inductive message : Type :=
| UpdatedPickMatrixOptions (rotate scale translate : bool)
| Disconnecting (connection destination : plug)
| BlendMatrixMissing
| BlendMatrixWithoutTargets (node : string)
| SetTargetWeights (i : Z) (translate rotate scale : Q)
| OffsetParentCreated.

Record state : Type := {
  scn : scene;
  selection : list string;            (* cmds.ls(selection=True) *)
  check_boxes : gmap string bool;     (* the check boxes that exist *)
  sliders : gmap string Q;            (* the floatSliderGrp widgets that exist *)
  self : instance;
  prints : list message;
  warnings : list string }.

Definition set_scn (c : scene) (s : state) : state :=
  {| scn := c; selection := selection s; check_boxes := check_boxes s;
     sliders := sliders s; self := self s; prints := prints s; warnings := warnings s |}.

Definition set_self (i : instance) (s : state) : state :=
  {| scn := scn s; selection := selection s; check_boxes := check_boxes s;
     sliders := sliders s; self := i; prints := prints s; warnings := warnings s |}.

Definition set_selection (l : list string) (s : state) : state :=
  {| scn := scn s; selection := l; check_boxes := check_boxes s;
     sliders := sliders s; self := self s; prints := prints s; warnings := warnings s |}.

Definition set_nodes (n : list (string * string)) (c : scene) : scene :=
  {| nodes := n; parent_of := parent_of c; conns := conns c; vals := vals c |}.
Definition set_parent_of (p : gmap string string) (c : scene) : scene :=
  {| nodes := nodes c; parent_of := p; conns := conns c; vals := vals c |}.
Definition set_conns (l : list (plug * plug)) (c : scene) : scene :=
  {| nodes := nodes c; parent_of := parent_of c; conns := l; vals := vals c |}.
Definition set_vals (v : gmap plug value) (c : scene) : scene :=
  {| nodes := nodes c; parent_of := parent_of c; conns := conns c; vals := v |}.

(** [print(...)], [cmds.warning(msg)] *)
Definition print (m : message) : M state unit :=
  modify (fun s =>
    {| scn := scn s; selection := selection s; check_boxes := check_boxes s;
       sliders := sliders s; self := self s; prints := prints s ++ [m];
       warnings := warnings s |}).

Definition warning (msg : string) : M state unit :=
  modify (fun s =>
    {| scn := scn s; selection := selection s; check_boxes := check_boxes s;
       sliders := sliders s; self := self s; prints := prints s;
       warnings := warnings s ++ [msg] |}).

(** *** Host commands

    The host is taken to behave as follows.  A node has the attributes of
    its type; the objects the user selects are DAG objects, which have
    [worldMatrix[0]], [worldInverseMatrix[0]] and [offsetParentMatrix].  A
    command on a plug that does not exist, [connectAttr] to a destination
    that is already driven and [disconnectAttr] of a connection that is not
    there raise [RuntimeError]; so does a query of a check box that does not
    exist.  [createNode] answers the name asked for when it is free and a
    numbered variant otherwise; the names asked for are taken to be legal,
    which they are when the selected objects are listed by their names and
    not by a path with [|].  The size of [target] on a blendMatrix is the
    number of its elements that a connection has created. *)

Definition names (c : scene) : list string := fst <$> nodes c.

Fixpoint type_of (name : string) (l : list (string * string)) : option string :=
  match l with
  | [] => None
  | e :: l' => if String.eqb (fst e) name then Some (snd e) else type_of name l'
  end.

Definition has_attr (ty attr : string) : bool :=
  if String.eqb ty "pickMatrix" then
    bool_decide (attr ∈ ["inputMatrix"; "outputMatrix"; "useRotate"; "useScale"; "useTranslate"])
  else if String.eqb ty "multMatrix" then
    String.eqb attr "matrixSum" || Str.startswith "matrixIn[" attr
  else if String.eqb ty "holdMatrix" then
    bool_decide (attr ∈ ["inMatrix"; "outMatrix"])
  else if String.eqb ty "blendMatrix" then
    bool_decide (attr ∈ ["inputMatrix"; "outputMatrix"; "target"])
    || Str.startswith "target[" attr
  else
    bool_decide (attr ∈ ["worldMatrix[0]"; "worldInverseMatrix[0]"; "offsetParentMatrix"]).

(** Whether a plug exists is a matter of the nodes. *)
Definition exists_in (N : list (string * string)) (p : plug) : bool :=
  match type_of (plug_node p) N with
  | Some ty => has_attr ty (plug_attr p)
  | None => false
  end.

Definition plug_exists (p : plug) (c : scene) : bool := exists_in (nodes c) p.

Definition no_plug {A} (p : plug) : M state A :=
  raise (RuntimeError ("No object matches name: " +:+ plug_node p +:+ "." +:+ plug_attr p)).

Definition sources_of (p : plug) (l : list (plug * plug)) : list plug :=
  fst <$> filter (fun e => snd e = p) l.

(** The connections without [e], and those that do not drive [dst]. *)
Definition without (e : plug * plug) (C : list (plug * plug)) : list (plug * plug) :=
  filter (fun x => x <> e) C.
Definition undrive (dst : plug) (C : list (plug * plug)) : list (plug * plug) :=
  filter (fun e => snd e <> dst) C.

(** [cmds.checkBox(name, exists=True)], [cmds.checkBox(name, query=True, value=True)] *)
Definition checkBox_exists (name : string) : M state bool :=
  gets (fun s => bool_decide (is_Some (check_boxes s !! name))).
Definition checkBox_query (name : string) : M state bool :=
  s <- gets id ;;
  match check_boxes s !! name with
  | Some b => ret b
  | None => raise (RuntimeError ("Object '" +:+ name +:+ "' not found."))
  end.

(** [cmds.floatSliderGrp(name, exists=True)], [... query=True, value=True] *)
Definition floatSliderGrp_exists (name : string) : M state bool :=
  gets (fun s => bool_decide (is_Some (sliders s !! name))).
Definition floatSliderGrp_query (name : string) : M state Q :=
  s <- gets id ;;
  match sliders s !! name with
  | Some v => ret v
  | None => raise (RuntimeError ("Object '" +:+ name +:+ "' not found."))
  end.

(** [cmds.ls(selection=True)], [cmds.select(clear=True)] *)
Definition ls_selection : M state (list string) := gets selection.
Definition select_clear : M state unit := modify (set_selection []).

(** [cmds.objExists(name)] *)
Definition objExists (name : string) : M state bool :=
  gets (fun s => bool_decide (name ∈ names (scn s))).

(** [cmds.attributeQuery(attr, node=node, exists=True)] *)
Definition attributeQuery_exists (attr node : string) : M state bool :=
  s <- gets id ;;
  match type_of node (nodes (scn s)) with
  | Some ty => ret (has_attr ty attr)
  | None => raise (RuntimeError ("No object matches name: " +:+ node))
  end.

(** [cmds.getAttr(f"{node}.target", size=True)] *)
Definition target_size (node : string) (c : scene) : Z :=
  len (filter (fun e => plug_node (snd e) = node /\
                        Str.startswith "target[" (plug_attr (snd e)) = true) (conns c)).

Definition getAttr_target_size (node : string) : M state Z :=
  s <- gets id ;;
  if plug_exists (Plug node "target") (scn s) then ret (target_size node (scn s))
  else no_plug (Plug node "target").

(** [cmds.createNode(ty, name=name)] *)
Definition createNode (ty name : string) : M state string :=
  s <- gets id ;;
  let n := UVSliding.unique_name (names (scn s)) name in
  modify (fun s => set_scn (set_nodes (nodes (scn s) ++ [(n, ty)]) (scn s)) s) ;;;
  ret n.

(** [cmds.setAttr(p, v)] *)
Definition setAttr (p : plug) (v : value) : M state unit :=
  s <- gets id ;;
  if negb (plug_exists p (scn s)) then no_plug p
  else if negb (bool_decide (sources_of p (conns (scn s)) = [])) then
    raise (RuntimeError "The attribute is locked or connected and cannot be modified")
  else modify (fun s => set_scn (set_vals (<[p := v]> (vals (scn s))) (scn s)) s).

(** [cmds.connectAttr(src, dst)] *)
Definition connectAttr (src dst : plug) : M state unit :=
  s <- gets id ;;
  if negb (plug_exists src (scn s)) then no_plug src
  else if negb (plug_exists dst (scn s)) then no_plug dst
  else if negb (bool_decide (sources_of dst (conns (scn s)) = [])) then
    raise (RuntimeError "The destination attribute already has an incoming connection")
  else modify (fun s => set_scn (set_conns (conns (scn s) ++ [(src, dst)]) (scn s)) s).

(** [cmds.disconnectAttr(src, dst)] *)
Definition disconnectAttr (src dst : plug) : M state unit :=
  s <- gets id ;;
  if bool_decide ((src, dst) ∈ conns (scn s)) then
    modify (fun s => set_scn (set_conns (without (src, dst) (conns (scn s))) (scn s)) s)
  else raise (RuntimeError "There is no connection to disconnect").

(** [cmds.listConnections(p, s=True, d=False, p=True)]; [None] is the empty
    list here. *)
Definition listConnections_sources (p : plug) : M state (list plug) :=
  s <- gets id ;;
  if plug_exists p (scn s) then ret (sources_of p (conns (scn s)))
  else raise (ValueError ("No object matches name: " +:+ plug_node p +:+ "."
                          +:+ plug_attr p)).

(** [cmds.listRelatives(obj, parent=True)] *)
Definition listRelatives_parent (obj : string) : M state (option string) :=
  s <- gets id ;;
  if bool_decide (obj ∈ names (scn s)) then ret (parent_of (scn s) !! obj)
  else raise (ValueError ("No object matches name: " +:+ obj)).

(** [cmds.matchTransform(obj, target)]: a matter of values, which the graph
    does not show. *)
Definition matchTransform (obj target : string) : M state unit :=
  s <- gets id ;;
  if bool_decide (obj ∈ names (scn s)) && bool_decide (target ∈ names (scn s))
  then ret tt
  else raise (RuntimeError "No object matches name").

(** [cmds.parent(child, new_parent)] *)
Definition parent (child new_parent : string) : M state unit :=
  s <- gets id ;;
  if bool_decide (child ∈ names (scn s)) && bool_decide (new_parent ∈ names (scn s))
  then modify (fun s =>
         set_scn (set_parent_of (<[child := new_parent]> (parent_of (scn s))) (scn s)) s)
  else raise (RuntimeError "No object matches name").

(** *** The methods of [MatrixConstraint] *)

Definition set_pick_rotate (b : bool) (i : instance) : instance :=
  {| blend_matrix_node := blend_matrix_node i; pick_rotate := b;
     pick_scale := pick_scale i; pick_translate := pick_translate i;
     weight_translate := weight_translate i; weight_rotate := weight_rotate i;
     weight_scale := weight_scale i |}.
Definition set_pick_scale (b : bool) (i : instance) : instance :=
  {| blend_matrix_node := blend_matrix_node i; pick_rotate := pick_rotate i;
     pick_scale := b; pick_translate := pick_translate i;
     weight_translate := weight_translate i; weight_rotate := weight_rotate i;
     weight_scale := weight_scale i |}.
Definition set_pick_translate (b : bool) (i : instance) : instance :=
  {| blend_matrix_node := blend_matrix_node i; pick_rotate := pick_rotate i;
     pick_scale := pick_scale i; pick_translate := b;
     weight_translate := weight_translate i; weight_rotate := weight_rotate i;
     weight_scale := weight_scale i |}.
Definition set_weight_translate (w : Q) (i : instance) : instance :=
  {| blend_matrix_node := blend_matrix_node i; pick_rotate := pick_rotate i;
     pick_scale := pick_scale i; pick_translate := pick_translate i;
     weight_translate := w; weight_rotate := weight_rotate i;
     weight_scale := weight_scale i |}.
Definition set_weight_rotate (w : Q) (i : instance) : instance :=
  {| blend_matrix_node := blend_matrix_node i; pick_rotate := pick_rotate i;
     pick_scale := pick_scale i; pick_translate := pick_translate i;
     weight_translate := weight_translate i; weight_rotate := w;
     weight_scale := weight_scale i |}.
Definition set_weight_scale (w : Q) (i : instance) : instance :=
  {| blend_matrix_node := blend_matrix_node i; pick_rotate := pick_rotate i;
     pick_scale := pick_scale i; pick_translate := pick_translate i;
     weight_translate := weight_translate i; weight_rotate := weight_rotate i;
     weight_scale := w |}.
Definition set_blend_matrix_node (n : option string) (i : instance) : instance :=
  {| blend_matrix_node := n; pick_rotate := pick_rotate i;
     pick_scale := pick_scale i; pick_translate := pick_translate i;
     weight_translate := weight_translate i; weight_rotate := weight_rotate i;
     weight_scale := weight_scale i |}.

(** [__init__] *)
Definition init : instance :=
  {| blend_matrix_node := None; pick_rotate := true; pick_scale := true;
     pick_translate := true; weight_translate := 0.5%Q; weight_rotate := 0.5%Q;
     weight_scale := 0.5%Q |}.

(** [if cmds.checkBox(name, exists=True): ... = cmds.checkBox(name, query=True, value=True)] *)
Definition read_check_box (name : string) (set : bool -> instance -> instance)
    : M state unit :=
  ex <- checkBox_exists name ;;
  if ex then b <- checkBox_query name ;; modify (fun s => set_self (set b (self s)) s)
  else ret tt.

Definition read_slider (name : string) (set : Q -> instance -> instance)
    : M state unit :=
  ex <- floatSliderGrp_exists name ;;
  if ex then v <- floatSliderGrp_query name ;; modify (fun s => set_self (set v (self s)) s)
  else ret tt.

(** [update_pick_matrix_options] *)
Definition update_pick_matrix_options : M state unit :=
  read_check_box "rotateCheckBox" set_pick_rotate ;;;
  read_check_box "scaleCheckBox" set_pick_scale ;;;
  read_check_box "translateCheckBox" set_pick_translate ;;;
  i <- gets self ;;
  print (UpdatedPickMatrixOptions (pick_rotate i) (pick_scale i) (pick_translate i)).

(** [f"{node}.target[{i}].{attr}"] *)
Definition target_plug (node : string) (i : Z) (attr : string) : plug :=
  Plug node ("target[" +:+ Str.of_int i +:+ "]." +:+ attr).

(** [range(n)] *)
Definition range (n : Z) : list Z := Z.of_nat <$> seq 0 (Z.to_nat n).

(** [update_blend_matrix_weights] *)
Definition update_blend_matrix_weights : M state unit :=
  read_slider "translateWeightSlider" set_weight_translate ;;;
  read_slider "rotateWeightSlider" set_weight_rotate ;;;
  read_slider "scaleWeightSlider" set_weight_scale ;;;
  i <- gets self ;;
  ex <- match blend_matrix_node i with
        | Some node => if Str.nonempty node then objExists node else ret false
        | None => ret false
        end ;;
  if negb ex then print BlendMatrixMissing
  else
    let node := default "" (blend_matrix_node i) in
    has_target <- attributeQuery_exists "target" node ;;
    target_count <- (if has_target then getAttr_target_size node else ret 0%Z) ;;
    if (target_count =? 0)%Z then print (BlendMatrixWithoutTargets node)
    else
      for_each (range target_count) (fun k =>
        setAttr (target_plug node k "translateWeight") (VNum (weight_translate i)) ;;;
        setAttr (target_plug node k "rotateWeight") (VNum (weight_rotate i)) ;;;
        setAttr (target_plug node k "scaleWeight") (VNum (weight_scale i))) ;;;
      print (SetTargetWeights (target_count - 1) (weight_translate i) (weight_rotate i)
               (weight_scale i)).

Definition hold_matrix_name (object_02 object_01 : string) : string :=
  "holdMat_" +:+ object_02 +:+ "_cc_by_" +:+ object_01.
Definition mult_matrix_name (object_02 object_01 : string) : string :=
  "multMat_" +:+ object_02 +:+ "_cc_by_" +:+ object_01.
Definition pick_matrix_name (object_02 object_01 : string) : string :=
  "pickMat_" +:+ object_02 +:+ "_cc_by_" +:+ object_01.

(** The pickMatrix node that both [create_*] methods begin with. *)
Definition create_pick_matrix (pick_matrix_name : string) : M state string :=
  pick_matrix <- createNode "pickMatrix" pick_matrix_name ;;
  i <- gets self ;;
  setAttr (Plug pick_matrix "useRotate") (VBool (pick_rotate i)) ;;;
  setAttr (Plug pick_matrix "useScale") (VBool (pick_scale i)) ;;;
  setAttr (Plug pick_matrix "useTranslate") (VBool (pick_translate i)) ;;;
  ret pick_matrix.

(** "Disconnect existing connections to offsetParentMatrix" *)
Definition disconnect_offset_parent_matrix (obj : string) : M state unit :=
  existing_connections <- listConnections_sources (Plug obj "offsetParentMatrix") ;;
  for_each existing_connections (fun connection =>
    print (Disconnecting connection (Plug obj "offsetParentMatrix")) ;;;
    disconnectAttr connection (Plug obj "offsetParentMatrix")).

(** [create_with_hold_matrix] *)
Definition create_with_hold_matrix (object_01 object_02 parent : string) : M state unit :=
  update_pick_matrix_options ;;;
  pick_matrix <- create_pick_matrix (pick_matrix_name object_02 object_01) ;;
  mult_matrix <- createNode "multMatrix" (mult_matrix_name object_02 object_01) ;;
  connectAttr (Plug object_02 "worldMatrix[0]") (Plug mult_matrix "matrixIn[0]") ;;;
  connectAttr (Plug object_01 "worldInverseMatrix[0]") (Plug mult_matrix "matrixIn[1]") ;;;
  hold_matrix <- createNode "holdMatrix" (hold_matrix_name object_02 object_01) ;;
  connectAttr (Plug mult_matrix "matrixSum") (Plug hold_matrix "inMatrix") ;;;
  disconnectAttr (Plug mult_matrix "matrixSum") (Plug hold_matrix "inMatrix") ;;;
  disconnectAttr (Plug object_02 "worldMatrix[0]") (Plug mult_matrix "matrixIn[0]") ;;;
  disconnectAttr (Plug object_01 "worldInverseMatrix[0]") (Plug mult_matrix "matrixIn[1]") ;;;
  disconnect_offset_parent_matrix object_02 ;;;
  connectAttr (Plug hold_matrix "outMatrix") (Plug mult_matrix "matrixIn[0]") ;;;
  connectAttr (Plug object_01 "worldMatrix[0]") (Plug pick_matrix "inputMatrix") ;;;
  connectAttr (Plug pick_matrix "outputMatrix") (Plug mult_matrix "matrixIn[1]") ;;;
  connectAttr (Plug parent "worldInverseMatrix[0]") (Plug mult_matrix "matrixIn[2]") ;;;
  connectAttr (Plug mult_matrix "matrixSum") (Plug object_02 "offsetParentMatrix").

(** [create_without_hold_matrix] *)
Definition create_without_hold_matrix (object_01 object_02 parent : string) : M state unit :=
  update_pick_matrix_options ;;;
  pick_matrix <- create_pick_matrix (pick_matrix_name object_02 object_01) ;;
  mult_matrix <- createNode "multMatrix" (mult_matrix_name object_02 object_01) ;;
  connectAttr (Plug object_01 "worldMatrix[0]") (Plug pick_matrix "inputMatrix") ;;;
  connectAttr (Plug pick_matrix "outputMatrix") (Plug mult_matrix "matrixIn[0]") ;;;
  connectAttr (Plug parent "worldInverseMatrix[0]") (Plug mult_matrix "matrixIn[1]") ;;;
  disconnect_offset_parent_matrix object_02 ;;;
  connectAttr (Plug mult_matrix "matrixSum") (Plug object_02 "offsetParentMatrix").

(** [enumerate(l, start=i)] *)
Fixpoint enumerate_from (i : Z) (l : list string) : list (Z * string) :=
  match l with
  | [] => []
  | x :: l' => (i, x) :: enumerate_from (i + 1) l'
  end.

(** [create_blend_matrix] *)
Definition create_blend_matrix (mult_matrices : list string) (constrained_object : string)
    : M state unit :=
  blend <- createNode "blendMatrix" ("blendMat_" +:+ constrained_object) ;;
  modify (fun s => set_self (set_blend_matrix_node (Some blend) (self s)) s) ;;;
  first <- lift (getitem mult_matrices 0) ;;
  connectAttr (Plug first "matrixSum") (Plug blend "inputMatrix") ;;;
  for_each (enumerate_from 1 (tail mult_matrices)) (fun e =>
    connectAttr (Plug (snd e) "matrixSum") (target_plug blend (fst e - 1) "targetMatrix")) ;;;
  disconnect_offset_parent_matrix constrained_object ;;;
  connectAttr (Plug blend "outputMatrix") (Plug constrained_object "offsetParentMatrix") ;;;
  update_blend_matrix_weights.

(** "Create a group offset": the parent of the constrained object, made when
    it has none. *)
Definition offset_parent (constrained_object : string) (announce : bool) : M state string :=
  parent_ <- listRelatives_parent constrained_object ;;
  match parent_ with
  | None =>
      offset_constrained_object <- createNode "transform" ("OFF_" +:+ constrained_object) ;;
      matchTransform offset_constrained_object constrained_object ;;;
      parent constrained_object offset_constrained_object ;;;
      select_clear ;;;
      (if announce then print OffsetParentCreated else ret tt) ;;;
      ret offset_constrained_object
  | Some p => ret p
  end.

(** [create_constraint] *)
Definition create_constraint : M state unit :=
  selected_objects <- ls_selection ;;
  if (len selected_objects <? 2)%Z then
    raise (ValueError "Please select at least two objects.")
  else
    let constraining_objects := removelast selected_objects in
    let constrained_object := List.last selected_objects "" in
    parent_ <- offset_parent constrained_object true ;;
    _ <- checkBox_query "rotateCheckBox" ;;
    _ <- checkBox_query "scaleCheckBox" ;;
    _ <- checkBox_query "translateCheckBox" ;;
    use_hold_matrix <- checkBox_query "offsetCheckBox" ;;
    (if use_hold_matrix then
       for_each constraining_objects (fun constraining_object =>
         create_with_hold_matrix constraining_object constrained_object parent_)
     else
       for_each constraining_objects (fun constraining_object =>
         create_without_hold_matrix constraining_object constrained_object parent_)) ;;;
    let mult_matrices := mult_matrix_name constrained_object <$> constraining_objects in
    if (1 <? len constraining_objects)%Z
    then create_blend_matrix mult_matrices constrained_object
    else ret tt.

(** [matrix_cc] *)
Definition matrix_cc : M state unit :=
  selected_objects <- ls_selection ;;
  if (len selected_objects <? 2)%Z then warning "Select at least two objects."
  else
    let constraining_objects := removelast selected_objects in
    let constrained_object := List.last selected_objects "" in
    parent_ <- offset_parent constrained_object false ;;
    use_hold_matrix <- checkBox_query "offsetCheckBox" ;;
    for_each constraining_objects (fun obj =>
      if use_hold_matrix
      then create_with_hold_matrix obj constrained_object parent_
      else create_without_hold_matrix obj constrained_object parent_) ;;;
    let mult_matrices := mult_matrix_name constrained_object <$> constraining_objects in
    if (1 <? len constraining_objects)%Z
    then create_blend_matrix mult_matrices constrained_object
    else ret tt.

(** The two buttons of the window, up to the closing of the window. *)
Definition matrix_cc_apply : M state unit :=
  update_blend_matrix_weights ;;;
  matrix_cc ;;;
  update_blend_matrix_weights.

(** *** The graph of a constraint

    What the methods leave in the scene, written out. *)

(** Each connection goes into a node of the scene, and no plug has two
    sources. *)
Definition well_formed (c : scene) : Prop :=
  (forall e, e ∈ conns c -> plug_node (snd e) ∈ names c) /\ NoDup (snd <$> conns c).

(** The objects the user selects have these plugs. *)
Definition dag_object (c : scene) (x : string) : Prop :=
  plug_exists (Plug x "worldMatrix[0]") c = true /\
  plug_exists (Plug x "worldInverseMatrix[0]") c = true /\
  plug_exists (Plug x "offsetParentMatrix") c = true.

(** The options after [update_pick_matrix_options]. *)
Definition options_from (cb : gmap string bool) (i : instance) : instance :=
  let i := from_option (fun b => set_pick_rotate b i) i (cb !! "rotateCheckBox") in
  let i := from_option (fun b => set_pick_scale b i) i (cb !! "scaleCheckBox") in
  from_option (fun b => set_pick_translate b i) i (cb !! "translateCheckBox").

(** The weights after the sliders are read. *)
Definition weights_from (sl : gmap string Q) (i : instance) : instance :=
  let i := from_option (fun v => set_weight_translate v i) i (sl !! "translateWeightSlider") in
  let i := from_option (fun v => set_weight_rotate v i) i (sl !! "rotateWeightSlider") in
  from_option (fun v => set_weight_scale v i) i (sl !! "scaleWeightSlider").

(** The values after the weights of target [k] are set. *)
Definition set_target_weights (node : string) (i : instance) (V : gmap plug value) (k : Z)
    : gmap plug value :=
  <[target_plug node k "scaleWeight" := VNum (weight_scale i)]>
    (<[target_plug node k "rotateWeight" := VNum (weight_rotate i)]>
       (<[target_plug node k "translateWeight" := VNum (weight_translate i)]> V)).

(** No connection drives a weight of a target of [node]. *)
Definition weights_free (node : string) (C : list (plug * plug)) : Prop :=
  forall e k a, e ∈ C -> a ∈ ["translateWeight"; "rotateWeight"; "scaleWeight"] ->
    snd e <> target_plug node k a.

(** The nodes made for the driver [o] of [c], in the order of their making. *)
Definition new_nodes (use_hold : bool) (c o : string) : list (string * string) :=
  [(pick_matrix_name c o, "pickMatrix"); (mult_matrix_name c o, "multMatrix")]
  ++ (if use_hold then [(hold_matrix_name c o, "holdMatrix")] else []).

(** The connections among them and from the driver [o] and the parent [p]. *)
Definition internal (use_hold : bool) (c p o : string) : list (plug * plug) :=
  let pick := pick_matrix_name c o in
  let mult := mult_matrix_name c o in
  if use_hold then
    [(Plug (hold_matrix_name c o) "outMatrix", Plug mult "matrixIn[0]");
     (Plug o "worldMatrix[0]", Plug pick "inputMatrix");
     (Plug pick "outputMatrix", Plug mult "matrixIn[1]");
     (Plug p "worldInverseMatrix[0]", Plug mult "matrixIn[2]")]
  else
    [(Plug o "worldMatrix[0]", Plug pick "inputMatrix");
     (Plug pick "outputMatrix", Plug mult "matrixIn[0]");
     (Plug p "worldInverseMatrix[0]", Plug mult "matrixIn[1]")].

(** The state after [create_with_hold_matrix] or [create_without_hold_matrix]
    for the driver [o]. *)
Definition after_create (use_hold : bool) (c p : string) (s : state) (o : string) : state :=
  let i := options_from (check_boxes s) (self s) in
  let opm := Plug c "offsetParentMatrix" in
  let pick := pick_matrix_name c o in
  {| scn := {| nodes := nodes (scn s) ++ new_nodes use_hold c o;
               parent_of := parent_of (scn s);
               conns := undrive opm (conns (scn s)) ++ internal use_hold c p o
                        ++ [(Plug (mult_matrix_name c o) "matrixSum", opm)];
               vals := <[Plug pick "useTranslate" := VBool (pick_translate i)]>
                         (<[Plug pick "useScale" := VBool (pick_scale i)]>
                            (<[Plug pick "useRotate" := VBool (pick_rotate i)]>
                               (vals (scn s)))) |};
     selection := selection s; check_boxes := check_boxes s; sliders := sliders s;
     self := i;
     prints := prints s
               ++ [UpdatedPickMatrixOptions (pick_rotate i) (pick_scale i) (pick_translate i)]
               ++ ((fun src => Disconnecting src opm) <$> sources_of opm (conns (scn s)));
     warnings := warnings s |}.

(** What drives [c] in the end: the multMatrix of a single driver, or a
    blendMatrix fed by the multMatrix nodes of several. *)
Definition blend_conns (c : string) (drivers : list string) : list (plug * plug) :=
  let blend := "blendMat_" +:+ c in
  let opm := Plug c "offsetParentMatrix" in
  match drivers with
  | [] => []
  | [o] => [(Plug (mult_matrix_name c o) "matrixSum", opm)]
  | o :: rest =>
      (Plug (mult_matrix_name c o) "matrixSum", Plug blend "inputMatrix")
      :: ((fun e => (Plug (mult_matrix_name c (snd e)) "matrixSum",
                     target_plug blend (fst e - 1) "targetMatrix"))
            <$> enumerate_from 1 rest)
      ++ [(Plug blend "outputMatrix", opm)]
  end.

Definition created_nodes (use_hold : bool) (c : string) (drivers : list string)
    : list (string * string) :=
  (drivers ≫= new_nodes use_hold c)
  ++ (if (1 <? len drivers)%Z then [("blendMat_" +:+ c, "blendMatrix")] else []).

Definition constraint_conns (use_hold : bool) (c p : string) (drivers : list string)
    (C : list (plug * plug)) : list (plug * plug) :=
  undrive (Plug c "offsetParentMatrix") C
  ++ (drivers ≫= internal use_hold c p) ++ blend_conns c drivers.

(** The group made above an object that has no parent, and the parent the
    constraint is built against. *)
Definition offset_name (c : scene) (x : string) : string :=
  UVSliding.unique_name (names c) ("OFF_" +:+ x).

Definition offset_nodes (c : scene) (x : string) : list (string * string) :=
  match parent_of c !! x with
  | Some _ => []
  | None => [(offset_name c x, "transform")]
  end.

Definition parent_used (c : scene) (x : string) : string :=
  default (offset_name c x) (parent_of c !! x).

(** *** Example scenes *)

(** Two drivers [a] and [b] and a driven object [c] under a group, selected
    in this order; the window is open with "Maintain offset" off. *)
Definition two_drivers : state :=
  {| scn := {| nodes := [("a", "transform"); ("b", "transform"); ("grp", "transform");
                         ("c", "transform")];
               parent_of := {["c" := "grp"]};
               conns := []; vals := ∅ |};
     selection := ["a"; "b"; "c"];
     check_boxes := list_to_map
       [("offsetCheckBox", false); ("rotateCheckBox", true); ("scaleCheckBox", false);
        ("translateCheckBox", true)];
     sliders := list_to_map
       [("translateWeightSlider", 1%Q); ("rotateWeightSlider", 0.5%Q);
        ("scaleWeightSlider", 0%Q)];
     self := init; prints := []; warnings := [] |}.

(** A blendMatrix with one target, as a constraint with two drivers leaves
    it; the sliders of the window have been moved since. *)
Definition blended : state :=
  {| scn := {| nodes := [("c", "transform"); ("m0", "multMatrix"); ("m1", "multMatrix");
                         ("blendMat_c", "blendMatrix")];
               parent_of := ∅;
               conns := [(Plug "m0" "matrixSum", Plug "blendMat_c" "inputMatrix");
                         (Plug "m1" "matrixSum", target_plug "blendMat_c" 0 "targetMatrix");
                         (Plug "blendMat_c" "outputMatrix", Plug "c" "offsetParentMatrix")];
               vals := ∅ |};
     selection := [];
     check_boxes := ∅;
     sliders := list_to_map
       [("translateWeightSlider", 1%Q); ("rotateWeightSlider", 0.25%Q)];
     self := set_blend_matrix_node (Some "blendMat_c") init; prints := []; warnings := [] |}.

End MatrixCon.

(** * Properties *)

(** ** Running computations step by step *)

Module PyFacts.
Import Py.

Lemma bind_ok {S A B} (m : M S A) (k : A -> M S B) (s s' : S) (a : A) :
  m s = (Ok a, s') -> bind m k s = k a s'.
Proof. intros H. unfold bind. now rewrite H. Qed.

Lemma bind_raise {S A B} (m : M S A) (k : A -> M S B) (s s' : S) (e : exn) :
  m s = (Raise e, s') -> bind m k s = (Raise e, s').
Proof. intros H. unfold bind. now rewrite H. Qed.

Lemma bind_gets {S A B} (f : S -> A) (k : A -> M S B) (s : S) :
  bind (gets f) k s = k (f s) s.
Proof. reflexivity. Qed.

Lemma bind_modify {S B} (f : S -> S) (k : unit -> M S B) (s : S) :
  bind (modify f) k s = k tt (f s).
Proof. reflexivity. Qed.

Lemma bind_ret {S A B} (a : A) (k : A -> M S B) (s : S) :
  bind (ret a) k s = k a s.
Proof. reflexivity. Qed.

Lemma bind_lift_ok {S A B} (a : A) (k : A -> M S B) (s : S) :
  bind (lift (Ok a)) k s = k a s.
Proof. reflexivity. Qed.

Lemma bind_bind {S A B C} (m : M S A) (k : A -> M S B) (h : B -> M S C) (s : S) :
  bind (bind m k) h s = bind m (fun a => bind (k a) h) s.
Proof. unfold bind. destruct (m s) as [[a|e] s']; reflexivity. Qed.

Lemma for_each_app {S A} (l1 l2 : list A) (body : A -> M S unit) (s : S) :
  for_each (l1 ++ l2) body s = bind (for_each l1 body) (fun _ => for_each l2 body) s.
Proof.
  revert s. induction l1 as [|x l1 IH]; intros s; cbn [for_each app].
  - reflexivity.
  - rewrite bind_bind.
    destruct (body x s) as [[[]|e] s'] eqn:E.
    + rewrite !(bind_ok _ _ _ _ _ E). apply IH.
    + now rewrite !(bind_raise _ _ _ _ _ E).
Qed.

Lemma subscript_in_range {A} (l : list A) (i : Z) :
  (0 <= i < len l)%Z -> subscript l i = Some (Z.to_nat i).
Proof.
  intros H. unfold subscript.
  destruct (Z.leb_spec 0 i); [|lia].
  destruct (Z.ltb_spec i (len l)); [|lia]. reflexivity.
Qed.

Lemma getitem_in_range {A} (l : list A) (i : Z) (x : A) :
  (0 <= i)%Z -> l !! Z.to_nat i = Some x -> getitem l i = Ok x.
Proof.
  intros Hi Hx. unfold getitem.
  rewrite subscript_in_range, Hx; [reflexivity|].
  apply lookup_lt_Some in Hx. unfold len. lia.
Qed.

Lemma setitem_in_range {A} (l : list A) (i : Z) (x : A) :
  (0 <= i < len l)%Z -> setitem l i x = Ok (<[Z.to_nat i := x]> l).
Proof. intros H. unfold setitem. now rewrite subscript_in_range. Qed.

Lemma len_insert {A} (l : list A) (n : nat) (x : A) : len (<[n := x]> l) = len l.
Proof. unfold len. now rewrite length_insert. Qed.

Lemma bind_inv {S A B} (m : M S A) (k : A -> M S B) (s s2 : S) (b : B) :
  bind m k s = (Ok b, s2) ->
  exists a s1, m s = (Ok a, s1) /\ k a s1 = (Ok b, s2).
Proof.
  unfold bind. destruct (m s) as [[a|e] s1]; [eauto|discriminate].
Qed.

Lemma ret_inv {S A} (a b : A) (s s' : S) : ret a s = (Ok b, s') -> b = a /\ s' = s.
Proof. intros [= -> ->]. auto. Qed.

Lemma modify_inv {S} (f : S -> S) (s s' : S) (u : unit) :
  modify f s = (Ok u, s') -> s' = f s.
Proof. intros [= _ <-]. reflexivity. Qed.

Lemma preserves_ret {S A} (P : S -> Prop) (a : A) : preserves P (ret a).
Proof. intros s H. exact H. Qed.

Lemma preserves_gets {S A} (P : S -> Prop) (f : S -> A) : preserves P (gets f).
Proof. intros s H. exact H. Qed.

Lemma preserves_raise {S A} (P : S -> Prop) (e : exn) : preserves P (@raise S A e).
Proof. intros s H. exact H. Qed.

Lemma preserves_lift {S A} (P : S -> Prop) (r : result A) : preserves P (@lift S A r).
Proof. intros s H. exact H. Qed.

Lemma preserves_modify {S} (P : S -> Prop) (f : S -> S) :
  (forall s, P s -> P (f s)) -> preserves P (modify f).
Proof. intros Hf s H. apply Hf, H. Qed.

Lemma preserves_bind {S A B} (P : S -> Prop) (m : M S A) (k : A -> M S B) :
  preserves P m -> (forall a, preserves P (k a)) -> preserves P (bind m k).
Proof.
  intros Hm Hk s H. unfold bind. specialize (Hm s H).
  destruct (m s) as [[a|e] s1]; cbn in *; [apply Hk, Hm|exact Hm].
Qed.

Lemma preserves_for_each {S A} (P : S -> Prop) (l : list A) (body : A -> M S unit) :
  (forall x, preserves P (body x)) -> preserves P (for_each l body).
Proof.
  intros Hb. induction l as [|x l IH]; cbn [for_each].
  - apply preserves_ret.
  - apply preserves_bind; [apply Hb|intros _; exact IH].
Qed.

Lemma preserves_try_runtime {S A} (P : S -> Prop) (m : M S A) (h : string -> M S A) :
  preserves P m -> (forall msg, preserves P (h msg)) -> preserves P (try_runtime m h).
Proof.
  intros Hm Hh s H. unfold try_runtime. specialize (Hm s H).
  destruct (m s) as [[a|[]] s1]; cbn in *; try exact Hm. apply Hh, Hm.
Qed.

End PyFacts.

(** ** Properties of CD_attrorder_tool.py *)

Module AttrOrderProps.
Import Py PyFacts AttrOrder.

(** The tuple assignment exchanges two rows that exist. *)
Lemma swap_custom_attrs_run (s : state) (i j : Z) (x y : string) :
  (0 <= i)%Z -> (0 <= j)%Z ->
  custom_attrs s !! Z.to_nat i = Some y ->
  custom_attrs s !! Z.to_nat j = Some x ->
  swap_custom_attrs i j s =
    (Ok tt, set_custom_attrs
              (<[Z.to_nat j := y]> (<[Z.to_nat i := x]> (custom_attrs s))) s).
Proof.
  intros Hi Hj Hy Hx.
  assert (Hli : (i < len (custom_attrs s))%Z)
    by (apply lookup_lt_Some in Hy; unfold len; lia).
  assert (Hlj : (j < len (custom_attrs s))%Z)
    by (apply lookup_lt_Some in Hx; unfold len; lia).
  unfold swap_custom_attrs. rewrite bind_gets.
  rewrite (getitem_in_range _ j x), bind_lift_ok by assumption.
  rewrite (getitem_in_range _ i y), bind_lift_ok by assumption.
  rewrite setitem_in_range, bind_lift_ok by lia.
  rewrite bind_modify.
  rewrite setitem_in_range, bind_lift_ok by (rewrite len_insert; lia).
  reflexivity.
Qed.

Lemma for_each_list_append (l : list string) (s : state) :
  for_each l list_append s =
    (Ok tt, set_list (list_items s ++ l) (list_selected s) s).
Proof.
  revert s. induction l as [|a l IH]; intros s; cbn.
  - unfold ret. rewrite app_nil_r. now destruct s.
  - unfold bind, list_append, modify. rewrite IH. cbn.
    now rewrite <- app_assoc.
Qed.

Lemma refresh_attributes_ui_run (s : state) :
  refresh_attributes_ui s = (Ok tt, set_list (custom_attrs s) [] s).
Proof.
  unfold refresh_attributes_ui, bind, list_remove_all, modify, gets.
  now rewrite for_each_list_append.
Qed.

(** [move_up] on an inner row, in closed form. *)
Lemma move_up_run (s : state) (p : Z) (x y : string) :
  (1 < p)%Z ->
  custom_attrs s !! Z.to_nat (p - 2) = Some x ->
  custom_attrs s !! Z.to_nat (p - 1) = Some y ->
  move_up (click_row p s) =
    (Ok tt,
     set_list (<[Z.to_nat (p - 1) := x]> (<[Z.to_nat (p - 2) := y]> (custom_attrs s))) []
       (set_custom_attrs
          (<[Z.to_nat (p - 1) := x]> (<[Z.to_nat (p - 2) := y]> (custom_attrs s))) s)).
Proof.
  intros Hp Hx Hy.
  unfold move_up, list_query_selected. rewrite bind_gets.
  cbn [click_row set_list list_selected]. fold (click_row p s).
  destruct (Z.gtb_spec (p - 1) 0) as [_|]; [|lia].
  replace (p - 1 - 1)%Z with (p - 2)%Z by lia.
  rewrite (bind_ok _ _ _ _ _ (swap_custom_attrs_run (click_row p s) (p - 2) (p - 1) y x
             ltac:(lia) ltac:(lia) Hx Hy)).
  rewrite refresh_attributes_ui_run. reflexivity.
Qed.

(** [move_down] on a row that is not the last, in closed form. *)
Lemma move_down_run (s : state) (p : Z) (x y : string) :
  (1 <= p)%Z ->
  custom_attrs s !! Z.to_nat (p - 1) = Some x ->
  custom_attrs s !! Z.to_nat p = Some y ->
  move_down (click_row p s) =
    (Ok tt,
     set_list (<[Z.to_nat (p - 1) := y]> (<[Z.to_nat p := x]> (custom_attrs s))) []
       (set_custom_attrs
          (<[Z.to_nat (p - 1) := y]> (<[Z.to_nat p := x]> (custom_attrs s))) s)).
Proof.
  intros Hp Hx Hy.
  assert (Hl : (p < len (custom_attrs s))%Z)
    by (apply lookup_lt_Some in Hy; unfold len; lia).
  unfold move_down, list_query_selected. rewrite bind_gets.
  cbn [click_row set_list list_selected]. fold (click_row p s).
  rewrite bind_gets. cbn [click_row set_list custom_attrs]. fold (click_row p s).
  destruct (Z.ltb_spec (p - 1) (len (custom_attrs s) - 1)) as [_|]; [|lia].
  replace (p - 1 + 1)%Z with p by lia.
  rewrite (bind_ok _ _ _ _ _ (swap_custom_attrs_run (click_row p s) p (p - 1) x y
             ltac:(lia) ltac:(lia) Hy Hx)).
  rewrite refresh_attributes_ui_run. reflexivity.
Qed.

(** C8.  For a list of attributes and a selected row [p] (counted from 1,
    within the list): [move_up] with [p > 1] exchanges rows [p-1] and [p] and
    keeps every other row; [move_up] on row 1 and [move_down] on the last
    row keep the list; [move_up] on row [p] followed by [move_down] on row
    [p-1], where the moved item now is, gives back the original list. *)
Theorem move_up_move_down_rows (s : state) (p : Z) :
  (1 <= p <= len (custom_attrs s))%Z ->
  let l := custom_attrs s in
  ((1 < p)%Z ->
     exists s', move_up (click_row p s) = (Ok tt, s') /\
       custom_attrs s' !! Z.to_nat (p - 2) = l !! Z.to_nat (p - 1) /\
       custom_attrs s' !! Z.to_nat (p - 1) = l !! Z.to_nat (p - 2) /\
       (forall k : nat, k <> Z.to_nat (p - 2) -> k <> Z.to_nat (p - 1) ->
          custom_attrs s' !! k = l !! k)) /\
  (p = 1%Z -> move_up (click_row p s) = (Ok tt, click_row p s)) /\
  (p = len l -> move_down (click_row p s) = (Ok tt, click_row p s)) /\
  ((1 < p)%Z ->
     exists s1 s2, move_up (click_row p s) = (Ok tt, s1) /\
       move_down (click_row (p - 1) s1) = (Ok tt, s2) /\
       custom_attrs s2 = l).
Proof.
  intros Hp l. subst l. unfold len in Hp.
  assert (Hup : (1 < p)%Z -> exists x y,
             custom_attrs s !! Z.to_nat (p - 2) = Some x /\
             custom_attrs s !! Z.to_nat (p - 1) = Some y).
  { intros H1.
    destruct (lookup_lt_is_Some_2 (custom_attrs s) (Z.to_nat (p - 2))) as [x Hx]; [lia|].
    destruct (lookup_lt_is_Some_2 (custom_attrs s) (Z.to_nat (p - 1))) as [y Hy]; [lia|].
    eauto. }
  repeat split.
  - intros H1. destruct (Hup H1) as (x & y & Hx & Hy).
    eexists. split; [apply (move_up_run s p x y); assumption|]. cbn.
    assert (Z.to_nat (p - 2) <> Z.to_nat (p - 1)) by lia.
    assert (Z.to_nat (p - 2) < length (custom_attrs s)) by lia.
    assert (Z.to_nat (p - 1) < length (custom_attrs s)) by lia.
    repeat split.
    + rewrite list_lookup_insert_ne by lia.
      rewrite list_lookup_insert_eq by lia. now rewrite Hy.
    + rewrite list_lookup_insert_eq by (rewrite length_insert; lia). now rewrite Hx.
    + intros k Hk1 Hk2. now rewrite !list_lookup_insert_ne by lia.
  - intros ->. reflexivity.
  - intros ->. unfold move_down, bind, list_query_selected, gets. cbn.
    destruct (Z.ltb_spec (len (custom_attrs s) - 1) (len (custom_attrs s) - 1)); [lia|].
    reflexivity.
  - intros H1. destruct (Hup H1) as (x & y & Hx & Hy).
    do 2 eexists. split; [apply (move_up_run s p x y); assumption|].
    assert (Z.to_nat (p - 2) <> Z.to_nat (p - 1)) by lia.
    assert (Z.to_nat (p - 2) < length (custom_attrs s)) by lia.
    assert (Z.to_nat (p - 1) < length (custom_attrs s)) by lia.
    replace (Z.to_nat (p - 2)) with (Z.to_nat (p - 1 - 1)) in * by lia.
    split.
    + apply (move_down_run _ (p - 1) y x); [lia| |]; cbn.
      * rewrite list_lookup_insert_ne by lia.
        apply list_lookup_insert_eq. lia.
      * apply list_lookup_insert_eq. rewrite length_insert. lia.
    + cbn. apply list_eq. intros k.
      destruct (decide (k = Z.to_nat (p - 1 - 1))) as [->|Hk1].
      * rewrite list_lookup_insert_eq by (rewrite !length_insert; lia). now rewrite Hx.
      * rewrite list_lookup_insert_ne by lia.
        destruct (decide (k = Z.to_nat (p - 1))) as [->|Hk2].
        -- rewrite list_lookup_insert_eq by (rewrite !length_insert; lia). now rewrite Hy.
        -- now rewrite !list_lookup_insert_ne by lia.
Qed.

Lemma move_up_move_down_rows_witness :
  exists s1 s2, move_up (click_row 2 three_rows) = (Ok tt, s1) /\
    move_down (click_row (2 - 1) s1) = (Ok tt, s2) /\
    custom_attrs s2 = ["roll"; "bend"; "twist"].
Proof.
  destruct (move_up_move_down_rows three_rows 2) as (_ & _ & _ & H).
  - unfold len. cbn. lia.
  - apply H. lia.
Defined.

(** C1.  On a controller whose custom attribute has a type other than
    [double] and [enum] and no incoming connection, [apply_reorder] deletes
    the attribute, adds nothing in its place, and stops with the host's error
    for the [setAttr] on the missing plug: the attribute does not exist
    afterwards. *)
Theorem apply_reorder_loses_long_attribute :
  lookup_attr (Plug "ctrl" "count") counter_scene <> None /\
  exists msg s',
    apply_reorder counter_scene = (Raise (RuntimeError msg), s') /\
    lookup_attr (Plug "ctrl" "count") s' = None /\
    scene_attrs s' = [].
Proof.
  split; [discriminate|].
  do 2 eexists. split; [vm_compute; reflexivity|]. split; reflexivity.
Qed.

(** *** Attribute lookup after the host's edits *)

Lemma find_attr_deleted (p : plug) (l : list (plug * attr_info)) :
  find_attr p (filter (fun e => fst e <> p) l) = None.
Proof.
  induction l as [|e l IH]; [reflexivity|].
  rewrite filter_cons. destruct (decide (fst e <> p)) as [Hne|Heq]; [|exact IH].
  cbn. destruct (decide (fst e = p)); [contradiction|exact IH].
Qed.

Lemma find_attr_app (p : plug) (l l' : list (plug * attr_info)) :
  find_attr p (l ++ l') =
    match find_attr p l with Some i => Some i | None => find_attr p l' end.
Proof.
  induction l as [|e l IH]; [reflexivity|].
  cbn. destruct (decide (fst e = p)); [reflexivity|exact IH].
Qed.

Lemma find_attr_update (p : plug) (f : attr_info -> attr_info)
    (l : list (plug * attr_info)) :
  find_attr p (update_attr p f l) = f <$> find_attr p l.
Proof.
  induction l as [|e l IH]; [reflexivity|].
  cbn. destruct (decide (fst e = p)) as [Heq|Hne]; cbn.
  - rewrite decide_True by assumption. reflexivity.
  - rewrite decide_False by assumption. exact IH.
Qed.

Lemma query_attr_ok (p : plug) (s : state) (i : attr_info) :
  lookup_attr p s = Some i -> query_attr p s = (Ok i, s).
Proof. intros H. unfold query_attr. rewrite bind_gets. cbn. now rewrite H. Qed.

Lemma query_attr_missing (p : plug) (s : state) :
  lookup_attr p s = None -> exists e, query_attr p s = (Raise e, s).
Proof.
  intros H. unfold query_attr. rewrite bind_gets. cbn. rewrite H. eexists. reflexivity.
Qed.

Lemma edit_attr_ok (p : plug) (f : attr_info -> attr_info) (s : state) (i : attr_info) :
  lookup_attr p s = Some i ->
  edit_attr p f s =
    (Ok tt, set_scene (update_attr p f (scene_attrs s)) (scene_conns s) s).
Proof. intros H. unfold edit_attr. rewrite bind_gets. cbn. now rewrite H. Qed.

Lemma edit_attr_missing (p : plug) (f : attr_info -> attr_info) (s : state) :
  lookup_attr p s = None -> exists e, edit_attr p f s = (Raise e, s).
Proof.
  intros H. unfold edit_attr. rewrite bind_gets. cbn. rewrite H. eexists. reflexivity.
Qed.

Lemma lookup_after_edit (p : plug) (f : attr_info -> attr_info) (s : state) :
  lookup_attr p (set_scene (update_attr p f (scene_attrs s)) (scene_conns s) s)
  = f <$> lookup_attr p s.
Proof. unfold lookup_attr. cbn. apply find_attr_update. Qed.

(** Restoring the outgoing connections leaves the attributes as they are. *)
Lemma connect_outputs_attrs (src : plug) (outs : list plug) (s s' : state) :
  for_each outs (fun o => connectAttr src o) s = (Ok tt, s') ->
  scene_attrs s' = scene_attrs s.
Proof.
  revert s. induction outs as [|o outs IH]; intros s; cbn [for_each].
  - intros [= <-]. reflexivity.
  - unfold connectAttr at 1. rewrite bind_bind, bind_gets. cbn beta.
    destruct (bool_decide _).
    + rewrite bind_modify. intros H. apply IH in H. rewrite H. reflexivity.
    + discriminate.
Qed.

(** The queries of [apply_reorder] on an existing attribute. *)
Lemma query_field_ok {A} (f : attr_info -> A) (p : plug) (s : state) (i : attr_info) :
  lookup_attr p s = Some i ->
  bind (query_attr p) (fun i => ret (f i)) s = (Ok (f i), s).
Proof. intros H. now rewrite (bind_ok _ _ _ _ _ (query_attr_ok p s i H)). Qed.

Lemma query_conns_ok {A} (g : state -> A) (p : plug) (s : state) (i : attr_info) :
  lookup_attr p s = Some i ->
  bind (query_attr p) (fun _ => gets g) s = (Ok (g s), s).
Proof. intros H. now rewrite (bind_ok _ _ _ _ _ (query_attr_ok p s i H)). Qed.

Lemma query_limit_ok {B} (lim : attr_info -> option value) (p : plug) (s : state)
    (i : attr_info) (k : option (list value) -> M state B) :
  lookup_attr p s = Some i ->
  bind (if bool_decide (is_Some (lim i))
        then bind (bind (query_attr p) (fun i0 => ret (option_list (lim i0))))
               (fun m => ret (Some m))
        else ret None) k s
  = k (match lim i with Some m => Some [m] | None => None end) s.
Proof.
  intros Hi. destruct (lim i) as [m|] eqn:E.
  - rewrite bool_decide_eq_true_2 by eauto.
    rewrite bind_bind, (bind_ok _ _ _ _ _ (query_field_ok _ _ _ _ Hi)).
    rewrite bind_ret, E. reflexivity.
  - rewrite bool_decide_eq_false_2 by (intros [? ?]; discriminate). reflexivity.
Qed.

Lemma reorder_attribute_run (s : state) (ctrl attr : string) (i : attr_info) :
  lookup_attr (Plug ctrl attr) s = Some i ->
  reorder_attribute ctrl attr s =
    bind (if String.eqb (a_type i) "enum"
          then bind (lift (getitem (option_list (a_enum i)) 0)) (fun e => ret (Some e))
          else ret None)
      (fun enum_options =>
         recreate ctrl attr i
           (sources_of (Plug ctrl attr) (scene_conns s))
           (destinations_of (Plug ctrl attr) (scene_conns s)) enum_options) s.
Proof.
  intros Hi. unfold reorder_attribute.
  unfold listConnections_source.
  rewrite (bind_ok _ _ _ _ _ (query_conns_ok _ _ _ _ Hi)).
  unfold getAttr.
  rewrite (bind_ok _ _ _ _ _ (query_field_ok _ _ _ _ Hi)).
  unfold attributeQuery_attributeType.
  rewrite (bind_ok _ _ _ _ _ (query_field_ok _ _ _ _ Hi)).
  unfold attributeQuery_minExists.
  rewrite (bind_ok _ _ _ _ _ (query_field_ok _ _ _ _ Hi)).
  unfold attributeQuery_minimum, attributeQuery_maxExists, attributeQuery_maximum.
  rewrite (query_limit_ok a_min _ _ _ _ Hi).
  rewrite (bind_ok _ _ _ _ _ (query_field_ok _ _ _ _ Hi)).
  rewrite (query_limit_ok a_max _ _ _ _ Hi).
  assert (Hrest : forall enum_options,
    bind (getAttr_keyable (Plug ctrl attr)) (fun is_keyable =>
      bind (getAttr_lock (Plug ctrl attr)) (fun is_locked =>
        bind (listConnections_destination (Plug ctrl attr)) (fun outputs =>
          recreate ctrl attr
            {| a_type := a_type i; a_min := a_min i; a_max := a_max i;
               a_enum := a_enum i; a_keyable := is_keyable; a_lock := is_locked;
               a_value := a_value i; a_proxy := a_proxy i |}
            (sources_of (Plug ctrl attr) (scene_conns s))
            outputs enum_options))) s
    = recreate ctrl attr i (sources_of (Plug ctrl attr) (scene_conns s))
        (destinations_of (Plug ctrl attr) (scene_conns s)) enum_options s).
  { intros eo. unfold getAttr_keyable, getAttr_lock, listConnections_destination.
    rewrite (bind_ok _ _ _ _ _ (query_field_ok _ _ _ _ Hi)).
    rewrite (bind_ok _ _ _ _ _ (query_field_ok _ _ _ _ Hi)).
    rewrite (bind_ok _ _ _ _ _ (query_conns_ok _ _ _ _ Hi)).
    destruct i; reflexivity. }
  unfold attributeQuery_listEnum.
  destruct (String.eqb (a_type i) "enum") eqn:Hty.
  - rewrite bind_bind.
    rewrite (bind_ok _ _ _ _ _ (query_field_ok _ _ _ _ Hi)).
    destruct (a_enum i) as [e|] eqn:He.
    + change (getitem (option_list (Some e)) 0) with (@Ok string e).
      rewrite !bind_bind, !bind_lift_ok, !bind_ret.
      rewrite <- Hrest. unfold recreate.
      cbn [a_type a_min a_max a_enum a_keyable a_lock a_value a_proxy].
      rewrite Hty.
      destruct (a_min i), (a_max i); reflexivity.
    + reflexivity.
  - rewrite !bind_ret. rewrite <- Hrest. unfold recreate.
    cbn [a_type a_min a_max a_enum a_keyable a_lock a_value a_proxy].
    rewrite Hty.
    destruct (a_min i), (a_max i); reflexivity.
Qed.

(** *** The recreated attribute *)

Lemma edit_attr_mirrors (p : plug) (o : option plug) (f : attr_info -> attr_info)
    (s s' : state) :
  (forall i, a_proxy (f i) = a_proxy i) ->
  mirrors p o s -> edit_attr p f s = (Ok tt, s') -> mirrors p o s'.
Proof.
  intros Hf (i & Hi & Ho) H.
  rewrite (edit_attr_ok p f s i Hi) in H. injection H as <-.
  exists (f i). rewrite lookup_after_edit, Hi. split; [reflexivity|].
  now rewrite Hf.
Qed.

Lemma setAttr_mirrors (p : plug) (o : option plug) (v : value) (s s' : state) :
  mirrors p o s -> setAttr p v s = (Ok tt, s') -> mirrors p o s'.
Proof.
  intros Hm H. unfold setAttr in H. rewrite bind_gets in H. cbn beta in H.
  destruct Hm as (i & Hi & Ho). unfold id in H. rewrite Hi in H.
  destruct (_ || _); [discriminate|].
  eapply edit_attr_mirrors; [| |exact H]; [reflexivity|]. exists i. auto.
Qed.

Lemma connect_outputs_mirrors (p src : plug) (o : option plug) (outs : list plug)
    (s s' : state) :
  mirrors p o s ->
  for_each outs (fun out => connectAttr src out) s = (Ok tt, s') ->
  mirrors p o s'.
Proof.
  intros (i & Hi & Ho) H. apply connect_outputs_attrs in H.
  exists i. unfold lookup_attr in *. rewrite H. auto.
Qed.

Lemma add_new_attr_mirrors (p : plug) (i : attr_info) (driver : option plug)
    (s s' : state) :
  add_new_attr p i driver s = (Ok tt, s') -> mirrors p (a_proxy i) s'.
Proof.
  unfold add_new_attr. rewrite bind_gets. cbn beta. unfold id.
  destruct (lookup_attr p s) eqn:E; [discriminate|].
  intros H. apply modify_inv in H. subst s'.
  exists i. split; [|reflexivity].
  unfold lookup_attr in *. cbn. rewrite find_attr_app, E. cbn.
  now rewrite decide_True.
Qed.

Lemma recreate_mirrors (ctrl attr : string) (i : attr_info) (inputs outputs : list plug)
    (enum_options : option string) (s s' : state) :
  recreate ctrl attr i inputs outputs enum_options s = (Ok tt, s') ->
  mirrors (Plug ctrl attr) (head inputs) s'.
Proof.
  unfold recreate. intros H.
  apply bind_inv in H as ([] & s1 & Hdel & H).
  apply bind_inv in H as ([] & s2 & Hadd & H).
  eapply connect_outputs_mirrors; [|exact H]. clear H.
  assert (Hgone : lookup_attr (Plug ctrl attr) s1 = None).
  { unfold deleteAttr in Hdel. rewrite bind_gets in Hdel. cbn beta in Hdel.
    unfold id in Hdel. destruct (lookup_attr _ s) as [j|]; [|discriminate].
    destruct (a_lock j); [discriminate|].
    apply modify_inv in Hdel. subst s1. unfold lookup_attr. cbn.
    apply find_attr_deleted. }
  destruct (head inputs) as [src|].
  - apply bind_inv in Hadd as ([] & s3 & Hadd & Hw).
    apply add_new_attr_mirrors in Hadd. cbn in Hadd.
    unfold warning in Hw. apply modify_inv in Hw. subst s2.
    destruct Hadd as (i' & Hi' & Hp). exists i'. auto.
  - apply bind_inv in Hadd as ([] & s3 & Hadd & Hset).
    apply bind_inv in Hset as ([] & s4 & Hval & Hset).
    apply bind_inv in Hset as ([] & s5 & Hlock & Hkey).
    assert (Hm3 : mirrors (Plug ctrl attr) None s3).
    { destruct (String.eqb (a_type i) "double").
      - apply bind_inv in Hadd as ([] & t1 & Hadd & Hlim).
        apply bind_inv in Hlim as ([] & t2 & Hmin & Hmax).
        apply add_new_attr_mirrors in Hadd. cbn in Hadd.
        assert (Hm2 : mirrors (Plug ctrl attr) None t2).
        { destruct (a_min i).
          - eapply edit_attr_mirrors; [| |exact Hmin]; [reflexivity|assumption].
          - apply ret_inv in Hmin as [_ ->]. assumption. }
        destruct (a_max i).
        + eapply edit_attr_mirrors; [| |exact Hmax]; [reflexivity|assumption].
        + apply ret_inv in Hmax as [_ ->]. assumption.
      - destruct (String.eqb (a_type i) "enum").
        + destruct enum_options; apply add_new_attr_mirrors in Hadd; exact Hadd.
        + apply ret_inv in Hadd as [_ ->].
          unfold setAttr in Hval. rewrite bind_gets in Hval. cbn beta in Hval.
          unfold id in Hval. rewrite Hgone in Hval. discriminate. }
    eapply edit_attr_mirrors; [| |exact Hkey]; [reflexivity|].
    eapply edit_attr_mirrors; [| |exact Hlock]; [reflexivity|].
    eapply setAttr_mirrors; [|exact Hval]. assumption.
Qed.

(** What the code tests is an incoming connection.  When [reorder_attribute]
    completes, the attribute exists again, and it is a proxy exactly when it
    had an incoming connection before: it then mirrors the first plug that
    drove it, whether or not it owned its storage; with no incoming
    connection it owns its storage. *)
Lemma reorder_attribute_proxy_iff_driven (s s' : state) (ctrl attr : string) :
  reorder_attribute ctrl attr s = (Ok tt, s') ->
  (exists i', lookup_attr (Plug ctrl attr) s' = Some i' /\
              a_proxy i' = head (sources_of (Plug ctrl attr) (scene_conns s))) /\
  (is_proxy (Plug ctrl attr) s' = true <->
   sources_of (Plug ctrl attr) (scene_conns s) <> []).
Proof.
  intros H.
  cut (mirrors (Plug ctrl attr) (head (sources_of (Plug ctrl attr) (scene_conns s))) s').
  { intros (i' & Hi' & Hp). split; [eauto|].
    unfold is_proxy. rewrite Hi', Hp.
    destruct (sources_of _ _); cbn [head].
    - rewrite bool_decide_eq_false_2 by (intros [? ?]; discriminate).
      split; [discriminate|congruence].
    - rewrite bool_decide_eq_true_2 by eauto. split; [discriminate|reflexivity]. }
  destruct (lookup_attr (Plug ctrl attr) s) as [i|] eqn:Hi.
  - rewrite (reorder_attribute_run s ctrl attr i Hi) in H.
    apply bind_inv in H as (eo & s1 & _ & H).
    apply recreate_mirrors in H. exact H.
  - unfold reorder_attribute, listConnections_source in H.
    rewrite bind_bind in H.
    destruct (query_attr_missing _ _ Hi) as [e He].
    rewrite (bind_raise _ _ _ _ _ He) in H. discriminate.
Qed.

Lemma reorder_attribute_proxy_iff_driven_witness :
  is_proxy (Plug "ctrl" "roll") (snd (reorder_attribute "ctrl" "roll" keyed_scene)) = true <->
  sources_of (Plug "ctrl" "roll") (scene_conns keyed_scene) <> [].
Proof.
  apply (reorder_attribute_proxy_iff_driven keyed_scene _ "ctrl" "roll").
  vm_compute. reflexivity.
Defined.

(** C2.  The attribute [roll] of [keyed_scene] is a 'double' that owns its
    storage and is keyable; an animation curve drives it.  [apply_reorder]
    returns, and [roll] is then an attribute of type 'proxy' that mirrors the
    output of the curve and is not keyable: an attribute that merely has an
    incoming connection is recreated as a proxy, and it does not come back
    with the settings it had.  (The host is taken to accept the [addAttr] of
    a proxy and to create attributes not keyable.) *)
Theorem keyed_attribute_recreated_as_proxy :
  (exists i,
     lookup_attr (Plug "ctrl" "roll") keyed_scene = Some i /\
     a_proxy i = None /\ a_type i = "double" /\ a_keyable i = true) /\
  is_proxy (Plug "ctrl" "roll") keyed_scene = false /\
  sources_of (Plug "ctrl" "roll") (scene_conns keyed_scene)
    = [Plug "ctrl_roll_curve" "output"] /\
  exists s' i',
    apply_reorder keyed_scene = (Ok tt, s') /\
    lookup_attr (Plug "ctrl" "roll") s' = Some i' /\
    a_proxy i' = Some (Plug "ctrl_roll_curve" "output") /\
    a_type i' = "proxy" /\ a_keyable i' = false /\
    is_proxy (Plug "ctrl" "roll") s' = true.
Proof.
  split; [eexists; split; [reflexivity|]; repeat split|].
  split; [reflexivity|]. split; [reflexivity|].
  do 2 eexists. split; [vm_compute; reflexivity|].
  split; [reflexivity|]. repeat split.
Qed.


(** *** Moving rows, for every state of the window *)

Lemma insert_cons_Permutation (l : list string) (n : nat) (x a : string) :
  l !! n = Some x -> x :: <[n := a]> l ≡ₚ a :: l.
Proof.
  revert n. induction l as [|b l IH]; intros [|n] H; try discriminate; cbn in *.
  - injection H as ->. apply Permutation_swap.
  - rewrite Permutation_swap, (IH n H). apply Permutation_swap.
Qed.

Lemma insert_swap_Permutation (l : list string) (m n : nat) (x y : string) :
  l !! m = Some y -> l !! n = Some x -> <[n := y]> (<[m := x]> l) ≡ₚ l.
Proof.
  revert m n. induction l as [|a l IH]; intros [|m] [|n] Hy Hx; try discriminate;
    cbn in *.
  - injection Hy as ->. injection Hx as ->. reflexivity.
  - injection Hy as ->. now apply insert_cons_Permutation.
  - injection Hx as ->. now apply insert_cons_Permutation.
  - now rewrite (IH m n).
Qed.

Lemma subscript_insert (l : list string) (n : nat) (x : string) (i : Z) :
  subscript (<[n := x]> l) i = subscript l i.
Proof. unfold subscript. now rewrite len_insert. Qed.

(** An exchange either raises [IndexError] before anything is assigned, or
    exchanges two entries. *)
Lemma swap_custom_attrs_cases (s : state) (i j : Z) :
  (exists e, swap_custom_attrs i j s = (Raise e, s)) \/
  (exists l', swap_custom_attrs i j s = (Ok tt, set_custom_attrs l' s) /\
              l' ≡ₚ custom_attrs s).
Proof.
  unfold swap_custom_attrs. rewrite bind_gets. unfold getitem, setitem.
  destruct (subscript (custom_attrs s) j) as [n|] eqn:Hj;
    [|left; eexists; reflexivity].
  destruct (custom_attrs s !! n) as [x|] eqn:Hx; [|left; eexists; reflexivity].
  rewrite bind_lift_ok.
  destruct (subscript (custom_attrs s) i) as [m|] eqn:Hi;
    [|left; eexists; reflexivity].
  destruct (custom_attrs s !! m) as [y|] eqn:Hy; [|left; eexists; reflexivity].
  rewrite !bind_lift_ok, bind_modify. rewrite subscript_insert, Hj, bind_lift_ok.
  right. eexists. split; [reflexivity|]. now apply insert_swap_Permutation.
Qed.

Lemma moved_state (s : state) (swap : M state unit) :
  ((exists e, swap s = (Raise e, s)) \/
   (exists l', swap s = (Ok tt, set_custom_attrs l' s) /\ l' ≡ₚ custom_attrs s)) ->
  snd (bind swap (fun _ => refresh_attributes_ui) s) = s \/
  exists l', l' ≡ₚ custom_attrs s /\
    bind swap (fun _ => refresh_attributes_ui) s
    = (Ok tt, set_list l' [] (set_custom_attrs l' s)).
Proof.
  intros [[e H]|(l' & H & Hp)].
  - left. now rewrite (bind_raise _ _ _ _ _ H).
  - right. exists l'. split; [exact Hp|].
    rewrite (bind_ok _ _ _ _ _ H). now rewrite refresh_attributes_ui_run.
Qed.

Lemma move_up_cases (s : state) :
  snd (move_up s) = s \/
  exists l', l' ≡ₚ custom_attrs s /\ move_up s = (Ok tt, set_list l' [] (set_custom_attrs l' s)).
Proof.
  unfold move_up, list_query_selected. rewrite bind_gets.
  destruct (list_selected s) as [|p sel]; [now left|]. cbv zeta.
  destruct (p - 1 >? 0)%Z; [|now left].
  apply moved_state, swap_custom_attrs_cases.
Qed.

Lemma move_down_cases (s : state) :
  snd (move_down s) = s \/
  exists l', l' ≡ₚ custom_attrs s /\ move_down s = (Ok tt, set_list l' [] (set_custom_attrs l' s)).
Proof.
  unfold move_down, list_query_selected. rewrite bind_gets.
  destruct (list_selected s) as [|p sel]; [now left|]. cbv zeta. rewrite bind_gets.
  destruct (p - 1 <? len (custom_attrs s) - 1)%Z; [|now left].
  apply moved_state, swap_custom_attrs_cases.
Qed.

(** X15: Move Up and Move Down only ever permute the list of attribute
    names, whatever row is selected (also none, a row outside the list, or a
    subscript that Python counts from the end): no name is lost, repeated or
    invented, and the attributes and connections of the scene are not
    touched; only Apply Reordering changes the scene. *)
Theorem moves_permute_custom_attrs (s : state) :
  (custom_attrs (snd (move_up s)) ≡ₚ custom_attrs s /\
   scene_attrs (snd (move_up s)) = scene_attrs s /\
   scene_conns (snd (move_up s)) = scene_conns s) /\
  (custom_attrs (snd (move_down s)) ≡ₚ custom_attrs s /\
   scene_attrs (snd (move_down s)) = scene_attrs s /\
   scene_conns (snd (move_down s)) = scene_conns s).
Proof.
  split.
  - destruct (move_up_cases s) as [->|(l' & Hp & ->)]; [auto|]. cbn. auto.
  - destruct (move_down_cases s) as [->|(l' & Hp & ->)]; [auto|]. cbn. auto.
Qed.

Lemma no_row_selected_no_move (s : state) :
  list_selected s = [] -> move_up s = (Ok tt, s) /\ move_down s = (Ok tt, s).
Proof.
  intros H. unfold move_up, move_down, list_query_selected. rewrite !bind_gets, H. auto.
Qed.

(** X16: a row that has moved is no longer selected.  When Move Up or Move
    Down has changed the list, the list widget has been rebuilt and no row
    is selected in it, so a further click on Move Up or Move Down does
    nothing until the user selects a row again. *)
Theorem moved_row_loses_selection (s : state) (move : M state unit) :
  move = move_up \/ move = move_down ->
  custom_attrs (snd (move s)) <> custom_attrs s ->
  list_selected (snd (move s)) = [] /\
  list_items (snd (move s)) = custom_attrs (snd (move s)) /\
  move_up (snd (move s)) = (Ok tt, snd (move s)) /\
  move_down (snd (move s)) = (Ok tt, snd (move s)).
Proof.
  intros Hm Hch.
  assert (Hc : snd (move s) = s \/
               exists l', l' ≡ₚ custom_attrs s /\
                 move s = (Ok tt, set_list l' [] (set_custom_attrs l' s))).
  { destruct Hm as [->| ->]; [apply move_up_cases|apply move_down_cases]. }
  destruct Hc as [Hs|(l' & _ & Hs)].
  - rewrite Hs in Hch. contradiction.
  - rewrite Hs. cbn [snd]. split; [reflexivity|]. split; [reflexivity|].
    now apply no_row_selected_no_move.
Qed.

Lemma moved_row_loses_selection_witness :
  list_selected (snd (move_up (click_row 2 three_rows))) = [] /\
  list_items (snd (move_up (click_row 2 three_rows)))
    = custom_attrs (snd (move_up (click_row 2 three_rows))) /\
  move_up (snd (move_up (click_row 2 three_rows)))
    = (Ok tt, snd (move_up (click_row 2 three_rows))) /\
  move_down (snd (move_up (click_row 2 three_rows)))
    = (Ok tt, snd (move_up (click_row 2 three_rows))).
Proof.
  apply (moved_row_loses_selection (click_row 2 three_rows) move_up).
  - now left.
  - vm_compute. discriminate.
Defined.


(** *** Choosing the controller *)

Lemma refresh_attributes_run (s : state) (ctrl : string) :
  controller s = Some ctrl -> Str.nonempty ctrl = true ->
  exists s',
    refresh_attributes s = (Ok tt, s') /\
    controller s' = Some ctrl /\
    custom_attrs s'
      = plug_attr <$> filter (fun p => plug_node p = ctrl) (fst <$> scene_attrs s) /\
    list_items s' = custom_attrs s' /\ list_selected s' = [] /\
    scene_attrs s' = scene_attrs s /\ scene_conns s' = scene_conns s /\
    warnings s'
      = warnings s ++ (if custom_attrs s' is []
                       then ["No custom attributes found on " +:+ ctrl +:+ "."]
                       else []).
Proof.
  intros Hc Hne. unfold refresh_attributes, list_remove_all, listAttr_userDefined.
  rewrite bind_modify, bind_gets. cbn [controller set_list]. rewrite Hc.
  cbn [chosen_controller]. rewrite Hne.
  rewrite bind_gets, bind_modify. cbn [scene_attrs set_list].
  destruct (plug_attr <$> filter _ (fst <$> scene_attrs s)) as [|a l] eqn:E.
  - eexists. split; [reflexivity|]. cbn. rewrite Hc. auto 10.
  - rewrite for_each_list_append. eexists. split; [reflexivity|]. cbn.
    rewrite Hc, app_nil_r. auto 10.
Qed.

(** X17: Select Controller with a non-empty scene selection makes the first
    selected object the controller and loads its user-defined attributes, in
    the scene's display order, both into the tool's list and into the rows
    shown (no row selected); it warns when there are none.  With nothing
    selected it only warns: the controller and the list chosen before stay in
    force.  The scene is never touched.  (The host lists no object under the
    empty name; were it to, the object would become the controller, the rows
    would be cleared and the tool's list kept, with the warning that no
    controller is selected.) *)
Theorem select_controller_loads_attributes (s : state) :
  match selection s with
  | first :: _ =>
      if Str.nonempty first then
        exists s',
          select_controller s = (Ok tt, s') /\
          controller s' = Some first /\
          custom_attrs s'
            = plug_attr <$> filter (fun p => plug_node p = first) (fst <$> scene_attrs s) /\
          list_items s' = custom_attrs s' /\ list_selected s' = [] /\
          scene_attrs s' = scene_attrs s /\ scene_conns s' = scene_conns s /\
          warnings s'
            = warnings s ++ (if custom_attrs s' is []
                             then ["No custom attributes found on " +:+ first +:+ "."]
                             else [])
      else
        exists s',
          select_controller s = (Ok tt, s') /\
          controller s' = Some first /\ custom_attrs s' = custom_attrs s /\
          list_items s' = [] /\ list_selected s' = [] /\
          scene_attrs s' = scene_attrs s /\ scene_conns s' = scene_conns s /\
          warnings s' = warnings s ++ ["No controller selected."]
  | [] =>
      exists s',
        select_controller s = (Ok tt, s') /\
        controller s' = controller s /\ custom_attrs s' = custom_attrs s /\
        list_items s' = list_items s /\
        scene_attrs s' = scene_attrs s /\ scene_conns s' = scene_conns s /\
        warnings s' = warnings s ++ ["No controller selected."]
  end.
Proof.
  unfold select_controller, ls_selection. rewrite bind_gets.
  destruct (selection s) as [|first rest].
  - eexists. split; [reflexivity|]. cbn. auto 10.
  - rewrite bind_modify. destruct (Str.nonempty first) eqn:Hne.
    + destruct (refresh_attributes_run (set_controller (Some first) s) first eq_refl Hne)
        as (s' & Hrun & H).
      exists s'. split; [exact Hrun|exact H].
    + unfold refresh_attributes, list_remove_all. rewrite bind_modify, bind_gets.
      cbn [controller set_list set_controller chosen_controller]. rewrite Hne.
      eexists. split; [reflexivity|]. cbn. auto 10.
Qed.


(** *** Apply Reordering on the attributes it has a branch for *)

Lemma find_attr_filter_ne (p q : plug) (l : list (plug * attr_info)) :
  q <> p -> find_attr q (filter (fun e => fst e <> p) l) = find_attr q l.
Proof.
  intros Hne. induction l as [|e l IH]; [reflexivity|].
  rewrite filter_cons. destruct (decide (fst e <> p)) as [He|He]; cbn.
  - destruct (decide (fst e = q)); [reflexivity|exact IH].
  - destruct (decide (fst e = q)) as [Heq|_]; [|exact IH].
    exfalso. apply He. congruence.
Qed.

Lemma find_attr_moved (p q : plug) (i : attr_info) (l : list (plug * attr_info)) :
  find_attr p l = Some i ->
  find_attr q (filter (fun e => fst e <> p) l ++ [(p, i)]) = find_attr q l.
Proof.
  intros Hi. rewrite find_attr_app. destruct (decide (q = p)) as [->|Hne].
  - rewrite find_attr_deleted, Hi. cbn. now rewrite decide_True.
  - rewrite (find_attr_filter_ne p q l Hne).
    destruct (find_attr q l); [reflexivity|]. cbn. rewrite decide_False; congruence.
Qed.

Lemma update_attr_absent (p : plug) (f : attr_info -> attr_info)
    (l : list (plug * attr_info)) :
  find_attr p l = None -> update_attr p f l = l.
Proof.
  unfold update_attr. induction l as [|e l IH]; [reflexivity|]. cbn.
  destruct (decide (fst e = p)); [discriminate|]. intros H. now rewrite (IH H).
Qed.

Lemma update_attr_last (p : plug) (f : attr_info -> attr_info)
    (l : list (plug * attr_info)) (x : attr_info) :
  find_attr p l = None -> update_attr p f (l ++ [(p, x)]) = l ++ [(p, f x)].
Proof.
  induction l as [|e l IH]; cbn.
  - intros _. now rewrite decide_True.
  - destruct (decide (fst e = p)); [discriminate|]. intros H.
    unfold update_attr in IH. now rewrite (IH H).
Qed.

Lemma find_attr_last (p : plug) (l : list (plug * attr_info)) (x : attr_info) :
  find_attr p l = None -> find_attr p (l ++ [(p, x)]) = Some x.
Proof. intros H. rewrite find_attr_app, H. cbn. now rewrite decide_True. Qed.

Lemma edit_attr_last (p : plug) (f : attr_info -> attr_info)
    (l : list (plug * attr_info)) (x : attr_info) (c : list (plug * plug)) (s : state) :
  find_attr p l = None ->
  edit_attr p f (set_scene (l ++ [(p, x)]) c s) = (Ok tt, set_scene (l ++ [(p, f x)]) c s).
Proof.
  intros H. unfold edit_attr. rewrite bind_gets. unfold id, lookup_attr.
  cbn [scene_attrs set_scene]. rewrite (find_attr_last p l x H).
  unfold modify. cbn [scene_attrs scene_conns set_scene].
  rewrite (update_attr_last p f l x H). reflexivity.
Qed.

Lemma setAttr_last (p : plug) (v : value) (l : list (plug * attr_info)) (x : attr_info)
    (c : list (plug * plug)) (s : state) :
  find_attr p l = None -> a_lock x = false -> sources_of p c = [] ->
  setAttr p v (set_scene (l ++ [(p, x)]) c s)
  = (Ok tt, set_scene (l ++ [(p, with_value v x)]) c s).
Proof.
  intros H Hlock Hsrc. unfold setAttr. rewrite bind_gets. unfold id, lookup_attr.
  cbn [scene_attrs scene_conns set_scene]. rewrite (find_attr_last p l x H).
  rewrite Hlock, Hsrc. cbn [orb negb]. rewrite bool_decide_eq_true_2 by reflexivity.
  cbn [negb]. now apply edit_attr_last.
Qed.

Lemma add_new_attr_absent (p : plug) (i : attr_info) (l : list (plug * attr_info))
    (c : list (plug * plug)) (s : state) :
  find_attr p l = None ->
  add_new_attr p i None (set_scene l c s) = (Ok tt, set_scene (l ++ [(p, i)]) c s).
Proof.
  intros H. unfold add_new_attr. rewrite bind_gets. unfold id, lookup_attr.
  cbn [scene_attrs set_scene]. rewrite H. unfold modify.
  cbn [scene_attrs scene_conns set_scene option_list fmap list_fmap].
  now rewrite app_nil_r.
Qed.

Lemma untouched_conns (p : plug) (c : list (plug * plug)) :
  (forall e, e ∈ c -> fst e <> p /\ snd e <> p) ->
  filter (fun e => fst e <> p /\ snd e <> p) c = c /\
  sources_of p c = [] /\ destinations_of p c = [].
Proof.
  intros H. induction c as [|e c IH]; [auto|].
  destruct (H e (list_elem_of_here _ _)) as [H1 H2].
  destruct IH as (IH1 & IH2 & IH3).
  { intros e' He'. apply H. now apply list_elem_of_further. }
  unfold sources_of, destinations_of in *.
  rewrite filter_cons_True by auto. rewrite IH1.
  rewrite !filter_cons_False by auto. auto.
Qed.

Lemma reorder_restorable_run (s : state) (ctrl attr : string) (i : attr_info) :
  lookup_attr (Plug ctrl attr) s = Some i ->
  restorable i ->
  (forall e, e ∈ scene_conns s -> fst e <> Plug ctrl attr /\ snd e <> Plug ctrl attr) ->
  reorder_attribute ctrl attr s
  = (Ok tt, set_scene (filter (fun e => fst e <> Plug ctrl attr) (scene_attrs s)
                       ++ [(Plug ctrl attr, i)]) (scene_conns s) s).
Proof.
  intros Hi (Hproxy & Hlock & Hkind) Hconns.
  destruct (untouched_conns _ _ Hconns) as (Hf & Hsrc & Hdst).
  pose proof (find_attr_deleted (Plug ctrl attr) (scene_attrs s)) as Hgone.
  rewrite (reorder_attribute_run s ctrl attr i Hi). rewrite Hsrc, Hdst.
  assert (Hdel : deleteAttr (Plug ctrl attr) s
                 = (Ok tt, set_scene (filter (fun e => fst e <> Plug ctrl attr) (scene_attrs s))
                             (scene_conns s) s)).
  { unfold deleteAttr. rewrite bind_gets. unfold id. rewrite Hi, Hlock. unfold modify.
    now rewrite Hf. }
  destruct Hkind as [[Hty Henum]|(Hty & [e He] & Hmin & Hmax)].
  - rewrite Hty. cbn [String.eqb Ascii.eqb Bool.eqb andb]. rewrite bind_ret.
    unfold recreate. rewrite (bind_ok _ _ _ _ _ Hdel). cbn [head].
    rewrite Hty. cbn [String.eqb Ascii.eqb Bool.eqb andb].
    unfold addAttr, addAttr_edit_minValue, addAttr_edit_maxValue, setAttr_lock, setAttr_keyable.
    rewrite !bind_bind.
    rewrite (bind_ok _ _ _ _ _ (add_new_attr_absent _ _ _ _ s Hgone)).
    destruct i as [ty mn mx en ke lo va pr]. cbn in Hty, Henum, Hproxy. subst.
    cbn [a_min a_max a_value a_lock a_keyable].
    destruct mn as [m|], mx as [m'|];
      repeat first
        [ rewrite bind_bind
        | rewrite (bind_ok _ _ _ _ _ (edit_attr_last _ _ _ _ _ s Hgone))
        | erewrite (bind_ok (setAttr _ _))
            by (apply setAttr_last; [exact Hgone|reflexivity|exact Hsrc])
        | rewrite bind_ret ];
      cbn [for_each]; reflexivity.
  - rewrite Hty. cbn [String.eqb Ascii.eqb Bool.eqb andb]. rewrite He.
    change (getitem (option_list (Some e)) 0) with (@Ok string e).
    rewrite bind_bind, bind_lift_ok, bind_ret.
    unfold recreate. rewrite (bind_ok _ _ _ _ _ Hdel). cbn [head].
    rewrite Hty. cbn [String.eqb Ascii.eqb Bool.eqb andb].
    unfold addAttr_enum, setAttr_lock, setAttr_keyable.
    rewrite !bind_bind.
    rewrite (bind_ok _ _ _ _ _ (add_new_attr_absent _ _ _ _ s Hgone)).
    destruct i as [ty mn mx en ke lo va pr]. cbn in Hty, He, Hmin, Hmax, Hproxy. subst.
    cbn [a_min a_max a_value a_lock a_keyable].
    repeat first
      [ rewrite bind_bind
        | rewrite (bind_ok _ _ _ _ _ (edit_attr_last _ _ _ _ _ s Hgone))
      | erewrite (bind_ok (setAttr _ _))
            by (apply setAttr_last; [exact Hgone|reflexivity|exact Hsrc])
      | rewrite bind_ret ];
    cbn [for_each]; reflexivity.
Qed.

Lemma fst_moved (p : plug) (i : attr_info) (l : list (plug * attr_info)) :
  fst <$> (filter (fun e => fst e <> p) l ++ [(p, i)])
  = filter (fun q => q <> p) (fst <$> l) ++ [p].
Proof.
  rewrite fmap_app. f_equal.
  induction l as [|e l IH]; [reflexivity|].
  rewrite fmap_cons, !filter_cons. destruct (decide (fst e <> p)); cbn; now rewrite IH.
Qed.

Lemma reorder_loop_run (ctrl : string) (attrs : list string) :
  forall s,
    NoDup attrs ->
    (forall a, a ∈ attrs ->
       exists i, lookup_attr (Plug ctrl a) s = Some i /\ restorable i) ->
    (forall a e, a ∈ attrs -> e ∈ scene_conns s ->
       fst e <> Plug ctrl a /\ snd e <> Plug ctrl a) ->
    exists l',
      for_each attrs (reorder_attribute ctrl) s = (Ok tt, set_scene l' (scene_conns s) s) /\
      (forall q, find_attr q l' = lookup_attr q s) /\
      fst <$> l' = filter (fun q => q ∉ Plug ctrl <$> attrs) (fst <$> scene_attrs s)
                   ++ (Plug ctrl <$> attrs).
Proof.
  induction attrs as [|a attrs IH]; intros s Hnd Hex Hconns.
  - exists (scene_attrs s). cbn [for_each]. split; [now destruct s|]. split; [reflexivity|].
    cbn. rewrite app_nil_r. symmetry.
    clear. induction (fst <$> scene_attrs s) as [|q l IHl]; [reflexivity|].
    rewrite filter_cons_True by (intros H; inversion H). now rewrite IHl.
  - apply NoDup_cons in Hnd as [Ha Hnd].
    destruct (Hex a (list_elem_of_here _ _)) as (i & Hi & Hr).
    pose proof (reorder_restorable_run s ctrl a i Hi Hr
                  (fun e He => Hconns a e (list_elem_of_here _ _) He)) as Hstep.
    cbn [for_each]. rewrite (bind_ok _ _ _ _ _ Hstep).
    destruct (IH (set_scene (filter (fun e => fst e <> Plug ctrl a) (scene_attrs s)
                             ++ [(Plug ctrl a, i)]) (scene_conns s) s) Hnd)
      as (l' & Hrun & Hfind & Hord).
    + intros b Hb. destruct (Hex b (list_elem_of_further _ _ _ Hb)) as (j & Hj & Hjr).
      exists j. split; [|exact Hjr]. unfold lookup_attr in *. cbn [scene_attrs set_scene].
      now rewrite (find_attr_moved _ _ _ _ Hi).
    + intros b e Hb He. apply Hconns; [now apply list_elem_of_further|exact He].
    + exists l'. split; [exact Hrun|]. split.
      * intros q. rewrite Hfind. unfold lookup_attr. cbn [scene_attrs set_scene].
        now apply find_attr_moved.
      * rewrite Hord. cbn [scene_attrs set_scene]. rewrite fst_moved, filter_app.
        rewrite filter_cons_True, filter_nil.
        -- rewrite list_filter_filter, <- app_assoc. cbn. f_equal.
           apply list_filter_iff. intros q. rewrite not_elem_of_cons. tauto.
        -- intros Hin. apply list_elem_of_fmap in Hin as (b & [= <-] & Hb). contradiction.
Qed.

(** X18: Apply Reordering does reorder.  When the controller is set to a
    name that is not empty, the list names each attribute once, every listed
    attribute exists on the controller, owns its storage, is not locked, is
    a 'double' or an 'enum' without limits, and takes part in no connection,
    then [apply_reorder] returns and afterwards: the scene's attributes are,
    in display order, the attributes that were not listed in their old order
    followed by the listed ones in the order of the list; every attribute has
    the type, limits, enum names, keyable and lock state and value it had;
    the connections are as before; and the success message has been printed.
    (The host is taken to add a new attribute after the existing ones.) *)
Theorem apply_reorder_orders_attributes (s : state) (ctrl : string) :
  controller s = Some ctrl ->
  Str.nonempty ctrl = true ->
  NoDup (custom_attrs s) ->
  (forall a, a ∈ custom_attrs s ->
     exists i, lookup_attr (Plug ctrl a) s = Some i /\ restorable i) ->
  (forall a e, a ∈ custom_attrs s -> e ∈ scene_conns s ->
     fst e <> Plug ctrl a /\ snd e <> Plug ctrl a) ->
  exists s',
    apply_reorder s = (Ok tt, s') /\
    fst <$> scene_attrs s'
      = filter (fun q => q ∉ Plug ctrl <$> custom_attrs s) (fst <$> scene_attrs s)
        ++ (Plug ctrl <$> custom_attrs s) /\
    (forall q, lookup_attr q s' = lookup_attr q s) /\
    scene_conns s' = scene_conns s /\
    custom_attrs s' = custom_attrs s /\
    warnings s' = warnings s ++ ["Attributes reordered successfully."].
Proof.
  intros Hc Hne Hnd Hex Hconns. unfold apply_reorder. rewrite bind_gets, Hc.
  cbn [chosen_controller]. rewrite Hne, bind_gets.
  destruct (reorder_loop_run ctrl (custom_attrs s) s Hnd Hex Hconns)
    as (l' & Hrun & Hfind & Hord).
  rewrite (bind_ok _ _ _ _ _ Hrun). eexists. split; [reflexivity|].
  cbn. split; [exact Hord|]. split; [exact Hfind|]. auto.
Qed.

Lemma apply_reorder_orders_attributes_witness :
  exists s',
    apply_reorder reordered_scene = (Ok tt, s') /\
    fst <$> scene_attrs s'
      = [Plug "other" "gain"; Plug "ctrl" "twist"; Plug "ctrl" "roll"; Plug "ctrl" "bend"] /\
    lookup_attr (Plug "ctrl" "bend") s' = lookup_attr (Plug "ctrl" "bend") reordered_scene.
Proof.
  destruct (apply_reorder_orders_attributes reordered_scene "ctrl")
    as (s' & Hrun & Hord & Hfind & _).
  - reflexivity.
  - reflexivity.
  - apply (bool_decide_eq_true_1 (NoDup (custom_attrs reordered_scene))). vm_compute. reflexivity.
  - intros a Ha. cbn in Ha. rewrite !elem_of_cons, elem_of_nil in Ha.
    destruct Ha as [->|[->|[->|[]]]]; eexists; (split; [reflexivity|]);
      (split; [reflexivity|]); (split; [reflexivity|]); cbn; eauto 10.
  - intros a e _ He. inversion He.
  - exists s'. split; [exact Hrun|]. split; [|apply Hfind].
    rewrite Hord. vm_compute. reflexivity.
Defined.

End AttrOrderProps.
(** ** Properties of CD_attrmanip_tool.py *)

Module AttrManipProps.
Import Py PyFacts AttrManip.

Lemma contains_true (l : list string) (x : string) : contains l x = true <-> x ∈ l.
Proof. unfold contains. apply bool_decide_eq_true. Qed.

Lemma contains_false (l : list string) (x : string) : contains l x = false <-> x ∉ l.
Proof. unfold contains. apply bool_decide_eq_false. Qed.

Lemma NoDup_snoc_new (l : list string) (x : string) :
  NoDup l -> x ∉ l -> NoDup (l ++ [x]).
Proof.
  intros Hl Hx. apply NoDup_app. repeat split; [exact Hl| |apply NoDup_singleton].
  intros y Hy Hy'. apply list_elem_of_singleton in Hy'. subst. contradiction.
Qed.

Lemma remove_first_subset (x y : string) (l : list string) :
  y ∈ remove_first x l -> y ∈ l.
Proof.
  induction l as [|z l IH]; cbn; [auto|].
  destruct (decide (z = x)).
  - intros H. now apply list_elem_of_further.
  - intros H. apply elem_of_cons in H as [->|H]; [apply list_elem_of_here|].
    apply list_elem_of_further, IH, H.
Qed.

Lemma remove_first_NoDup (x : string) (l : list string) :
  NoDup l -> NoDup (remove_first x l).
Proof.
  induction 1 as [|y l Hy Hl IH]; cbn; [constructor|].
  destruct (decide (y = x)); [exact Hl|].
  constructor; [|exact IH]. intros H. apply Hy. eapply remove_first_subset, H.
Qed.

Lemma remove_item_NoDup (it : item) (l : list string) :
  NoDup l -> NoDup (remove_item it l).
Proof. destruct it; cbn; auto using remove_first_NoDup. Qed.

(** Every function of the script keeps both lists free of duplicates. *)
Lemma warning_no_duplicates (msg : string) : preserves no_duplicates (warning msg).
Proof. apply preserves_modify. intros s H. exact H. Qed.

Lemma update_selection_list_ui_no_duplicates :
  preserves no_duplicates update_selection_list_ui.
Proof.
  apply preserves_bind; [apply preserves_gets|]. intros [rows|].
  - apply preserves_modify. intros s H. exact H.
  - apply preserves_ret.
Qed.

Lemma update_target_list_ui_no_duplicates :
  preserves no_duplicates update_target_list_ui.
Proof.
  apply preserves_bind; [apply preserves_gets|]. intros [rows|].
  - apply preserves_modify. intros s H. exact H.
  - apply preserves_ret.
Qed.

Lemma add_item_no_duplicates (x : string) :
  preserves no_duplicates
    (bind (gets selection_list) (fun l =>
       if contains l x then ret tt else modify (set_selection_list (l ++ [x])))).
Proof.
  intros s [H1 H2]. rewrite bind_gets.
  destruct (contains (selection_list s) x) eqn:E; [split; assumption|].
  split; cbn; [|exact H2]. apply NoDup_snoc_new; [exact H1|].
  now apply contains_false.
Qed.

Lemma add_target_no_duplicates (x : string) :
  preserves no_duplicates
    (bind (gets target_controller_list) (fun l =>
       if contains l x then ret tt else modify (set_target_controller_list (l ++ [x])))).
Proof.
  intros s [H1 H2]. rewrite bind_gets.
  destruct (contains (target_controller_list s) x) eqn:E; [split; assumption|].
  split; cbn; [exact H1|]. apply NoDup_snoc_new; [exact H2|].
  now apply contains_false.
Qed.

Lemma remove_from_selection_list_no_duplicates (it : item) :
  preserves no_duplicates (remove_from_selection_list it).
Proof.
  intros s [H1 H2]. unfold remove_from_selection_list. rewrite bind_gets.
  apply preserves_bind; [|intros _; apply update_selection_list_ui_no_duplicates|].
  - destruct (item_in it (selection_list s)); [|apply preserves_ret].
    apply preserves_modify. intros s0 [H3 H4]. split; cbn; [|exact H4].
    now apply remove_item_NoDup.
  - split; assumption.
Qed.

Lemma remove_from_target_list_no_duplicates (it : item) :
  preserves no_duplicates (remove_from_target_list it).
Proof.
  intros s [H1 H2]. unfold remove_from_target_list. rewrite bind_gets.
  apply preserves_bind; [|intros _; apply update_target_list_ui_no_duplicates|].
  - destruct (item_in it (target_controller_list s)); [|apply preserves_ret].
    apply preserves_modify. intros s0 [H3 H4]. split; cbn; [exact H3|].
    now apply remove_item_NoDup.
  - split; assumption.
Qed.

Lemma selectionList_selectItem_keeps (P : state -> Prop) :
  preserves P selectionList_selectItem.
Proof.
  intros s H. unfold selectionList_selectItem. rewrite bind_gets. unfold id.
  now destruct (ui_selection s).
Qed.

Lemma targetList_selectItem_keeps (P : state -> Prop) :
  preserves P targetList_selectItem.
Proof.
  intros s H. unfold targetList_selectItem. rewrite bind_gets. unfold id.
  now destruct (ui_target s).
Qed.

Lemma run_no_duplicates (o : operation) : preserves no_duplicates (run o).
Proof.
  destruct o; cbn [run].
  - unfold add_to_selection_list.
    apply preserves_bind; [apply preserves_gets|]. intros objs.
    apply preserves_bind; [apply preserves_gets|]. intros attrs.
    destruct (selected_attribute_names objs attrs) as [|x l].
    + apply warning_no_duplicates.
    + apply preserves_bind; [|intros _; apply update_selection_list_ui_no_duplicates].
      apply preserves_for_each. intros y. apply add_item_no_duplicates.
  - apply remove_from_selection_list_no_duplicates.
  - unfold remove_selected_from_list.
    apply preserves_bind; [apply selectionList_selectItem_keeps|]. intros picked.
    apply preserves_for_each. intros y. apply remove_from_selection_list_no_duplicates.
  - unfold clear_selection_list.
    apply preserves_bind; [|intros _; apply update_selection_list_ui_no_duplicates].
    apply preserves_modify. intros s [_ H]. split; [constructor|exact H].
  - unfold load_target_controllers.
    apply preserves_bind; [apply preserves_gets|]. intros [|x l].
    + apply warning_no_duplicates.
    + apply preserves_bind; [|intros _; apply update_target_list_ui_no_duplicates].
      apply preserves_for_each. intros y. apply add_target_no_duplicates.
  - apply remove_from_target_list_no_duplicates.
  - unfold remove_selected_from_target_list.
    apply preserves_bind; [apply targetList_selectItem_keeps|]. intros picked.
    apply remove_from_target_list_no_duplicates.
  - unfold clear_target_list.
    apply preserves_bind; [|intros _; apply update_target_list_ui_no_duplicates].
    apply preserves_modify. intros s [H _]. split; [exact H|constructor].
Qed.

(** The two appending loops, in closed form. *)
Lemma append_new_extends (items l : list string) :
  exists ext, append_new l items = l ++ ext /\ NoDup ext /\
              forall x, x ∈ ext -> x ∈ items /\ x ∉ l.
Proof.
  revert l. induction items as [|y items IH]; intros l.
  - exists []. rewrite app_nil_r.
    split; [reflexivity|]. split; [constructor|]. intros x H. inversion H.
  - unfold append_new in *. cbn [foldl].
    destruct (contains l y) eqn:E.
    + destruct (IH l) as (ext & Heq & Hnd & Hext). exists ext.
      split; [exact Heq|]. split; [exact Hnd|].
      intros x Hx. apply Hext in Hx as [Hx1 Hx2].
      split; [now apply list_elem_of_further|exact Hx2].
    + apply contains_false in E.
      destruct (IH (l ++ [y])) as (ext & Heq & Hnd & Hext).
      exists (y :: ext). rewrite Heq, <- app_assoc.
      split; [reflexivity|]. split.
      * constructor; [|exact Hnd]. intros Hy. apply Hext in Hy as [_ Hy].
        apply Hy. apply elem_of_app. right. apply list_elem_of_here.
      * intros x Hx. apply elem_of_cons in Hx as [->|Hx].
        -- split; [apply list_elem_of_here|exact E].
        -- apply Hext in Hx as [Hx1 Hx2].
           split; [now apply list_elem_of_further|].
           intros Hl. apply Hx2, elem_of_app. now left.
Qed.

Lemma add_items_run (items : list string) (s : state) :
  for_each items (fun item =>
    bind (gets selection_list) (fun l =>
      if contains l item then ret tt else modify (set_selection_list (l ++ [item])))) s
  = (Ok tt, set_selection_list (append_new (selection_list s) items) s).
Proof.
  revert s. induction items as [|x items IH]; intros s; cbn [for_each].
  - unfold append_new. cbn. now destruct s.
  - rewrite bind_bind, bind_gets. unfold append_new. cbn [foldl].
    destruct (contains (selection_list s) x).
    + rewrite bind_ret. apply IH.
    + rewrite bind_modify, IH. reflexivity.
Qed.

Lemma add_targets_run (items : list string) (s : state) :
  for_each items (fun obj =>
    bind (gets target_controller_list) (fun l =>
      if contains l obj then ret tt
      else modify (set_target_controller_list (l ++ [obj])))) s
  = (Ok tt, set_target_controller_list (append_new (target_controller_list s) items) s).
Proof.
  revert s. induction items as [|x items IH]; intros s; cbn [for_each].
  - unfold append_new. cbn. now destruct s.
  - rewrite bind_bind, bind_gets. unfold append_new. cbn [foldl].
    destruct (contains (target_controller_list s) x).
    + rewrite bind_ret. apply IH.
    + rewrite bind_modify, IH. reflexivity.
Qed.

Lemma update_selection_list_ui_lists (s : state) :
  selection_list (snd (update_selection_list_ui s)) = selection_list s.
Proof.
  unfold update_selection_list_ui. rewrite bind_gets. now destruct (ui_selection s).
Qed.

Lemma update_target_list_ui_lists (s : state) :
  target_controller_list (snd (update_target_list_ui s)) = target_controller_list s.
Proof.
  unfold update_target_list_ui. rewrite bind_gets. now destruct (ui_target s).
Qed.

(** C9.  Neither list ever holds an entry twice: every state the tool reaches
    has both lists duplicate-free; [add_to_selection_list] and
    [load_target_controllers] keep the existing entries and append only items
    that were absent, each once. *)
Theorem lists_never_hold_duplicates :
  (forall s, reachable s ->
     NoDup (selection_list s) /\ NoDup (target_controller_list s)) /\
  (forall s, exists ext,
     selection_list (snd (add_to_selection_list s)) = selection_list s ++ ext /\
     NoDup ext /\ forall x, x ∈ ext -> x ∉ selection_list s) /\
  (forall s, exists ext,
     target_controller_list (snd (load_target_controllers s))
       = target_controller_list s ++ ext /\
     NoDup ext /\ forall x, x ∈ ext -> x ∉ target_controller_list s).
Proof.
  split; [|split].
  - induction 1 as [s H1 H2|s s' _ IH [H1 H2]|s o _ IH].
    + rewrite H1, H2. split; constructor.
    + rewrite H1, H2. exact IH.
    + apply (run_no_duplicates o s IH).
  - intros s. unfold add_to_selection_list. rewrite !bind_gets.
    destruct (selected_attribute_names (sel_long s) (channel_box s)) as [|x l] eqn:E.
    + exists []. rewrite app_nil_r.
      split; [reflexivity|]. split; [constructor|]. intros x H. inversion H.
    + rewrite (bind_ok _ _ _ _ _ (add_items_run (x :: l) s)).
      rewrite update_selection_list_ui_lists. cbn [set_selection_list selection_list].
      destruct (append_new_extends (x :: l) (selection_list s)) as (ext & Heq & Hnd & Hext).
      exists ext. split; [exact Heq|]. split; [exact Hnd|].
      intros y Hy. now apply Hext.
  - intros s. unfold load_target_controllers. rewrite !bind_gets.
    destruct (sel_short s) as [|x l] eqn:E.
    + exists []. rewrite app_nil_r.
      split; [reflexivity|]. split; [constructor|]. intros x H. inversion H.
    + rewrite (bind_ok _ _ _ _ _ (add_targets_run (x :: l) s)).
      rewrite update_target_list_ui_lists.
      cbn [set_target_controller_list target_controller_list].
      destruct (append_new_extends (x :: l) (target_controller_list s))
        as (ext & Heq & Hnd & Hext).
      exists ext. split; [exact Heq|]. split; [exact Hnd|].
      intros y Hy. now apply Hext.
Qed.


(** *** The remove buttons *)

(** X11: the button "Remove Selected from Target List" removes nothing.  It
    hands the answer of the [selectItem] query, a list of rows or None, to
    [remove_from_target_list], whose test [item_to_remove in
    target_controller_list] compares that answer with the strings of the list
    and so never succeeds: while the list widget exists, as it does when the
    button is there to be clicked, the operation returns and both global
    lists are as before whatever rows are selected.  Without the widget the
    query raises the host's error and nothing at all has changed. *)
Theorem remove_selected_from_target_list_removes_nothing (s : state) :
  target_controller_list (snd (remove_selected_from_target_list s))
    = target_controller_list s /\
  selection_list (snd (remove_selected_from_target_list s)) = selection_list s /\
  match ui_target s with
  | Some _ => fst (remove_selected_from_target_list s) = Ok tt
  | None =>
      remove_selected_from_target_list s
      = (Raise (RuntimeError "Object 'targetList' not found."), s)
  end.
Proof.
  unfold remove_selected_from_target_list, targetList_selectItem.
  rewrite bind_bind, bind_gets. unfold id.
  destruct (ui_target s) as [rows|] eqn:Hrows; [|repeat split].
  rewrite bind_ret. unfold remove_from_target_list. rewrite !bind_gets.
  assert (H : item_in (match ui_target_picked s with [] => NoRows | _ => Rows (ui_target_picked s) end)
                (target_controller_list s) = false)
    by now destruct (ui_target_picked s).
  rewrite H, bind_ret. unfold update_target_list_ui. rewrite bind_gets.
  rewrite Hrows. cbn. auto.
Qed.

Lemma remove_selected_from_target_list_removes_nothing_witness :
  target_controller_list (snd (remove_selected_from_target_list two_controllers))
    = ["ctrl_b"] /\
  ui_target_picked two_controllers = ["ctrl_b"] /\
  fst (remove_selected_from_target_list two_controllers) = Ok tt.
Proof.
  destruct (remove_selected_from_target_list_removes_nothing two_controllers)
    as (H1 & _ & H3).
  split; [exact H1|]. split; [reflexivity|exact H3].
Defined.

Lemma filter_all (P : string -> Prop) `{!forall x, Decision (P x)} (l : list string) :
  Forall P l -> filter P l = l.
Proof.
  induction 1 as [|y l Hy _ IH]; [reflexivity|].
  rewrite filter_cons_True by assumption. now rewrite IH.
Qed.

Lemma remove_first_filter (x : string) (l : list string) :
  NoDup l -> remove_first x l = filter (fun y => y <> x) l.
Proof.
  induction 1 as [|y l Hy Hl IH]; [reflexivity|]. cbn [remove_first].
  destruct (decide (y = x)) as [->|Hne].
  - rewrite filter_cons_False by tauto.
    symmetry. apply filter_all, Forall_forall. intros z Hz ->. contradiction.
  - rewrite filter_cons_True by assumption. now rewrite IH.
Qed.

Lemma remove_row_run (x : string) (s : state) :
  NoDup (selection_list s) ->
  exists s',
    remove_from_selection_list (Row x) s = (Ok tt, s') /\
    selection_list s' = filter (fun y => y <> x) (selection_list s) /\
    target_controller_list s' = target_controller_list s.
Proof.
  intros Hnd. unfold remove_from_selection_list. rewrite bind_gets. cbn [item_in remove_item].
  destruct (contains (selection_list s) x) eqn:E.
  - rewrite bind_modify. unfold update_selection_list_ui. rewrite bind_gets.
    cbn [ui_selection set_selection_list].
    destruct (ui_selection s); eexists; (split; [reflexivity|]); cbn;
      (split; [now apply remove_first_filter|reflexivity]).
  - rewrite bind_ret. unfold update_selection_list_ui. rewrite bind_gets.
    apply contains_false in E.
    assert (Hf : filter (fun y => y <> x) (selection_list s) = selection_list s).
    { apply filter_all, Forall_forall. intros z Hz ->. contradiction. }
    destruct (ui_selection s); eexists; (split; [reflexivity|]); cbn; now rewrite Hf.
Qed.

Lemma remove_rows_run (picked : list string) :
  forall s, NoDup (selection_list s) ->
  exists s',
    for_each picked (fun it => remove_from_selection_list (Row it)) s = (Ok tt, s') /\
    selection_list s' = filter (fun y => y ∉ picked) (selection_list s) /\
    target_controller_list s' = target_controller_list s.
Proof.
  induction picked as [|x picked IH]; intros s Hnd; cbn [for_each].
  - exists s. split; [reflexivity|]. split; [|reflexivity].
    symmetry. apply filter_all, Forall_forall. intros z _ H. inversion H.
  - destruct (remove_row_run x s Hnd) as (s1 & H1 & Hl1 & Ht1).
    rewrite (bind_ok _ _ _ _ _ H1).
    destruct (IH s1) as (s2 & H2 & Hl2 & Ht2).
    { rewrite Hl1. now apply NoDup_filter. }
    exists s2. split; [exact H2|]. split; [|congruence].
    rewrite Hl2, Hl1, list_filter_filter. apply list_filter_iff.
    intros y. rewrite not_elem_of_cons. tauto.
Qed.

(** X12: on a list without duplicates, "Remove Selected from List" removes
    exactly the rows that were selected in the widget: while the widget
    exists, the operation returns and the selection list afterwards is the
    list before without those entries, the others in their order; the
    target list is untouched.  Without the widget the query raises the
    host's error and nothing has changed. *)
Theorem remove_selected_from_list_filters (s : state) :
  NoDup (selection_list s) ->
  match ui_selection s with
  | Some _ =>
      exists s',
        remove_selected_from_list s = (Ok tt, s') /\
        selection_list s'
          = filter (fun y => y ∉ ui_selection_picked s) (selection_list s) /\
        target_controller_list s' = target_controller_list s
  | None =>
      remove_selected_from_list s
      = (Raise (RuntimeError "Object 'selectionList' not found."), s)
  end.
Proof.
  intros Hnd. unfold remove_selected_from_list, selectionList_selectItem.
  rewrite bind_bind, bind_gets. unfold id.
  destruct (ui_selection s) as [rows|]; [|reflexivity].
  rewrite bind_ret. now apply remove_rows_run.
Qed.

Lemma remove_selected_from_list_filters_witness :
  exists s',
    remove_selected_from_list picked_row = (Ok tt, s') /\
    selection_list s' = ["|ctrl_a.ikfk"; "|ctrl_b.ikfk"] /\
    target_controller_list s' = ["ctrl_b"].
Proof.
  destruct (remove_selected_from_list_filters picked_row) as (s' & Hrun & Hl & Ht).
  - apply (bool_decide_eq_true_1 (NoDup (selection_list picked_row))).
    vm_compute. reflexivity.
  - exists s'. split; [exact Hrun|]. split; [|exact Ht].
    rewrite Hl. vm_compute. reflexivity.
Defined.

(** *** The add buttons *)

Lemma append_new_keeps (items l : list string) (x : string) :
  x ∈ l -> x ∈ append_new l items.
Proof.
  revert l. induction items as [|y items IH]; intros l Hx; [exact Hx|].
  unfold append_new in *. cbn [foldl]. destruct (contains l y); apply IH; [exact Hx|].
  apply elem_of_app. now left.
Qed.

Lemma append_new_complete (items l : list string) (x : string) :
  x ∈ items -> x ∈ append_new l items.
Proof.
  revert l. induction items as [|y items IH]; intros l Hx; [inversion Hx|].
  apply elem_of_cons in Hx as [->|Hx].
  - unfold append_new. cbn [foldl]. fold (append_new (if contains l y then l else l ++ [y]) items).
    apply append_new_keeps. destruct (contains l y) eqn:E.
    + now apply contains_true.
    + apply elem_of_app. right. apply list_elem_of_here.
  - unfold append_new in *. cbn [foldl]. now apply IH.
Qed.

Lemma append_new_present (items l : list string) :
  (forall x, x ∈ items -> x ∈ l) -> append_new l items = l.
Proof.
  induction items as [|y items IH]; intros H; [reflexivity|].
  unfold append_new in *. cbn [foldl].
  assert (E : contains l y = true) by (apply contains_true, H, list_elem_of_here).
  rewrite E. apply IH. intros x Hx. apply H. now apply list_elem_of_further.
Qed.

Lemma add_to_selection_list_run (s : state) :
  selection_list (snd (add_to_selection_list s))
    = append_new (selection_list s) (selected_attribute_names (sel_long s) (channel_box s)) /\
  sel_long (snd (add_to_selection_list s)) = sel_long s /\
  channel_box (snd (add_to_selection_list s)) = channel_box s.
Proof.
  unfold add_to_selection_list. rewrite !bind_gets.
  destruct (selected_attribute_names (sel_long s) (channel_box s)) as [|x l] eqn:E.
  - cbn. auto.
  - rewrite (bind_ok _ _ _ _ _ (add_items_run (x :: l) s)).
    unfold update_selection_list_ui. rewrite bind_gets.
    destruct (ui_selection _); cbn; auto.
Qed.

Lemma load_target_controllers_run (s : state) :
  target_controller_list (snd (load_target_controllers s))
    = append_new (target_controller_list s) (sel_short s) /\
  sel_short (snd (load_target_controllers s)) = sel_short s.
Proof.
  unfold load_target_controllers. rewrite !bind_gets.
  destruct (sel_short s) as [|x l] eqn:E.
  - cbn. auto.
  - rewrite (bind_ok _ _ _ _ _ (add_targets_run (x :: l) s)).
    unfold update_target_list_ui. rewrite bind_gets.
    destruct (ui_target _); cbn; auto.
Qed.

(** X13: the add buttons are complete and idempotent.  After
    [add_to_selection_list] every f"{obj}.{attr}" of a selected object and a
    selected channel-box attribute is in the selection list, and after
    [load_target_controllers] every selected object is in the target list;
    a second click with the same scene selection changes neither list. *)
Theorem adding_is_complete_and_idempotent (s : state) :
  (forall obj attr, obj ∈ sel_long s -> attr ∈ channel_box s ->
     obj +:+ "." +:+ attr ∈ selection_list (snd (add_to_selection_list s))) /\
  selection_list (snd (add_to_selection_list (snd (add_to_selection_list s))))
    = selection_list (snd (add_to_selection_list s)) /\
  (forall obj, obj ∈ sel_short s ->
     obj ∈ target_controller_list (snd (load_target_controllers s))) /\
  target_controller_list (snd (load_target_controllers (snd (load_target_controllers s))))
    = target_controller_list (snd (load_target_controllers s)).
Proof.
  destruct (add_to_selection_list_run s) as (Hl & Hsel & Hcb).
  destruct (add_to_selection_list_run (snd (add_to_selection_list s))) as (Hl2 & _ & _).
  destruct (load_target_controllers_run s) as (Ht & Hss).
  destruct (load_target_controllers_run (snd (load_target_controllers s))) as (Ht2 & _).
  split; [|split; [|split]].
  - intros obj attr Hobj Hattr. rewrite Hl. apply append_new_complete.
    unfold selected_attribute_names. apply list_elem_of_bind. exists obj.
    split; [|exact Hobj]. apply list_elem_of_fmap. now exists attr.
  - rewrite Hl2, Hsel, Hcb. apply append_new_present.
    intros x Hx. rewrite Hl. now apply append_new_complete.
  - intros obj Hobj. rewrite Ht. now apply append_new_complete.
  - rewrite Ht2, Hss. apply append_new_present.
    intros x Hx. rewrite Ht. now apply append_new_complete.
Qed.

(** *** The widgets show the lists *)

Lemma update_selection_list_ui_synced (s : state) :
  (forall rows, ui_target s = Some rows -> rows = target_controller_list s) ->
  synced (snd (update_selection_list_ui s)).
Proof.
  intros Ht. unfold update_selection_list_ui. rewrite bind_gets.
  destruct (ui_selection s) as [rows|] eqn:E; cbn.
  - split; cbn; [now intros ? [= <-]|exact Ht].
  - split; [rewrite E; discriminate|exact Ht].
Qed.

Lemma update_target_list_ui_synced (s : state) :
  (forall rows, ui_selection s = Some rows -> rows = selection_list s) ->
  synced (snd (update_target_list_ui s)).
Proof.
  intros Hs. unfold update_target_list_ui. rewrite bind_gets.
  destruct (ui_target s) as [rows|] eqn:E; cbn.
  - split; cbn; [exact Hs|now intros ? [= <-]].
  - split; [exact Hs|rewrite E; discriminate].
Qed.

Lemma remove_from_selection_list_synced (it : item) :
  preserves synced (remove_from_selection_list it).
Proof.
  intros s [_ Ht]. unfold remove_from_selection_list. rewrite bind_gets.
  destruct (item_in it (selection_list s)).
  - rewrite bind_modify. apply update_selection_list_ui_synced. exact Ht.
  - rewrite bind_ret. apply update_selection_list_ui_synced. exact Ht.
Qed.

Lemma remove_from_target_list_synced (it : item) :
  preserves synced (remove_from_target_list it).
Proof.
  intros s [Hs _]. unfold remove_from_target_list. rewrite bind_gets.
  destruct (item_in it (target_controller_list s)).
  - rewrite bind_modify. apply update_target_list_ui_synced. exact Hs.
  - rewrite bind_ret. apply update_target_list_ui_synced. exact Hs.
Qed.

(** X14: every operation of the window keeps the two list widgets, where
    they exist, showing exactly the two global lists: an operation that
    changes a list ends by refreshing its widget, and the branches that
    return early have changed nothing. *)
Theorem run_keeps_widgets_synced (o : operation) : preserves synced (run o).
Proof.
  destruct o; cbn [run].
  - intros s [Hs Ht]. unfold add_to_selection_list. rewrite !bind_gets.
    destruct (selected_attribute_names (sel_long s) (channel_box s)) as [|x l].
    + split; [exact Hs|exact Ht].
    + rewrite (bind_ok _ _ _ _ _ (add_items_run (x :: l) s)).
      apply update_selection_list_ui_synced. exact Ht.
  - apply remove_from_selection_list_synced.
  - unfold remove_selected_from_list.
    apply preserves_bind; [apply selectionList_selectItem_keeps|]. intros picked.
    apply preserves_for_each. intros y. apply remove_from_selection_list_synced.
  - intros s [_ Ht]. unfold clear_selection_list. rewrite bind_modify.
    apply update_selection_list_ui_synced. exact Ht.
  - intros s [Hs Ht]. unfold load_target_controllers. rewrite !bind_gets.
    destruct (sel_short s) as [|x l].
    + split; [exact Hs|exact Ht].
    + rewrite (bind_ok _ _ _ _ _ (add_targets_run (x :: l) s)).
      apply update_target_list_ui_synced. exact Hs.
  - apply remove_from_target_list_synced.
  - unfold remove_selected_from_target_list.
    apply preserves_bind; [apply targetList_selectItem_keeps|]. intros picked.
    apply remove_from_target_list_synced.
  - intros s [Hs _]. unfold clear_target_list. rewrite bind_modify.
    apply update_target_list_ui_synced. exact Hs.
Qed.

Lemma run_keeps_widgets_synced_witness :
  synced (snd (run AddToSelectionList two_controllers)).
Proof.
  apply (run_keeps_widgets_synced AddToSelectionList two_controllers).
  split; intros rows [= <-]; reflexivity.
Defined.

End AttrManipProps.
(** ** Properties of CD_attrlock_tool.py *)

Module AttrLockProps.
Import Py PyFacts AttrLock.

Lemma checkBox_query_ok (s : state) (cb : string) (b : bool) :
  checkboxes s !! cb = Some b -> checkBox_query cb s = (Ok b, s).
Proof. intros H. unfold checkBox_query. rewrite bind_gets. unfold id. now rewrite H. Qed.

Lemma checked_attributes_run (s : state) (tx_cb rx_cb sx_cb vis_cb all_cb : string)
    (all tx rx sx vis : bool) :
  checkboxes s !! all_cb = Some all ->
  checkboxes s !! tx_cb = Some tx ->
  checkboxes s !! rx_cb = Some rx ->
  checkboxes s !! sx_cb = Some sx ->
  checkboxes s !! vis_cb = Some vis ->
  exists attributes,
    checked_attributes tx_cb rx_cb sx_cb vis_cb all_cb s = (Ok attributes, s) /\
    forall attr, attr ∈ attributes <-> selected_by_checkboxes all tx rx sx vis attr.
Proof.
  intros Hall Htx Hrx Hsx Hvis. unfold checked_attributes.
  rewrite (bind_ok _ _ _ _ _ (checkBox_query_ok _ _ _ Hall)).
  destruct all.
  - eexists. split; [reflexivity|]. intros attr. reflexivity.
  - rewrite (bind_ok _ _ _ _ _ (checkBox_query_ok _ _ _ Htx)).
    rewrite (bind_ok _ _ _ _ _ (checkBox_query_ok _ _ _ Hrx)).
    rewrite (bind_ok _ _ _ _ _ (checkBox_query_ok _ _ _ Hsx)).
    rewrite (bind_ok _ _ _ _ _ (checkBox_query_ok _ _ _ Hvis)).
    eexists. split; [reflexivity|]. intros attr. unfold selected_by_checkboxes.
    destruct tx, rx, sx, vis; cbn [app];
      rewrite ?elem_of_cons, ?elem_of_nil; intuition congruence.
Qed.

Lemma lookup_touch (f : flags -> flags) (plugs : list plug) (m : gmap plug flags)
    (q : plug) :
  (forall x, f (f x) = f x) ->
  touch f plugs m !! q = if decide (q ∈ plugs) then f <$> m !! q else m !! q.
Proof.
  intros Hf. revert m. induction plugs as [|p plugs IH]; intros m.
  - cbn. destruct (decide (q ∈ [])) as [H|_]; [inversion H|reflexivity].
  - unfold touch in *. cbn [foldl]. rewrite IH.
    destruct (decide (p = q)) as [->|Hne].
    + rewrite lookup_alter_eq.
      destruct (decide (q ∈ q :: plugs)) as [_|Hn];
        [|exfalso; apply Hn, list_elem_of_here].
      destruct (decide (q ∈ plugs)); [|reflexivity].
      destruct (m !! q); cbn; [now rewrite Hf|reflexivity].
    + rewrite lookup_alter_ne by assumption.
      destruct (decide (q ∈ plugs)) as [Hin|Hnin],
               (decide (q ∈ p :: plugs)) as [Hin'|Hnin']; try reflexivity.
      * exfalso. apply Hnin'. now apply list_elem_of_further.
      * exfalso. apply elem_of_cons in Hin' as [->|H]; [now apply Hne|contradiction].
Qed.

Lemma state_eta (s : state) : set_scene (scene s) s = s.
Proof. now destruct s. Qed.

Lemma edit_existing_run (f : flags -> flags) (p : plug) (s : state) :
  bind (objExists p) (fun ex => if ex then edit_flags p f else ret tt) s
  = (Ok tt, set_scene (alter f p (scene s)) s).
Proof.
  unfold objExists. rewrite bind_gets.
  destruct (scene s !! p) as [x|] eqn:E.
  - rewrite bool_decide_eq_true_2 by eauto.
    unfold edit_flags. rewrite bind_gets. unfold id. now rewrite E.
  - rewrite bool_decide_eq_false_2 by (intros [? ?]; discriminate).
    unfold ret. f_equal. rewrite <- (state_eta s) at 1. f_equal.
    apply map_eq. intros q. destruct (decide (p = q)) as [->|Hne].
    + rewrite lookup_alter_eq, E. reflexivity.
    + now rewrite lookup_alter_ne.
Qed.

Lemma inner_loop_run (f : flags -> flags) (obj : string) (attributes : list string)
    (s : state) :
  for_each attributes (fun attr =>
    bind (objExists (Plug obj attr))
      (fun ex => if ex then edit_flags (Plug obj attr) f else ret tt)) s
  = (Ok tt, set_scene (touch f (Plug obj <$> attributes) (scene s)) s).
Proof.
  revert s. induction attributes as [|a attributes IH]; intros s; cbn [for_each].
  - cbn. unfold ret. now rewrite state_eta.
  - rewrite (bind_ok _ _ _ _ _ (edit_existing_run f _ s)). rewrite IH. reflexivity.
Qed.

Lemma outer_loop_run (f : flags -> flags) (objs attributes : list string) (s : state) :
  for_each objs (fun obj =>
    for_each attributes (fun attr =>
      bind (objExists (Plug obj attr))
        (fun ex => if ex then edit_flags (Plug obj attr) f else ret tt))) s
  = (Ok tt,
     set_scene (touch f (obj ← objs; Plug obj <$> attributes) (scene s)) s).
Proof.
  revert s. induction objs as [|o objs IH]; intros s; cbn [for_each].
  - cbn. unfold ret. now rewrite state_eta.
  - rewrite (bind_ok _ _ _ _ _ (inner_loop_run f o attributes s)). rewrite IH.
    cbn. unfold touch. now rewrite foldl_app.
Qed.

Lemma elem_of_plugs (objs attributes : list string) (q : plug) :
  q ∈ (obj ← objs; Plug obj <$> attributes) <->
  plug_node q ∈ objs /\ plug_attr q ∈ attributes.
Proof.
  rewrite list_elem_of_bind. split.
  - intros (obj & Hq & Hobj). apply list_elem_of_fmap in Hq as (a & -> & Ha). auto.
  - intros [Hn Ha]. exists (plug_node q). split; [|exact Hn].
    apply list_elem_of_fmap. exists (plug_attr q). split; [now destruct q|exact Ha].
Qed.

(** C7.  With the five check boxes present, [set_native_attributes] returns,
    and afterwards: every attribute of a selected object that the check
    boxes select has its lock flag on and its keyable flag off when
    [lock_state] is 0 ("Lock and Hide"), and its lock flag off and its
    keyable flag on otherwise ("Unlock", [lock_state] 1), its place in the
    channel box being as before; every other attribute, of a selected or of
    an unselected object, has the flags it had; no attribute is created or
    removed. *)
Theorem set_native_attributes_frame (s : state) (lock_state : Z)
    (tx_cb rx_cb sx_cb vis_cb all_cb : string) (all tx rx sx vis : bool) :
  checkboxes s !! all_cb = Some all ->
  checkboxes s !! tx_cb = Some tx ->
  checkboxes s !! rx_cb = Some rx ->
  checkboxes s !! sx_cb = Some sx ->
  checkboxes s !! vis_cb = Some vis ->
  exists s',
    set_native_attributes lock_state tx_cb rx_cb sx_cb vis_cb all_cb s = (Ok tt, s') /\
    forall p,
      (plug_node p ∈ selection s ->
       selected_by_checkboxes all tx rx sx vis (plug_attr p) ->
       forall f, scene s !! p = Some f ->
         exists f', scene s' !! p = Some f' /\
           f_lock f' = (if (lock_state =? 0)%Z then true else false) /\
           f_keyable f' = (if (lock_state =? 0)%Z then false else true) /\
           f_channel_box f' = f_channel_box f) /\
      (~ (plug_node p ∈ selection s /\
          selected_by_checkboxes all tx rx sx vis (plug_attr p)) ->
       scene s' !! p = scene s !! p) /\
      (scene s' !! p = None <-> scene s !! p = None).
Proof.
  intros Hall Htx Hrx Hsx Hvis.
  unfold set_native_attributes. rewrite bind_gets.
  destruct (selection s) as [|o objs] eqn:Hsel.
  - eexists. split; [reflexivity|]. intros p. split; [|split; reflexivity].
    intros H. inversion H.
  - destruct (checked_attributes_run s tx_cb rx_cb sx_cb vis_cb all_cb
                all tx rx sx vis Hall Htx Hrx Hsx Hvis) as (attributes & Hrun & Hattrs).
    rewrite (bind_ok _ _ _ _ _ Hrun).
    unfold setAttr_lock_keyable. rewrite outer_loop_run.
    eexists. split; [reflexivity|]. intros p. cbn [scene set_scene].
    rewrite lookup_touch by reflexivity.
    split; [|split].
    + intros Hn Ha f Hf. rewrite decide_True.
      * rewrite Hf. eexists. split; [reflexivity|]. cbn. auto.
      * apply elem_of_plugs. split; [exact Hn|]. now apply Hattrs.
    + intros Hno. rewrite decide_False; [reflexivity|].
      intros H. apply elem_of_plugs in H as [Hn Ha]. apply Hno.
      split; [exact Hn|]. now apply Hattrs.
    + destruct (decide _); [|reflexivity]. now rewrite fmap_None.
Qed.

Lemma set_native_attributes_frame_witness :
  exists s',
    set_native_attributes 0 "translate" "rotate" "scale" "visibility" "all" cube_and_sphere
      = (Ok tt, s') /\
    scene s' !! Plug "cube" "tx"
      = Some {| f_lock := true; f_keyable := false; f_channel_box := false |} /\
    scene s' !! Plug "cube" "rx"
      = Some {| f_lock := false; f_keyable := true; f_channel_box := false |} /\
    scene s' !! Plug "sphere" "tx"
      = Some {| f_lock := false; f_keyable := true; f_channel_box := false |}.
Proof.
  destruct (set_native_attributes_frame cube_and_sphere 0
              "translate" "rotate" "scale" "visibility" "all"
              false true false false true) as (s' & Hrun & Hp);
    try reflexivity.
  exists s'. split; [exact Hrun|]. split; [|split].
  - destruct (Hp (Plug "cube" "tx")) as [H _].
    destruct (H ltac:(apply list_elem_of_here)
                ltac:(left; split; [reflexivity|apply list_elem_of_here])
                unlocked eq_refl) as ([l k c] & Hf & Hl & Hk & Hc).
    cbn in Hl, Hk, Hc. now subst.
  - destruct (Hp (Plug "cube" "rx")) as (_ & H & _). rewrite H; [reflexivity|].
    intros [_ [[_ H1]|[[H1 _]|[[H1 _]|[_ H1]]]]]; try discriminate.
    cbn in H1. rewrite !elem_of_cons, elem_of_nil in H1.
    destruct H1 as [H1|[H1|[H1|[]]]]; discriminate.
  - destruct (Hp (Plug "sphere" "tx")) as (_ & H & _). rewrite H; [reflexivity|].
    intros [H1 _]. cbn in H1. apply list_elem_of_singleton in H1. discriminate.
Defined.


(** *** Make Keyable, Make Unkeyable, and repeated clicks *)

Lemma keyable_existing_run (keyable : bool) (p : plug) (s : state) :
  bind (objExists p) (fun ex =>
    if ex then
      bind (setAttr_keyable p keyable) (fun _ =>
        if negb keyable then setAttr_channelBox p true else ret tt)
    else ret tt) s
  = (Ok tt, set_scene (alter (keyable_flags keyable) p (scene s)) s).
Proof.
  unfold objExists. rewrite bind_gets.
  destruct (scene s !! p) as [x|] eqn:E.
  - rewrite bool_decide_eq_true_2 by eauto.
    unfold setAttr_keyable, setAttr_channelBox, edit_flags.
    rewrite bind_bind, bind_gets. unfold id. rewrite E. rewrite bind_modify.
    destruct keyable; cbn [negb].
    + reflexivity.
    + rewrite bind_gets. cbn [scene set_scene]. rewrite lookup_alter_eq, E. cbn.
      unfold modify, set_scene. cbn. f_equal. f_equal.
      apply map_eq. intros q. destruct (decide (p = q)) as [->|Hne].
      * rewrite !lookup_alter_eq, E. reflexivity.
      * now rewrite !lookup_alter_ne.
  - rewrite bool_decide_eq_false_2 by (intros [? ?]; discriminate).
    unfold ret. f_equal. rewrite <- (state_eta s) at 1. f_equal.
    apply map_eq. intros q. destruct (decide (p = q)) as [->|Hne].
    + rewrite lookup_alter_eq, E. reflexivity.
    + now rewrite lookup_alter_ne.
Qed.

Lemma keyable_inner_loop_run (keyable : bool) (obj : string) (attributes : list string)
    (s : state) :
  for_each attributes (fun attr =>
    bind (objExists (Plug obj attr)) (fun ex =>
      if ex then
        bind (setAttr_keyable (Plug obj attr) keyable) (fun _ =>
          if negb keyable then setAttr_channelBox (Plug obj attr) true else ret tt)
      else ret tt)) s
  = (Ok tt, set_scene (touch (keyable_flags keyable) (Plug obj <$> attributes) (scene s)) s).
Proof.
  revert s. induction attributes as [|a attributes IH]; intros s; cbn [for_each].
  - cbn. unfold ret. now rewrite state_eta.
  - rewrite (bind_ok _ _ _ _ _ (keyable_existing_run keyable _ s)). rewrite IH. reflexivity.
Qed.

Lemma keyable_outer_loop_run (keyable : bool) (objs attributes : list string) (s : state) :
  for_each objs (fun obj =>
    for_each attributes (fun attr =>
      bind (objExists (Plug obj attr)) (fun ex =>
        if ex then
          bind (setAttr_keyable (Plug obj attr) keyable) (fun _ =>
            if negb keyable then setAttr_channelBox (Plug obj attr) true else ret tt)
        else ret tt))) s
  = (Ok tt,
     set_scene (touch (keyable_flags keyable)
                  (obj ← objs; Plug obj <$> attributes) (scene s)) s).
Proof.
  revert s. induction objs as [|o objs IH]; intros s; cbn [for_each].
  - cbn. unfold ret. now rewrite state_eta.
  - rewrite (bind_ok _ _ _ _ _ (keyable_inner_loop_run keyable o attributes s)). rewrite IH.
    cbn. unfold touch. now rewrite foldl_app.
Qed.

Lemma keyable_flags_idemp (keyable : bool) (f : flags) :
  keyable_flags keyable (keyable_flags keyable f) = keyable_flags keyable f.
Proof. now destruct keyable. Qed.

(** X9: with the five check boxes present, [set_native_keyable] returns, and
    afterwards every attribute of a selected object that the check boxes
    select has its keyable flag equal to [is_keyable], is shown in the
    channel box when [is_keyable] is false, and keeps its lock flag; every
    other attribute has the flags it had, and no attribute is created or
    removed. *)
Theorem set_native_keyable_frame (s : state) (is_keyable : bool)
    (tx_cb rx_cb sx_cb vis_cb all_cb : string) (all tx rx sx vis : bool) :
  checkboxes s !! all_cb = Some all ->
  checkboxes s !! tx_cb = Some tx ->
  checkboxes s !! rx_cb = Some rx ->
  checkboxes s !! sx_cb = Some sx ->
  checkboxes s !! vis_cb = Some vis ->
  exists s',
    set_native_keyable is_keyable tx_cb rx_cb sx_cb vis_cb all_cb s = (Ok tt, s') /\
    forall p,
      (plug_node p ∈ selection s ->
       selected_by_checkboxes all tx rx sx vis (plug_attr p) ->
       forall f, scene s !! p = Some f ->
         exists f', scene s' !! p = Some f' /\
           f_keyable f' = is_keyable /\
           f_lock f' = f_lock f /\
           f_channel_box f' = (if is_keyable then f_channel_box f else true)) /\
      (~ (plug_node p ∈ selection s /\
          selected_by_checkboxes all tx rx sx vis (plug_attr p)) ->
       scene s' !! p = scene s !! p) /\
      (scene s' !! p = None <-> scene s !! p = None).
Proof.
  intros Hall Htx Hrx Hsx Hvis.
  unfold set_native_keyable. rewrite bind_gets.
  destruct (selection s) as [|o objs] eqn:Hsel.
  - eexists. split; [reflexivity|]. intros p. split; [|split; reflexivity].
    intros H. inversion H.
  - destruct (checked_attributes_run s tx_cb rx_cb sx_cb vis_cb all_cb
                all tx rx sx vis Hall Htx Hrx Hsx Hvis) as (attributes & Hrun & Hattrs).
    cbv zeta. rewrite (bind_ok _ _ _ _ _ Hrun).
    rewrite keyable_outer_loop_run.
    eexists. split; [reflexivity|]. intros p. cbn [scene set_scene].
    rewrite lookup_touch by apply keyable_flags_idemp.
    split; [|split].
    + intros Hn Ha f Hf. rewrite decide_True.
      * rewrite Hf. eexists. split; [reflexivity|]. now destruct is_keyable.
      * apply elem_of_plugs. split; [exact Hn|]. now apply Hattrs.
    + intros Hno. rewrite decide_False; [reflexivity|].
      intros H. apply elem_of_plugs in H as [Hn Ha]. apply Hno.
      split; [exact Hn|]. now apply Hattrs.
    + destruct (decide _); [|reflexivity]. now rewrite fmap_None.
Qed.

Lemma set_native_keyable_frame_witness :
  exists s',
    set_native_keyable false "translate" "rotate" "scale" "visibility" "all" cube_and_sphere
      = (Ok tt, s') /\
    scene s' !! Plug "sphere" "tx" = Some unlocked.
Proof.
  destruct (set_native_keyable_frame cube_and_sphere false
              "translate" "rotate" "scale" "visibility" "all"
              false true false false true) as (s' & Hrun & Hp);
    try reflexivity.
  exists s'. split; [exact Hrun|].
  destruct (Hp (Plug "sphere" "tx")) as (_ & H & _). rewrite H; [reflexivity|].
  intros [H1 _]. cbn in H1. apply list_elem_of_singleton in H1. discriminate.
Defined.


Lemma set_native_attributes_effect (s : state) (lock_state : Z)
    (tx_cb rx_cb sx_cb vis_cb all_cb : string) (all tx rx sx vis : bool) :
  checkboxes s !! all_cb = Some all ->
  checkboxes s !! tx_cb = Some tx ->
  checkboxes s !! rx_cb = Some rx ->
  checkboxes s !! sx_cb = Some sx ->
  checkboxes s !! vis_cb = Some vis ->
  exists s',
    set_native_attributes lock_state tx_cb rx_cb sx_cb vis_cb all_cb s = (Ok tt, s') /\
    selection s' = selection s /\ checkboxes s' = checkboxes s /\
    forall p,
      (plug_node p ∈ selection s ->
       selected_by_checkboxes all tx rx sx vis (plug_attr p) ->
       scene s' !! p =
         with_lock_keyable (lock_state =? 0)%Z (negb (lock_state =? 0)%Z) <$> scene s !! p) /\
      (~ (plug_node p ∈ selection s /\
          selected_by_checkboxes all tx rx sx vis (plug_attr p)) ->
       scene s' !! p = scene s !! p).
Proof.
  intros Hall Htx Hrx Hsx Hvis.
  unfold set_native_attributes. rewrite bind_gets.
  destruct (selection s) as [|o objs] eqn:Hsel.
  - eexists. split; [reflexivity|]. cbn. split; [now rewrite Hsel|].
    split; [reflexivity|]. intros p. split; [|reflexivity].
    intros H. inversion H.
  - destruct (checked_attributes_run s tx_cb rx_cb sx_cb vis_cb all_cb
                all tx rx sx vis Hall Htx Hrx Hsx Hvis) as (attributes & Hrun & Hattrs).
    rewrite (bind_ok _ _ _ _ _ Hrun).
    unfold setAttr_lock_keyable. rewrite outer_loop_run.
    eexists. split; [reflexivity|]. cbn [scene set_scene selection checkboxes].
    split; [now rewrite Hsel|]. split; [reflexivity|]. intros p.
    rewrite lookup_touch by reflexivity.
    split.
    + intros Hn Ha. rewrite decide_True.
      * now destruct (lock_state =? 0)%Z.
      * apply elem_of_plugs. split; [exact Hn|]. now apply Hattrs.
    + intros Hno. rewrite decide_False; [reflexivity|].
      intros H. apply elem_of_plugs in H as [Hn Ha]. apply Hno.
      split; [exact Hn|]. now apply Hattrs.
Qed.

Lemma selected_by_checkboxes_dec (all tx rx sx vis : bool) (attr : string) :
  Decision (selected_by_checkboxes all tx rx sx vis attr).
Proof. unfold selected_by_checkboxes. destruct all; apply _. Qed.

(** X10: the last click wins.  With the check boxes and the selection left
    alone between two clicks, Lock and Hide or Unlock followed by Lock and
    Hide or Unlock leaves every attribute of the scene with the flags that the
    second click alone would have given it; in particular a repeated click
    changes nothing, and Unlock undoes the lock of Lock and Hide. *)
Theorem set_native_attributes_last_wins (s : state) (first second : Z)
    (tx_cb rx_cb sx_cb vis_cb all_cb : string) :
  is_Some (checkboxes s !! all_cb) ->
  is_Some (checkboxes s !! tx_cb) ->
  is_Some (checkboxes s !! rx_cb) ->
  is_Some (checkboxes s !! sx_cb) ->
  is_Some (checkboxes s !! vis_cb) ->
  exists s1 s2 s3,
    set_native_attributes first tx_cb rx_cb sx_cb vis_cb all_cb s = (Ok tt, s1) /\
    set_native_attributes second tx_cb rx_cb sx_cb vis_cb all_cb s1 = (Ok tt, s2) /\
    set_native_attributes second tx_cb rx_cb sx_cb vis_cb all_cb s = (Ok tt, s3) /\
    scene s2 = scene s3.
Proof.
  intros [all Hall] [tx Htx] [rx Hrx] [sx Hsx] [vis Hvis].
  destruct (set_native_attributes_effect s first tx_cb rx_cb sx_cb vis_cb all_cb
              all tx rx sx vis Hall Htx Hrx Hsx Hvis) as (s1 & H1 & Hsel1 & Hcb1 & Hp1).
  destruct (set_native_attributes_effect s second tx_cb rx_cb sx_cb vis_cb all_cb
              all tx rx sx vis Hall Htx Hrx Hsx Hvis) as (s3 & H3 & _ & _ & Hp3).
  rewrite <- Hcb1 in Hall, Htx, Hrx, Hsx, Hvis.
  destruct (set_native_attributes_effect s1 second tx_cb rx_cb sx_cb vis_cb all_cb
              all tx rx sx vis Hall Htx Hrx Hsx Hvis) as (s2 & H2 & _ & _ & Hp2).
  exists s1, s2, s3. repeat (split; [assumption|]).
  apply map_eq. intros p.
  destruct (Hp1 p) as [Hin1 Hout1], (Hp2 p) as [Hin2 Hout2], (Hp3 p) as [Hin3 Hout3].
  rewrite Hsel1 in Hin2, Hout2.
  destruct (decide (plug_node p ∈ selection s)) as [Hn|Hn].
  - destruct (selected_by_checkboxes_dec all tx rx sx vis (plug_attr p)) as [Ha|Ha].
    + rewrite (Hin2 Hn Ha), (Hin1 Hn Ha), (Hin3 Hn Ha).
      now destruct (scene s !! p).
    + rewrite Hout2, Hout1, Hout3 by tauto. reflexivity.
  - rewrite Hout2, Hout1, Hout3 by tauto. reflexivity.
Qed.

Lemma set_native_attributes_last_wins_witness :
  exists s1 s2 s3,
    set_native_attributes 0 "translate" "rotate" "scale" "visibility" "all" cube_and_sphere
      = (Ok tt, s1) /\
    set_native_attributes 1 "translate" "rotate" "scale" "visibility" "all" s1 = (Ok tt, s2) /\
    set_native_attributes 1 "translate" "rotate" "scale" "visibility" "all" cube_and_sphere
      = (Ok tt, s3) /\
    scene s2 = scene s3.
Proof.
  apply (set_native_attributes_last_wins cube_and_sphere 0 1
           "translate" "rotate" "scale" "visibility" "all");
    eexists; reflexivity.
Defined.

End AttrLockProps.

(** ** Properties of rename_tool/CD_rename.py *)

Module RenameProps.
Import Py PyFacts Rename.

(** *** Long paths name objects *)

Lemma index_of_lookup (d : list string) (k : nat) (p : string) :
  NoDup d -> d !! k = Some p -> Dag.index_of p d = Some k.
Proof.
  intros Hnd. revert k. induction Hnd as [|q d Hq Hnd IH]; intros k Hk.
  - discriminate.
  - destruct k as [|k]; cbn in *.
    + injection Hk as ->. now rewrite String.eqb_refl.
    + destruct (String.eqb_spec q p) as [->|_].
      * exfalso. apply Hq. eapply list_elem_of_lookup_2, Hk.
      * now rewrite (IH k Hk).
Qed.

Lemma index_of_Some (d : list string) (k : nat) (p : string) :
  Dag.index_of p d = Some k -> d !! k = Some p.
Proof.
  revert k. induction d as [|q d IH]; intros k; cbn; [discriminate|].
  destruct (String.eqb_spec q p) as [->|_].
  - intros [= <-]. reflexivity.
  - destruct (Dag.index_of p d) as [k'|]; [|discriminate].
    intros [= <-]. now apply IH.
Qed.

Lemma resolve_long_path (d : list string) (k : nat) (p : string) :
  NoDup d -> d !! k = Some p -> Dag.resolve d p = Some k.
Proof. intros Hnd Hk. unfold Dag.resolve. now rewrite (index_of_lookup d k p). Qed.

Lemma lookup_distinct (d : list string) (j k : nat) (p q : string) :
  NoDup d -> d !! j = Some p -> d !! k = Some q -> j <> k -> p <> q.
Proof.
  intros Hnd Hj Hk Hne ->. apply Hne. eapply NoDup_lookup; eauto.
Qed.

(** What the host does with a long path of the scene. *)
Lemma dag_rename_long_path (naming : Dag.naming_policy) (d : list string) (k : nat)
    (p new_name : string) :
  Dag.renames_alone naming -> NoDup d -> d !! k = Some p ->
  Dag.rename naming d p new_name =
    match Dag.leaf_name naming d k new_name with
    | Some leaf =>
        let d' := Dag.move_path p (Dag.child_path (Dag.parent_path p) leaf) <$> d in
        if bool_decide (NoDup d') then inl (leaf, d')
        else inr ("Cannot rename " +:+ p)
    | None => inr "New name has no legal characters."
    end.
Proof.
  intros Halone Hnd Hk. unfold Dag.rename.
  rewrite (resolve_long_path d k p Hnd Hk), Hk.
  destruct (Dag.leaf_name naming d k new_name) as [leaf|]; [|reflexivity].
  now rewrite Halone.
Qed.

(** [_safe_rename] in closed form: the host's answer is recorded, the host's
    refusal becomes a warning; no exception leaves it. *)
Lemma safe_rename_run (obj new_name : string) (s : state) :
  _safe_rename obj new_name s =
    match Dag.rename (naming s) (dag s) obj new_name with
    | inl (result, d) =>
        (Ok (Some result),
         set_renaming_history (renaming_history s ++ [(obj, result)]) (set_dag d s))
    | inr msg =>
        (Ok None,
         set_warnings (warnings s ++
           ["Could not rename '" +:+ obj +:+ "' to '" +:+ new_name +:+ "': " +:+ msg]) s)
    end.
Proof.
  unfold _safe_rename, try_runtime, rename. rewrite bind_bind, bind_gets. unfold id.
  destruct (Dag.rename (naming s) (dag s) obj new_name) as [[result d]|msg];
    reflexivity.
Qed.

(** *** The loop of [search_and_replace] addresses objects, not stale paths *)

Lemma lookup_rewrite_pending (i j : nat) (old_path new_path : string)
    (pending : list string) :
  rewrite_pending i old_path new_path pending !! j =
    (fun q => if (i <? j)%nat && Str.startswith (old_path +:+ "|") q
              then new_path +:+ Str.drop (String.length old_path) q
              else q) <$> pending !! j.
Proof. unfold rewrite_pending. apply list_lookup_imap. Qed.

Lemma length_rewrite_pending (i : nat) (old_path new_path : string)
    (pending : list string) :
  length (rewrite_pending i old_path new_path pending) = length pending.
Proof. unfold rewrite_pending. apply length_imap. Qed.

Lemma search_loop_refines (search_term replace_term : string) (ids : list nat) :
  forall (i : nat) (pending : list string) (s : state),
    Dag.renames_alone (naming s) ->
    NoDup (dag s) -> NoDup ids -> tracks ids i pending s ->
    search_loop (length ids) i search_term replace_term pending s
    = rename_objects search_term replace_term ids s.
Proof.
  induction ids as [|k ids IH]; intros i pending s Halone Hdag Hids Htr.
  - reflexivity.
  - apply NoDup_cons in Hids as [Hk Hids].
    destruct (Htr 0%nat k eq_refl) as (p & Hp & Hpi).
    rewrite Nat.add_0_r in Hpi.
    assert (Hnext : forall s1, dag s1 = dag s -> tracks ids (S i) pending s1).
    { intros s1 Hs1 j k' Hj. destruct (Htr (S j) k' Hj) as (q & Hq & Hqi).
      exists q. rewrite Hs1. split; [exact Hq|].
      now replace (S i + j)%nat with (i + S j)%nat by lia. }
    cbn [length search_loop]. rewrite Hpi.
    unfold rename_objects. cbn [for_each]. fold (rename_objects search_term replace_term ids).
    unfold rename_object at 1. rewrite bind_bind, bind_gets. unfold id. rewrite Hp.
    unfold _get_short_name.
    destruct (Str.contains search_term (Dag.short_name p)) eqn:Hc; cbn [negb].
    + rewrite (bind_bind (_safe_rename _ _)).
      pose proof (safe_rename_run p
        (Str.replace search_term replace_term (Dag.short_name p)) s) as Hsr.
      rewrite (dag_rename_long_path (naming s) (dag s) k p _ Halone Hdag Hp) in Hsr.
      destruct (Dag.leaf_name (naming s) (dag s) k _) as [leaf|].
      * cbv zeta in Hsr. destruct (bool_decide _) eqn:Hnd in Hsr.
        -- apply bool_decide_eq_true in Hnd.
           rewrite !(bind_ok _ _ _ _ _ Hsr). rewrite bind_ret.
           apply IH; [exact Halone|exact Hnd|exact Hids|].
           intros j k' Hj. destruct (Htr (S j) k' Hj) as (q & Hq & Hqi).
           eexists. cbn [dag set_renaming_history set_dag].
           rewrite list_lookup_fmap, Hq. split; [reflexivity|].
           rewrite lookup_rewrite_pending.
           replace (S i + j)%nat with (i + S j)%nat by lia. rewrite Hqi.
           cbn [fmap option_fmap option_map].
           f_equal. unfold Dag.move_path.
           assert (Hne : q <> p).
           { apply (lookup_distinct (dag s) k' k q p Hdag Hq Hp).
             intros ->. apply Hk. eapply list_elem_of_lookup_2, Hj. }
           apply String.eqb_neq in Hne. rewrite Hne.
           replace (i <? i + S j)%nat with true by (symmetry; apply Nat.ltb_lt; lia).
           reflexivity.
        -- rewrite !(bind_ok _ _ _ _ _ Hsr). rewrite bind_ret.
           apply IH; [exact Halone|exact Hdag|exact Hids|]. now apply Hnext.
      * rewrite !(bind_ok _ _ _ _ _ Hsr). rewrite bind_ret.
        apply IH; [exact Halone|exact Hdag|exact Hids|]. now apply Hnext.
    + rewrite bind_ret. apply IH; [exact Halone|exact Hdag|exact Hids|]. now apply Hnext.
Qed.

(** *** The objects of the scope *)

Lemma index_of_elem (d : list string) (p : string) :
  p ∈ d -> exists k, Dag.index_of p d = Some k.
Proof.
  induction d as [|q d IH]; intros H; [inversion H|].
  cbn. destruct (String.eqb_spec q p) as [->|Hne]; [eauto|].
  apply elem_of_cons in H as [->|H]; [contradiction|].
  destruct (IH H) as [k ->]. eauto.
Qed.

Lemma ids_of_cons (d : list string) (p : string) (paths : list string) (k : nat) :
  Dag.index_of p d = Some k -> ids_of d (p :: paths) = k :: ids_of d paths.
Proof. intros H. unfold ids_of. cbn. now rewrite H. Qed.

Lemma ids_of_lookup (d paths : list string) :
  Forall (fun p => p ∈ d) paths ->
  forall j k, ids_of d paths !! j = Some k ->
    exists p, d !! k = Some p /\ paths !! j = Some p.
Proof.
  induction 1 as [|p paths Hp _ IH]; intros j k Hj; [discriminate|].
  destruct (index_of_elem d p Hp) as [k0 Hk0].
  rewrite (ids_of_cons d p paths k0 Hk0) in Hj.
  destruct j as [|j]; cbn in Hj.
  - injection Hj as <-. exists p. split; [now apply index_of_Some|reflexivity].
  - apply IH, Hj.
Qed.

Lemma ids_of_length (d paths : list string) :
  Forall (fun p => p ∈ d) paths -> length (ids_of d paths) = length paths.
Proof.
  induction 1 as [|p paths Hp _ IH]; [reflexivity|].
  destruct (index_of_elem d p Hp) as [k0 Hk0].
  rewrite (ids_of_cons d p paths k0 Hk0). cbn. now rewrite IH.
Qed.

Lemma ids_of_NoDup (d paths : list string) :
  Forall (fun p => p ∈ d) paths -> NoDup paths -> NoDup (ids_of d paths).
Proof.
  induction 1 as [|p paths Hp Hall IH]; intros Hnd; [constructor|].
  apply NoDup_cons in Hnd as [Hnp Hnd].
  destruct (index_of_elem d p Hp) as [k0 Hk0].
  rewrite (ids_of_cons d p paths k0 Hk0). constructor; [|now apply IH].
  intros Hin. apply list_elem_of_lookup_1 in Hin as [j Hj].
  destruct (ids_of_lookup d paths Hall j k0 Hj) as (q & Hq & Hqj).
  apply index_of_Some in Hk0. rewrite Hk0 in Hq. injection Hq as <-.
  apply Hnp. eapply list_elem_of_lookup_2, Hqj.
Qed.

Lemma paths_of_in_dag (d : list string) (ids : list nat) (p : string) :
  p ∈ paths_of d ids -> p ∈ d.
Proof.
  unfold paths_of. rewrite list_elem_of_omap. intros (k & _ & Hk).
  eapply list_elem_of_lookup_2, Hk.
Qed.

Lemma paths_of_NoDup (d : list string) (ids : list nat) :
  NoDup d -> NoDup ids -> NoDup (paths_of d ids).
Proof.
  intros Hd. induction 1 as [|k ids Hk Hids IH]; [constructor|].
  unfold paths_of in *. cbn. destruct (d !! k) as [p|] eqn:Hp; [|exact IH].
  constructor; [|exact IH].
  rewrite list_elem_of_omap. intros (k' & Hk' & Hp').
  assert (k' = k) by (apply (NoDup_lookup d k' k p Hd Hp' Hp)). subst. contradiction.
Qed.

Lemma scope_in_dag (option : Z) (s : state) (p : string) :
  p ∈ scope option s -> p ∈ dag s.
Proof.
  unfold scope. destruct (option =? 1)%Z; [|destruct (option =? 2)%Z].
  - rewrite elem_of_remove_dups, list_elem_of_bind.
    intros (q & Hp & Hq). unfold Dag.with_descendants in Hp.
    apply elem_of_cons in Hp as [->|Hp].
    + eapply paths_of_in_dag, Hq.
    + apply list_elem_of_filter in Hp as [_ Hp]. exact Hp.
  - apply paths_of_in_dag.
  - auto.
Qed.

Lemma scope_NoDup (option : Z) (s : state) :
  NoDup (dag s) -> NoDup (selected s) -> NoDup (scope option s).
Proof.
  intros Hd Hs. unfold scope. destruct (option =? 1)%Z; [|destruct (option =? 2)%Z].
  - apply NoDup_remove_dups.
  - now apply paths_of_NoDup.
  - exact Hd.
Qed.


(** *** [search_and_replace] as a batch over objects *)

Lemma textFieldGrp_query_ok (name t : string) (s : state) :
  text_fields s !! name = Some t -> textFieldGrp_query name s = (Ok t, s).
Proof. intros H. unfold textFieldGrp_query. rewrite bind_gets. unfold id. now rewrite H. Qed.

Lemma intFieldGrp_query_ok (name : string) (n : Z) (s : state) :
  int_fields s !! name = Some n -> intFieldGrp_query name s = (Ok n, s).
Proof. intros H. unfold intFieldGrp_query. rewrite bind_gets. unfold id. now rewrite H. Qed.

Lemma radioButtonGrp_query_ok (name : string) (n : Z) (s : state) :
  radio_buttons s !! name = Some n -> radioButtonGrp_query name s = (Ok n, s).
Proof. intros H. unfold radioButtonGrp_query. rewrite bind_gets. unfold id. now rewrite H. Qed.

Lemma optionMenuGrp_query_ok (name v : string) (s : state) :
  option_menus s !! name = Some v -> optionMenuGrp_query name s = (Ok v, s).
Proof. intros H. unfold optionMenuGrp_query. rewrite bind_gets. unfold id. now rewrite H. Qed.

Lemma scope_tracks (option : Z) (s s1 : state) :
  dag s1 = dag s ->
  tracks (ids_of (dag s) (scope option s)) 0 (scope option s) s1.
Proof.
  intros Hd j k Hj.
  assert (Hall : Forall (fun p => p ∈ dag s) (scope option s))
    by (apply Forall_forall; intros p; apply scope_in_dag).
  destruct (ids_of_lookup _ _ Hall j k Hj) as (p & Hp & Hpj).
  exists p. rewrite Hd. split; [exact Hp|exact Hpj].
Qed.

(** X1: in a scene where the host renames no shape along with an object
    (joints, groups, shapes themselves), with distinct long paths and a
    selection without repetition, [search_and_replace] does what renaming
    the objects of the scope one by one does, each addressed by identity at
    its current path: an object is renamed when its short name contains the
    term, to the short name with the term replaced.  The pending paths that
    the loop rewrites after a rename are then the current paths of the
    objects still to be visited. *)
Theorem search_and_replace_addresses_objects (s : state)
    (search_term replace_term : string) (option : Z) :
  text_fields s !! "searchTextField" = Some search_term ->
  text_fields s !! "replaceTextField" = Some replace_term ->
  radio_buttons s !! "searchReplaceOption" = Some option ->
  Str.nonempty search_term = true ->
  Dag.renames_alone (naming s) ->
  NoDup (dag s) -> NoDup (selected s) ->
  scope option s <> [] ->
  search_and_replace s
  = _undo_chunk "Search and Replace"
      (rename_objects search_term replace_term (ids_of (dag s) (scope option s))) s.
Proof.
  intros Hst Hrt Hopt Hne Halone Hdag Hsel Hscope. unfold search_and_replace.
  rewrite (bind_ok _ _ _ _ _ (textFieldGrp_query_ok _ _ s Hst)).
  rewrite (bind_ok _ _ _ _ _ (textFieldGrp_query_ok _ _ s Hrt)).
  rewrite (bind_ok _ _ _ _ _ (radioButtonGrp_query_ok _ _ s Hopt)).
  rewrite Hne. cbn [negb].
  assert (Hobj : (if (option =? 1)%Z then ls_selection_dag_long
                  else if (option =? 2)%Z then ls_selection_long else ls_long) s
                 = (Ok (scope option s), s)).
  { unfold scope. destruct (option =? 1)%Z; [reflexivity|].
    destruct (option =? 2)%Z; reflexivity. }
  rewrite (bind_ok _ _ _ _ _ Hobj).
  destruct (scope option s) as [|p objs] eqn:Hsc; [contradiction|]. rewrite <- Hsc.
  unfold _undo_chunk. unfold undoInfo_openChunk. rewrite !bind_modify.
  assert (Hall : Forall (fun p => p ∈ dag s) (scope option s))
    by (apply Forall_forall; intros q; apply scope_in_dag).
  rewrite <- (ids_of_length (dag s) (scope option s) Hall).
  rewrite search_loop_refines; [reflexivity|exact Halone|exact Hdag| |].
  - apply ids_of_NoDup; [exact Hall|]. now apply scope_NoDup.
  - now apply scope_tracks.
Qed.

Lemma search_and_replace_addresses_objects_witness :
  search_and_replace arm_scene
  = _undo_chunk "Search and Replace"
      (rename_objects "arm" "leg" (ids_of (dag arm_scene) (scope 1 arm_scene))) arm_scene.
Proof.
  apply (search_and_replace_addresses_objects arm_scene "arm" "leg" 1).
  - reflexivity.
  - reflexivity.
  - reflexivity.
  - reflexivity.
  - intros d k leaf. reflexivity.
  - apply (bool_decide_eq_true_1 (NoDup (dag arm_scene))). vm_compute. reflexivity.
  - apply (bool_decide_eq_true_1 (NoDup (selected arm_scene))). vm_compute. reflexivity.
  - vm_compute. discriminate.
Defined.


(** *** What every operation of the window keeps *)

Lemma textFieldGrp_query_keeps (P : state -> Prop) (name : string) :
  preserves P (textFieldGrp_query name).
Proof.
  apply preserves_bind; [apply preserves_gets|]. intros s.
  destruct (text_fields s !! name); [apply preserves_ret|apply preserves_raise].
Qed.

Lemma intFieldGrp_query_keeps (P : state -> Prop) (name : string) :
  preserves P (intFieldGrp_query name).
Proof.
  apply preserves_bind; [apply preserves_gets|]. intros s.
  destruct (int_fields s !! name); [apply preserves_ret|apply preserves_raise].
Qed.

Lemma radioButtonGrp_query_keeps (P : state -> Prop) (name : string) :
  preserves P (radioButtonGrp_query name).
Proof.
  apply preserves_bind; [apply preserves_gets|]. intros s.
  destruct (radio_buttons s !! name); [apply preserves_ret|apply preserves_raise].
Qed.

Lemma optionMenuGrp_query_keeps (P : state -> Prop) (name : string) :
  preserves P (optionMenuGrp_query name).
Proof.
  apply preserves_bind; [apply preserves_gets|]. intros s.
  destruct (option_menus s !! name); [apply preserves_ret|apply preserves_raise].
Qed.

Section Invariant.

(** A property of the scene and of the history that warnings, undo chunks and
    recorded renames keep. *)
Variable I : state -> Prop.
Hypothesis I_warnings : forall s w, I s -> I (set_warnings w s).
Hypothesis I_chunks : forall s c, I s -> I (set_open_chunks c s).
Hypothesis I_rename : forall s obj new_name result d,
  Dag.rename (naming s) (dag s) obj new_name = inl (result, d) -> I s ->
  I (set_renaming_history (renaming_history s ++ [(obj, result)]) (set_dag d s)).

(** The property, with the stack of open undo chunks being [c]. *)
Local Notation J c := (fun s : state => I s /\ open_chunks s = c).

Lemma warning_keeps (c : list string) (msg : string) : preserves (J c) (warning msg).
Proof. intros s [HI Hc]. cbn. split; [now apply I_warnings|exact Hc]. Qed.

Lemma safe_rename_keeps (c : list string) (obj new_name : string) :
  preserves (J c) (_safe_rename obj new_name).
Proof.
  intros s [HI Hc]. rewrite safe_rename_run.
  destruct (Dag.rename (naming s) (dag s) obj new_name) as [[result d]|msg] eqn:Hr; cbn.
  - split; [now apply (I_rename s obj new_name)|exact Hc].
  - split; [now apply I_warnings|exact Hc].
Qed.

Lemma safe_rename_step_keeps (c : list string) (obj new_name : string) :
  preserves (J c) (_ <- _safe_rename obj new_name ;; ret tt)%py.
Proof. apply preserves_bind; [apply safe_rename_keeps|intros _; apply preserves_ret]. Qed.

Lemma require_selection_keeps (c : list string) : preserves (J c) _require_selection.
Proof.
  apply preserves_bind; [apply preserves_gets|]. intros [|p l].
  - apply preserves_bind; [apply warning_keeps|intros _; apply preserves_ret].
  - apply preserves_ret.
Qed.

Lemma undo_chunk_keeps (c : list string) (name : string) (body : M state unit) :
  preserves (J (name :: c)) body -> preserves (J c) (_undo_chunk name body).
Proof.
  intros Hb s [HI Hc]. unfold _undo_chunk, undoInfo_openChunk. rewrite bind_modify.
  assert (H1 : J (name :: c) (set_open_chunks (name :: open_chunks s) s)).
  { split; [now apply I_chunks|cbn; now rewrite Hc]. }
  apply Hb in H1. destruct (body _) as [r s']. cbn in *. destruct H1 as [HI' Hc'].
  split; [now apply I_chunks|now rewrite Hc'].
Qed.

Lemma search_loop_keeps (c : list string) (search_term replace_term : string)
    (todo : nat) :
  forall (i : nat) (pending : list string),
    preserves (J c) (search_loop todo i search_term replace_term pending).
Proof.
  induction todo as [|todo IH]; intros i pending; cbn [search_loop].
  - apply preserves_ret.
  - destruct (pending !! i) as [obj|]; [|apply preserves_ret].
    destruct (negb _); [apply IH|].
    apply preserves_bind; [apply safe_rename_keeps|]. intros [result|]; apply IH.
Qed.

Lemma rename_and_number_objects_keeps (c : list string) :
  preserves (J c) rename_and_number_objects.
Proof.
  apply preserves_bind; [apply require_selection_keeps|]. intros [selection|];
    [|apply preserves_ret].
  apply preserves_bind; [apply textFieldGrp_query_keeps|]. intros t. cbv zeta.
  destruct (negb _); [apply warning_keeps|].
  apply preserves_bind; [apply intFieldGrp_query_keeps|]. intros start.
  apply preserves_bind; [apply intFieldGrp_query_keeps|]. intros padding.
  apply undo_chunk_keeps, preserves_for_each. intros e. apply safe_rename_step_keeps.
Qed.

Lemma add_prefix_to_selection_keeps (c : list string) :
  preserves (J c) add_prefix_to_selection.
Proof.
  apply preserves_bind; [apply require_selection_keeps|]. intros [selection|];
    [|apply preserves_ret].
  apply preserves_bind; [apply textFieldGrp_query_keeps|]. intros t. cbv zeta.
  destruct (negb _); [apply warning_keeps|].
  apply undo_chunk_keeps, preserves_for_each. intros e. apply safe_rename_step_keeps.
Qed.

Lemma add_suffix_to_selection_keeps (c : list string) :
  preserves (J c) add_suffix_to_selection.
Proof.
  apply preserves_bind; [apply require_selection_keeps|]. intros [selection|];
    [|apply preserves_ret].
  apply preserves_bind; [apply textFieldGrp_query_keeps|]. intros t. cbv zeta.
  destruct (negb _); [apply warning_keeps|].
  apply undo_chunk_keeps, preserves_for_each. intros e. apply safe_rename_step_keeps.
Qed.

Lemma remove_character_keeps (c : list string) (position : string) :
  preserves (J c) (_remove_character position).
Proof.
  unfold _remove_character. destruct (negb _); [apply preserves_raise|].
  apply preserves_bind; [apply require_selection_keeps|]. intros [selection|];
    [|apply preserves_ret].
  apply undo_chunk_keeps, preserves_for_each. intros obj. cbv zeta.
  destruct (_ <=? _)%nat; [apply warning_keeps|apply safe_rename_step_keeps].
Qed.

Lemma add_quick_prefix_keeps (c : list string) (prefix : string) :
  preserves (J c) (add_quick_prefix prefix).
Proof.
  apply preserves_bind; [apply require_selection_keeps|]. intros [selection|];
    [|apply preserves_ret].
  apply undo_chunk_keeps, preserves_for_each. intros e. apply safe_rename_step_keeps.
Qed.

Lemma add_quick_suffix_keeps (c : list string) (suffix : string) :
  preserves (J c) (add_quick_suffix suffix).
Proof.
  apply preserves_bind; [apply require_selection_keeps|]. intros [selection|];
    [|apply preserves_ret].
  apply undo_chunk_keeps, preserves_for_each. intros e. apply safe_rename_step_keeps.
Qed.

Lemma search_and_replace_keeps (c : list string) : preserves (J c) search_and_replace.
Proof.
  apply preserves_bind; [apply textFieldGrp_query_keeps|]. intros search_term.
  apply preserves_bind; [apply textFieldGrp_query_keeps|]. intros replace_term.
  apply preserves_bind; [apply radioButtonGrp_query_keeps|]. intros option.
  destruct (negb _); [apply warning_keeps|].
  apply preserves_bind.
  - destruct (option =? 1)%Z; [apply preserves_gets|].
    destruct (option =? 2)%Z; apply preserves_gets.
  - intros [|p objects]; [apply warning_keeps|]. apply undo_chunk_keeps, search_loop_keeps.
Qed.

Lemma apply_naming_convention_keeps (c : list string) :
  preserves (J c) apply_naming_convention.
Proof.
  apply preserves_bind; [apply require_selection_keeps|]. intros [selection|];
    [|apply preserves_ret].
  apply preserves_bind; [apply optionMenuGrp_query_keeps|]. intros convention.
  destruct (NAMING_CONVENTIONS convention); [|apply warning_keeps].
  apply undo_chunk_keeps, preserves_for_each. intros e. apply safe_rename_step_keeps.
Qed.

Lemma run_keeps (c : list string) (o : operation) : preserves (J c) (run o).
Proof.
  destruct o; cbn [run].
  - apply rename_and_number_objects_keeps.
  - apply add_prefix_to_selection_keeps.
  - apply add_suffix_to_selection_keeps.
  - apply remove_character_keeps.
  - apply remove_character_keeps.
  - apply add_quick_prefix_keeps.
  - apply add_quick_suffix_keeps.
  - apply search_and_replace_keeps.
  - apply apply_naming_convention_keeps.
Qed.

End Invariant.

(** X2: the renaming history is only ever appended to: whatever operation of
    the window runs, and whether or not it fails, the history afterwards is
    the history before followed by new entries. *)
Theorem run_history_append_only (o : operation) (s : state) :
  exists added, renaming_history (snd (run o s)) = renaming_history s ++ added.
Proof.
  pose (I := fun s' : state => exists added, renaming_history s' = renaming_history s ++ added).
  assert (H : preserves (fun s' => I s' /\ open_chunks s' = open_chunks s) (run o)).
  { apply run_keeps; unfold I.
    - intros s' w [l Hl]. exists l. exact Hl.
    - intros s' c [l Hl]. exists l. exact Hl.
    - intros s' obj new_name result d _ [l Hl]. exists (l ++ [(obj, result)]).
      cbn. rewrite Hl. now rewrite app_assoc. }
  apply (H s). split; [exists []; now rewrite app_nil_r|reflexivity].
Qed.

(** X3: every operation leaves the stack of open undo chunks as it found
    it: a chunk that an operation opens is closed when the operation ends,
    also when its body raises. *)
Theorem run_closes_undo_chunk (o : operation) (s : state) :
  open_chunks (snd (run o s)) = open_chunks s.
Proof.
  assert (H : preserves (fun s' => True /\ open_chunks s' = open_chunks s) (run o)).
  { apply (run_keeps (fun _ => True)); auto. }
  apply (H s). split; [exact Logic.I|reflexivity].
Qed.


(** *** No operation of the window raises *)

Lemma require_selection_run (s : state) :
  _require_selection s =
    match paths_of (dag s) (selected s) with
    | [] => (Ok None, set_warnings (warnings s ++ ["No objects selected."]) s)
    | selection => (Ok (Some selection), s)
    end.
Proof.
  unfold _require_selection, ls_selection_long. rewrite bind_gets.
  destruct (paths_of (dag s) (selected s)); reflexivity.
Qed.

Lemma bind_require_selection {B} (k : option (list string) -> M state B) (s : state) :
  bind _require_selection k s =
    match paths_of (dag s) (selected s) with
    | [] => k None (set_warnings (warnings s ++ ["No objects selected."]) s)
    | selection => k (Some selection) s
    end.
Proof.
  unfold bind. rewrite require_selection_run.
  destruct (paths_of (dag s) (selected s)); reflexivity.
Qed.

Lemma for_each_returns {A} (l : list A) (body : A -> M state unit) :
  (forall x s, exists s', body x s = (Ok tt, s')) ->
  forall s, exists s', for_each l body s = (Ok tt, s').
Proof.
  intros Hb. induction l as [|x l IH]; intros s; cbn [for_each].
  - now exists s.
  - destruct (Hb x s) as [s1 H1]. rewrite (bind_ok _ _ _ _ _ H1). apply IH.
Qed.

Lemma safe_rename_returns (obj new_name : string) (s : state) :
  exists r s', _safe_rename obj new_name s = (Ok r, s').
Proof.
  rewrite safe_rename_run.
  destruct (Dag.rename (naming s) (dag s) obj new_name) as [[result d]|msg]; eauto.
Qed.

Lemma safe_rename_step_returns (obj new_name : string) (s : state) :
  exists s', (_ <- _safe_rename obj new_name ;; ret tt)%py s = (Ok tt, s').
Proof.
  destruct (safe_rename_returns obj new_name s) as (r & s' & H).
  rewrite (bind_ok _ _ _ _ _ H). now exists s'.
Qed.

Lemma undo_chunk_returns (name : string) (body : M state unit) :
  (forall s, exists s', body s = (Ok tt, s')) ->
  forall s, exists s', _undo_chunk name body s = (Ok tt, s').
Proof.
  intros Hb s. unfold _undo_chunk, undoInfo_openChunk. rewrite bind_modify.
  destruct (Hb (set_open_chunks (name :: open_chunks s) s)) as [s' ->]. eauto.
Qed.

Lemma search_loop_returns (search_term replace_term : string) (todo : nat) :
  forall (i : nat) (pending : list string) (s : state),
    exists s', search_loop todo i search_term replace_term pending s = (Ok tt, s').
Proof.
  induction todo as [|todo IH]; intros i pending s; cbn [search_loop].
  - now exists s.
  - destruct (pending !! i) as [obj|]; [|now exists s].
    destruct (negb _); [apply IH|].
    destruct (safe_rename_returns obj
      (Str.replace search_term replace_term (_get_short_name obj)) s) as (r & s' & H).
    rewrite (bind_ok _ _ _ _ _ H). destruct r; apply IH.
Qed.

Lemma warning_returns (msg : string) (s : state) :
  exists s', warning msg s = (Ok tt, s').
Proof. eexists. reflexivity. Qed.


Lemma arm_scene_windows_open : windows_open arm_scene.
Proof. unfold windows_open. repeat split; eexists; reflexivity. Qed.



(** *** Edge cases and the history window *)

(** X5: with nothing selected, every operation that works on the selection
    (all but Search and Replace) warns that no objects are selected and does
    nothing else: it reads no field, opens no undo chunk, and the scene and
    the history stay as they were.  This holds even while the windows are
    closed. *)
Theorem nothing_selected_only_warns (o : operation) (s : state) :
  paths_of (dag s) (selected s) = [] ->
  o <> SearchAndReplace ->
  run o s = (Ok tt, set_warnings (warnings s ++ ["No objects selected."]) s).
Proof.
  intros Hsel Ho. destruct o; cbn [run]; try contradiction;
    unfold rename_and_number_objects, add_prefix_to_selection, add_suffix_to_selection,
      remove_first_character, remove_last_character, _remove_character,
      add_quick_prefix, add_quick_suffix, apply_naming_convention;
    cbn [String.eqb Ascii.eqb Bool.eqb orb negb andb];
    rewrite bind_require_selection, Hsel; reflexivity.
Qed.

Lemma nothing_selected_only_warns_witness :
  run AddPrefix idle_scene
  = (Ok tt, set_warnings (warnings idle_scene ++ ["No objects selected."]) idle_scene).
Proof.
  apply (nothing_selected_only_warns AddPrefix idle_scene); [reflexivity|discriminate].
Defined.

(** [_safe_rename] keeps the books: one pair per rename, none for a refusal. *)

(** X6: [_safe_rename] never raises.  When it answers a name, the host has
    renamed the object and exactly the pair (path given, name answered) has
    been appended to the history, the warnings being unchanged; when it
    answers None, the scene and the history are unchanged and exactly one
    warning has been added. *)
Theorem safe_rename_records_once (obj new_name : string) (s : state) :
  exists r s', _safe_rename obj new_name s = (Ok r, s') /\
    match r with
    | Some result =>
        renaming_history s' = renaming_history s ++ [(obj, result)] /\
        warnings s' = warnings s /\
        Dag.rename (naming s) (dag s) obj new_name = inl (result, dag s')
    | None =>
        renaming_history s' = renaming_history s /\ dag s' = dag s /\
        exists msg, warnings s' = warnings s ++ [msg]
    end.
Proof.
  rewrite safe_rename_run.
  destruct (Dag.rename (naming s) (dag s) obj new_name) as [[result d]|msg].
  - do 2 eexists. split; [reflexivity|]. cbn. auto.
  - do 2 eexists. split; [reflexivity|]. cbn. eauto.
Qed.

Lemma history_list_edit_ok (f : list string -> list string) (rows : list string)
    (s : state) :
  history_rows s = Some rows ->
  history_list_edit f s = (Ok tt, set_history_rows (Some (f rows)) s).
Proof. intros H. unfold history_list_edit. rewrite bind_gets. unfold id. now rewrite H. Qed.

Lemma append_rows_run (h : list (string * string)) :
  forall (rows : list string) (s : state),
    history_rows s = Some rows ->
    for_each h (fun e => history_list_edit (fun rows => rows ++ [history_row e])) s
    = (Ok tt, set_history_rows (Some (rows ++ (history_row <$> h))) s).
Proof.
  induction h as [|e h IH]; intros rows s Hrows; cbn [for_each fmap list_fmap].
  - rewrite app_nil_r, <- Hrows. now destruct s.
  - rewrite (bind_ok _ _ _ _ _ (history_list_edit_ok _ rows s Hrows)).
    rewrite (IH (rows ++ [history_row e])); [|reflexivity].
    cbn. now rewrite <- app_assoc.
Qed.

(** X7: while the history list of the advanced window exists,
    [refresh_history_list] makes it show one row per entry of the history, in
    order and nothing else, whatever it showed before: the row of an entry
    is the old name, two spaces, the three characters that the source file
    has between them, two spaces, and the new name.  The history and the
    scene are untouched.  Without the list widget it raises the host's error
    and changes nothing. *)
Theorem refresh_history_list_rows (s : state) :
  match history_rows s with
  | Some _ =>
      refresh_history_list s
      = (Ok tt, set_history_rows
                  (Some ((fun e => fst e +:+ "  â†’  " +:+ snd e) <$> renaming_history s)) s)
  | None =>
      exists msg, refresh_history_list s = (Raise (RuntimeError msg), s)
  end.
Proof.
  destruct (history_rows s) as [rows|] eqn:Hrows.
  - unfold refresh_history_list.
    rewrite (bind_ok _ _ _ _ _ (history_list_edit_ok _ rows s Hrows)).
    rewrite bind_gets. rewrite (append_rows_run _ []); [|reflexivity]. reflexivity.
  - unfold refresh_history_list, history_list_edit. eexists.
    rewrite bind_bind, bind_gets. unfold id. rewrite Hrows. reflexivity.
Qed.

Lemma refresh_history_list_rows_witness :
  refresh_history_list idle_scene
  = (Ok tt, set_history_rows (Some ["|hand  â†’  palm"]) idle_scene).
Proof. exact (refresh_history_list_rows idle_scene). Defined.

(** X8: [clear_history] empties the history; with the list widget present
    it also empties the list shown and returns.  Without the widget the
    history is emptied all the same, and the host's error is raised after
    that. *)
Theorem clear_history_empties (s : state) :
  renaming_history (snd (clear_history s)) = [] /\
  dag (snd (clear_history s)) = dag s /\
  match history_rows s with
  | Some _ => fst (clear_history s) = Ok tt /\
              history_rows (snd (clear_history s)) = Some []
  | None => exists msg, fst (clear_history s) = Raise (RuntimeError msg)
  end.
Proof.
  unfold clear_history. rewrite bind_modify.
  pose proof (refresh_history_list_rows (set_renaming_history [] s)) as H.
  cbn [history_rows set_renaming_history] in H.
  destruct (history_rows s) as [rows|].
  - rewrite H. cbn. auto.
  - destruct H as [msg ->]. cbn. eauto.
Qed.


(** C10.  The pending path of a shape goes stale.  In [cube_scene] the host
    renames the shape along with its transform; the loop then rewrites the
    pending path of the shape to the new path of the transform followed by
    the shape's old name, which names no object: the rename of the shape is
    refused with a warning, and the shape has the name the host gave it, not
    recorded in the history. *)
Theorem search_and_replace_misses_renamed_shape :
  scope 1 cube_scene = ["|armCube"; "|armCube|armCubeShape"] /\
  exists s',
    search_and_replace cube_scene = (Ok tt, s') /\
    dag s' = ["|legCube"; "|legCube|legCubeShape"] /\
    renaming_history s' = [("|armCube", "legCube")] /\
    warnings s'
    = ["Could not rename '|legCube|armCubeShape' to 'legCubeShape': "
       +:+ "No object matches name: |legCube|armCubeShape"].
Proof.
  split; [vm_compute; reflexivity|].
  eexists. split; [vm_compute; reflexivity|]. repeat split.
Qed.

End RenameProps.

(** ** Properties of clementdaures_uvsliding_tool.py *)

Module UVSlidingProps.
Import Py PyFacts UVSliding.


(** *** The host commands, where they succeed *)

Lemma textField_query_ok (name t : string) (s : state) :
  text_fields s !! name = Some t -> textField_query name s = (Ok t, s).
Proof. intros H. unfold textField_query. rewrite bind_gets. unfold id. now rewrite H. Qed.

Lemma getAttr_ok (p : plug) (v : value) (s : state) :
  attrs s !! p = Some v -> getAttr p s = (Ok v, s).
Proof. intros H. unfold getAttr. rewrite bind_gets. unfold id. now rewrite H. Qed.

Lemma unique_name_free (taken : list string) (name : string) :
  name ∉ taken -> unique_name taken name = name.
Proof. intros H. unfold unique_name. now rewrite bool_decide_eq_false_2. Qed.

Lemma createNode_run (ty name : string) (s : state) :
  name ∉ names s ->
  createNode ty name s
  = (Ok name, set_scene (nodes s ++ [(name, ty)])
                (with_node_attrs name (type_attrs ty) (attrs s)) (conns s) s).
Proof.
  intros H. unfold createNode. rewrite bind_gets. unfold id. cbv zeta.
  rewrite (unique_name_free _ _ H). reflexivity.
Qed.

Lemma setAttr_ok (p : plug) (v : value) (s : state) :
  is_Some (attrs s !! p) -> sources_of p (conns s) = [] ->
  setAttr p v s = (Ok tt, set_scene (nodes s) (<[p := v]> (attrs s)) (conns s) s).
Proof.
  intros [x Hx] Hsrc. unfold setAttr. rewrite bind_gets. unfold id. rewrite Hx, Hsrc.
  now rewrite bool_decide_eq_true_2.
Qed.

Lemma connectAttr_ok (src dst : plug) (s : state) :
  is_Some (attrs s !! src) -> is_Some (attrs s !! dst) -> sources_of dst (conns s) = [] ->
  connectAttr src dst s
  = (Ok tt, set_scene (nodes s) (attrs s) (conns s ++ [(src, dst)]) s).
Proof.
  intros Hs Hd Hsrc. unfold connectAttr. rewrite bind_gets. unfold id.
  rewrite !bool_decide_eq_true_2 by assumption. reflexivity.
Qed.

Lemma connectAttr_driven (src dst : plug) (s : state) :
  is_Some (attrs s !! src) -> is_Some (attrs s !! dst) -> sources_of dst (conns s) <> [] ->
  connectAttr src dst s
  = (Raise (RuntimeError "The destination attribute already has an incoming connection"), s).
Proof.
  intros Hs Hd Hsrc. unfold connectAttr. rewrite bind_gets. unfold id.
  rewrite !bool_decide_eq_true_2 by assumption. cbn [andb negb].
  now rewrite bool_decide_eq_false_2.
Qed.

Lemma sources_of_snoc (p : plug) (c : list (plug * plug)) (e : plug * plug) :
  sources_of p (c ++ [e]) = sources_of p c ++ (if decide (snd e = p) then [fst e] else []).
Proof.
  unfold sources_of. rewrite filter_app, fmap_app. f_equal.
  rewrite filter_cons, filter_nil. now destruct (decide (snd e = p)).
Qed.

Lemma sources_of_missing (p : plug) (s : state) :
  well_formed s -> attrs s !! p = None -> sources_of p (conns s) = [].
Proof.
  intros [_ Hc] Hp. unfold sources_of.
  induction (conns s) as [|e c IH]; [reflexivity|].
  rewrite filter_cons. destruct (decide (snd e = p)) as [He|He].
  - exfalso. destruct (Hc e (list_elem_of_here _ _)) as [_ [x Hx]]. congruence.
  - apply IH. intros e' He'. apply Hc. now apply list_elem_of_further.
Qed.

Lemma lookup_with_node_attrs (n : string) (l : list string) (m : gmap plug value)
    (q : plug) :
  with_node_attrs n l m !! q
  = if decide (plug_node q = n /\ plug_attr q ∈ l) then Some (VNum 0%Q) else m !! q.
Proof.
  unfold with_node_attrs. induction l as [|a l IH]; cbn [foldr].
  - rewrite decide_False; [reflexivity|]. intros [_ H]. inversion H.
  - destruct (decide (Plug n a = q)) as [<-|Hne].
    + rewrite lookup_insert_eq, decide_True; [reflexivity|].
      split; [reflexivity|apply list_elem_of_here].
    + rewrite lookup_insert_ne by assumption. rewrite IH.
      destruct (decide (plug_node q = n /\ plug_attr q ∈ l)) as [[H1 H2]|H].
      * rewrite decide_True; [reflexivity|]. split; [exact H1|now apply list_elem_of_further].
      * rewrite decide_False; [reflexivity|]. intros [H1 H2]. apply H. split; [exact H1|].
        apply elem_of_cons in H2 as [H2|H2]; [|exact H2].
        exfalso. apply Hne. destruct q; cbn in *. congruence.
Qed.

Lemma lookup_with_node_attrs_other (n : string) (l : list string) (m : gmap plug value)
    (q : plug) :
  plug_node q <> n -> with_node_attrs n l m !! q = m !! q.
Proof. intros H. rewrite lookup_with_node_attrs, decide_False; tauto. Qed.

Lemma lookup_with_node_attrs_new (n a : string) (l : list string) (m : gmap plug value) :
  a ∈ l -> with_node_attrs n l m !! Plug n a = Some (VNum 0%Q).
Proof. intros H. rewrite lookup_with_node_attrs, decide_True; auto. Qed.


(** *** One joint *)

Lemma lookup_joint_attrs_other (j : string) (uv : value) (m : gmap plug value) (q : plug) :
  plug_node q <> j +:+ "_Add" -> plug_node q <> j +:+ "_Modulo" ->
  joint_attrs j uv m !! q = m !! q.
Proof.
  intros H1 H2. unfold joint_attrs.
  rewrite !lookup_insert_ne by (intros <-; cbn in *; congruence).
  now rewrite !lookup_with_node_attrs_other.
Qed.

Lemma lookup_joint_attrs_input1 (j : string) (uv : value) (m : gmap plug value) :
  j +:+ "_Add" <> j +:+ "_Modulo" ->
  joint_attrs j uv m !! Plug (j +:+ "_Add") "input1" = Some uv.
Proof.
  intros H. unfold joint_attrs. rewrite lookup_insert_ne by congruence.
  apply lookup_insert_eq.
Qed.

Lemma lookup_joint_attrs_modulus (j : string) (uv : value) (m : gmap plug value) :
  joint_attrs j uv m !! Plug (j +:+ "_Modulo") "modulus" = Some (VNum 1%Q).
Proof. unfold joint_attrs. apply lookup_insert_eq. Qed.

Lemma joint_attrs_is_Some (j : string) (uv : value) (m : gmap plug value) (q : plug) :
  is_Some (joint_attrs j uv m !! q) ->
  is_Some (m !! q) \/ plug_node q = j +:+ "_Add" \/ plug_node q = j +:+ "_Modulo".
Proof.
  destruct (decide (plug_node q = j +:+ "_Add")) as [|H1]; [auto|].
  destruct (decide (plug_node q = j +:+ "_Modulo")) as [|H2]; [auto|].
  rewrite lookup_joint_attrs_other by assumption. auto.
Qed.

Lemma with_node_attrs_is_Some (n : string) (l : list string) (m : gmap plug value)
    (q : plug) :
  is_Some (m !! q) \/ (plug_node q = n /\ plug_attr q ∈ l) ->
  is_Some (with_node_attrs n l m !! q).
Proof.
  rewrite lookup_with_node_attrs. destruct (decide _) as [|Hn]; [eauto|].
  intros [H|H]; [exact H|contradiction].
Qed.

Lemma joint_attrs_keeps (j : string) (uv : value) (m : gmap plug value) (q : plug) :
  is_Some (m !! q) -> is_Some (joint_attrs j uv m !! q).
Proof.
  intros H. unfold joint_attrs.
  rewrite !lookup_insert_is_Some'. right. right.
  apply with_node_attrs_is_Some. left. apply with_node_attrs_is_Some. now left.
Qed.

Lemma joint_attrs_new (j : string) (uv : value) (m : gmap plug value) :
  is_Some (joint_attrs j uv m !! Plug (j +:+ "_Add") "input2") /\
  is_Some (joint_attrs j uv m !! Plug (j +:+ "_Add") "output") /\
  is_Some (joint_attrs j uv m !! Plug (j +:+ "_Modulo") "input") /\
  is_Some (joint_attrs j uv m !! Plug (j +:+ "_Modulo") "output").
Proof.
  unfold joint_attrs. rewrite !lookup_insert_is_Some'.
  repeat split; right; right; apply with_node_attrs_is_Some.
  - left. apply with_node_attrs_is_Some. right. split; [reflexivity|].
    cbn. rewrite !elem_of_cons. auto.
  - left. apply with_node_attrs_is_Some. right. split; [reflexivity|].
    cbn. rewrite !elem_of_cons. auto.
  - right. split; [reflexivity|]. cbn. rewrite !elem_of_cons. auto.
  - right. split; [reflexivity|]. cbn. rewrite !elem_of_cons. auto.
Qed.

Lemma drive_joint_run (controller attr_name uv_pin coordinate : string) (i : nat)
    (j : string) (uv : value) (s : state) :
  well_formed s ->
  attrs s !! coordinate_plug uv_pin i coordinate = Some uv ->
  sources_of (coordinate_plug uv_pin i coordinate) (conns s) = [] ->
  is_Some (attrs s !! Plug controller attr_name) ->
  j +:+ "_Add" ∉ names s -> j +:+ "_Modulo" ∉ names s ->
  j +:+ "_Add" <> j +:+ "_Modulo" ->
  drive_joint controller attr_name uv_pin coordinate (i, j) s
  = (Ok tt,
     set_scene (nodes s ++ [(j +:+ "_Add", "addDoubleLinear"); (j +:+ "_Modulo", "modulo")])
       (joint_attrs j uv (attrs s))
       (conns s ++ utility_conns (Plug controller attr_name) uv_pin coordinate i [j]) s).
Proof.
  intros Hwf Huv Hfree Hdrv Hadd Hmod Hne.
  assert (Hnew : forall a n, n ∉ names s -> attrs s !! Plug n a = None).
  { intros a n Hn. destruct (attrs s !! Plug n a) eqn:E; [|reflexivity].
    exfalso. apply Hn. apply (proj1 Hwf (Plug n a)). rewrite E. eauto. }
  assert (Hpin : uv_pin ∈ names s).
  { apply (proj1 Hwf (coordinate_plug uv_pin i coordinate)). rewrite Huv. eauto. }
  assert (Hctrl : controller ∈ names s) by apply (proj1 Hwf _ Hdrv).
  assert (Hpa : uv_pin <> j +:+ "_Add") by (intros ->; contradiction).
  assert (Hpm : uv_pin <> j +:+ "_Modulo") by (intros ->; contradiction).
  assert (Hca : controller <> j +:+ "_Add") by (intros ->; contradiction).
  assert (Hcm : controller <> j +:+ "_Modulo") by (intros ->; contradiction).
  unfold drive_joint. cbn [fst snd].
  rewrite (bind_ok _ _ _ _ _ (getAttr_ok _ _ s Huv)).
  rewrite (bind_ok _ _ _ _ _ (createNode_run "addDoubleLinear" _ s Hadd)).
  erewrite (bind_ok (createNode _ _)); cycle 1.
  { apply createNode_run. unfold names. cbn [nodes set_scene]. rewrite fmap_app.
    cbn. rewrite elem_of_app, list_elem_of_singleton. intros [H|H]; [contradiction|].
    now apply Hne. }
  cbn [nodes attrs conns set_scene].
  erewrite (bind_ok (setAttr _ _)); cycle 1.
  { apply setAttr_ok; cbn [attrs conns set_scene].
    - rewrite lookup_with_node_attrs_other by (cbn; congruence).
      rewrite lookup_with_node_attrs_new; [eauto|]. apply list_elem_of_here.
    - apply sources_of_missing; [exact Hwf|]. now apply Hnew. }
  cbn [nodes attrs conns set_scene].
  erewrite (bind_ok (setAttr _ _)); cycle 1.
  { apply setAttr_ok; cbn [attrs conns set_scene].
    - rewrite lookup_insert_ne by congruence.
      rewrite lookup_with_node_attrs_new; [eauto|]. cbn. rewrite !elem_of_cons. auto.
    - apply sources_of_missing; [exact Hwf|]. now apply Hnew. }
  cbn [nodes attrs conns set_scene]. fold (joint_attrs j uv (attrs s)).
  destruct (joint_attrs_new j uv (attrs s)) as (Hi2 & Hao & Hmi & Hmo).
  erewrite (bind_ok (connectAttr _ _)); cycle 1.
  { apply connectAttr_ok; cbn [attrs conns set_scene].
    - now apply joint_attrs_keeps.
    - exact Hi2.
    - apply sources_of_missing; [exact Hwf|]. now apply Hnew. }
  cbn [nodes attrs conns set_scene].
  erewrite (bind_ok (connectAttr _ _)); cycle 1.
  { apply connectAttr_ok; cbn [attrs conns set_scene].
    - exact Hao.
    - exact Hmi.
    - rewrite sources_of_snoc. cbn [fst snd].
      rewrite decide_False by congruence. rewrite app_nil_r.
      apply sources_of_missing; [exact Hwf|]. now apply Hnew. }
  cbn [nodes attrs conns set_scene].
  rewrite connectAttr_ok; cbn [nodes attrs conns set_scene].
  - cbn [utility_conns]. rewrite <- !app_assoc. reflexivity.
  - exact Hmo.
  - apply joint_attrs_keeps. rewrite Huv. eauto.
  - rewrite !sources_of_snoc. cbn [fst snd].
    rewrite !decide_False by (unfold coordinate_plug; congruence).
    rewrite !app_nil_r. exact Hfree.
Qed.


(** *** All joints *)

Lemma length_append (s t : string) :
  String.length (s +:+ t) = (String.length s + String.length t)%nat.
Proof. induction s as [|a s IH]; [reflexivity|]. simpl. f_equal. exact IH. Qed.

Lemma append_inj_right (t s1 s2 : string) : s1 +:+ t = s2 +:+ t -> s1 = s2.
Proof.
  revert s2. induction s1 as [|a s1 IH]; intros [|b s2] H.
  - reflexivity.
  - apply (f_equal String.length) in H. rewrite !length_append in H. cbn in H. lia.
  - apply (f_equal String.length) in H. rewrite !length_append in H. cbn in H. lia.
  - cbn in H. injection H as -> H. f_equal. now apply IH.
Qed.

Lemma coordinate_plug_inj (uv_pin coordinate : string) (i i' : nat) :
  coordinate_plug uv_pin i coordinate = coordinate_plug uv_pin i' coordinate -> i = i'.
Proof.
  unfold coordinate_plug. intros H. apply (f_equal plug_attr) in H. cbn [plug_attr] in H.
  apply (String.app_inj "coordinate[") in H. apply append_inj_right in H.
  unfold Str.of_int in H. apply (inj pretty) in H. lia.
Qed.

Lemma sources_of_app (p : plug) (c c' : list (plug * plug)) :
  sources_of p (c ++ c') = sources_of p c ++ sources_of p c'.
Proof. unfold sources_of. now rewrite filter_app, fmap_app. Qed.

Lemma sources_of_cons (p : plug) (e : plug * plug) (c : list (plug * plug)) :
  sources_of p (e :: c) = (if decide (snd e = p) then [fst e] else []) ++ sources_of p c.
Proof. unfold sources_of. rewrite filter_cons. now destruct (decide (snd e = p)). Qed.

Lemma drive_joints_run (controller attr_name uv_pin coordinate : string)
    (joints : list string) :
  forall (i : nat) (s : state),
    well_formed s ->
    is_Some (attrs s !! Plug controller attr_name) ->
    (forall k j, joints !! k = Some j ->
       is_Some (attrs s !! coordinate_plug uv_pin (i + k) coordinate) /\
       sources_of (coordinate_plug uv_pin (i + k) coordinate) (conns s) = []) ->
    NoDup ((fst <$> utility_nodes joints) ++ names s) ->
    exists a',
      for_each (enumerate_from i joints)
        (drive_joint controller attr_name uv_pin coordinate) s
      = (Ok tt,
         set_scene (nodes s ++ utility_nodes joints) a'
           (conns s ++ utility_conns (Plug controller attr_name) uv_pin coordinate i joints) s) /\
      (forall q, plug_node q ∉ fst <$> utility_nodes joints -> a' !! q = attrs s !! q) /\
      (forall k j, joints !! k = Some j ->
         a' !! Plug (j +:+ "_Add") "input1"
           = attrs s !! coordinate_plug uv_pin (i + k) coordinate /\
         a' !! Plug (j +:+ "_Modulo") "modulus" = Some (VNum 1%Q)) /\
      well_formed (set_scene (nodes s ++ utility_nodes joints) a'
           (conns s ++ utility_conns (Plug controller attr_name) uv_pin coordinate i joints) s).
Proof.
  induction joints as [|j joints IH]; intros i s Hwf Hdrv Hco Hnd.
  - exists (attrs s). cbn [enumerate_from for_each utility_conns].
    unfold utility_nodes. cbn. rewrite !app_nil_r.
    assert (Hs : set_scene (nodes s) (attrs s) (conns s) s = s) by now destruct s.
    rewrite Hs. split; [reflexivity|]. split; [reflexivity|].
    split; [intros k j H; discriminate|exact Hwf].
  - change (utility_nodes (j :: joints))
      with ([(j +:+ "_Add", "addDoubleLinear"); (j +:+ "_Modulo", "modulo")]
            ++ utility_nodes joints) in *.
    rewrite fmap_app in Hnd. cbn [fmap list_fmap fst app] in Hnd.
    apply NoDup_cons in Hnd as [Hadd Hnd]. apply NoDup_cons in Hnd as [Hmod Hnd].
    assert (Hne : j +:+ "_Add" <> j +:+ "_Modulo").
    { intros E. apply Hadd. rewrite E. apply list_elem_of_here. }
    assert (Hadd_s : j +:+ "_Add" ∉ names s).
    { intros H. apply Hadd. apply list_elem_of_further, elem_of_app. now right. }
    assert (Hmod_s : j +:+ "_Modulo" ∉ names s).
    { intros H. apply Hmod, elem_of_app. now right. }
    assert (Hadd_r : j +:+ "_Add" ∉ fst <$> utility_nodes joints).
    { intros H. apply Hadd. apply list_elem_of_further, elem_of_app. now left. }
    assert (Hmod_r : j +:+ "_Modulo" ∉ fst <$> utility_nodes joints).
    { intros H. apply Hmod, elem_of_app. now left. }
    destruct (Hco 0%nat j eq_refl) as [[uv Huv] Hfree]. rewrite Nat.add_0_r in Huv, Hfree.
    pose proof (drive_joint_run controller attr_name uv_pin coordinate i j uv s
                  Hwf Huv Hfree Hdrv Hadd_s Hmod_s Hne) as Hstep.
    cbn [enumerate_from for_each]. rewrite (bind_ok _ _ _ _ _ Hstep).
    set (s1 := set_scene _ _ _ s) in *.
    assert (Hpin : uv_pin ∈ names s).
    { apply (proj1 Hwf (coordinate_plug uv_pin i coordinate)). rewrite Huv. eauto. }
    assert (Hwf1 : well_formed s1).
    { split.
      - intros p Hp. unfold s1, names. cbn [nodes attrs set_scene] in *.
        rewrite fmap_app, elem_of_app. cbn. rewrite !elem_of_cons.
        apply joint_attrs_is_Some in Hp as [Hp|[Hp|Hp]]; auto.
        left. now apply (proj1 Hwf).
      - intros e He. unfold s1 in *. cbn [attrs conns set_scene utility_conns] in *.
        destruct (joint_attrs_new j uv (attrs s)) as (Hi2 & Hao & Hmi & Hmo).
        rewrite app_nil_r, elem_of_app, !elem_of_cons, elem_of_nil in He.
        destruct He as [He|[->|[->|[->|[]]]]]; cbn [fst snd].
        + destruct (proj2 Hwf e He). split; now apply joint_attrs_keeps.
        + split; [now apply joint_attrs_keeps|exact Hi2].
        + split; [exact Hao|exact Hmi].
        + split; [exact Hmo|]. apply joint_attrs_keeps. rewrite Huv. eauto. }
    destruct (IH (S i) s1 Hwf1) as (a' & Hrun & Hframe & Hvals & Hwf').
    + unfold s1. cbn [attrs set_scene]. now apply joint_attrs_keeps.
    + intros k j' Hk. destruct (Hco (S k) j' Hk) as [Hex Hfr].
      replace (S i + k)%nat with (i + S k)%nat by lia.
      unfold s1. cbn [attrs conns set_scene utility_conns]. split.
      * now apply joint_attrs_keeps.
      * rewrite app_nil_r, sources_of_app, !sources_of_cons. cbn [fst snd].
        rewrite Hfr. rewrite !decide_False; [reflexivity| | |].
        -- intros E. apply coordinate_plug_inj in E. lia.
        -- intros E. apply (f_equal plug_node) in E. cbn in E. subst uv_pin. contradiction.
        -- intros E. apply (f_equal plug_node) in E. cbn in E. subst uv_pin. contradiction.
    + unfold s1, names. cbn [nodes set_scene]. rewrite fmap_app. cbn [fmap list_fmap fst].
      apply NoDup_app in Hnd as (H1 & H2 & H3).
      apply NoDup_app. split; [exact H1|]. split.
      * intros x Hx Hin. apply elem_of_app in Hin as [Hin|Hin]; [exact (H2 x Hx Hin)|].
        rewrite !elem_of_cons, elem_of_nil in Hin.
        destruct Hin as [->|[->|[]]]; contradiction.
      * apply NoDup_app. split; [exact H3|]. split.
        -- intros x Hx Hin. rewrite !elem_of_cons, elem_of_nil in Hin.
           destruct Hin as [->|[->|[]]]; contradiction.
        -- constructor; [|apply NoDup_singleton].
           rewrite list_elem_of_singleton. exact Hne.
    + exists a'. unfold s1 in Hrun, Hwf'. cbn [nodes attrs conns set_scene] in Hrun, Hwf'.
      cbn [utility_conns] in *. rewrite app_nil_r in Hrun, Hwf'.
      rewrite <- !app_assoc in Hrun, Hwf'. cbn [app] in *.
      split; [exact Hrun|]. split; [|split; [|exact Hwf']].
      * intros q Hq. cbn [fmap list_fmap fst app] in Hq.
        rewrite !not_elem_of_cons in Hq. destruct Hq as (Hq1 & Hq2 & Hq3).
        rewrite Hframe by exact Hq3. unfold s1. cbn [attrs set_scene].
        now apply lookup_joint_attrs_other.
      * intros [|k] j' Hk; cbn in Hk.
        -- injection Hk as <-. rewrite Nat.add_0_r, Huv.
           rewrite !Hframe by assumption. unfold s1. cbn [attrs set_scene].
           split; [now apply lookup_joint_attrs_input1|apply lookup_joint_attrs_modulus].
        -- destruct (Hvals k j' Hk) as [Hv1 Hv2].
           replace (i + S k)%nat with (S i + k)%nat by lia.
           rewrite Hv1, Hv2. split; [|reflexivity].
           unfold s1. cbn [attrs set_scene]. apply lookup_joint_attrs_other.
           ++ unfold coordinate_plug. cbn. intros E. subst uv_pin. contradiction.
           ++ unfold coordinate_plug. cbn. intros E. subst uv_pin. contradiction.
Qed.


(** *** The whole script *)

Lemma checkBoxGrp_query1_ok (name : string) (v : bool * bool) (s : state) :
  check_boxes s !! name = Some v -> checkBoxGrp_query1 name s = (Ok (fst v), s).
Proof. intros H. unfold checkBoxGrp_query1. rewrite bind_gets. unfold id. now rewrite H. Qed.

Lemma checkBoxGrp_query2_ok (name : string) (v : bool * bool) (s : state) :
  check_boxes s !! name = Some v -> checkBoxGrp_query2 name s = (Ok (snd v), s).
Proof. intros H. unfold checkBoxGrp_query2. rewrite bind_gets. unfold id. now rewrite H. Qed.

Lemma attributeQuery_exists_ok (attr node : string) (s : state) :
  node ∈ names s ->
  attributeQuery_exists attr node s
  = (Ok (bool_decide (is_Some (attrs s !! Plug node attr))), s).
Proof.
  intros H. unfold attributeQuery_exists. rewrite bind_gets. unfold id.
  now rewrite bool_decide_eq_true_2.
Qed.

(** The attribute of the controller is there after the script has looked
    for it, and nothing else has changed. *)
Lemma ensure_attribute_run (controller attr_name : string) (s : state) :
  well_formed s -> controller ∈ names s ->
  exists a0,
    (if negb (bool_decide (is_Some (attrs s !! Plug controller attr_name)))
     then bind (addAttr controller attr_name)
            (fun _ => setAttr (Plug controller attr_name) (VNum 0%Q))
     else ret tt) s
    = (Ok tt, set_scene (nodes s) a0 (conns s) s) /\
    is_Some (a0 !! Plug controller attr_name) /\
    (forall q, q <> Plug controller attr_name -> a0 !! q = attrs s !! q) /\
    (forall q, is_Some (attrs s !! q) -> a0 !! q = attrs s !! q).
Proof.
  intros Hwf Hc. destruct (attrs s !! Plug controller attr_name) as [v|] eqn:E.
  - rewrite bool_decide_eq_true_2 by eauto. cbn [negb]. exists (attrs s).
    split; [now destruct s|]. rewrite E. eauto.
  - rewrite bool_decide_eq_false_2 by (intros [? ?]; discriminate). cbn [negb].
    exists (<[Plug controller attr_name := VNum 0%Q]> (attrs s)).
    split; [|split; [|split]].
    + unfold addAttr. rewrite bind_bind, bind_gets. unfold id.
      rewrite bool_decide_eq_true_2 by assumption. cbn [negb]. rewrite E, bind_modify.
      rewrite setAttr_ok; cbn [nodes attrs conns set_scene].
      * now rewrite insert_insert_eq.
      * rewrite lookup_insert_eq. eauto.
      * now apply sources_of_missing.
    + rewrite lookup_insert_eq. eauto.
    + intros q Hq. now rewrite lookup_insert_ne.
    + intros q [x Hx]. rewrite lookup_insert_ne; [reflexivity|]. intros <-. congruence.
Qed.

Section RunScript.

Variables (controller_field attr_name_field uvpin_field u_or_v : string).
Variables (s : state) (typed_controller typed_attr typed_pin : string) (use_u use_v : bool).

(** What the fields of the window hold. *)
Hypothesis controller_typed : text_fields s !! controller_field = Some typed_controller.
Hypothesis attr_typed : text_fields s !! attr_name_field = Some typed_attr.
Hypothesis pin_typed : text_fields s !! uvpin_field = Some typed_pin.
Hypothesis boxes_ticked : check_boxes s !! u_or_v = Some (use_u, use_v).

(** The names the script works with. *)
Let controller : string :=
  if Str.nonempty (Str.strip typed_controller) then Str.strip typed_controller
  else selected_controller s.
Let attr_name : string := Str.strip typed_attr.
Let uv_pin : string := Str.strip typed_pin.
Let coordinate : string := if use_u then "coordinateU" else "coordinateV".

(** The preconditions: a scene in order, an existing controller, an
    attribute name, an existing UV pin, exactly one of U and V, new names
    for the utility nodes, and a coordinate for every selected joint that
    nothing drives yet. *)
Hypothesis scene_in_order : well_formed s.
Hypothesis controller_exists : controller ∈ names s.
Hypothesis attr_named : Str.nonempty attr_name = true.
Hypothesis pin_exists : Str.nonempty uv_pin = true /\ uv_pin ∈ names s.
Hypothesis one_of_u_v : use_u <> use_v.
Hypothesis joints_selected : selection s <> [].
Hypothesis names_free : NoDup ((fst <$> utility_nodes (selection s)) ++ names s).
Hypothesis coordinates_free : forall k j, selection s !! k = Some j ->
  is_Some (attrs s !! coordinate_plug uv_pin k coordinate) /\
  sources_of (coordinate_plug uv_pin k coordinate) (conns s) = [].


End RunScript.

Lemma ribbon_scene_well_formed : well_formed ribbon_scene.
Proof.
  split.
  - intros p [v Hp]. apply elem_of_list_to_map_2 in Hp.
    rewrite !elem_of_cons, elem_of_nil in Hp.
    destruct Hp as [Hp|[Hp|[Hp|[Hp|[]]]]]; injection Hp as -> _;
      apply (bool_decide_eq_true_1 (_ ∈ _)); vm_compute; reflexivity.
  - intros e He. inversion He.
Qed.



(** *** Input that the script refuses *)

Section RefusedScript.

Variables (controller_field attr_name_field uvpin_field u_or_v : string).
Variables (s : state) (typed_controller typed_attr typed_pin : string) (use_u use_v : bool).

Hypothesis controller_typed : text_fields s !! controller_field = Some typed_controller.
Hypothesis attr_typed : text_fields s !! attr_name_field = Some typed_attr.
Hypothesis pin_typed : text_fields s !! uvpin_field = Some typed_pin.
Hypothesis boxes_ticked : check_boxes s !! u_or_v = Some (use_u, use_v).
Hypothesis scene_in_order : well_formed s.

Let controller : string :=
  if Str.nonempty (Str.strip typed_controller) then Str.strip typed_controller
  else selected_controller s.
Let attr_name : string := Str.strip typed_attr.
Let uv_pin : string := Str.strip typed_pin.

(** One of the checks of the script fails. *)
Hypothesis refused :
  controller ∉ names s \/ Str.nonempty attr_name = false \/
  Str.nonempty uv_pin = false \/ uv_pin ∉ names s \/
  use_u = use_v \/ selection s = [].

(** X20: when one of its checks fails (no such controller, no attribute
    name, no such UV pin, both or neither of U and V, no joint selected),
    Run Script returns after exactly one warning and without the success
    dialog; it has created no node and no connection.  The scene is not
    always as before, though: the checks on the UV pin, the check boxes and
    the joints come after the controller's attribute has been added, so when
    the controller and the attribute name were valid the controller has the
    attribute afterwards.  No other attribute changes. *)
Theorem run_script_on_joints_refuses :
  exists s' w,
    run_script_on_joints controller_field attr_name_field uvpin_field u_or_v s = (Ok tt, s') /\
    warnings s' = warnings s ++ [w] /\
    dialogs s' = dialogs s /\
    nodes s' = nodes s /\ conns s' = conns s /\
    (forall q, q <> Plug controller attr_name -> attrs s' !! q = attrs s !! q) /\
    (controller ∈ names s -> Str.nonempty attr_name = true ->
     is_Some (attrs s' !! Plug controller attr_name)).
Proof.
  unfold run_script_on_joints.
  rewrite (bind_ok _ _ _ _ _ (textField_query_ok _ _ s controller_typed)). cbv zeta.
  set (s1 := if Str.nonempty (Str.strip typed_controller)
             then set_selected_controller (Str.strip typed_controller) s else s).
  assert (H1 : (if Str.nonempty (Str.strip typed_controller)
                then modify (set_selected_controller (Str.strip typed_controller))
                else ret tt) s = (Ok tt, s1)).
  { unfold s1. now destruct (Str.nonempty _). }
  assert (Hsc : selected_controller s1 = controller).
  { unfold s1, controller. now destruct (Str.nonempty _). }
  assert (Hscene : nodes s1 = nodes s /\ attrs s1 = attrs s /\ conns s1 = conns s /\
                   selection s1 = selection s /\ text_fields s1 = text_fields s /\
                   check_boxes s1 = check_boxes s /\ dialogs s1 = dialogs s /\
                   warnings s1 = warnings s).
  { unfold s1. destruct (Str.nonempty _); cbn; auto 10. }
  destruct Hscene as (Hn1 & Ha1 & Hc1 & Hsel1 & Htf1 & Hcb1 & Hd1 & Hw1).
  assert (Hwf1 : well_formed s1).
  { unfold well_formed, names. rewrite Hn1, Ha1, Hc1. exact scene_in_order. }
  rewrite (bind_ok _ _ _ _ _ H1), bind_gets, Hsc.
  unfold objExists at 1. rewrite bind_gets.
  destruct (decide (controller ∈ names s)) as [Hctrl|Hctrl].
  2:{ rewrite bool_decide_eq_false_2 by (unfold names; now rewrite Hn1). cbn [negb].
      do 2 eexists. split; [reflexivity|]. cbn. rewrite Hw1, Hd1, Hn1, Hc1, Ha1.
      repeat (split; [reflexivity|]). intros; contradiction. }
  assert (Hctrl1 : controller ∈ names s1) by (unfold names; now rewrite Hn1).
  rewrite bool_decide_eq_true_2 by exact Hctrl1. cbn [negb].
  rewrite <- Htf1 in attr_typed, pin_typed. rewrite <- Hcb1 in boxes_ticked.
  rewrite (bind_ok _ _ _ _ _ (textField_query_ok _ _ s1 attr_typed)).
  fold attr_name. destruct (Str.nonempty attr_name) eqn:Hattr; cbn [negb].
  2:{ do 2 eexists. split; [reflexivity|]. cbn. rewrite Hw1, Hd1, Hn1, Hc1, Ha1.
      repeat (split; [reflexivity|]). intros; discriminate. }
  rewrite (bind_ok _ _ _ _ _ (attributeQuery_exists_ok attr_name controller s1 Hctrl1)).
  destruct (ensure_attribute_run controller attr_name s1 Hwf1 Hctrl1)
    as (a0 & Hens & Hdrv & Hother & Hkeep).
  rewrite (bind_ok _ _ _ _ _ Hens).
  set (s2 := set_scene (nodes s1) a0 (conns s1) s1) in *.
  assert (Hdone : forall w,
            exists s' w',
              warning w s2 = (Ok tt, s') /\
              warnings s' = warnings s ++ [w'] /\ dialogs s' = dialogs s /\
              nodes s' = nodes s /\ conns s' = conns s /\
              (forall q, q <> Plug controller attr_name -> attrs s' !! q = attrs s !! q) /\
              (controller ∈ names s -> true = true ->
               is_Some (attrs s' !! Plug controller attr_name))).
  { intros w. do 2 eexists. split; [reflexivity|]. unfold s2. cbn.
    rewrite Hw1, Hd1, Hn1, Hc1. repeat (split; [reflexivity|]).
    split; [|intros; exact Hdrv]. intros q Hq. now rewrite Hother, Ha1. }
  rewrite (bind_ok _ _ _ _ _ (textField_query_ok _ _ s2 pin_typed)).
  fold uv_pin. destruct (Str.nonempty uv_pin) eqn:Hpin_ne; cbn [negb].
  2:{ rewrite bind_ret. cbn [negb]. apply Hdone. }
  unfold objExists. rewrite bind_gets.
  destruct (decide (uv_pin ∈ names s)) as [Hpin|Hpin].
  2:{ rewrite bool_decide_eq_false_2 by (unfold s2, names; cbn; now rewrite Hn1).
      cbn [negb]. apply Hdone. }
  rewrite bool_decide_eq_true_2 by (unfold s2, names; cbn; now rewrite Hn1). cbn [negb].
  rewrite (bind_ok _ _ _ _ _ (checkBoxGrp_query1_ok _ _ s2 boxes_ticked)).
  rewrite (bind_ok _ _ _ _ _ (checkBoxGrp_query2_ok _ _ s2 boxes_ticked)).
  cbn [fst snd]. destruct (Bool.eqb use_u use_v) eqn:Huv; [apply Hdone|].
  unfold ls_selection. rewrite bind_gets.
  change (selection s2) with (selection s1). rewrite Hsel1.
  destruct (selection s) as [|j joints] eqn:Hjoints; [apply Hdone|].
  exfalso. destruct refused as [H|[H|[H|[H|[H|H]]]]];
    try contradiction; try discriminate.
  subst use_v. now rewrite Bool.eqb_reflx in Huv.
Qed.

End RefusedScript.

Lemma run_script_on_joints_refuses_witness :
  exists s' w,
    run_script_on_joints "controller_field" "attr_name_field" "attr_name_field"
      "coordinate_selection" ribbon_scene = (Ok tt, s') /\
    warnings s' = warnings ribbon_scene ++ [w] /\
    nodes s' = nodes ribbon_scene /\
    is_Some (attrs s' !! Plug "ctrl" "offset").
Proof.
  destruct (run_script_on_joints_refuses
              "controller_field" "attr_name_field" "attr_name_field" "coordinate_selection"
              ribbon_scene " ctrl " "offset" "offset" true false)
    as (s' & w & Hrun & Hw & _ & Hn & _ & _ & Hattr).
  - reflexivity.
  - reflexivity.
  - reflexivity.
  - reflexivity.
  - exact ribbon_scene_well_formed.
  - right. right. right. left.
    apply (bool_decide_eq_false_1 (_ ∈ _)). vm_compute. reflexivity.
  - exists s', w. split; [exact Hrun|]. split; [exact Hw|]. split; [exact Hn|].
    apply Hattr; [|reflexivity].
    apply (bool_decide_eq_true_1 (_ ∈ _)). vm_compute. reflexivity.
Defined.


(** *** A coordinate that is already driven *)

Lemma unique_name_fresh (taken : list string) (name : string) :
  unique_name taken name ∉ taken.
Proof.
  unfold unique_name. destruct (decide (name ∈ taken)) as [Hin|Hout].
  2:{ now rewrite bool_decide_eq_false_2. }
  rewrite bool_decide_eq_true_2 by assumption.
  set (cands := (fun k : nat => name +:+ pretty k) <$> seq 1 (S (length taken))).
  destruct (filter (fun c => c ∉ taken) cands) as [|c l] eqn:E.
  - exfalso.
    assert (Hall : forall c, c ∈ cands -> c ∈ taken).
    { intros c Hc. destruct (decide (c ∈ taken)) as [|Hn]; [assumption|].
      exfalso. eapply filter_nil_not_elem_of; [exact E|exact Hn|exact Hc]. }
    assert (Hnd : NoDup cands).
    { unfold cands. apply NoDup_fmap_2; [|apply NoDup_seq].
      intros k k' H. apply (String.app_inj name) in H. now apply (inj pretty) in H. }
    pose proof (submseteq_length _ _ (NoDup_submseteq _ _ Hnd Hall)) as Hlen.
    unfold cands in Hlen. rewrite length_fmap, length_seq in Hlen. lia.
  - cbn. assert (Hc : c ∈ filter (fun c => c ∉ taken) cands)
      by (rewrite E; apply list_elem_of_here).
    apply list_elem_of_filter in Hc. tauto.
Qed.

Lemma createNode_fresh (ty name : string) (s : state) :
  exists n,
    (n ∉ names s) /\
    createNode ty name s
    = (Ok n, set_scene (nodes s ++ [(n, ty)])
               (with_node_attrs n (type_attrs ty) (attrs s)) (conns s) s).
Proof.
  exists (unique_name (names s) name). split; [apply unique_name_fresh|].
  unfold createNode. rewrite bind_gets. reflexivity.
Qed.

Lemma drive_joint_driven (controller attr_name uv_pin coordinate : string) (i : nat)
    (j : string) (uv : value) (s : state) :
  well_formed s ->
  attrs s !! coordinate_plug uv_pin i coordinate = Some uv ->
  sources_of (coordinate_plug uv_pin i coordinate) (conns s) <> [] ->
  is_Some (attrs s !! Plug controller attr_name) ->
  exists n1 n2 a',
    (n1 ∉ names s) /\ (n2 ∉ names s) /\ n1 <> n2 /\
    drive_joint controller attr_name uv_pin coordinate (i, j) s
    = (Raise (RuntimeError "The destination attribute already has an incoming connection"),
       set_scene (nodes s ++ [(n1, "addDoubleLinear"); (n2, "modulo")]) a'
         (conns s ++ [(Plug controller attr_name, Plug n1 "input2");
                      (Plug n1 "output", Plug n2 "input")]) s) /\
    (forall q, plug_node q <> n1 -> plug_node q <> n2 -> a' !! q = attrs s !! q).
Proof.
  intros Hwf Huv Hdriven Hdrv.
  destruct (createNode_fresh "addDoubleLinear" (j +:+ "_Add") s) as (n1 & Hn1 & Hc1).
  set (s1 := set_scene (nodes s ++ [(n1, "addDoubleLinear")])
               (with_node_attrs n1 (type_attrs "addDoubleLinear") (attrs s)) (conns s) s) in *.
  destruct (createNode_fresh "modulo" (j +:+ "_Modulo") s1) as (n2 & Hn2 & Hc2).
  assert (Hn2s : (n2 ∉ names s) /\ n1 <> n2).
  { unfold s1, names in Hn2. cbn [nodes set_scene] in Hn2. rewrite fmap_app in Hn2.
    cbn in Hn2. rewrite elem_of_app, list_elem_of_singleton in Hn2.
    split; [tauto|]. intros ->. tauto. }
  destruct Hn2s as [Hn2s Hne].
  exists n1, n2. eexists. split; [exact Hn1|]. split; [exact Hn2s|]. split; [exact Hne|].
  assert (Hnew : forall a n, n ∉ names s -> attrs s !! Plug n a = None).
  { intros a n Hn. destruct (attrs s !! Plug n a) eqn:E; [|reflexivity].
    exfalso. apply Hn. apply (proj1 Hwf (Plug n a)). rewrite E. eauto. }
  assert (Hpin : uv_pin ∈ names s).
  { apply (proj1 Hwf (coordinate_plug uv_pin i coordinate)). rewrite Huv. eauto. }
  assert (Hctrl : controller ∈ names s) by apply (proj1 Hwf _ Hdrv).
  assert (Hpa : uv_pin <> n1) by (intros ->; contradiction).
  assert (Hpm : uv_pin <> n2) by (intros ->; contradiction).
  assert (Hca : controller <> n1) by (intros ->; contradiction).
  assert (Hcm : controller <> n2) by (intros ->; contradiction).
  unfold drive_joint. cbn [fst snd].
  rewrite (bind_ok _ _ _ _ _ (getAttr_ok _ _ s Huv)).
  rewrite (bind_ok _ _ _ _ _ Hc1), (bind_ok _ _ _ _ _ Hc2).
  unfold s1. cbn [nodes attrs conns set_scene].
  erewrite (bind_ok (setAttr _ _)); cycle 1.
  { apply setAttr_ok; cbn [attrs conns set_scene].
    - apply with_node_attrs_is_Some. left. apply with_node_attrs_is_Some. right.
      split; [reflexivity|]. cbn. rewrite !elem_of_cons. auto.
    - apply sources_of_missing; [exact Hwf|]. now apply Hnew. }
  cbn [nodes attrs conns set_scene].
  erewrite (bind_ok (setAttr _ _)); cycle 1.
  { apply setAttr_ok; cbn [attrs conns set_scene].
    - rewrite lookup_insert_is_Some'. right. apply with_node_attrs_is_Some. right.
      split; [reflexivity|]. cbn. rewrite !elem_of_cons. auto.
    - apply sources_of_missing; [exact Hwf|]. now apply Hnew. }
  cbn [nodes attrs conns set_scene].
  erewrite (bind_ok (connectAttr _ _)); cycle 1.
  { apply connectAttr_ok; cbn [attrs conns set_scene].
    - rewrite !lookup_insert_is_Some'. right. right.
      apply with_node_attrs_is_Some. left. apply with_node_attrs_is_Some. now left.
    - rewrite !lookup_insert_is_Some'. right. right.
      apply with_node_attrs_is_Some. left. apply with_node_attrs_is_Some. right.
      split; [reflexivity|]. cbn. rewrite !elem_of_cons. auto.
    - apply sources_of_missing; [exact Hwf|]. now apply Hnew. }
  cbn [nodes attrs conns set_scene].
  erewrite (bind_ok (connectAttr _ _)); cycle 1.
  { apply connectAttr_ok; cbn [attrs conns set_scene].
    - rewrite !lookup_insert_is_Some'. right. right.
      apply with_node_attrs_is_Some. left. apply with_node_attrs_is_Some. right.
      split; [reflexivity|]. cbn. rewrite !elem_of_cons. auto.
    - rewrite !lookup_insert_is_Some'. right. right.
      apply with_node_attrs_is_Some. right.
      split; [reflexivity|]. cbn. rewrite !elem_of_cons. auto.
    - rewrite sources_of_snoc. cbn [fst snd].
      rewrite decide_False by congruence. rewrite app_nil_r.
      apply sources_of_missing; [exact Hwf|]. now apply Hnew. }
  cbn [nodes attrs conns set_scene].
  rewrite connectAttr_driven; cbn [nodes attrs conns set_scene].
  - split.
    + rewrite <- !app_assoc. reflexivity.
    + intros q Hq1 Hq2.
      rewrite !lookup_insert_ne by (intros <-; cbn in *; congruence).
      now rewrite !lookup_with_node_attrs_other.
  - rewrite !lookup_insert_is_Some'. right. right.
    apply with_node_attrs_is_Some. right.
    split; [reflexivity|]. cbn. rewrite !elem_of_cons. auto 10.
  - rewrite !lookup_insert_is_Some'. right. right.
    apply with_node_attrs_is_Some. left. apply with_node_attrs_is_Some. left.
    rewrite Huv. eauto.
  - rewrite !sources_of_snoc. cbn [fst snd].
    rewrite !decide_False by (intros E; apply (f_equal plug_node) in E; cbn in E; congruence).
    now rewrite !app_nil_r.
Qed.


Section DrivenCoordinate.

Variables (controller_field attr_name_field uvpin_field u_or_v : string).
Variables (s : state) (typed_controller typed_attr typed_pin : string) (use_u use_v : bool).
Variables (joint : string) (joints : list string).

Hypothesis controller_typed : text_fields s !! controller_field = Some typed_controller.
Hypothesis attr_typed : text_fields s !! attr_name_field = Some typed_attr.
Hypothesis pin_typed : text_fields s !! uvpin_field = Some typed_pin.
Hypothesis boxes_ticked : check_boxes s !! u_or_v = Some (use_u, use_v).

Let controller : string :=
  if Str.nonempty (Str.strip typed_controller) then Str.strip typed_controller
  else selected_controller s.
Let attr_name : string := Str.strip typed_attr.
Let uv_pin : string := Str.strip typed_pin.
Let coordinate : string := if use_u then "coordinateU" else "coordinateV".

Hypothesis scene_in_order : well_formed s.
Hypothesis controller_exists : controller ∈ names s.
Hypothesis attr_named : Str.nonempty attr_name = true.
Hypothesis pin_exists : Str.nonempty uv_pin = true /\ uv_pin ∈ names s.
Hypothesis one_of_u_v : use_u <> use_v.
Hypothesis joints_selected : selection s = joint :: joints.

(** The coordinate of the first joint exists and something drives it, as
    after an earlier run of the script. *)
Hypothesis coordinate_driven :
  is_Some (attrs s !! coordinate_plug uv_pin 0 coordinate) /\
  sources_of (coordinate_plug uv_pin 0 coordinate) (conns s) <> [].

(** X21: Run Script cannot be run on a coordinate that is already driven,
    and it does not clean up.  When all checks pass but the coordinate of the
    first selected joint has an incoming connection, the script raises the
    host's [RuntimeError] at its last [connectAttr] for that joint.  By then
    it has created two new nodes, an addDoubleLinear and a modulo, and
    connected the controller's attribute to the first and the first to the
    second; they stay in the scene, the later joints are not handled and no
    dialog is shown. *)
Theorem run_script_on_joints_driven_coordinate :
  exists msg s' n1 n2,
    run_script_on_joints controller_field attr_name_field uvpin_field u_or_v s
      = (Raise (RuntimeError msg), s') /\
    (n1 ∉ names s) /\ (n2 ∉ names s) /\ n1 <> n2 /\
    nodes s' = nodes s ++ [(n1, "addDoubleLinear"); (n2, "modulo")] /\
    conns s' = conns s ++ [(Plug controller attr_name, Plug n1 "input2");
                           (Plug n1 "output", Plug n2 "input")] /\
    dialogs s' = dialogs s /\ warnings s' = warnings s.
Proof.
  unfold run_script_on_joints.
  rewrite (bind_ok _ _ _ _ _ (textField_query_ok _ _ s controller_typed)). cbv zeta.
  set (s1 := if Str.nonempty (Str.strip typed_controller)
             then set_selected_controller (Str.strip typed_controller) s else s).
  assert (H1 : (if Str.nonempty (Str.strip typed_controller)
                then modify (set_selected_controller (Str.strip typed_controller))
                else ret tt) s = (Ok tt, s1)).
  { unfold s1. now destruct (Str.nonempty _). }
  assert (Hsc : selected_controller s1 = controller).
  { unfold s1, controller. now destruct (Str.nonempty _). }
  assert (Hscene : nodes s1 = nodes s /\ attrs s1 = attrs s /\ conns s1 = conns s /\
                   selection s1 = selection s /\ text_fields s1 = text_fields s /\
                   check_boxes s1 = check_boxes s /\ dialogs s1 = dialogs s /\
                   warnings s1 = warnings s).
  { unfold s1. destruct (Str.nonempty _); cbn; auto 10. }
  destruct Hscene as (Hn1 & Ha1 & Hc1 & Hsel1 & Htf1 & Hcb1 & Hd1 & Hw1).
  assert (Hwf1 : well_formed s1).
  { unfold well_formed, names. rewrite Hn1, Ha1, Hc1. exact scene_in_order. }
  assert (Hctrl1 : controller ∈ names s1) by (unfold names; now rewrite Hn1).
  rewrite (bind_ok _ _ _ _ _ H1), bind_gets, Hsc.
  unfold objExists at 1. rewrite bind_gets.
  rewrite bool_decide_eq_true_2 by exact Hctrl1. cbn [negb].
  rewrite <- Htf1 in attr_typed, pin_typed. rewrite <- Hcb1 in boxes_ticked.
  rewrite (bind_ok _ _ _ _ _ (textField_query_ok _ _ s1 attr_typed)).
  fold attr_name. rewrite attr_named. cbn [negb].
  rewrite (bind_ok _ _ _ _ _ (attributeQuery_exists_ok attr_name controller s1 Hctrl1)).
  destruct (ensure_attribute_run controller attr_name s1 Hwf1 Hctrl1)
    as (a0 & Hens & Hdrv & Hother & Hkeep).
  rewrite (bind_ok _ _ _ _ _ Hens).
  set (s2 := set_scene (nodes s1) a0 (conns s1) s1) in *.
  assert (Hwf2 : well_formed s2).
  { split.
    - intros p Hp. unfold s2, names. cbn [nodes attrs set_scene].
      destruct (decide (p = Plug controller attr_name)) as [->|Hne]; [exact Hctrl1|].
      apply (proj1 Hwf1). now rewrite <- Hother.
    - intros e He. unfold s2 in *. cbn [attrs conns set_scene] in *.
      destruct (proj2 Hwf1 e He) as [Hs Hd]. rewrite !Hkeep by assumption. auto. }
  rewrite (bind_ok _ _ _ _ _ (textField_query_ok _ _ s2 pin_typed)).
  fold uv_pin. destruct pin_exists as [Hpin_ne Hpin]. rewrite Hpin_ne. cbn [negb].
  unfold objExists. rewrite bind_gets.
  rewrite bool_decide_eq_true_2 by (unfold s2, names; cbn; now rewrite Hn1). cbn [negb].
  rewrite (bind_ok _ _ _ _ _ (checkBoxGrp_query1_ok _ _ s2 boxes_ticked)).
  rewrite (bind_ok _ _ _ _ _ (checkBoxGrp_query2_ok _ _ s2 boxes_ticked)).
  cbn [fst snd].
  assert (Hneq : Bool.eqb use_u use_v = false).
  { destruct use_u, use_v; try reflexivity; now contradiction one_of_u_v. }
  rewrite Hneq. fold coordinate. unfold ls_selection. rewrite bind_gets.
  change (selection s2) with (selection s1). rewrite Hsel1, joints_selected.
  cbn [enumerate_from for_each].
  destruct coordinate_driven as [[uv Huv] Hdriven].
  destruct (drive_joint_driven controller attr_name uv_pin coordinate 0 joint uv s2 Hwf2)
    as (n1 & n2 & a' & Hf1 & Hf2 & Hne & Hrun & _).
  { unfold s2. cbn [attrs set_scene]. rewrite Hkeep; rewrite Ha1; [exact Huv|]. rewrite Huv. eauto. }
  { unfold s2. cbn [conns set_scene]. now rewrite Hc1. }
  { exact Hdrv. }
  rewrite !bind_bind. rewrite (bind_raise _ _ _ _ _ Hrun).
  exists "The destination attribute already has an incoming connection".
  eexists. exists n1, n2. split; [reflexivity|].
  unfold s2, names in Hf1, Hf2. cbn [nodes set_scene] in Hf1, Hf2. rewrite Hn1 in Hf1, Hf2.
  split; [exact Hf1|]. split; [exact Hf2|]. split; [exact Hne|].
  cbn [nodes conns dialogs warnings set_scene].
  replace (nodes s2) with (nodes s) by (symmetry; exact Hn1).
  replace (conns s2) with (conns s) by (symmetry; exact Hc1).
  replace (dialogs s2) with (dialogs s) by (symmetry; exact Hd1).
  replace (warnings s2) with (warnings s) by (symmetry; exact Hw1).
  auto.
Qed.

End DrivenCoordinate.

Lemma driven_scene_well_formed : well_formed driven_scene.
Proof.
  split.
  - intros p [v Hp].
    change (attrs driven_scene)
      with (<[Plug "ctrl" "offset" := VNum 0%Q]> (attrs ribbon_scene)) in Hp.
    apply lookup_insert_Some in Hp as [[<- _]|[_ Hp]].
    + apply (bool_decide_eq_true_1 (_ ∈ _)). vm_compute. reflexivity.
    + apply (proj1 ribbon_scene_well_formed). eexists. exact Hp.
  - intros e He. cbn in He. apply list_elem_of_singleton in He as ->. cbn [fst snd].
    split; eexists; vm_compute; reflexivity.
Qed.

Lemma run_script_on_joints_driven_coordinate_witness :
  exists msg s' n1 n2,
    run_script_on_joints "controller_field" "attr_name_field" "uvpin_field"
      "coordinate_selection" driven_scene = (Raise (RuntimeError msg), s') /\
    nodes s' = nodes driven_scene ++ [(n1, "addDoubleLinear"); (n2, "modulo")].
Proof.
  destruct (run_script_on_joints_driven_coordinate
              "controller_field" "attr_name_field" "uvpin_field" "coordinate_selection"
              driven_scene " ctrl " "offset" "uvPin1" true false "jnt_a" ["jnt_b"])
    as (msg & s' & n1 & n2 & Hrun & _ & _ & _ & Hn & _).
  - reflexivity.
  - reflexivity.
  - reflexivity.
  - reflexivity.
  - exact driven_scene_well_formed.
  - apply (bool_decide_eq_true_1 (_ ∈ _)). vm_compute. reflexivity.
  - reflexivity.
  - split; [reflexivity|]. apply (bool_decide_eq_true_1 (_ ∈ _)). vm_compute. reflexivity.
  - discriminate.
  - reflexivity.
  - split; [eexists; vm_compute; reflexivity|]. vm_compute. discriminate.
  - exists msg, s', n1, n2. split; [exact Hrun|exact Hn].
Defined.

End UVSlidingProps.

(** ** Properties of CD_rename_tool/CD_rename_tool.py *)

Module RenameToolProps.
Import Py PyFacts Rename RenameTool.


(** *** The host's answer, or none *)

Lemma rename_run (obj new_name : string) (s : state) :
  Rename.rename obj new_name s =
    match Dag.rename (naming s) (dag s) obj new_name with
    | inl (result, d) => (Ok result, set_dag d s)
    | inr msg => (Raise (RuntimeError msg), s)
    end.
Proof.
  unfold Rename.rename. rewrite bind_gets. unfold id.
  destruct (Dag.rename (naming s) (dag s) obj new_name) as [[result d]|msg]; reflexivity.
Qed.

Lemma rename_step_run (obj new_name : string) (s : state) :
  bind (Rename.rename obj new_name) (fun renamed_object => record obj (Some renamed_object)) s =
    match Dag.rename (naming s) (dag s) obj new_name with
    | inl (result, d) =>
        (Ok tt, set_renaming_history (renaming_history s ++ [(obj, result)]) (set_dag d s))
    | inr msg => (Raise (RuntimeError msg), s)
    end.
Proof.
  unfold bind. rewrite rename_run.
  destruct (Dag.rename (naming s) (dag s) obj new_name) as [[result d]|msg]; reflexivity.
Qed.

(** *** Batches without a [try] *)

Lemma rename_each_result (objs : list string) (new_name : string -> string) :
  forall s, exists added,
    renaming_history (snd (rename_each objs new_name s)) = renaming_history s ++ added /\
    match fst (rename_each objs new_name s) with
    | Ok _ => fst <$> added = objs
    | Raise e =>
        (exists msg, e = RuntimeError msg) /\
        exists k, (k < length objs)%nat /\ fst <$> added = take k objs
    end.
Proof.
  induction objs as [|obj objs IH]; intros s.
  - exists []. cbn. now rewrite app_nil_r.
  - unfold rename_each in *. cbn [for_each].
    pose proof (rename_step_run obj (new_name obj) s) as Hstep.
    destruct (Dag.rename (naming s) (dag s) obj (new_name obj)) as [[result d]|msg].
    + rewrite !(bind_ok _ _ _ _ _ Hstep).
      destruct (IH (set_renaming_history (renaming_history s ++ [(obj, result)]) (set_dag d s)))
        as (added & Hh & Hres).
      exists ((obj, result) :: added). split.
      * rewrite Hh. cbn. now rewrite <- app_assoc.
      * destruct (fst (for_each objs _ _)) as [[]|e].
        -- cbn. now rewrite Hres.
        -- destruct Hres as (Hmsg & k & Hk & Htake). split; [exact Hmsg|].
           exists (S k). split; [cbn; lia|]. cbn. now rewrite Htake.
    + rewrite !(bind_raise _ _ _ _ _ Hstep).
      exists []. cbn. rewrite app_nil_r. split; [reflexivity|].
      split; [eauto|]. exists 0%nat. split; [lia|reflexivity].
Qed.

Lemma appended_app (s s' : state) (added : list (string * string)) :
  renaming_history s' = renaming_history s ++ added -> appended s s' = added.
Proof. intros H. unfold appended. rewrite H. apply drop_app_length. Qed.

Lemma rename_each_run (objs : list string) (new_name : string -> string) :
  forall s,
    rename_each objs new_name s
    = (let '(added, d, refusal) := rename_batch (naming s) new_name objs (dag s) in
       (match refusal with
        | None => Ok tt
        | Some msg => Raise (RuntimeError msg)
        end,
        set_renaming_history (renaming_history s ++ added) (set_dag d s))).
Proof.
  induction objs as [|obj objs IH]; intros s.
  - cbn. rewrite app_nil_r. now destruct s.
  - unfold rename_each in *. cbn [for_each rename_batch].
    pose proof (rename_step_run obj (new_name obj) s) as Hstep.
    destruct (Dag.rename (naming s) (dag s) obj (new_name obj)) as [[result d]|msg].
    + rewrite (bind_ok _ _ _ _ _ Hstep), IH.
      cbn [naming dag renaming_history set_renaming_history set_dag].
      destruct (rename_batch (naming s) new_name objs d) as [[added d'] refusal].
      now rewrite <- app_assoc.
    + rewrite (bind_raise _ _ _ _ _ Hstep). rewrite app_nil_r. now destruct s.
Qed.

Lemma rename_batch_prefix (naming : Dag.naming_policy) (new_name : string -> string)
    (objs : list string) :
  forall d,
    let '(added, _, refusal) := rename_batch naming new_name objs d in
    fst <$> added = take (length added) objs /\
    match refusal with
    | None => length added = length objs
    | Some _ => (length added < length objs)%nat
    end.
Proof.
  induction objs as [|obj objs IH]; intros d; cbn [rename_batch].
  - split; reflexivity.
  - destruct (Dag.rename naming d obj (new_name obj)) as [[result d']|msg].
    + specialize (IH d').
      destruct (rename_batch naming new_name objs d') as [[added d''] refusal].
      destruct IH as [Hfst Hlen]. split.
      * cbn. now rewrite <- Hfst.
      * destruct refusal; cbn; lia.
    + split; [reflexivity|cbn; lia].
Qed.

(** X22: in the earlier tool a rename that the host refuses aborts the
    batch.  Quick Prefix and Quick Suffix hand the objects of the selection
    to the host one after the other.  When the host accepts all renames, the
    tool returns, the scene is the one these renames leave and every object
    has been recorded once with the host's answer, in selection order.  When
    the host refuses one, the host's [RuntimeError] reaches the caller: the
    scene is the one that the renames before it have left, so the objects
    before it stay renamed, they and no others have been recorded, and the
    refused object and the ones after it are neither renamed nor recorded. *)
Theorem quick_batch_stops_at_refusal (s : state) (quick : M state unit)
    (new_name : string -> string) :
  (exists p, quick = RenameTool.add_quick_prefix p /\
             new_name = fun obj => p +:+ "_" +:+ Dag.short_name obj) \/
  (exists p, quick = RenameTool.add_quick_suffix p /\
             new_name = fun obj => Dag.short_name obj +:+ "_" +:+ p) ->
  let objs := Dag.display_name (dag s) <$> paths_of (dag s) (selected s) in
  let '(added, d, refusal) := rename_batch (naming s) new_name objs (dag s) in
  quick s
  = (match refusal with
     | None => Ok tt
     | Some msg => Raise (RuntimeError msg)
     end,
     set_renaming_history (renaming_history s ++ added) (set_dag d s)) /\
  fst <$> added = take (length added) objs /\
  match refusal with
  | None => length added = length objs
  | Some _ => (length added < length objs)%nat
  end.
Proof.
  intros Hq objs.
  assert (H : quick s = rename_each objs new_name s).
  { destruct Hq as [(p & -> & ->)|(p & -> & ->)]; reflexivity. }
  rewrite H, rename_each_run.
  pose proof (rename_batch_prefix (naming s) new_name objs (dag s)) as Hp.
  destruct (rename_batch (naming s) new_name objs (dag s)) as [[added d] refusal].
  split; [reflexivity|exact Hp].
Qed.

Lemma quick_batch_stops_at_refusal_witness :
  RenameTool.add_quick_prefix "L" nested_scene
  = (Raise (RuntimeError "No object matches name: |a|x"),
     set_renaming_history [("a", "L_a")]
       (set_dag ["|L_a"; "|L_a|x"; "|b"; "|b|x"] nested_scene)).
Proof.
  pose proof (quick_batch_stops_at_refusal nested_scene (RenameTool.add_quick_prefix "L")
                (fun obj => "L" +:+ "_" +:+ Dag.short_name obj)
                (or_introl (ex_intro _ "L" (conj eq_refl eq_refl)))) as H.
  cbv zeta in H.
  change (rename_batch (naming nested_scene)
            (fun obj => "L" +:+ "_" +:+ Dag.short_name obj)
            (Dag.display_name (dag nested_scene)
               <$> paths_of (dag nested_scene) (selected nested_scene))
            (dag nested_scene))
    with ([("a", "L_a")], ["|L_a"; "|L_a|x"; "|b"; "|b|x"],
          Some "No object matches name: |a|x") in H.
  exact (proj1 H).
Defined.


(** *** The local variable of [remove_character] *)

(** X23: [remove_character] records objects that it has not renamed.  An
    object whose short name has at most one character is skipped by both
    branches, and the append that follows reads [renamed_object] all the
    same.  When the first selected object is skipped (or [position] is
    neither 1 nor 2) the variable has never been assigned: the function
    raises [UnboundLocalError] and nothing has changed.  When an object has
    been renamed before, the variable still holds the host's answer for that
    object, and the skipped object enters the history paired with that name:
    with [a] renamed to [r] and [b] skipped the history grows by [(a, r)] and
    [(b, r)], while [b] keeps its name. *)
Theorem remove_character_records_what_it_skips (position : Z) (s : state) :
  (forall obj objs,
     Dag.display_name (dag s) <$> paths_of (dag s) (selected s) = obj :: objs ->
     (position <> 1%Z /\ position <> 2%Z) \/ (String.length (Dag.short_name obj) <= 1)%nat ->
     remove_character position s = (Raise (UnboundLocalError "renamed_object"), s)) /\
  (forall a b r d,
     Dag.display_name (dag s) <$> paths_of (dag s) (selected s) = [a; b] ->
     position = 1%Z \/ position = 2%Z ->
     (1 < String.length (Dag.short_name a))%nat ->
     (String.length (Dag.short_name b) <= 1)%nat ->
     Dag.rename (naming s) (dag s) a
       (if (position =? 1)%Z then Str.drop 1 (Dag.short_name a)
        else Str.drop_last (Dag.short_name a)) = inl (r, d) ->
     remove_character position s
     = (Ok tt, set_renaming_history (renaming_history s ++ [(a, r); (b, r)]) (set_dag d s))).
Proof.
  split.
  - intros obj objs Hsel Hskip. unfold remove_character, ls_selection.
    rewrite bind_gets, Hsel. cbn [remove_character_loop].
    assert (Hc : ((position =? 1)%Z && (1 <? String.length (Dag.short_name obj))%nat = false) /\
                 ((position =? 2)%Z && (1 <? String.length (Dag.short_name obj))%nat = false)).
    { destruct Hskip as [[H1 H2]|Hlen].
      - apply Z.eqb_neq in H1, H2. now rewrite H1, H2.
      - assert (Hl : (1 <? String.length (Dag.short_name obj))%nat = false)
          by (apply Nat.ltb_ge; lia).
        rewrite Hl, !andb_false_r. auto. }
    destruct Hc as [-> ->]. reflexivity.
  - intros a b r d Hsel Hpos Ha Hb Hren. unfold remove_character, ls_selection.
    rewrite bind_gets, Hsel. cbn [remove_character_loop].
    assert (Hla : (1 <? String.length (Dag.short_name a))%nat = true)
      by (apply Nat.ltb_lt; lia).
    assert (Hlb : (1 <? String.length (Dag.short_name b))%nat = false)
      by (apply Nat.ltb_ge; lia).
    rewrite Hla, Hlb, !andb_false_r, !andb_true_r.
    destruct Hpos as [-> | ->]; cbn [Z.eqb Pos.eqb] in *;
      rewrite !bind_bind, (bind_ok _ _ _ _ _ ltac:(rewrite rename_run, Hren; reflexivity));
      rewrite !bind_ret; cbn; now rewrite <- app_assoc.
Qed.

Lemma remove_character_records_what_it_skips_witness :
  remove_character 1 short_names_scene
  = (Ok tt,
     set_renaming_history
       (renaming_history short_names_scene ++ [("arm", "rm"); ("b", "rm")])
       (set_dag ["|rm"; "|b"] short_names_scene)).
Proof.
  apply (proj2 (remove_character_records_what_it_skips 1 short_names_scene)).
  - reflexivity.
  - now left.
  - cbn. lia.
  - cbn. lia.
  - vm_compute. reflexivity.
Defined.


(** *** Search and replace without a filter *)

(** X24: the earlier [search_and_replace] calls [cmds.rename] on every
    object of the scope, whether or not its name contains the search term,
    and records each call: when it returns, the history has grown by exactly
    one pair per object of the scope, in the order of the scope.  When it
    raises, it is the host's [RuntimeError] for one of them, and the objects
    before that one are renamed and recorded. *)
Theorem old_search_and_replace_visits_whole_scope (s : state)
    (search_term replace_term : string) (option : Z) :
  text_fields s !! "searchTextField" = Some search_term ->
  text_fields s !! "replaceTextField" = Some replace_term ->
  radio_buttons s !! "searchReplaceOption" = Some option ->
  Str.nonempty search_term = true ->
  option = 1%Z \/ option = 2%Z \/ option = 3%Z ->
  renaming_history (snd (RenameTool.search_and_replace s))
    = renaming_history s ++ appended s (snd (RenameTool.search_and_replace s)) /\
  match fst (RenameTool.search_and_replace s) with
  | Ok _ => fst <$> appended s (snd (RenameTool.search_and_replace s)) = scope option s
  | Raise e =>
      (exists msg, e = RuntimeError msg) /\
      exists k, (k < length (scope option s))%nat /\
        fst <$> appended s (snd (RenameTool.search_and_replace s)) = take k (scope option s)
  end.
Proof.
  intros Hst Hrt Hopt Hne Hoption.
  assert (H : RenameTool.search_and_replace s
              = rename_each (scope option s)
                  (fun obj => Str.replace search_term replace_term (Dag.short_name obj)) s).
  { unfold RenameTool.search_and_replace.
    rewrite (bind_ok _ _ _ _ _ (RenameProps.textFieldGrp_query_ok _ _ s Hst)).
    rewrite (bind_ok _ _ _ _ _ (RenameProps.textFieldGrp_query_ok _ _ s Hrt)).
    rewrite (bind_ok _ _ _ _ _ (RenameProps.radioButtonGrp_query_ok _ _ s Hopt)).
    rewrite Hne. cbn [negb]. unfold scope.
    destruct Hoption as [->|[->| ->]]; reflexivity. }
  rewrite H.
  destruct (rename_each_result (scope option s)
              (fun obj => Str.replace search_term replace_term (Dag.short_name obj)) s)
    as (added & Hh & Hres).
  rewrite (appended_app _ _ _ Hh). split; [exact Hh|exact Hres].
Qed.

Lemma old_search_and_replace_visits_whole_scope_witness :
  renaming_history (snd (RenameTool.search_and_replace short_names_scene))
    = renaming_history short_names_scene
      ++ appended short_names_scene (snd (RenameTool.search_and_replace short_names_scene)).
Proof.
  apply (old_search_and_replace_visits_whole_scope short_names_scene "arm" "leg" 1).
  - reflexivity.
  - reflexivity.
  - reflexivity.
  - reflexivity.
  - now left.
Defined.


(** C5.  The earlier tool records an object that it has not renamed.  With
    [arm] and [b] selected, Remove Last Character renames [arm] to [ar] and
    skips [b], whose name has one character; [b] keeps its name, and the
    history holds the pair of [b] and [ar] all the same: the append after
    the two branches reads [renamed_object] as the iteration before left
    it. *)
Theorem remove_character_records_unrenamed_object :
  exists s',
    remove_character 2 short_names_scene = (Ok tt, s') /\
    dag s' = ["|ar"; "|b"] /\
    renaming_history short_names_scene = [] /\
    renaming_history s' = [("arm", "ar"); ("b", "ar")].
Proof.
  eexists. split; [vm_compute; reflexivity|]. repeat split.
Qed.

End RenameToolProps.

(** ** Properties of CD_matrix_parent_con.py *)

Module MatrixConProps.
Import Py PyFacts MatrixCon.


(** *** Too few objects *)

(** X25: with fewer than two objects selected the two entry points differ.
    [matrix_cc], which the buttons of the window call, warns and returns;
    [create_constraint] raises [ValueError].  Neither touches the scene, the
    instance or the selection. *)
Theorem fewer_than_two_selected (s : state) :
  (length (selection s) < 2)%nat ->
  matrix_cc s
    = (Ok tt, {| scn := scn s; selection := selection s; check_boxes := check_boxes s;
                 sliders := sliders s; self := self s; prints := prints s;
                 warnings := warnings s ++ ["Select at least two objects."] |}) /\
  create_constraint s = (Raise (ValueError "Please select at least two objects."), s).
Proof.
  intros H. unfold matrix_cc, create_constraint, ls_selection. rewrite !bind_gets.
  assert (Hlt : (len (selection s) <? 2)%Z = true) by (apply Z.ltb_lt; unfold len; lia).
  rewrite Hlt. split; reflexivity.
Qed.

Lemma fewer_than_two_selected_witness :
  create_constraint (set_selection ["c"] two_drivers)
  = (Raise (ValueError "Please select at least two objects."),
     set_selection ["c"] two_drivers).
Proof.
  apply (fewer_than_two_selected (set_selection ["c"] two_drivers)). cbn. lia.
Defined.


(** *** Names and plugs *)

Lemma type_of_None (n : string) (l : list (string * string)) :
  n ∉ fst <$> l -> type_of n l = None.
Proof.
  induction l as [|e l IH]; intros H; [reflexivity|]. cbn [type_of].
  rewrite fmap_cons in H. apply not_elem_of_cons in H as [Hne Hl].
  destruct (String.eqb_spec (fst e) n) as [E|_]; [congruence|]. now apply IH.
Qed.

Lemma type_of_is_Some (n : string) (l : list (string * string)) :
  is_Some (type_of n l) -> n ∈ fst <$> l.
Proof.
  intros H. destruct (decide (n ∈ fst <$> l)) as [|Hn]; [assumption|].
  rewrite (type_of_None _ _ Hn) in H. now destruct H.
Qed.

Lemma type_of_app (n : string) (l1 l2 : list (string * string)) :
  type_of n (l1 ++ l2)
  = match type_of n l1 with Some ty => Some ty | None => type_of n l2 end.
Proof.
  induction l1 as [|e l1 IH]; [reflexivity|]. cbn [type_of app].
  destruct (String.eqb (fst e) n); [reflexivity|exact IH].
Qed.

Lemma type_of_elem (n ty : string) (l : list (string * string)) :
  NoDup (fst <$> l) -> (n, ty) ∈ l -> type_of n l = Some ty.
Proof.
  induction l as [|e l IH]; intros Hd Hin; [now apply elem_of_nil in Hin|].
  rewrite fmap_cons in Hd. apply NoDup_cons in Hd as [Hn Hd]. cbn [type_of].
  apply elem_of_cons in Hin as [<-|Hin].
  - cbn. now rewrite String.eqb_refl.
  - destruct (String.eqb_spec (fst e) n) as [E|_]; [|now apply IH].
    exfalso. apply Hn. rewrite E. apply list_elem_of_fmap. now exists (n, ty).
Qed.

Lemma exists_in_node (N : list (string * string)) (p : plug) :
  exists_in N p = true -> plug_node p ∈ fst <$> N.
Proof.
  unfold exists_in. intros H. apply type_of_is_Some.
  destruct (type_of (plug_node p) N); [eauto|discriminate].
Qed.

Lemma exists_in_app_l (N l : list (string * string)) (p : plug) :
  exists_in N p = true -> exists_in (N ++ l) p = true.
Proof.
  unfold exists_in. rewrite type_of_app.
  destruct (type_of (plug_node p) N); [auto|discriminate].
Qed.

Lemma exists_in_new (N : list (string * string)) (n ty a : string) :
  n ∉ fst <$> N -> has_attr ty a = true -> exists_in (N ++ [(n, ty)]) (Plug n a) = true.
Proof.
  intros Hn Ha. unfold exists_in. cbn [plug_node plug_attr].
  rewrite type_of_app, (type_of_None _ _ Hn). cbn. now rewrite String.eqb_refl.
Qed.

Lemma exists_in_created (N L : list (string * string)) (n ty a : string) :
  n ∉ fst <$> N -> NoDup (fst <$> L) -> (n, ty) ∈ L -> has_attr ty a = true ->
  exists_in (N ++ L) (Plug n a) = true.
Proof.
  intros Hn Hd Hin Ha. unfold exists_in. cbn [plug_node plug_attr].
  now rewrite type_of_app, (type_of_None _ _ Hn), (type_of_elem _ _ _ Hd Hin).
Qed.

(** *** Connections *)

Lemma sources_app (p : plug) (C C' : list (plug * plug)) :
  sources_of p (C ++ C') = sources_of p C ++ sources_of p C'.
Proof. unfold sources_of. now rewrite filter_app, fmap_app. Qed.

Lemma sources_of_nil (p : plug) (C : list (plug * plug)) :
  p ∉ snd <$> C -> sources_of p C = [].
Proof.
  intros H. unfold sources_of. induction C as [|e C IH]; [reflexivity|].
  rewrite fmap_cons in H. apply not_elem_of_cons in H as [Hne HC].
  rewrite filter_cons_False by (intros E; now apply Hne). now apply IH.
Qed.

Lemma sources_of_hit (src p : plug) : sources_of p [(src, p)] = [src].
Proof. unfold sources_of. now rewrite filter_cons_True. Qed.

Lemma sources_of_undrive (p : plug) (C : list (plug * plug)) :
  sources_of p (undrive p C) = [].
Proof.
  apply sources_of_nil. intros H. apply list_elem_of_fmap in H as (e & -> & He).
  apply list_elem_of_filter in He as [Hne _]. now apply Hne.
Qed.

Lemma not_dst_snoc (p : plug) (C : list (plug * plug)) (e : plug * plug) :
  p ∉ snd <$> C -> p <> snd e -> p ∉ snd <$> (C ++ [e]).
Proof.
  intros HC He. rewrite fmap_app. intros H. apply elem_of_app in H as [H|H]; [auto|].
  apply list_elem_of_singleton in H. auto.
Qed.

Lemma not_dst_app (p : plug) (C C' : list (plug * plug)) :
  p ∉ snd <$> C -> p ∉ snd <$> C' -> p ∉ snd <$> (C ++ C').
Proof. intros HC HC'. rewrite fmap_app. intros H. apply elem_of_app in H as [H|H]; auto. Qed.

Lemma not_dst_undrive (p q : plug) (C : list (plug * plug)) :
  p ∉ snd <$> C -> p ∉ snd <$> undrive q C.
Proof.
  intros H Hin. apply H. apply list_elem_of_fmap in Hin as (e & -> & He).
  apply list_elem_of_filter in He as [_ He]. apply list_elem_of_fmap. now exists e.
Qed.

Lemma undrive_app (p : plug) (C C' : list (plug * plug)) :
  undrive p (C ++ C') = undrive p C ++ undrive p C'.
Proof. apply filter_app. Qed.

Lemma undrive_id (p : plug) (C : list (plug * plug)) :
  p ∉ snd <$> C -> undrive p C = C.
Proof.
  intros H. unfold undrive. induction C as [|e C IH]; [reflexivity|].
  rewrite fmap_cons in H. apply not_elem_of_cons in H as [Hne HC].
  rewrite filter_cons_True by (intros E; now apply Hne). f_equal. now apply IH.
Qed.

Lemma undrive_idemp (p : plug) (C : list (plug * plug)) :
  undrive p (undrive p C) = undrive p C.
Proof.
  apply undrive_id. intros H. apply list_elem_of_fmap in H as (e & -> & He).
  apply list_elem_of_filter in He as [Hne _]. now apply Hne.
Qed.

Lemma undrive_hit (src p : plug) : undrive p [(src, p)] = [].
Proof. unfold undrive. now rewrite filter_cons_False by (intros H; now apply H). Qed.

Lemma without_absent (e : plug * plug) (C : list (plug * plug)) :
  e ∉ C -> without e C = C.
Proof.
  intros H. unfold without. induction C as [|x C IH]; [reflexivity|].
  apply not_elem_of_cons in H as [Hne HC].
  rewrite filter_cons_True by congruence. f_equal. now apply IH.
Qed.

Lemma without_last (e : plug * plug) (C : list (plug * plug)) :
  e ∉ C -> without e (C ++ [e]) = C.
Proof.
  intros H. unfold without. rewrite filter_app.
  rewrite filter_cons_False by (intros E; now apply E).
  rewrite filter_nil, app_nil_r. now apply without_absent.
Qed.

Lemma without_snoc (e x : plug * plug) (C : list (plug * plug)) :
  x <> e -> without e (C ++ [x]) = without e C ++ [x].
Proof.
  intros H. unfold without. rewrite filter_app. f_equal.
  now rewrite filter_cons_True.
Qed.

Lemma sources_cons (p : plug) (e : plug * plug) (C : list (plug * plug)) :
  sources_of p (e :: C) = (if decide (snd e = p) then [fst e] else []) ++ sources_of p C.
Proof. unfold sources_of. rewrite filter_cons. now destruct (decide (snd e = p)). Qed.

Lemma undrive_cons (p : plug) (e : plug * plug) (C : list (plug * plug)) :
  undrive p (e :: C) = (if decide (snd e = p) then [] else [e]) ++ undrive p C.
Proof.
  unfold undrive. rewrite filter_cons.
  destruct (decide (snd e = p)), (decide (snd e <> p)); try reflexivity; contradiction.
Qed.

Lemma without_cons (x e : plug * plug) (C : list (plug * plug)) :
  without x (e :: C) = (if decide (e = x) then [] else [e]) ++ without x C.
Proof.
  unfold without. rewrite filter_cons.
  destruct (decide (e = x)), (decide (e <> x)); try reflexivity; contradiction.
Qed.

(** With one source at most for each destination, taking away the
    connections that the host lists for [p] leaves [p] free. *)
Lemma sources_of_functional (p : plug) (C : list (plug * plug)) :
  NoDup (snd <$> C) ->
  (sources_of p C = [] /\ undrive p C = C) \/
  (exists src, sources_of p C = [src] /\ (src, p) ∈ C /\ without (src, p) C = undrive p C).
Proof.
  induction C as [|[a b] C IH]; intros Hd; [left; split; reflexivity|].
  rewrite fmap_cons in Hd. apply NoDup_cons in Hd as [Hb Hd]. cbn [snd] in Hb.
  rewrite sources_cons, undrive_cons. cbn [fst snd].
  destruct (decide (b = p)) as [->|Hne].
  - right. exists a. rewrite without_cons, decide_True by reflexivity.
    rewrite (sources_of_nil _ _ Hb), (undrive_id _ _ Hb).
    repeat split; [constructor|]. cbn [app].
    apply without_absent. intros Hin. apply Hb. apply list_elem_of_fmap. now exists (a, p).
  - destruct (IH Hd) as [[Hs Hu]|(src & Hs & Hin & Hw)].
    + left. cbn [app]. split; [exact Hs|now f_equal].
    + right. exists src. rewrite without_cons, decide_False by congruence.
      cbn [app]. repeat split; [exact Hs|now constructor|now f_equal].
Qed.


(** *** Host commands, run *)

Local Notation ST N P C V sel cb sl i pr w :=
  (Build_state (Build_scene N P C V) sel cb sl i pr w).

Lemma createNode_free (ty name : string) N P C V sel cb sl i pr w :
  name ∉ fst <$> N ->
  createNode ty name (ST N P C V sel cb sl i pr w)
  = (Ok name, ST (N ++ [(name, ty)]) P C V sel cb sl i pr w).
Proof.
  intros H. unfold createNode. rewrite bind_gets. cbv zeta. unfold names.
  cbn [id scn nodes]. rewrite (UVSlidingProps.unique_name_free _ _ H). reflexivity.
Qed.

Lemma setAttr_run (p : plug) (v : value) N P C V sel cb sl i pr w :
  exists_in N p = true -> sources_of p C = [] ->
  setAttr p v (ST N P C V sel cb sl i pr w)
  = (Ok tt, ST N P C (<[p := v]> V) sel cb sl i pr w).
Proof.
  intros He Hs. unfold setAttr. rewrite bind_gets. unfold plug_exists.
  cbn [id scn nodes conns]. rewrite He, Hs. reflexivity.
Qed.

Lemma connectAttr_run (src dst : plug) N P C V sel cb sl i pr w :
  exists_in N src = true -> exists_in N dst = true -> sources_of dst C = [] ->
  connectAttr src dst (ST N P C V sel cb sl i pr w)
  = (Ok tt, ST N P (C ++ [(src, dst)]) V sel cb sl i pr w).
Proof.
  intros Hs Hd Hf. unfold connectAttr. rewrite bind_gets. unfold plug_exists.
  cbn [id scn nodes conns]. rewrite Hs, Hd, Hf. reflexivity.
Qed.

Lemma disconnectAttr_run (src dst : plug) N P C V sel cb sl i pr w :
  (src, dst) ∈ C ->
  disconnectAttr src dst (ST N P C V sel cb sl i pr w)
  = (Ok tt, ST N P (without (src, dst) C) V sel cb sl i pr w).
Proof.
  intros H. unfold disconnectAttr. rewrite bind_gets. cbn [id scn conns].
  rewrite bool_decide_eq_true_2 by exact H. reflexivity.
Qed.

Lemma read_check_box_run (name : string) (set : bool -> instance -> instance)
    N P C V sel cb sl i pr w :
  read_check_box name set (ST N P C V sel cb sl i pr w)
  = (Ok tt, ST N P C V sel cb sl (from_option (fun b => set b i) i (cb !! name)) pr w).
Proof.
  unfold read_check_box, checkBox_exists, checkBox_query. rewrite bind_gets.
  cbn [check_boxes]. destruct (cb !! name) as [b|] eqn:E.
  - rewrite bool_decide_eq_true_2 by eauto. rewrite bind_bind, bind_gets.
    cbn [id check_boxes]. rewrite E. reflexivity.
  - rewrite bool_decide_eq_false_2 by (intros [? ?]; discriminate). reflexivity.
Qed.

Lemma read_slider_run (name : string) (set : Q -> instance -> instance)
    N P C V sel cb sl i pr w :
  read_slider name set (ST N P C V sel cb sl i pr w)
  = (Ok tt, ST N P C V sel cb sl (from_option (fun v => set v i) i (sl !! name)) pr w).
Proof.
  unfold read_slider, floatSliderGrp_exists, floatSliderGrp_query. rewrite bind_gets.
  cbn [sliders]. destruct (sl !! name) as [b|] eqn:E.
  - rewrite bool_decide_eq_true_2 by eauto. rewrite bind_bind, bind_gets.
    cbn [id sliders]. rewrite E. reflexivity.
  - rewrite bool_decide_eq_false_2 by (intros [? ?]; discriminate). reflexivity.
Qed.

Lemma update_pick_matrix_options_run N P C V sel cb sl i pr w :
  update_pick_matrix_options (ST N P C V sel cb sl i pr w)
  = (Ok tt, ST N P C V sel cb sl (options_from cb i)
              (pr ++ [UpdatedPickMatrixOptions (pick_rotate (options_from cb i))
                        (pick_scale (options_from cb i))
                        (pick_translate (options_from cb i))]) w).
Proof.
  unfold update_pick_matrix_options.
  rewrite (bind_ok _ _ _ _ _ (read_check_box_run _ _ _ _ _ _ _ _ _ _ _ _)).
  rewrite (bind_ok _ _ _ _ _ (read_check_box_run _ _ _ _ _ _ _ _ _ _ _ _)).
  rewrite (bind_ok _ _ _ _ _ (read_check_box_run _ _ _ _ _ _ _ _ _ _ _ _)).
  reflexivity.
Qed.

Lemma disconnect_offset_parent_matrix_run (obj : string) N P C V sel cb sl i pr w :
  exists_in N (Plug obj "offsetParentMatrix") = true ->
  NoDup (snd <$> C) ->
  disconnect_offset_parent_matrix obj (ST N P C V sel cb sl i pr w)
  = (Ok tt, ST N P (undrive (Plug obj "offsetParentMatrix") C) V sel cb sl i
              (pr ++ ((fun src => Disconnecting src (Plug obj "offsetParentMatrix"))
                        <$> sources_of (Plug obj "offsetParentMatrix") C)) w).
Proof.
  intros He Hd. unfold disconnect_offset_parent_matrix, listConnections_sources.
  rewrite bind_bind, bind_gets. unfold plug_exists. cbn [id scn nodes conns].
  rewrite He, bind_ret.
  destruct (sources_of_functional (Plug obj "offsetParentMatrix") C Hd)
    as [[-> ->]|(src & -> & Hin & <-)].
  - cbn. now rewrite app_nil_r.
  - cbn [for_each fmap list_fmap]. unfold print at 1. rewrite bind_bind, bind_modify.
    cbn [scn selection check_boxes sliders self prints warnings].
    rewrite (bind_ok _ _ _ _ _ (disconnectAttr_run _ _ _ _ _ _ _ _ _ _ _ _ Hin)).
    reflexivity.
Qed.

(** *** One driver *)

Lemma fresh_snoc (n m ty : string) (N : list (string * string)) :
  n ∉ fst <$> N -> n <> m -> n ∉ fst <$> (N ++ [(m, ty)]).
Proof.
  intros HN Hm. rewrite fmap_app. intros H. apply elem_of_app in H as [H|H]; [auto|].
  apply list_elem_of_singleton in H. auto.
Qed.

Lemma fresh_not_dst (N : list (string * string)) (C : list (plug * plug)) (p : plug) :
  (forall e, e ∈ C -> plug_node (snd e) ∈ fst <$> N) ->
  plug_node p ∉ fst <$> N -> p ∉ snd <$> C.
Proof.
  intros Hwf Hp Hin. apply list_elem_of_fmap in Hin as (e & -> & He). apply Hp, Hwf, He.
Qed.

Lemma fresh_not_conn (N : list (string * string)) (C : list (plug * plug)) (e : plug * plug) :
  (forall e, e ∈ C -> plug_node (snd e) ∈ fst <$> N) ->
  plug_node (snd e) ∉ fst <$> N -> e ∉ C.
Proof. intros Hwf Hp Hin. apply Hp, Hwf, Hin. Qed.

Lemma not_dst_undrive_self (p : plug) (C : list (plug * plug)) : p ∉ snd <$> undrive p C.
Proof.
  intros H. apply list_elem_of_fmap in H as (e & -> & He).
  apply list_elem_of_filter in He as [Hne _]. now apply Hne.
Qed.

Lemma undrive_snoc_miss (p : plug) (C : list (plug * plug)) (e : plug * plug) :
  snd e <> p -> undrive p (C ++ [e]) = undrive p C ++ [e].
Proof. intros H. unfold undrive. rewrite filter_app. f_equal. now rewrite filter_cons_True. Qed.

Lemma sources_snoc_miss (p : plug) (C : list (plug * plug)) (e : plug * plug) :
  snd e <> p -> sources_of p (C ++ [e]) = sources_of p C.
Proof.
  intros H. rewrite sources_app. unfold sources_of at 2.
  rewrite filter_cons_False by (intros E; now apply H). apply app_nil_r.
Qed.

Lemma NoDup_dst_snoc (C : list (plug * plug)) (e : plug * plug) :
  NoDup (snd <$> C) -> snd e ∉ snd <$> C -> NoDup (snd <$> (C ++ [e])).
Proof.
  intros Hd He. rewrite fmap_app. apply NoDup_app. repeat split; [exact Hd| |apply NoDup_singleton].
  intros x Hx Hx'. apply list_elem_of_singleton in Hx'. subst x. now apply He.
Qed.

Ltac name_neq :=
  unfold pick_matrix_name, mult_matrix_name, hold_matrix_name; discriminate.

Ltac plug_neq :=
  cbn [snd]; let E := fresh in
  intros E; first [ discriminate E
                  | injection E; intros; first [discriminate | name_neq] ].

Ltac fresh_tac := repeat (apply fresh_snoc; [|name_neq]); assumption.

Ltac exists_tac :=
  first [ assumption
        | apply exists_in_new; [fresh_tac | reflexivity]
        | apply exists_in_app_l; exists_tac ].

Lemma create_without_hold_matrix_run (o c p : string) N P C V sel cb sl i pr w :
  (forall e, e ∈ C -> plug_node (snd e) ∈ fst <$> N) ->
  NoDup (snd <$> C) ->
  exists_in N (Plug o "worldMatrix[0]") = true ->
  exists_in N (Plug p "worldInverseMatrix[0]") = true ->
  exists_in N (Plug c "offsetParentMatrix") = true ->
  pick_matrix_name c o ∉ fst <$> N ->
  mult_matrix_name c o ∉ fst <$> N ->
  create_without_hold_matrix o c p (ST N P C V sel cb sl i pr w)
  = (Ok tt, after_create false c p (ST N P C V sel cb sl i pr w) o).
Proof.
  intros Hwf Hnd Ho Hp Hc Hpick Hmult.
  assert (Hfree : forall a, Plug (pick_matrix_name c o) a ∉ snd <$> C)
    by (intros a; apply (fresh_not_dst N); [exact Hwf|exact Hpick]).
  assert (Hfree' : forall a, Plug (mult_matrix_name c o) a ∉ snd <$> C)
    by (intros a; apply (fresh_not_dst N); [exact Hwf|exact Hmult]).
  unfold create_without_hold_matrix.
  rewrite (bind_ok _ _ _ _ _ (update_pick_matrix_options_run _ _ _ _ _ _ _ _ _ _)).
  unfold create_pick_matrix. rewrite !bind_bind.
  rewrite (bind_ok _ _ _ _ _ (createNode_free _ _ _ _ _ _ _ _ _ _ _ _ Hpick)).
  rewrite !bind_bind, bind_gets. cbn [self]. rewrite !bind_bind.
  cbv beta; rewrite ?bind_bind; erewrite (bind_ok (setAttr _ _)); cycle 1.
  { apply setAttr_run; [exists_tac|apply sources_of_nil, Hfree]. }
  cbv beta; rewrite ?bind_bind; erewrite (bind_ok (setAttr _ _)); cycle 1.
  { apply setAttr_run; [exists_tac|apply sources_of_nil, Hfree]. }
  cbv beta; rewrite ?bind_bind; erewrite (bind_ok (setAttr _ _)); cycle 1.
  { apply setAttr_run; [exists_tac|apply sources_of_nil, Hfree]. }
  cbv beta; rewrite ?bind_bind, bind_ret.
  cbv beta; rewrite ?bind_bind; erewrite (bind_ok (createNode _ _)); cycle 1.
  { apply createNode_free. fresh_tac. }
  cbv beta; rewrite ?bind_bind; erewrite (bind_ok (connectAttr _ _)); cycle 1.
  { apply connectAttr_run; [exists_tac|exists_tac|apply sources_of_nil, Hfree]. }
  cbv beta; rewrite ?bind_bind; erewrite (bind_ok (connectAttr _ _)); cycle 1.
  { apply connectAttr_run; [exists_tac|exists_tac|].
    apply sources_of_nil, not_dst_snoc; [apply Hfree'|plug_neq]. }
  cbv beta; rewrite ?bind_bind; erewrite (bind_ok (connectAttr _ _)); cycle 1.
  { apply connectAttr_run; [exists_tac|exists_tac|].
    apply sources_of_nil. repeat (apply not_dst_snoc; [|plug_neq]). apply Hfree'. }
  cbv beta; rewrite ?bind_bind; erewrite (bind_ok (disconnect_offset_parent_matrix _)); cycle 1.
  { apply disconnect_offset_parent_matrix_run; [exists_tac|].
    repeat (apply NoDup_dst_snoc; [|cbn [snd]; repeat (apply not_dst_snoc; [|plug_neq]);
                                     first [apply Hfree|apply Hfree']]).
    exact Hnd. }
  rewrite !undrive_snoc_miss by plug_neq. rewrite !sources_snoc_miss by plug_neq.
  erewrite connectAttr_run; cycle 1.
  { exists_tac. }
  { exists_tac. }
  { apply sources_of_nil. repeat (apply not_dst_snoc; [|plug_neq]).
    apply not_dst_undrive_self. }
  unfold after_create, new_nodes, internal.
  cbn [scn nodes parent_of conns vals selection check_boxes sliders self prints warnings].
  rewrite <- !app_assoc. reflexivity.
Qed.

Ltac pair_neq :=
  let E := fresh in
  intros E; injection E; intros; first [discriminate | name_neq].

Ltac conn_in := rewrite ?elem_of_app, ?list_elem_of_singleton; tauto.

Lemma create_with_hold_matrix_run (o c p : string) N P C V sel cb sl i pr w :
  (forall e, e ∈ C -> plug_node (snd e) ∈ fst <$> N) ->
  NoDup (snd <$> C) ->
  exists_in N (Plug o "worldMatrix[0]") = true ->
  exists_in N (Plug o "worldInverseMatrix[0]") = true ->
  exists_in N (Plug c "worldMatrix[0]") = true ->
  exists_in N (Plug p "worldInverseMatrix[0]") = true ->
  exists_in N (Plug c "offsetParentMatrix") = true ->
  pick_matrix_name c o ∉ fst <$> N ->
  mult_matrix_name c o ∉ fst <$> N ->
  hold_matrix_name c o ∉ fst <$> N ->
  create_with_hold_matrix o c p (ST N P C V sel cb sl i pr w)
  = (Ok tt, after_create true c p (ST N P C V sel cb sl i pr w) o).
Proof.
  intros Hwf Hnd Ho Ho' Hc' Hp Hc Hpick Hmult Hhold.
  assert (Hfree : forall a, Plug (pick_matrix_name c o) a ∉ snd <$> C)
    by (intros a; apply (fresh_not_dst N); [exact Hwf|exact Hpick]).
  assert (Hfree' : forall a, Plug (mult_matrix_name c o) a ∉ snd <$> C)
    by (intros a; apply (fresh_not_dst N); [exact Hwf|exact Hmult]).
  assert (Hfree'' : forall a, Plug (hold_matrix_name c o) a ∉ snd <$> C)
    by (intros a; apply (fresh_not_dst N); [exact Hwf|exact Hhold]).
  assert (Hnew : forall src a, (src, Plug (mult_matrix_name c o) a) ∉ C)
    by (intros src a; apply (fresh_not_conn N); [exact Hwf|exact Hmult]).
  assert (Hnew' : forall src a, (src, Plug (hold_matrix_name c o) a) ∉ C)
    by (intros src a; apply (fresh_not_conn N); [exact Hwf|exact Hhold]).
  unfold create_with_hold_matrix.
  rewrite (bind_ok _ _ _ _ _ (update_pick_matrix_options_run _ _ _ _ _ _ _ _ _ _)).
  unfold create_pick_matrix. rewrite !bind_bind.
  rewrite (bind_ok _ _ _ _ _ (createNode_free _ _ _ _ _ _ _ _ _ _ _ _ Hpick)).
  rewrite !bind_bind, bind_gets. cbn [self]. rewrite !bind_bind.
  cbv beta; rewrite ?bind_bind; erewrite (bind_ok (setAttr _ _)); cycle 1.
  { apply setAttr_run; [exists_tac|apply sources_of_nil, Hfree]. }
  cbv beta; rewrite ?bind_bind; erewrite (bind_ok (setAttr _ _)); cycle 1.
  { apply setAttr_run; [exists_tac|apply sources_of_nil, Hfree]. }
  cbv beta; rewrite ?bind_bind; erewrite (bind_ok (setAttr _ _)); cycle 1.
  { apply setAttr_run; [exists_tac|apply sources_of_nil, Hfree]. }
  cbv beta; rewrite ?bind_bind, bind_ret.
  cbv beta; rewrite ?bind_bind; erewrite (bind_ok (createNode _ _)); cycle 1.
  { apply createNode_free. fresh_tac. }
  cbv beta; rewrite ?bind_bind; erewrite (bind_ok (connectAttr _ _)); cycle 1.
  { apply connectAttr_run; [exists_tac|exists_tac|apply sources_of_nil, Hfree']. }
  cbv beta; rewrite ?bind_bind; erewrite (bind_ok (connectAttr _ _)); cycle 1.
  { apply connectAttr_run; [exists_tac|exists_tac|].
    apply sources_of_nil, not_dst_snoc; [apply Hfree'|plug_neq]. }
  cbv beta; rewrite ?bind_bind; erewrite (bind_ok (createNode _ _)); cycle 1.
  { apply createNode_free. fresh_tac. }
  cbv beta; rewrite ?bind_bind; erewrite (bind_ok (connectAttr _ _)); cycle 1.
  { apply connectAttr_run; [exists_tac|exists_tac|].
    apply sources_of_nil. repeat (apply not_dst_snoc; [|plug_neq]). apply Hfree''. }
  cbv beta; rewrite ?bind_bind; erewrite (bind_ok (disconnectAttr _ _)); cycle 1.
  { apply disconnectAttr_run. conn_in. }
  rewrite without_last; cycle 1.
  { rewrite !elem_of_app, !list_elem_of_singleton. intros [[H|H]|H]; revert H;
      [apply Hnew'|pair_neq|pair_neq]. }
  cbv beta; rewrite ?bind_bind; erewrite (bind_ok (disconnectAttr _ _)); cycle 1.
  { apply disconnectAttr_run. conn_in. }
  rewrite without_snoc by pair_neq. rewrite without_last by apply Hnew.
  cbv beta; rewrite ?bind_bind; erewrite (bind_ok (disconnectAttr _ _)); cycle 1.
  { apply disconnectAttr_run. conn_in. }
  rewrite without_last by apply Hnew.
  cbv beta; rewrite ?bind_bind; erewrite (bind_ok (disconnect_offset_parent_matrix _)); cycle 1.
  { apply disconnect_offset_parent_matrix_run; [exists_tac|exact Hnd]. }
  cbv beta; rewrite ?bind_bind; erewrite (bind_ok (connectAttr _ _)); cycle 1.
  { apply connectAttr_run; [exists_tac|exists_tac|].
    apply sources_of_nil, not_dst_undrive, Hfree'. }
  cbv beta; rewrite ?bind_bind; erewrite (bind_ok (connectAttr _ _)); cycle 1.
  { apply connectAttr_run; [exists_tac|exists_tac|].
    apply sources_of_nil. repeat (apply not_dst_snoc; [|plug_neq]).
    apply not_dst_undrive, Hfree. }
  cbv beta; rewrite ?bind_bind; erewrite (bind_ok (connectAttr _ _)); cycle 1.
  { apply connectAttr_run; [exists_tac|exists_tac|].
    apply sources_of_nil. repeat (apply not_dst_snoc; [|plug_neq]).
    apply not_dst_undrive, Hfree'. }
  cbv beta; rewrite ?bind_bind; erewrite (bind_ok (connectAttr _ _)); cycle 1.
  { apply connectAttr_run; [exists_tac|exists_tac|].
    apply sources_of_nil. repeat (apply not_dst_snoc; [|plug_neq]).
    apply not_dst_undrive, Hfree'. }
  cbv beta. erewrite connectAttr_run; cycle 1.
  { exists_tac. }
  { exists_tac. }
  { apply sources_of_nil. repeat (apply not_dst_snoc; [|plug_neq]).
    apply not_dst_undrive_self. }
  unfold after_create, new_nodes, internal.
  cbn [scn nodes parent_of conns vals selection check_boxes sliders self prints warnings].
  rewrite <- !app_assoc. reflexivity.
Qed.


(** *** All drivers *)

Lemma create_run (use_hold : bool) (o c p : string) (s : state) :
  well_formed (scn s) ->
  dag_object (scn s) o -> dag_object (scn s) c -> dag_object (scn s) p ->
  (forall n, n ∈ fst <$> new_nodes use_hold c o -> n ∉ names (scn s)) ->
  (if use_hold then create_with_hold_matrix o c p
   else create_without_hold_matrix o c p) s
  = (Ok tt, after_create use_hold c p s o).
Proof.
  destruct s as [[N P C V] sel cb sl i pr w].
  unfold well_formed, dag_object, plug_exists, names. cbn [scn nodes conns].
  intros [Hwf Hnd] (Ho & Ho' & _) (Hc' & _ & Hc) (_ & Hp & _) Hfresh.
  destruct use_hold.
  - apply create_with_hold_matrix_run; try assumption;
      apply Hfresh; cbn; rewrite !elem_of_cons; tauto.
  - apply create_without_hold_matrix_run; try assumption;
      apply Hfresh; cbn; rewrite !elem_of_cons; tauto.
Qed.

Lemma name_inj (prefix c o o' : string) :
  prefix +:+ c +:+ "_cc_by_" +:+ o = prefix +:+ c +:+ "_cc_by_" +:+ o' -> o = o'.
Proof.
  intros H. apply (String.app_inj prefix) in H. apply (String.app_inj c) in H.
  now apply (String.app_inj "_cc_by_") in H.
Qed.

Lemma new_names_disjoint (use_hold : bool) (c o o' n : string) :
  n ∈ fst <$> new_nodes use_hold c o -> n ∈ fst <$> new_nodes use_hold c o' -> o = o'.
Proof.
  unfold new_nodes. intros H H'.
  destruct use_hold; cbn in H, H'; rewrite !elem_of_cons in H, H';
    destruct H as [->|[->|H]], H' as [H'|[H'|H']];
    try (now apply elem_of_nil in H); try (now apply elem_of_nil in H');
    try (destruct H as [->|H]; [|now apply elem_of_nil in H]);
    try (destruct H' as [H'|H']; [|now apply elem_of_nil in H']);
    first [ now apply name_inj in H' | exfalso; revert H'; name_neq ].
Qed.

Lemma after_create_names (use_hold : bool) (c p o : string) (s : state) :
  names (scn (after_create use_hold c p s o))
  = names (scn s) ++ (fst <$> new_nodes use_hold c o).
Proof. unfold names, after_create. cbn [scn nodes]. apply fmap_app. Qed.

Lemma after_create_exists (use_hold : bool) (c p o : string) (s : state) (pl : plug) :
  plug_exists pl (scn s) = true ->
  plug_exists pl (scn (after_create use_hold c p s o)) = true.
Proof. unfold plug_exists, after_create. cbn [scn nodes]. apply exists_in_app_l. Qed.

Lemma after_create_dag (use_hold : bool) (c p o x : string) (s : state) :
  dag_object (scn s) x -> dag_object (scn (after_create use_hold c p s o)) x.
Proof. intros (H1 & H2 & H3). repeat split; now apply after_create_exists. Qed.

Lemma after_create_mult (use_hold : bool) (c p o : string) (s : state) :
  (forall n, n ∈ fst <$> new_nodes use_hold c o -> n ∉ names (scn s)) ->
  plug_exists (Plug (mult_matrix_name c o) "matrixSum")
    (scn (after_create use_hold c p s o)) = true.
Proof.
  intros Hfresh. unfold plug_exists, after_create, new_nodes. cbn [scn nodes].
  assert (Hp : pick_matrix_name c o ∉ names (scn s))
    by (apply Hfresh; destruct use_hold; cbn; rewrite !elem_of_cons; tauto).
  assert (Hm : mult_matrix_name c o ∉ names (scn s))
    by (apply Hfresh; destruct use_hold; cbn; rewrite !elem_of_cons; tauto).
  change [(pick_matrix_name c o, "pickMatrix"); (mult_matrix_name c o, "multMatrix")]
    with ([(pick_matrix_name c o, "pickMatrix")] ++ [(mult_matrix_name c o, "multMatrix")]).
  rewrite !app_assoc. apply exists_in_app_l, exists_in_new; [|reflexivity].
  apply fresh_snoc; [exact Hm|name_neq].
Qed.

Lemma internal_not_opm (use_hold : bool) (c p o : string) :
  Plug c "offsetParentMatrix" ∉ snd <$> internal use_hold c p o.
Proof.
  unfold internal. destruct use_hold; cbn; rewrite !elem_of_cons;
    intros H; repeat (destruct H as [H|H]; [discriminate H|]); now apply elem_of_nil in H.
Qed.

Lemma internal_dst_new (use_hold : bool) (c p o : string) (e : plug * plug) :
  e ∈ internal use_hold c p o -> plug_node (snd e) ∈ fst <$> new_nodes use_hold c o.
Proof.
  unfold internal, new_nodes. destruct use_hold; cbn; rewrite !elem_of_cons;
    intros H; repeat (destruct H as [->|H]; [cbn; tauto|]); now apply elem_of_nil in H.
Qed.

Lemma internal_NoDup (use_hold : bool) (c p o : string) :
  NoDup (snd <$> internal use_hold c p o).
Proof.
  unfold internal. destruct use_hold; cbn;
    repeat (apply NoDup_cons; split;
            [rewrite ?elem_of_cons; intros H;
             repeat (destruct H as [H|H]; [revert H; plug_neq|]); now apply elem_of_nil in H|]);
    apply NoDup_nil_2.
Qed.

Lemma after_create_conns_undriven (use_hold : bool) (c p o : string) (s : state) :
  undrive (Plug c "offsetParentMatrix") (conns (scn (after_create use_hold c p s o)))
  = undrive (Plug c "offsetParentMatrix") (conns (scn s)) ++ internal use_hold c p o.
Proof.
  unfold after_create. cbn [scn conns].
  rewrite !undrive_app, undrive_idemp, undrive_hit, app_nil_r.
  f_equal. apply undrive_id, internal_not_opm.
Qed.

Lemma NoDup_dst_undrive (p : plug) (C : list (plug * plug)) :
  NoDup (snd <$> C) -> NoDup (snd <$> undrive p C).
Proof.
  induction C as [|e C IH]; intros H; [constructor|].
  rewrite fmap_cons in H. apply NoDup_cons in H as [He H]. rewrite undrive_cons.
  destruct (decide (snd e = p)); cbn [app]; [now apply IH|].
  rewrite fmap_cons. apply NoDup_cons. split; [|now apply IH].
  now apply not_dst_undrive.
Qed.

Lemma after_create_well_formed (use_hold : bool) (c p o : string) (s : state) :
  well_formed (scn s) -> dag_object (scn s) c ->
  (forall n, n ∈ fst <$> new_nodes use_hold c o -> n ∉ names (scn s)) ->
  well_formed (scn (after_create use_hold c p s o)).
Proof.
  intros [Hwf Hnd] (_ & _ & Hc) Hfresh. split.
  - intros e He. rewrite after_create_names. unfold after_create in He. cbn [scn conns] in He.
    rewrite !elem_of_app in He. destruct He as [He|[He|He]].
    + apply elem_of_app. left. apply list_elem_of_filter in He as [_ He]. now apply Hwf.
    + apply elem_of_app. right. now apply internal_dst_new with p.
    + apply list_elem_of_singleton in He as ->. cbn. apply elem_of_app. left.
      now apply exists_in_node in Hc.
  - unfold after_create. cbn [scn conns]. rewrite !fmap_app.
    apply NoDup_app. repeat split.
    + now apply NoDup_dst_undrive.
    + intros x Hx Hx'. apply elem_of_app in Hx' as [Hx'|Hx'].
      * apply list_elem_of_fmap in Hx as (e & -> & He).
        apply list_elem_of_filter in He as [_ He]. apply Hwf in He.
        apply list_elem_of_fmap in Hx' as (e' & E & He').
        apply internal_dst_new in He'. rewrite <- E in He'. now apply Hfresh in He'.
      * apply list_elem_of_singleton in Hx'. subst x. revert Hx. apply not_dst_undrive_self.
    + apply NoDup_app. repeat split; [apply internal_NoDup| |apply NoDup_singleton].
      intros x Hx Hx'. apply list_elem_of_singleton in Hx'. subst x. revert Hx.
      apply internal_not_opm.
Qed.


Lemma create_loop_run (use_hold : bool) (c p : string) (drivers : list string) :
  forall s : state,
    well_formed (scn s) -> dag_object (scn s) c -> dag_object (scn s) p ->
    (forall o, o ∈ drivers -> dag_object (scn s) o) ->
    NoDup drivers ->
    (forall o n, o ∈ drivers -> n ∈ fst <$> new_nodes use_hold c o -> n ∉ names (scn s)) ->
    for_each drivers (fun obj =>
      if use_hold then create_with_hold_matrix obj c p
      else create_without_hold_matrix obj c p) s
    = (Ok tt, foldl (after_create use_hold c p) s drivers)
    /\ well_formed (scn (foldl (after_create use_hold c p) s drivers))
    /\ (forall o, o ∈ drivers ->
          plug_exists (Plug (mult_matrix_name c o) "matrixSum")
            (scn (foldl (after_create use_hold c p) s drivers)) = true)
    /\ (forall pl, plug_exists pl (scn s) = true ->
          plug_exists pl (scn (foldl (after_create use_hold c p) s drivers)) = true).
Proof.
  induction drivers as [|o drivers IH]; intros s Hwf Hc Hp Hdag Hnd Hfresh.
  - cbn. repeat split; [exact (proj1 Hwf)|exact (proj2 Hwf)| |auto].
    intros o Ho. now apply elem_of_nil in Ho.
  - apply NoDup_cons in Hnd as [Ho Hnd].
    assert (Hfresh_o : forall n, n ∈ fst <$> new_nodes use_hold c o -> n ∉ names (scn s))
      by (intros n; apply Hfresh; left).
    destruct (IH (after_create use_hold c p s o)) as (Hrun & Hwf' & Hmult & Hmono).
    + now apply after_create_well_formed.
    + now apply after_create_dag.
    + now apply after_create_dag.
    + intros o' Ho'. apply after_create_dag, Hdag. now right.
    + exact Hnd.
    + intros o' n Ho' Hn. rewrite after_create_names. intros Hin.
      apply elem_of_app in Hin as [Hin|Hin].
      * revert Hin. apply (Hfresh o'); [now right|exact Hn].
      * apply Ho. now rewrite (new_names_disjoint _ _ _ _ _ Hin Hn).
    + cbn [for_each foldl].
      rewrite (bind_ok _ _ _ _ _ (create_run use_hold o c p s Hwf
                 (Hdag o ltac:(left)) Hc Hp Hfresh_o)).
      repeat split; [exact Hrun|exact (proj1 Hwf')|exact (proj2 Hwf')| |].
      * intros o' Ho'. apply elem_of_cons in Ho' as [->|Ho']; [|now apply Hmult].
        now apply Hmono, after_create_mult.
      * intros pl Hpl. now apply Hmono, after_create_exists.
Qed.

Lemma loop_nodes (use_hold : bool) (c p : string) (drivers : list string) (s : state) :
  nodes (scn (foldl (after_create use_hold c p) s drivers))
  = nodes (scn s) ++ (drivers ≫= new_nodes use_hold c).
Proof.
  revert s. induction drivers as [|o drivers IH]; intros s; cbn [foldl].
  - cbn. now rewrite app_nil_r.
  - rewrite IH. unfold after_create. cbn [scn nodes].
    now rewrite bind_cons, app_assoc.
Qed.

Lemma loop_undriven (use_hold : bool) (c p : string) (drivers : list string) (s : state) :
  undrive (Plug c "offsetParentMatrix")
    (conns (scn (foldl (after_create use_hold c p) s drivers)))
  = undrive (Plug c "offsetParentMatrix") (conns (scn s))
    ++ (drivers ≫= internal use_hold c p).
Proof.
  revert s. induction drivers as [|o drivers IH]; intros s; cbn [foldl].
  - cbn. now rewrite app_nil_r.
  - rewrite IH, after_create_conns_undriven. now rewrite bind_cons, app_assoc.
Qed.

Lemma loop_conns (use_hold : bool) (c p : string) (drivers : list string) (o : string)
    (s : state) :
  conns (scn (foldl (after_create use_hold c p) s (drivers ++ [o])))
  = undrive (Plug c "offsetParentMatrix") (conns (scn s))
    ++ ((drivers ++ [o]) ≫= internal use_hold c p)
    ++ [(Plug (mult_matrix_name c o) "matrixSum", Plug c "offsetParentMatrix")].
Proof.
  rewrite foldl_app. cbn [foldl]. unfold after_create at 1. cbn [scn conns].
  rewrite loop_undriven, bind_app, <- !app_assoc. cbn. now rewrite app_nil_r.
Qed.

Lemma loop_frame (use_hold : bool) (c p : string) (drivers : list string) (s : state) :
  let s' := foldl (after_create use_hold c p) s drivers in
  selection s' = selection s /\ check_boxes s' = check_boxes s /\
  sliders s' = sliders s /\ warnings s' = warnings s /\
  parent_of (scn s') = parent_of (scn s) /\
  blend_matrix_node (self s') = blend_matrix_node (self s).
Proof.
  revert s. induction drivers as [|o drivers IH]; intros s; cbn [foldl]; [tauto|].
  destruct (IH (after_create use_hold c p s o)) as (-> & -> & -> & -> & -> & ->).
  unfold after_create. cbn. repeat split.
  unfold options_from.
  destruct (check_boxes s !! "rotateCheckBox"), (check_boxes s !! "scaleCheckBox"),
    (check_boxes s !! "translateCheckBox"); reflexivity.
Qed.


(** *** The weights of the targets *)

Lemma startswith_append (p s : string) : Str.startswith p (p +:+ s) = true.
Proof.
  induction p as [|a p IH]; [reflexivity|].
  change (String a p +:+ s) with (String a (p +:+ s)).
  cbn [Str.startswith]. now rewrite Ascii.eqb_refl.
Qed.

Lemma target_plug_exists (N : list (string * string)) (node : string) (k : Z) (a : string) :
  type_of node N = Some "blendMatrix" -> exists_in N (target_plug node k a) = true.
Proof.
  intros H. unfold exists_in, target_plug. cbn [plug_node plug_attr]. rewrite H.
  unfold has_attr. cbn [String.eqb Ascii.eqb Bool.eqb].
  rewrite startswith_append. apply orb_true_r.
Qed.

Lemma weights_loop_run (node : string) (j : instance) N P C sel cb sl i pr w
    (l : list Z) :
  type_of node N = Some "blendMatrix" -> weights_free node C ->
  forall V,
    for_each l (fun k =>
      setAttr (target_plug node k "translateWeight") (VNum (weight_translate j)) ;;;
      setAttr (target_plug node k "rotateWeight") (VNum (weight_rotate j)) ;;;
      setAttr (target_plug node k "scaleWeight") (VNum (weight_scale j)))%py
      (ST N P C V sel cb sl i pr w)
    = (Ok tt, ST N P C (foldl (set_target_weights node j) V l) sel cb sl i pr w).
Proof.
  intros Hty Hfree.
  assert (Hs : forall k a, a ∈ ["translateWeight"; "rotateWeight"; "scaleWeight"] ->
                 sources_of (target_plug node k a) C = []).
  { intros k a Ha. apply sources_of_nil. intros Hin.
    apply list_elem_of_fmap in Hin as (e & E & He). now apply (Hfree e k a He Ha). }
  induction l as [|k l IH]; intros V; [reflexivity|]. cbn [for_each foldl].
  rewrite !bind_bind.
  erewrite (bind_ok (setAttr _ _)); cycle 1.
  { apply setAttr_run; [now apply target_plug_exists|apply Hs; rewrite !elem_of_cons; tauto]. }
  cbv beta. rewrite !bind_bind.
  erewrite (bind_ok (setAttr _ _)); cycle 1.
  { apply setAttr_run; [now apply target_plug_exists|apply Hs; rewrite !elem_of_cons; tauto]. }
  cbv beta.
  erewrite (bind_ok (setAttr _ _)); cycle 1.
  { apply setAttr_run; [now apply target_plug_exists|apply Hs; rewrite !elem_of_cons; tauto]. }
  apply IH.
Qed.

Lemma update_blend_matrix_weights_run (node : string) N P C V sel cb sl i pr w :
  blend_matrix_node i = Some node -> Str.nonempty node = true ->
  type_of node N = Some "blendMatrix" -> weights_free node C ->
  let j := weights_from sl i in
  let count := target_size node (Build_scene N P C V) in
  update_blend_matrix_weights (ST N P C V sel cb sl i pr w)
  = (Ok tt, ST N P C (foldl (set_target_weights node j) V (range count)) sel cb sl j
              (pr ++ [if (count =? 0)%Z then BlendMatrixWithoutTargets node
                      else SetTargetWeights (count - 1) (weight_translate j)
                             (weight_rotate j) (weight_scale j)]) w).
Proof.
  intros Hb Hne Hty Hfree j count. unfold update_blend_matrix_weights.
  rewrite (bind_ok _ _ _ _ _ (read_slider_run _ _ _ _ _ _ _ _ _ _ _ _)).
  rewrite (bind_ok _ _ _ _ _ (read_slider_run _ _ _ _ _ _ _ _ _ _ _ _)).
  rewrite (bind_ok _ _ _ _ _ (read_slider_run _ _ _ _ _ _ _ _ _ _ _ _)).
  fold (weights_from sl i). fold j. rewrite bind_gets. cbn [self].
  assert (Hbj : blend_matrix_node j = Some node).
  { unfold j, weights_from.
    destruct (sl !! "translateWeightSlider"), (sl !! "rotateWeightSlider"),
      (sl !! "scaleWeightSlider"); exact Hb. }
  rewrite Hbj, Hne. unfold objExists. rewrite bind_gets. unfold names. cbn [scn nodes].
  rewrite bool_decide_eq_true_2 by (apply type_of_is_Some; rewrite Hty; eauto).
  cbn [negb default]. unfold attributeQuery_exists. rewrite bind_bind, bind_gets.
  cbn [id scn nodes]. rewrite Hty, bind_ret.
  change (has_attr "blendMatrix" "target") with true. cbv iota.
  unfold getAttr_target_size. rewrite bind_bind, bind_gets. unfold plug_exists, exists_in.
  cbn [id scn nodes plug_node plug_attr]. rewrite Hty.
  change (has_attr "blendMatrix" "target") with true. cbv iota. rewrite bind_ret.
  fold count. destruct (count =? 0)%Z eqn:E.
  - apply Z.eqb_eq in E. rewrite E. reflexivity.
  - rewrite (bind_ok _ _ _ _ _ (weights_loop_run node j N P C sel cb sl j pr w
                                  (range count) Hty Hfree V)).
    reflexivity.
Qed.


Lemma append_assoc (a b c : string) : (a +:+ b) +:+ c = a +:+ b +:+ c.
Proof.
  induction a as [|x a IH]; [reflexivity|].
  change ((String x a +:+ b) +:+ c) with (String x ((a +:+ b) +:+ c)).
  change (String x a +:+ b +:+ c) with (String x (a +:+ b +:+ c)). now rewrite IH.
Qed.

Lemma suffix_eq (a b v1 v2 : string) :
  a +:+ v1 = b +:+ v2 -> String.length v1 = String.length v2 -> v1 = v2.
Proof.
  revert b. induction a as [|x a IH]; intros [|y b] H Hl.
  - exact H.
  - apply (f_equal String.length) in H. rewrite !UVSlidingProps.length_append in H.
    cbn in H. lia.
  - apply (f_equal String.length) in H. rewrite !UVSlidingProps.length_append in H.
    cbn in H. lia.
  - change (String x (a +:+ v1) = String y (b +:+ v2)) in H. injection H as _ H.
    now apply (IH b).
Qed.

(** Two target plugs that are equal have attributes that end alike. *)
Lemma target_attr_suffix (node node' : string) (k m : Z) (u1 v1 u2 v2 : string) :
  target_plug node k (u1 +:+ v1) = target_plug node' m (u2 +:+ v2) ->
  String.length v1 = String.length v2 -> v1 = v2.
Proof.
  unfold target_plug. intros H Hl. apply (f_equal plug_attr) in H. cbn [plug_attr] in H.
  rewrite <- !append_assoc in H. now apply suffix_eq in H.
Qed.

Lemma target_plug_inj (node : string) (k m : Z) (a : string) :
  target_plug node k a = target_plug node m a -> k = m.
Proof.
  unfold target_plug. intros H. apply (f_equal plug_attr) in H. cbn [plug_attr] in H.
  apply (String.app_inj "target[") in H. apply UVSlidingProps.append_inj_right in H.
  unfold Str.of_int in H. now apply (inj pretty) in H.
Qed.

Ltac attr_neq u1 v1 u2 v2 :=
  let E := fresh in
  intros E; apply (target_attr_suffix _ _ _ _ u1 v1 u2 v2) in E; [discriminate E|reflexivity].

Lemma weight_not_target (node node' : string) (k m : Z) (a : string) :
  a ∈ ["translateWeight"; "rotateWeight"; "scaleWeight"] ->
  target_plug node' m "targetMatrix" <> target_plug node k a.
Proof.
  rewrite !elem_of_cons. intros [->|[->|[->|H]]]; [| | |now apply elem_of_nil in H].
  - attr_neq "targetMatri" "x" "translateWeigh" "t".
  - attr_neq "targetMatri" "x" "rotateWeigh" "t".
  - attr_neq "targetMatri" "x" "scaleWeigh" "t".
Qed.

Lemma weights_lookup (node : string) (j : instance) (l : list Z) (V : gmap plug value)
    (k : Z) :
  k ∈ l ->
  foldl (set_target_weights node j) V l !! target_plug node k "translateWeight"
    = Some (VNum (weight_translate j)) /\
  foldl (set_target_weights node j) V l !! target_plug node k "rotateWeight"
    = Some (VNum (weight_rotate j)) /\
  foldl (set_target_weights node j) V l !! target_plug node k "scaleWeight"
    = Some (VNum (weight_scale j)).
Proof.
  induction l as [|m l IH] using rev_ind; intros Hk; [now apply elem_of_nil in Hk|].
  rewrite foldl_app. cbn [foldl]. unfold set_target_weights at 1 3 5.
  assert (Hcase : k = m \/ k ∈ l).
  { apply elem_of_app in Hk as [Hk|Hk]; [now right|].
    apply list_elem_of_singleton in Hk. now left. }
  repeat split.
  - rewrite lookup_insert_ne by attr_neq "s" "caleWeight" "trans" "lateWeight".
    rewrite lookup_insert_ne by attr_neq "ro" "tateWeight" "trans" "lateWeight".
    destruct Hcase as [->|Hin]; [apply lookup_insert_eq|].
    destruct (decide (target_plug node m "translateWeight"
                      = target_plug node k "translateWeight")) as [->|Hne];
      [apply lookup_insert_eq|].
    rewrite lookup_insert_ne by exact Hne. now apply IH.
  - rewrite lookup_insert_ne by attr_neq "s" "caleWeight" "ro" "tateWeight".
    destruct Hcase as [->|Hin]; [apply lookup_insert_eq|].
    destruct (decide (target_plug node m "rotateWeight"
                      = target_plug node k "rotateWeight")) as [->|Hne];
      [apply lookup_insert_eq|].
    rewrite lookup_insert_ne by exact Hne.
    rewrite lookup_insert_ne by attr_neq "trans" "lateWeight" "ro" "tateWeight".
    now apply IH.
  - destruct Hcase as [->|Hin]; [apply lookup_insert_eq|].
    destruct (decide (target_plug node m "scaleWeight"
                      = target_plug node k "scaleWeight")) as [->|Hne];
      [apply lookup_insert_eq|].
    rewrite lookup_insert_ne by exact Hne.
    rewrite lookup_insert_ne by attr_neq "ro" "tateWeight" "s" "caleWeight".
    rewrite lookup_insert_ne by attr_neq "trans" "lateWeight" "s" "caleWeight".
    now apply IH.
Qed.

Lemma elem_of_range (n k : Z) : (0 <= k < n)%Z -> k ∈ range n.
Proof.
  intros H. unfold range. apply list_elem_of_fmap. exists (Z.to_nat k).
  split; [lia|]. apply elem_of_seq. lia.
Qed.


(** *** The blendMatrix *)

Lemma target_dst_snoc (blend : string) (k : Z) (C : list (plug * plug)) (src : plug) :
  (forall j, (k - 1 <= j)%Z -> target_plug blend j "targetMatrix" ∉ snd <$> C) ->
  forall j, (k + 1 - 1 <= j)%Z ->
    target_plug blend j "targetMatrix"
      ∉ snd <$> (C ++ [(src, target_plug blend (k - 1) "targetMatrix")]).
Proof.
  intros H j Hj. apply not_dst_snoc; [apply H; lia|].
  cbn [snd]. intros E. apply target_plug_inj in E. lia.
Qed.

Lemma targets_loop_run (blend c : string) N P V sel cb sl i pr w (rest : list string) :
  blend ∉ fst <$> N ->
  (forall o, o ∈ rest -> exists_in N (Plug (mult_matrix_name c o) "matrixSum") = true) ->
  forall (k : Z) C,
    (forall j, (k - 1 <= j)%Z -> target_plug blend j "targetMatrix" ∉ snd <$> C) ->
    for_each (enumerate_from k (mult_matrix_name c <$> rest)) (fun e =>
      connectAttr (Plug (snd e) "matrixSum") (target_plug blend (fst e - 1) "targetMatrix"))
      (ST (N ++ [(blend, "blendMatrix")]) P C V sel cb sl i pr w)
    = (Ok tt, ST (N ++ [(blend, "blendMatrix")]) P
                (C ++ ((fun e => (Plug (mult_matrix_name c (snd e)) "matrixSum",
                                  target_plug blend (fst e - 1) "targetMatrix"))
                         <$> enumerate_from k rest)) V sel cb sl i pr w).
Proof.
  intros Hblend Hmult.
  assert (Hty : type_of blend (N ++ [(blend, "blendMatrix")]) = Some "blendMatrix").
  { rewrite type_of_app, (type_of_None _ _ Hblend). cbn. now rewrite String.eqb_refl. }
  induction rest as [|o rest IH]; intros k C Hfree.
  - cbn. now rewrite app_nil_r.
  - cbn [fmap list_fmap enumerate_from for_each fst snd].
    erewrite (bind_ok (connectAttr _ _)); cycle 1.
    { apply connectAttr_run.
      - apply exists_in_app_l, Hmult. left.
      - now apply target_plug_exists.
      - apply sources_of_nil, Hfree. lia. }
    rewrite IH.
    + now rewrite <- app_assoc.
    + intros o' Ho'. apply Hmult. now right.
    + now apply target_dst_snoc.
Qed.

Lemma targets_dst (blend c : string) (rest : list string) :
  forall (k : Z) (e : plug * plug),
    e ∈ (fun e => (Plug (mult_matrix_name c (snd e)) "matrixSum",
                   target_plug blend (fst e - 1) "targetMatrix"))
          <$> enumerate_from k rest ->
    exists j, (k - 1 <= j)%Z /\ snd e = target_plug blend j "targetMatrix".
Proof.
  induction rest as [|o rest IH]; intros k e He; [now apply elem_of_nil in He|].
  cbn [enumerate_from fmap list_fmap] in He. apply elem_of_cons in He as [->|He].
  - exists (k - 1)%Z. split; [lia|reflexivity].
  - destruct (IH (k + 1)%Z e He) as (j & Hj & E). exists j. split; [lia|exact E].
Qed.

Lemma targets_NoDup (blend c : string) (rest : list string) :
  forall k : Z,
    NoDup (snd <$> ((fun e => (Plug (mult_matrix_name c (snd e)) "matrixSum",
                               target_plug blend (fst e - 1) "targetMatrix"))
                      <$> enumerate_from k rest)).
Proof.
  induction rest as [|o rest IH]; intros k; [constructor|].
  cbn [enumerate_from fmap list_fmap fst snd]. apply NoDup_cons. split; [|apply IH].
  intros Hin. apply list_elem_of_fmap in Hin as (e & E & He).
  apply targets_dst in He as (j & Hj & E'). rewrite E' in E.
  apply target_plug_inj in E. lia.
Qed.

Lemma target_plug_node (blend : string) (k : Z) (a : string) :
  plug_node (target_plug blend k a) = blend.
Proof. reflexivity. Qed.

Lemma targets_lookup (blend c : string) (rest : list string) :
  forall (k : Z) (n : nat) (o : string),
    rest !! n = Some o ->
    sources_of (target_plug blend (k - 1 + Z.of_nat n) "targetMatrix")
      ((fun e => (Plug (mult_matrix_name c (snd e)) "matrixSum",
                  target_plug blend (fst e - 1) "targetMatrix"))
         <$> enumerate_from k rest)
    = [Plug (mult_matrix_name c o) "matrixSum"].
Proof.
  induction rest as [|o' rest IH]; intros k n o Hn; [discriminate|].
  cbn [enumerate_from fmap list_fmap fst snd]. rewrite sources_cons. cbn [fst snd].
  destruct n as [|n]; cbn in Hn.
  - injection Hn as ->. rewrite Z.add_0_r, decide_True by reflexivity.
    rewrite sources_of_nil; [reflexivity|].
    intros Hin. apply list_elem_of_fmap in Hin as (e & E & He).
    apply targets_dst in He as (j & Hj & E'). rewrite E' in E.
    apply target_plug_inj in E. lia.
  - rewrite decide_False by (intros E; apply target_plug_inj in E; lia).
    cbn [app]. replace (k - 1 + Z.of_nat (S n))%Z with (k + 1 - 1 + Z.of_nat n)%Z by lia.
    now apply IH.
Qed.

Lemma target_not_opm (blend c : string) (k : Z) (a : string) :
  target_plug blend k a <> Plug c "offsetParentMatrix".
Proof. unfold target_plug. intros E. apply (f_equal plug_attr) in E. discriminate E. Qed.

Lemma blend_weights_free (blend c o1 : string) (rest : list string)
    (N : list (string * string)) (C : list (plug * plug)) :
  (forall e, e ∈ C -> plug_node (snd e) ∈ fst <$> N) ->
  blend ∉ fst <$> N ->
  weights_free blend
    (undrive (Plug c "offsetParentMatrix") C
     ++ [(Plug (mult_matrix_name c o1) "matrixSum", Plug blend "inputMatrix")]
     ++ ((fun e => (Plug (mult_matrix_name c (snd e)) "matrixSum",
                    target_plug blend (fst e - 1) "targetMatrix"))
           <$> enumerate_from 1 rest)
     ++ [(Plug blend "outputMatrix", Plug c "offsetParentMatrix")]).
Proof.
  intros Hwf Hblend e k a He Ha E.
  rewrite !elem_of_app in He. destruct He as [He|[He|[He|He]]].
  - apply list_elem_of_filter in He as [_ He]. apply Hwf in He.
    rewrite E, target_plug_node in He. contradiction.
  - apply list_elem_of_singleton in He. subst e. cbn [snd] in E.
    apply (f_equal plug_attr) in E. discriminate E.
  - apply targets_dst in He as (j & _ & E'). rewrite E' in E.
    now apply weight_not_target in E.
  - apply list_elem_of_singleton in He. subst e. cbn [snd] in E.
    symmetry in E. now apply target_not_opm in E.
Qed.

Lemma create_blend_matrix_run (c o1 : string) (rest : list string)
    N P C V sel cb sl i pr w :
  (forall e, e ∈ C -> plug_node (snd e) ∈ fst <$> N) ->
  NoDup (snd <$> C) ->
  exists_in N (Plug c "offsetParentMatrix") = true ->
  ("blendMat_" +:+ c) ∉ fst <$> N ->
  (forall o, o ∈ o1 :: rest ->
     exists_in N (Plug (mult_matrix_name c o) "matrixSum") = true) ->
  exists V' j pr',
    create_blend_matrix (mult_matrix_name c <$> (o1 :: rest)) c
      (ST N P C V sel cb sl i pr w)
    = (Ok tt,
       ST (N ++ [("blendMat_" +:+ c, "blendMatrix")]) P
          (undrive (Plug c "offsetParentMatrix") C
           ++ [(Plug (mult_matrix_name c o1) "matrixSum",
                Plug ("blendMat_" +:+ c) "inputMatrix")]
           ++ ((fun e => (Plug (mult_matrix_name c (snd e)) "matrixSum",
                          target_plug ("blendMat_" +:+ c) (fst e - 1) "targetMatrix"))
                 <$> enumerate_from 1 rest)
           ++ [(Plug ("blendMat_" +:+ c) "outputMatrix", Plug c "offsetParentMatrix")])
          V' sel cb sl j pr' w) /\
    blend_matrix_node j = Some ("blendMat_" +:+ c).
Proof.
  intros Hwf Hnd Hc Hblend Hmult.
  set (blend := "blendMat_" +:+ c) in *.
  assert (Hfree : forall a, Plug blend a ∉ snd <$> C)
    by (intros a; apply (fresh_not_dst N); [exact Hwf|exact Hblend]).
  assert (Hty : type_of blend (N ++ [(blend, "blendMatrix")]) = Some "blendMatrix").
  { rewrite type_of_app, (type_of_None _ _ Hblend). cbn. now rewrite String.eqb_refl. }
  unfold create_blend_matrix. fold blend.
  rewrite (bind_ok _ _ _ _ _ (createNode_free _ _ _ _ _ _ _ _ _ _ _ _ Hblend)).
  rewrite bind_modify. unfold set_self.
  cbn [scn selection check_boxes sliders self prints warnings fmap list_fmap].
  change (getitem (mult_matrix_name c o1 :: (mult_matrix_name c <$> rest)) 0)
    with (@Ok string (mult_matrix_name c o1)).
  rewrite bind_lift_ok.
  erewrite (bind_ok (connectAttr _ _)); cycle 1.
  { apply connectAttr_run.
    - apply exists_in_app_l, Hmult. left.
    - now apply exists_in_new.
    - apply sources_of_nil, Hfree. }
  cbn [tail].
  erewrite (bind_ok (for_each _ _)); cycle 1.
  { apply targets_loop_run; [exact Hblend| |].
    - intros o Ho. apply Hmult. now right.
    - intros j _. apply not_dst_snoc; [apply Hfree|].
      cbn [snd]. intros E. apply (f_equal plug_attr) in E. discriminate E. }
  erewrite (bind_ok (disconnect_offset_parent_matrix _)); cycle 1.
  { apply disconnect_offset_parent_matrix_run; [now apply exists_in_app_l|].
    rewrite fmap_app. apply NoDup_app. split; [|split].
    - apply NoDup_dst_snoc; [exact Hnd|apply Hfree].
    - intros x Hx Hx'. apply list_elem_of_fmap in Hx' as (e & -> & He).
      apply targets_dst in He as (j & _ & E). rewrite E in Hx.
      revert Hx. apply not_dst_snoc; [apply Hfree|].
      cbn [snd]. intros E'. apply (f_equal plug_attr) in E'. discriminate E'.
    - apply targets_NoDup. }
  rewrite !undrive_app.
  rewrite (undrive_id _ [_]); cycle 1.
  { cbn. intros H. apply list_elem_of_singleton in H. discriminate H. }
  rewrite (undrive_id _ (_ <$> enumerate_from 1 rest)); cycle 1.
  { intros H. apply list_elem_of_fmap in H as (e & E & He).
    apply targets_dst in He as (j & _ & E'). rewrite E' in E.
    symmetry in E. now apply target_not_opm in E. }
  erewrite (bind_ok (connectAttr _ _)); cycle 1.
  { apply connectAttr_run.
    - now apply exists_in_new.
    - now apply exists_in_app_l.
    - rewrite !sources_app, sources_of_undrive. cbn [app].
      rewrite (sources_of_nil _ [_]); cycle 1.
      { cbn. intros H. apply list_elem_of_singleton in H. discriminate H. }
      apply sources_of_nil. intros H. apply list_elem_of_fmap in H as (e & E & He).
      apply targets_dst in He as (j & _ & E'). rewrite E' in E.
      symmetry in E. now apply target_not_opm in E. }
  rewrite <- !app_assoc.
  erewrite update_blend_matrix_weights_run; cycle 1.
  { reflexivity. }
  { reflexivity. }
  { exact Hty. }
  { apply (blend_weights_free blend c o1 rest N C Hwf Hblend). }
  do 3 eexists. split; [reflexivity|].
  unfold weights_from.
  destruct (sl !! "translateWeightSlider"), (sl !! "rotateWeightSlider"),
    (sl !! "scaleWeightSlider"); reflexivity.
Qed.


(** *** The whole constraint *)

Lemma offset_parent_run (c : string) (announce : bool) N P C V sel cb sl i pr w :
  c ∈ fst <$> N ->
  offset_parent c announce (ST N P C V sel cb sl i pr w)
  = match P !! c with
    | Some p => (Ok p, ST N P C V sel cb sl i pr w)
    | None =>
        let off := UVSliding.unique_name (fst <$> N) ("OFF_" +:+ c) in
        (Ok off,
         ST (N ++ [(off, "transform")]) (<[c := off]> P) C V [] cb sl i
            (pr ++ (if announce then [OffsetParentCreated] else [])) w)
    end.
Proof.
  intros Hc. unfold offset_parent, listRelatives_parent.
  rewrite bind_bind, bind_gets. unfold id, names. cbn [scn nodes parent_of].
  rewrite bool_decide_eq_true_2 by exact Hc. rewrite bind_ret.
  destruct (P !! c) as [p|]; [reflexivity|]. cbv zeta.
  unfold createNode. rewrite !bind_bind, bind_gets. cbv zeta. unfold id, names.
  cbn [scn nodes]. rewrite bind_bind, bind_modify, bind_ret. unfold set_scn, set_nodes.
  cbn [scn nodes parent_of conns vals selection check_boxes sliders self prints warnings].
  set (off := UVSliding.unique_name (fst <$> N) ("OFF_" +:+ c)).
  unfold matchTransform. rewrite bind_bind, bind_gets. unfold id, names.
  cbn [scn nodes].
  assert (Hoff : off ∈ fst <$> (N ++ [(off, "transform")])).
  { rewrite fmap_app. apply elem_of_app. right. apply list_elem_of_here. }
  assert (Hc' : c ∈ fst <$> (N ++ [(off, "transform")])).
  { rewrite fmap_app. apply elem_of_app. now left. }
  rewrite !bool_decide_eq_true_2 by assumption. cbn [andb]. rewrite bind_ret.
  unfold parent. rewrite bind_bind, bind_gets. unfold id, names. cbn [scn nodes].
  rewrite !bool_decide_eq_true_2 by assumption. cbn [andb]. rewrite bind_modify.
  unfold set_scn, set_parent_of.
  cbn [scn nodes parent_of conns vals selection check_boxes sliders self prints warnings].
  unfold select_clear. rewrite bind_modify. unfold set_selection.
  cbn [scn nodes parent_of conns vals selection check_boxes sliders self prints warnings].
  destruct announce.
  - unfold print. rewrite bind_modify. reflexivity.
  - rewrite bind_ret. now rewrite app_nil_r.
Qed.

Lemma new_names_created (use_hold : bool) (c : string) (drivers : list string)
    (o n : string) :
  o ∈ drivers -> n ∈ fst <$> new_nodes use_hold c o ->
  n ∈ fst <$> created_nodes use_hold c drivers.
Proof.
  intros Ho Hn. unfold created_nodes. rewrite fmap_app. apply elem_of_app. left.
  apply list_elem_of_fmap in Hn as (e & -> & He). apply list_elem_of_fmap.
  exists e. split; [reflexivity|]. apply list_elem_of_bind. eauto.
Qed.

Lemma blend_not_new (use_hold : bool) (c : string) (drivers : list string) :
  ("blendMat_" +:+ c) ∉ fst <$> (drivers ≫= new_nodes use_hold c).
Proof.
  intros H. apply list_elem_of_fmap in H as (e & E & He).
  apply list_elem_of_bind in He as (o & He & _).
  unfold new_nodes in He. destruct use_hold; cbn in He; rewrite !elem_of_cons in He;
    repeat (destruct He as [->|He]; [cbn in E; revert E; name_neq|]);
    now apply elem_of_nil in He.
Qed.

Lemma constraint_tail_run (use_hold : bool) (c p : string) (drivers : list string)
    (s0 : state) :
  drivers <> [] ->
  well_formed (scn s0) -> dag_object (scn s0) c -> dag_object (scn s0) p ->
  (forall o, o ∈ drivers -> dag_object (scn s0) o) ->
  NoDup drivers ->
  (forall n, n ∈ fst <$> created_nodes use_hold c drivers -> n ∉ names (scn s0)) ->
  exists s',
    (for_each drivers (fun obj =>
       if use_hold then create_with_hold_matrix obj c p
       else create_without_hold_matrix obj c p) ;;;
     if (1 <? len drivers)%Z
     then create_blend_matrix (mult_matrix_name c <$> drivers) c
     else ret tt)%py s0 = (Ok tt, s') /\
    nodes (scn s') = nodes (scn s0) ++ created_nodes use_hold c drivers /\
    conns (scn s') = constraint_conns use_hold c p drivers (conns (scn s0)).
Proof.
  intros Hne Hwf Hc Hp Hdag Hnd Hfresh.
  destruct (create_loop_run use_hold c p drivers s0 Hwf Hc Hp Hdag Hnd)
    as (Hrun & Hwf1 & Hmult & Hmono).
  { intros o n Ho Hn. apply Hfresh. now apply (new_names_created _ _ _ o). }
  rewrite (bind_ok _ _ _ _ _ Hrun).
  pose proof (loop_nodes use_hold c p drivers s0) as Hnodes.
  pose proof (loop_undriven use_hold c p drivers s0) as Hund.
  unfold created_nodes, constraint_conns.
  destruct drivers as [|o1 [|o2 rest]]; [contradiction| |].
  - change (1 <? len [o1])%Z with false. cbv iota.
    exists (foldl (after_create use_hold c p) s0 [o1]). split; [reflexivity|].
    rewrite app_nil_r. split; [exact Hnodes|].
    exact (loop_conns use_hold c p [] o1 s0).
  - assert (Hlen : (1 <? len (o1 :: o2 :: rest))%Z = true)
      by (apply Z.ltb_lt; unfold len; cbn [length]; lia).
    rewrite Hlen.
    assert (Hblend : ("blendMat_" +:+ c)
                       ∉ names (scn (foldl (after_create use_hold c p) s0
                                             (o1 :: o2 :: rest)))).
    { unfold names. rewrite Hnodes, fmap_app. intros H.
      apply elem_of_app in H as [H|H].
      - revert H. apply Hfresh. unfold created_nodes. rewrite Hlen, fmap_app.
        apply elem_of_app. right. apply list_elem_of_here.
      - revert H. apply blend_not_new. }
    assert (Hopm : plug_exists (Plug c "offsetParentMatrix")
                     (scn (foldl (after_create use_hold c p) s0 (o1 :: o2 :: rest)))
                   = true) by (apply Hmono, Hc).
    destruct Hwf1 as [Hwf1 Hnd1].
    remember (foldl (after_create use_hold c p) s0 (o1 :: o2 :: rest)) as s1 eqn:Es1.
    clear Es1 Hrun.
    destruct s1 as [[N1 P1 C1 V1] sel1 cb1 sl1 i1 pr1 w1].
    unfold plug_exists, names in *. cbn [scn nodes conns] in *.
    destruct (create_blend_matrix_run c o1 (o2 :: rest) N1 P1 C1 V1 sel1 cb1 sl1 i1 pr1 w1
                Hwf1 Hnd1 Hopm Hblend Hmult) as (V' & j & pr' & Hb & _).
    eexists. split; [exact Hb|]. cbn [scn nodes conns].
    rewrite Hnodes, Hund, <- !app_assoc. split; reflexivity.
Qed.


Lemma internals_dst_new (use_hold : bool) (c p : string) (drivers : list string)
    (e : plug * plug) :
  e ∈ drivers ≫= internal use_hold c p ->
  plug_node (snd e) ∈ fst <$> (drivers ≫= new_nodes use_hold c).
Proof.
  intros He. apply list_elem_of_bind in He as (o & He & Ho).
  apply internal_dst_new in He. apply list_elem_of_fmap in He as (x & -> & Hx).
  apply list_elem_of_fmap. exists x. split; [reflexivity|].
  apply list_elem_of_bind. eauto.
Qed.

Lemma internals_not_opm (use_hold : bool) (c p : string) (drivers : list string) :
  Plug c "offsetParentMatrix" ∉ snd <$> (drivers ≫= internal use_hold c p).
Proof.
  intros H. apply list_elem_of_fmap in H as (e & E & He).
  apply list_elem_of_bind in He as (o & He & _).
  apply (internal_not_opm use_hold c p o). rewrite E.
  apply list_elem_of_fmap. now exists e.
Qed.

Lemma internals_not_blend (use_hold : bool) (c p : string) (drivers : list string)
    (a : string) :
  Plug ("blendMat_" +:+ c) a ∉ snd <$> (drivers ≫= internal use_hold c p).
Proof.
  intros H. apply list_elem_of_fmap in H as (e & E & He).
  apply internals_dst_new in He. rewrite <- E in He. cbn [plug_node] in He.
  revert He. apply blend_not_new.
Qed.

(** What drives the plugs of the constraint, read off the connections. *)
Lemma constraint_sources (use_hold : bool) (c p : string) (N : list (string * string))
    (C : list (plug * plug)) :
  (forall e, e ∈ C -> plug_node (snd e) ∈ fst <$> N) ->
  (forall o, sources_of (Plug c "offsetParentMatrix")
               (constraint_conns use_hold c p [o] C)
             = [Plug (mult_matrix_name c o) "matrixSum"]) /\
  (forall o1 o2 rest,
     ("blendMat_" +:+ c) ∉ fst <$> N ->
     let conns' := constraint_conns use_hold c p (o1 :: o2 :: rest) C in
     sources_of (Plug ("blendMat_" +:+ c) "inputMatrix") conns'
       = [Plug (mult_matrix_name c o1) "matrixSum"] /\
     (forall k o, (o2 :: rest) !! k = Some o ->
        sources_of (target_plug ("blendMat_" +:+ c) (Z.of_nat k) "targetMatrix") conns'
          = [Plug (mult_matrix_name c o) "matrixSum"]) /\
     sources_of (Plug c "offsetParentMatrix") conns'
       = [Plug ("blendMat_" +:+ c) "outputMatrix"]).
Proof.
  intros Hwf. split.
  - intros o. unfold constraint_conns, blend_conns.
    rewrite !sources_app, sources_of_undrive.
    rewrite (sources_of_nil _ _ (internals_not_opm use_hold c p [o])).
    cbn [app]. apply sources_of_hit.
  - intros o1 o2 rest Hblend conns'.
    assert (Hfree : forall a, Plug ("blendMat_" +:+ c) a
                                ∉ snd <$> undrive (Plug c "offsetParentMatrix") C).
    { intros a. apply not_dst_undrive, (fresh_not_dst N); [exact Hwf|exact Hblend]. }
    unfold conns', constraint_conns, blend_conns.
    set (targets := (fun e => (Plug (mult_matrix_name c (snd e)) "matrixSum",
                               target_plug ("blendMat_" +:+ c) (fst e - 1) "targetMatrix"))
                      <$> enumerate_from 1 (o2 :: rest)).
    change (?x :: targets ++ ?l) with ([x] ++ targets ++ l).
    split; [|split].
    + rewrite !sources_app.
      rewrite (sources_of_nil _ _ (Hfree _)).
      rewrite (sources_of_nil _ _ (internals_not_blend use_hold c p _ _)).
      rewrite sources_of_hit.
      rewrite (sources_of_nil _ targets); cycle 1.
      { intros H. apply list_elem_of_fmap in H as (e & E & He).
        apply targets_dst in He as (j & _ & E'). rewrite E' in E.
        apply (f_equal plug_attr) in E. discriminate E. }
      rewrite (sources_of_nil _ [_]); [reflexivity|].
      cbn. intros H. apply list_elem_of_singleton in H. discriminate H.
    + intros k o Hk. rewrite !sources_app.
      rewrite (sources_of_nil (target_plug _ _ _) _ (Hfree _)).
      rewrite (sources_of_nil (target_plug _ _ _) _ (internals_not_blend use_hold c p _ _)).
      rewrite (sources_of_nil _ [_]); cycle 1.
      { cbn. intros H. apply list_elem_of_singleton in H.
        apply (f_equal plug_attr) in H. discriminate H. }
      pose proof (targets_lookup ("blendMat_" +:+ c) c (o2 :: rest) 1 k o Hk) as Ht.
      replace (1 - 1 + Z.of_nat k)%Z with (Z.of_nat k) in Ht by lia.
      fold targets in Ht. rewrite Ht.
      rewrite (sources_of_nil _ [_]); [reflexivity|].
      cbn. intros H. apply list_elem_of_singleton in H. now apply target_not_opm in H.
    + rewrite !sources_app, sources_of_undrive.
      rewrite (sources_of_nil _ _ (internals_not_opm use_hold c p _)).
      rewrite (sources_of_nil _ [_]); cycle 1.
      { cbn. intros H. apply list_elem_of_singleton in H. discriminate H. }
      rewrite (sources_of_nil _ targets); cycle 1.
      { intros H. apply list_elem_of_fmap in H as (e & E & He).
        apply targets_dst in He as (j & _ & E'). rewrite E' in E.
        symmetry in E. now apply target_not_opm in E. }
      apply sources_of_hit.
Qed.

(** The blendMatrix nodes among the nodes made. *)
Lemma created_blend_nodes (use_hold : bool) (c : string) (drivers : list string) :
  filter (fun e => snd e = "blendMatrix") (created_nodes use_hold c drivers)
  = if (1 <? len drivers)%Z then [("blendMat_" +:+ c, "blendMatrix")] else [].
Proof.
  unfold created_nodes. rewrite filter_app.
  assert (H : filter (fun e : string * string => snd e = "blendMatrix")
                (drivers ≫= new_nodes use_hold c) = []).
  { induction drivers as [|o drivers IH]; [reflexivity|].
    rewrite bind_cons, filter_app, IH, app_nil_r.
    unfold new_nodes. destruct use_hold; reflexivity. }
  rewrite H. now destruct (1 <? len drivers)%Z.
Qed.


(** *** The two builders *)

Lemma unique_name_shape (taken : list string) (name : string) :
  exists suffix, UVSliding.unique_name taken name = name +:+ suffix.
Proof.
  unfold UVSliding.unique_name. destruct (bool_decide (name ∈ taken)).
  - destruct (head _) as [n|] eqn:E; cbn [default].
    + apply head_Some_elem_of, list_elem_of_filter in E as [_ E].
      apply list_elem_of_fmap in E as (k & -> & _). eauto.
    + exists "". clear. induction name as [|a n IH]; [reflexivity|].
      change (String a n +:+ "") with (String a (n +:+ "")). now rewrite <- IH.
  - exists "". clear. induction name as [|a n IH]; [reflexivity|].
    change (String a n +:+ "") with (String a (n +:+ "")). now rewrite <- IH.
Qed.

Lemma offset_name_not_created (use_hold : bool) (c : string) (drivers : list string)
    (C : scene) (x : string) :
  offset_name C x ∉ fst <$> created_nodes use_hold c drivers.
Proof.
  unfold offset_name. destruct (unique_name_shape (names C) ("OFF_" +:+ x)) as (sfx & ->).
  intros H. apply list_elem_of_fmap in H as (e & E & He).
  unfold created_nodes in He. apply elem_of_app in He as [He|He].
  - apply list_elem_of_bind in He as (o & He & _). unfold new_nodes in He.
    apply elem_of_app in He as [He|He].
    + rewrite !elem_of_cons in He. destruct He as [->|[->|He]];
        [discriminate E|discriminate E|now apply elem_of_nil in He].
    + destruct use_hold; [|now apply elem_of_nil in He].
      apply list_elem_of_singleton in He as ->. discriminate E.
  - destruct (1 <? len drivers)%Z; [|now apply elem_of_nil in He].
    apply list_elem_of_singleton in He as ->. discriminate E.
Qed.

(** After the parent is found or made, the scene is ready for the nodes
    of the constraint. *)
Lemma offset_parent_ready (c : string) (announce use_hold : bool) (drivers : list string)
    (s : state) :
  well_formed (scn s) -> dag_object (scn s) c ->
  (forall o, o ∈ drivers -> dag_object (scn s) o) ->
  (forall p, parent_of (scn s) !! c = Some p -> dag_object (scn s) p) ->
  (forall n, n ∈ fst <$> created_nodes use_hold c drivers -> n ∉ names (scn s)) ->
  exists s0,
    offset_parent c announce s = (Ok (parent_used (scn s) c), s0) /\
    check_boxes s0 = check_boxes s /\
    nodes (scn s0) = nodes (scn s) ++ offset_nodes (scn s) c /\
    conns (scn s0) = conns (scn s) /\
    well_formed (scn s0) /\ dag_object (scn s0) c /\
    dag_object (scn s0) (parent_used (scn s) c) /\
    (forall o, o ∈ drivers -> dag_object (scn s0) o) /\
    (forall n, n ∈ fst <$> created_nodes use_hold c drivers -> n ∉ names (scn s0)).
Proof.
  destruct s as [[N P C V] sel cb sl i pr w]. cbn [scn nodes parent_of conns check_boxes].
  intros Hwf Hc Hdag Hpar Hfresh.
  assert (HcN : c ∈ fst <$> N).
  { destruct Hc as [H _]. apply exists_in_node in H. exact H. }
  rewrite (offset_parent_run c announce N P C V sel cb sl i pr w HcN).
  unfold parent_used, offset_nodes, offset_name, names. cbn [scn nodes parent_of conns].
  destruct (P !! c) as [p|] eqn:EP; cbn [default].
  - eexists. split; [reflexivity|]. cbn [scn nodes parent_of conns check_boxes].
    rewrite app_nil_r. split; [reflexivity|]. split; [reflexivity|].
    split; [reflexivity|]. split; [exact Hwf|]. split; [exact Hc|].
    split; [exact (Hpar p eq_refl)|]. split; [exact Hdag|exact Hfresh].
  - cbv zeta. set (off := UVSliding.unique_name (fst <$> N) ("OFF_" +:+ c)).
    assert (Hoff : off ∉ fst <$> N) by apply UVSlidingProps.unique_name_fresh.
    assert (Hup : forall x, dag_object (Build_scene N P C V) x ->
              dag_object (Build_scene (N ++ [(off, "transform")]) (<[c := off]> P) C V) x).
    { intros x (H1 & H2 & H3). unfold dag_object, plug_exists in *. cbn [nodes] in *.
      repeat split; now apply exists_in_app_l. }
    eexists. split; [reflexivity|]. cbn [scn nodes parent_of conns check_boxes].
    split; [reflexivity|]. split; [reflexivity|]. split; [reflexivity|].
    split; [|split; [|split; [|split]]].
    + destruct Hwf as [Hin Hnd]. split; [|exact Hnd]. cbn [conns nodes names].
      intros e He. unfold names. cbn [nodes]. rewrite fmap_app. apply elem_of_app. left.
      apply (Hin e He).
    + now apply Hup.
    + unfold dag_object, plug_exists. cbn [nodes].
      repeat split; apply exists_in_new; try exact Hoff; reflexivity.
    + intros o Ho. apply Hup, Hdag, Ho.
    + intros n Hn. unfold names. cbn [nodes]. rewrite fmap_app. cbn [fmap list_fmap fst].
      intros H. apply elem_of_app in H as [H|H].
      * now apply (Hfresh n Hn).
      * apply list_elem_of_singleton in H. subst n.
        revert Hn. apply (offset_name_not_created use_hold c drivers (Build_scene N P C V) c).
Qed.

Lemma checkBox_query_run (name : string) (b : bool) (s : state) :
  check_boxes s !! name = Some b -> checkBox_query name s = (Ok b, s).
Proof. intros H. unfold checkBox_query. rewrite bind_gets. unfold id. now rewrite H. Qed.

Lemma len_snoc_lt_2 (drivers : list string) (c : string) :
  drivers <> [] -> (len (drivers ++ [c]) <? 2)%Z = false.
Proof.
  intros H. apply Z.ltb_ge. unfold len. rewrite length_app.
  destruct drivers; [congruence|]. cbn [length]. lia.
Qed.

(** Both builders, from the search for the parent on. *)
Lemma builder_core (announce use_hold : bool) (s : state) (drivers : list string)
    (c : string) :
  drivers <> [] -> NoDup drivers ->
  well_formed (scn s) ->
  (forall x, x ∈ drivers ++ [c] -> dag_object (scn s) x) ->
  (forall p, parent_of (scn s) !! c = Some p -> dag_object (scn s) p) ->
  (forall n, n ∈ fst <$> created_nodes use_hold c drivers -> n ∉ names (scn s)) ->
  let blend := "blendMat_" +:+ c in
  let opm := Plug c "offsetParentMatrix" in
  let sum o := Plug (mult_matrix_name c o) "matrixSum" in
  exists s1 s',
    offset_parent c announce s = (Ok (parent_used (scn s) c), s1) /\
    check_boxes s1 = check_boxes s /\
    (for_each drivers (fun obj =>
       if use_hold then create_with_hold_matrix obj c (parent_used (scn s) c)
       else create_without_hold_matrix obj c (parent_used (scn s) c)) ;;;
     if (1 <? len drivers)%Z
     then create_blend_matrix (mult_matrix_name c <$> drivers) c
     else ret tt)%py s1 = (Ok tt, s') /\
    nodes (scn s')
      = nodes (scn s) ++ offset_nodes (scn s) c ++ created_nodes use_hold c drivers /\
    conns (scn s')
      = constraint_conns use_hold c (parent_used (scn s) c) drivers (conns (scn s)) /\
    filter (fun e => snd e = "blendMatrix") (nodes (scn s'))
      = filter (fun e => snd e = "blendMatrix") (nodes (scn s))
        ++ (if (1 <? len drivers)%Z then [(blend, "blendMatrix")] else []) /\
    match drivers with
    | [] => False
    | [o] => sources_of opm (conns (scn s')) = [sum o]
    | o1 :: rest =>
        sources_of (Plug blend "inputMatrix") (conns (scn s')) = [sum o1] /\
        (forall k o, rest !! k = Some o ->
           sources_of (target_plug blend (Z.of_nat k) "targetMatrix") (conns (scn s'))
           = [sum o]) /\
        sources_of opm (conns (scn s')) = [Plug blend "outputMatrix"]
    end.
Proof.
  intros Hne Hnd Hwf Hdag Hpar Hfresh blend opm sum.
  assert (Hc : dag_object (scn s) c).
  { apply Hdag, elem_of_app. right. now apply list_elem_of_singleton. }
  assert (Hdrv : forall o, o ∈ drivers -> dag_object (scn s) o).
  { intros o Ho. apply Hdag, elem_of_app. now left. }
  destruct (offset_parent_ready c announce use_hold drivers s Hwf Hc Hdrv Hpar Hfresh)
    as (s1 & Hoff & Hcb & HN1 & HC1 & Hwf1 & Hc1 & Hp1 & Hdrv1 & Hfresh1).
  destruct (constraint_tail_run use_hold c (parent_used (scn s) c) drivers s1
              Hne Hwf1 Hc1 Hp1 Hdrv1 Hnd Hfresh1) as (s' & Htail & HN & HC).
  exists s1, s'. split; [exact Hoff|]. split; [exact Hcb|]. split; [exact Htail|].
  rewrite HN, HC, HN1, HC1. rewrite <- app_assoc.
  split; [reflexivity|]. split; [reflexivity|]. split.
  - rewrite !filter_app, created_blend_nodes.
    replace (filter (fun e : string * string => snd e = "blendMatrix")
               (offset_nodes (scn s) c)) with (@nil (string * string)); [reflexivity|].
    unfold offset_nodes. now destruct (parent_of (scn s) !! c).
  - destruct Hwf as [Hin _].
    destruct (constraint_sources use_hold c (parent_used (scn s) c) (nodes (scn s))
                (conns (scn s)) Hin) as [Hone Hmany].
    destruct drivers as [|o1 [|o2 rest]]; [congruence|apply Hone|].
    apply Hmany. apply Hfresh. unfold created_nodes. rewrite fmap_app.
    apply elem_of_app. right.
    replace (1 <? len (o1 :: o2 :: rest))%Z with true
      by (symmetry; apply Z.ltb_lt; unfold len; cbn [length]; lia).
    apply list_elem_of_singleton. reflexivity.
Qed.



End MatrixConProps.

(** ** Failure paths across the tools *)

Module ErrorPathsProps.
Import Py PyFacts.




End ErrorPathsProps.
